(* ===== verification/_CoqProject ===== *)
-Q . S2P
Prelude.v
Prime.v
Bytes.v
Crypto.v
Transaction.v
Block.v
Sled.v
StateTree.v
StateTreeBits.v
StateTreeSpec.v
StateTreeProofs.v
StateTransfer.v
StateRecovery.v
Db.v
Mempool.v
MempoolConc.v
Consensus.v
Agreement.v
Producer.v
Batch.v
Sync.v
Credit.v
Wallet.v
Escrow.v
TokenFactory.v
Identity.v
Receipt.v
Ntp.v
Keys.v
Documents.v
Secrecy.v
Gossip.v
Api.v
Boot.v
Recovery.v
Startup.v
Text.v
Http.v
Events.v
Telemetry.v
Lifecycle.v
Replica.v
Node.v
P2p.v
Config.v
Circuit.v
Zkp.v
Demo.v
Poly.v
Gf256.v
Shamir.v
