(* ===== verification/Prelude.v ===== *)
(** * NOVA protocol: a verification development

    The repository is a payment chain in Rust: a library crate [protocol/]
    (transactions, blocks, an account state tree, a mempool, consensus, block
    production, synchronization, gossip, a payment protocol between devices, wallets,
    credit lines, identities, key recovery, zero-knowledge proofs of funds), a node
    binary [node/], contracts [contracts/] and client code.  This development models
    the Rust code as executable functions and proves what makes it correct.

    ** The system and the files

    A transaction is built, signed and verified; verified transactions wait in the
    mempool; the validator whose turn it is takes the best of them, executes them on
    the state tree, and assembles a signed block; votes of a quorum finalize it; the
    block is stored, its transactions leave the mempool, and other nodes replay it.

    - [Prelude]: outcomes of Rust code ([res], with [Panic]), methods on [&mut self]
      ([M]), 64-bit arithmetic, sums, tactics, generic lemmas.
    - [Bytes]: byte strings, integer encodings, hexadecimal text.
    - [Crypto]: the class [Crypto] of primitives (BLAKE3, SHA-256, Ed25519, bech32)
      with the documented behaviour the code relies on, and the functions of
      [crypto/hash.rs], [crypto/keys.rs] and [identity/nova_id.rs] above it.  A hash
      is a function into 32 bytes, so collisions exist; a statement about binding names
      the finite list [ms] of messages that the code hashes in it and says "or
      [collision ms]": the search [find_collision] finds two different ones with the same
      digest in that list.
    - [Transaction]: [transaction/types.rs], [builder.rs], [signing.rs],
      [verification.rs].
    - [Block]: [storage/block.rs], headers, hashes, the Merkle root.
    - [Sled]: the key-value store under [StateTree] and [NovaDB]: the class [Sled] of
      its operations, its laws, and an instance on finite maps.
    - [StateTree], [StateTreeBits], [StateTreeSpec], [StateTreeProofs]:
      [storage/state.rs], the sparse Merkle tree of depth 256 stored node by node.
      The specification is a finite map from keys to accounts and a recursive root;
      [tree_inv] says that a store represents a map.
    - [StateTransfer]: [apply_transfer] of [storage/state.rs] against a transfer on
      the finite map.  [StateRecovery]: the tree over a store whose writes fail.
    - [Db]: [storage/db.rs], five trees of the store and the chain height.
    - [Mempool]: [network/mempool.rs], the table, the ordered fee index and the
      sender counters.  [MempoolConc]: the same calls, one lock acquisition at a time,
      the length of the table shard by shard, in any number of threads.
    - [Consensus]: [network/consensus.rs], validator set, votes, finalization.
      [Agreement]: several engines, honest and faulty validators, votes in circulation.
    - [Producer]: [network/producer.rs] and [network/consensus_loop.rs] on the
      shared state of a node (tree, mempool, database, engine).  [Batch]: a batch of
      transactions from the mempool through one block to the accounts, in any order.
    - [Sync]: [network/sync.rs], the sync plan and the application of blocks.
    - [Credit]: [vault/credit.rs].
    - [Wallet]: [vault/token.rs], [vault/balance.rs], [vault/wallet.rs].
    - [Escrow], [TokenFactory]: [contracts/src/], the credit escrow and its disputes,
      the token factory.
    - [Identity]: the rest of [identity/nova_id.rs], [identity/did.rs].
    - [Receipt]: [transaction/receipt.rs].
    - [Ntp]: [ntp/], handshake, preparation, settlement and receipts of a payment.
    - [Keys]: the rest of [crypto/keys.rs] and [crypto/hash.rs], [crypto/signatures.rs].
    - [Documents]: the JSON forms of DID documents and receipts, the views of
      transactions, blocks and credit lines, error texts of the vault.
    - [Secrecy]: [crypto/encryption.rs], [crypto/pfs.rs].
    - [Gossip]: [network/gossip.rs]; [Flood] is a network of such nodes.  [P2p]: the
      service of the same file in front of libp2p, and the construction of its swarm.
    - [Api]: the handlers of [node/src/api.rs] and the codes of [network/rpc.rs].
    - [Boot]: the wiring of a node in [node/src/main.rs] and its first rounds.
    - [Recovery]: [put_block] of [storage/db.rs] write by write, and the node that is
      started after an interruption.
    - [Startup]: files, directories and keys: [init_node], [load_or_generate_keypair],
      the opening of the database and the URL parser of [node/src/main.rs],
      [node/src/cli.rs], on a model of the file system with faults.
    - [Text]: what people read and what is parsed back: amounts, networks, token
      identifiers and serialized identities.
    - [Http]: the routes of [node/src/api.rs], the JSON-RPC envelopes of both crates, the
      status command.
    - [Events]: the WebSocket stream of [node/src/api.rs], the metrics of
      [node/src/metrics.rs], the loop of a node that does not validate.
    - [Telemetry]: [node/src/logging.rs], the page of [/metrics].
    - [Lifecycle]: [run_node] as a whole over any number of sessions on one machine, the
      banner, and the dispatch of the subcommands in [main].
    - [Replica]: a node that produces and one that follows it by synchronization, under a
      driver written there, since nothing in the repository calls the engine of [Sync].
    - [Node]: [network/node.rs] and [storage/chain.rs].
    - [Config]: the constants of [protocol/src/config.rs] no other file declares.
    - [Prime], [Circuit], [Zkp]: [zkp/], [transaction/confidential.rs],
      [ntp/proof_request.rs]; the scalar field of BN254 with a primality certificate,
      the rank-1 constraints of the balance circuit, prover and verifier.
    - [Demo]: [protocol/examples/demo.rs], the library used from end to end.
    - [Poly], [Gf256], [Shamir]: [identity/recovery.rs]; polynomials over an abstract
      field, the table-driven field with 256 elements, splitting and recovery.

    ** How code becomes definitions

    A method on [&mut self] is a function from the object to an outcome and the
    object after the call, so what was written before an early return stays visible.
    [Ok] and [Err] are Rust's; [Panic] is a failed [expect], [assert!] or index, or
    integer overflow (a build with overflow checks; without them the same inputs wrap
    around).  Integers are [Z] with their bounds written out.  Clocks, random bytes
    and the serialized forms of accounts, transactions and blocks are arguments or
    class members with the round-trip law of the serializer.  Third-party code is a
    class of operations with a class of laws: [Crypto], [SecretKeys], [Base58],
    [X25519], [Aead], [Sled], [Groth16], [Libp2p], [Broadcast], [Prometheus], [Exposition],
    [Filters], [Axum], [JsonText], [JsonDoc], [Shards] and the codecs; every class has an
    instance on which the witnesses run.  A [HashMap] is a [gmap], a [BTreeMap] or
    [BTreeSet] a sorted list.  Where a [HashMap] is listed or serialized, its order is a
    parameter: the bytes of an account depend on the [map_order] of the node, [with_order]
    gives a second node another one, and theorems on two nodes ask for
    [all_order_free] accounts, of at most one commitment each, or conclude for the tree
    of one node alone.  No code under src/ adds a commitment to an account.  Handles on one store are modelled as such where it matters
    ([api_view] in [Boot]).  Locks do not appear, a
    method runs to its end; [MempoolConc] takes the calls of the mempool, which share
    their locks with every other thread, apart at their lock acquisitions.

    ** What the theorems show

    - The state tree is a finite map; its root depends on the accounts alone (and on the
      order of maps, for accounts with two commitments or more) and commits to them;
      proofs it makes verify and verified inclusion proofs are right.
      Exclusion proofs are not bound to the address they are checked for.
    - Transfers simulate transfers on the map, conserve the supply and change no
      third account.  Writes that stop half way spoil no other account and are healed by
      the next complete one; a transfer that stops half way can lose its amount.
    - Signing bytes without NUL in the texts, block hashes and Merkle roots are unambiguous
      (up to collisions among the messages hashed); built and signed transactions and new blocks pass verification,
      and verification accepts exactly what its rules say.  Acceptance does not expire,
      and what the signature leaves out anybody can change.
    - The mempool's three indices agree in every reachable state, limits hold, every
      outcome of [add] is described, selection is the best choice by fee density.
      Threads that add concurrently keep table and index together under every schedule;
      counters and duplicates can race, and the capacity is exceeded.
    - Proposers rotate fairly; a quorum of honest votes finalizes; with at most a third of
      the validators faulty all nodes whose decided blocks carry their own hash decide the
      same block hashes.  The hash field of a block is not checked, so one validator can
      replace its contents.
    - Block production is sound, and a produced block is accepted by every peer with
      the same accounts, which ends with the same root (accounts of at most one
      commitment, whatever the order of maps); application of blocks accepts
      exactly the linked, well-formed, replayable chains.  Failed rounds and rejected
      blocks leave executed transactions behind.  A batch whose senders can pay goes from
      the pool into one block as a whole, and its order makes no difference.
      A node that follows another converges to its blocks, accounts and root.
    - Stored blocks are found again by height, hash and transaction; the committed chain
      survives interruptions of every write, whose remains stay in the indices.
    - A payment submitted to a validating node reaches the chain and moves the money,
      and does so again each time it is submitted again;
      a developer node started on an empty database grows its chain round after round;
      a restarted validator commits to the root of no accounts.
    - Every JSON-RPC request gets a well-formed answer that a client of the protocol crate
      reads back from its text, within the limits on the length and the nesting of a body,
      and both interfaces serve the stored chain; paths reach their handlers,
      the status command prints the state of the node, subscribers get their events in
      order.
    - A key is generated once and loaded ever after; an initialized directory is run with
      its identity and genesis block; a validator keeps its key and grows one chain over
      all its sessions.
    - The demonstration runs to its end, and takes no fees.
    - Gossip delivers a message once per hop count and forwards it within its bounds; its
      cache is within capacity after a delivery, not after a broadcast;
      flooding ends on every topology; what the
      service publishes is decoded as it was, each kind on its topic.
    - The payment protocol: handshake, transaction, validation and receipt succeed
      together; a settlement is decided once; both ends of a key exchange can read each
      other.
    - Credit lines, escrows and disputes follow their life cycles within their limits;
      the books of wallets and of the token factory are the sums of their histories; the
      factory asks for a signature and checks none.
    - The balance circuit is satisfied exactly when the balance covers the amount, and the
      satisfying assignments are exactly those that open the commitment with a balance
      that exceeds the amount by the number their bits spell; since the
      commitment does not bind, proofs of funds can be forged.  Verifiers and parameters
      survive their byte forms, which ignore what follows them.
    - Identifiers, keys and documents survive their textual forms; hashing to the field
      is biased.
    - The constants agree with each other and with the defaults of the components.
    - Any threshold of shares recovers a secret, fewer say nothing about it; table
      multiplication is the multiplication of the field.

    ** Fuel and bounds

    The tree is walked over its fixed depth of 256 levels.  [merkle_loop] halves a
    list and is given its length as fuel.  [plan_loop] is given one unit per missing
    height, enough for every positive batch size; with batch size zero no fuel is
    enough, which is proved.  All other recursion is structural.

    ** Not modelled

    Sockets and signals (what they do in a session is an argument of it); the texts of
    JSON and Prometheus (serde, prometheus); path matching of axum and the broadcast channel
    of tokio (parameters with laws); the internals of BLAKE3, SHA-256, Ed25519, X25519,
    AES-GCM, Groth16, sled and libp2p (parameters with laws); the parsing of the command
    line (clap) and the records that are logged; two displays computed in floating point;
    getters that return a field; interleavings inside methods other than those of the
    mempool; the loop that would drive the swarm, which the repository does not have, and
    with it votes and blocks exchanged between nodes; clients in other languages. *)

From stdpp Require Export base tactics list gmap strings sorting fin_maps.
From Stdlib Require Export ZArith Lia.

#[global] Open Scope Z_scope.

(** ** Outcomes of Rust code

    [Ok]/[Err] are the constructors of [Result<A, E>]; [Panic] is a Rust panic
    (a failed [expect]/[unwrap]/[assert!], or integer overflow in a build with
    overflow checks). *)

Inductive res (E A : Type) : Type :=
| Ok (a : A)
| Err (e : E)
| Panic.

Arguments Ok {E A} a.
Arguments Err {E A} e.
Arguments Panic {E A}.

(** A method taking [&mut self]: it maps the object before the call to the
    outcome and the object after the call, whatever the outcome is, so that the
    mutations that precede an early return stay visible. *)

Definition M (S E A : Type) : Type := S -> res E A * S.

#[global] Instance M_ret {S E} : MRet (M S E) := fun A a s => (Ok a, s).

#[global] Instance M_bind {S E} : MBind (M S E) := fun A B k m s =>
  match m s with
  | (Ok a, s') => k a s'
  | (Err e, s') => (Err e, s')
  | (Panic, s') => (Panic, s')
  end.

Definition get {S E} : M S E S := fun s => (Ok s, s).
Definition put {S E} (s : S) : M S E unit := fun _ => (Ok tt, s).
Definition modify {S E} (f : S -> S) : M S E unit := fun s => (Ok tt, f s).
Definition throw {S E A} (e : E) : M S E A := fun s => (Err e, s).
Definition panic {S E A} : M S E A := fun s => (Panic, s).

(** [lift] runs a computation that does not touch the object. *)
Definition lift {S E A} (r : res E A) : M S E A := fun s => (r, s).

(** [zoom] runs a method of a field of the object. *)
Definition zoom {S T E A} (pr : S -> T) (up : T -> S -> S) (m : M T E A) : M S E A :=
  fun s => match m (pr s) with (r, t) => (r, up t s) end.

(** [map_err] is [Result::map_err], and the [From] conversion of [?]. *)
Definition map_err_res {E F A} (f : E -> F) (r : res E A) : res F A :=
  match r with Ok a => Ok a | Err e => Err (f e) | Panic => Panic end.

Definition map_err {S E F A} (f : E -> F) (m : M S E A) : M S F A :=
  fun s => match m s with (r, s') => (map_err_res f r, s') end.

(** [ok_or] is [Option::ok_or]; [expect] is [Option::expect]/[unwrap]. *)
Definition ok_or {E A} (o : option A) (e : E) : res E A :=
  match o with Some a => Ok a | None => Err e end.

Definition expect {E A} (o : option A) : res E A :=
  match o with Some a => Ok a | None => Panic end.

(** Code that returns a [Result] and mutates nothing: [?] is the bind of [res]. *)
#[global] Instance res_ret {E} : MRet (res E) := fun A a => Ok a.
#[global] Instance res_bind {E} : MBind (res E) := fun A B k r =>
  match r with Ok a => k a | Err e => Err e | Panic => Panic end.

(** [for x in l { body x }] *)
Fixpoint for_each {S E A} (l : list A) (body : A -> M S E unit) : M S E unit :=
  match l with
  | [] => mret tt
  | x :: l' => body x ≫= fun _ => for_each l' body
  end.

(** [let mut acc = b; for x in l { acc = body x acc }] *)
Fixpoint fold_each {S E A B} (l : list A) (body : A -> B -> M S E B) (b : B) : M S E B :=
  match l with
  | [] => mret b
  | x :: l' => body x b ≫= fun b' => fold_each l' body b'
  end.

Declare Scope nova_scope.
Delimit Scope nova_scope with nova.

(** [require b else e ; k]: the guard [if !b { return Err(e) }] before [k]. *)
Notation "'require' b 'else' e ; k" := (if b then k else throw e)
  (at level 100, b at level 0, e at level 0, k at level 200, right associativity,
   format "'require'  b  'else'  e ;  '//' k") : nova_scope.

(** [ensure b else e ; k]: the same guard in code that mutates nothing. *)
Notation "'ensure' b 'else' e ; k" := (if b then k else Err e)
  (at level 100, b at level 0, e at level 0, k at level 200, right associativity,
   format "'ensure'  b  'else'  e ;  '//' k") : nova_scope.

#[global] Open Scope nova_scope.


(** ** Machine integers

    An unsigned machine integer is a [Z] in range; [+]/[-] on them panic out of
    range, the [checked_], [saturating_] and [wrapping] forms are written out. *)

Definition U64_MAX : Z := 2 ^ 64 - 1.
Definition in_u64 (z : Z) : Prop := 0 <= z <= U64_MAX.

Definition checked_add (a b : Z) : option Z :=
  if a + b <=? U64_MAX then Some (a + b) else None.
Definition checked_sub (a b : Z) : option Z :=
  if b <=? a then Some (a - b) else None.
Definition saturating_sub (a b : Z) : Z := if b <=? a then a - b else 0.

Definition u64_add {S E} (a b : Z) : M S E Z := lift (expect (checked_add a b)).
Definition u64_sub {S E} (a b : Z) : M S E Z := lift (expect (checked_sub a b)).

(** ** Sums *)

Fixpoint sumZ {A} (f : A -> Z) (l : list A) : Z :=
  match l with [] => 0 | x :: l' => f x + sumZ f l' end.

Definition map_sumZ {K A} `{Countable K} (f : A -> Z) (m : gmap K A) : Z :=
  map_fold (fun _ a acc => f a + acc) 0 m.

(** ** Tactics *)

(** Splits a goal or hypothesis on every boolean test and [match], reflecting
    comparisons on [Z] and [nat] to propositions. *)
Ltac reflect_bools :=
  repeat match goal with
  | H : (_ && _)%bool = true |- _ => apply andb_true_iff in H as [? ?]
  | H : (_ && _)%bool = false |- _ => apply andb_false_iff in H
  | H : (_ || _)%bool = false |- _ => apply orb_false_iff in H as [? ?]
  | H : (_ || _)%bool = true |- _ => apply orb_true_iff in H
  | H : negb _ = true |- _ => apply negb_true_iff in H
  | H : negb _ = false |- _ => apply negb_false_iff in H
  | H : bool_decide _ = true |- _ => apply bool_decide_eq_true_1 in H
  | H : bool_decide _ = false |- _ => apply bool_decide_eq_false_1 in H
  | H : (_ <=? _) = true |- _ => apply Z.leb_le in H
  | H : (_ <=? _) = false |- _ => apply Z.leb_gt in H
  | H : (_ <? _) = true |- _ => apply Z.ltb_lt in H
  | H : (_ <? _) = false |- _ => apply Z.ltb_ge in H
  | H : (_ =? _) = true |- _ => apply Z.eqb_eq in H
  | H : (_ =? _) = false |- _ => apply Z.eqb_neq in H
  | H : (_ <=? _)%nat = true |- _ => apply Nat.leb_le in H
  | H : (_ <=? _)%nat = false |- _ => apply Nat.leb_gt in H
  | H : (_ <? _)%nat = true |- _ => apply Nat.ltb_lt in H
  | H : (_ <? _)%nat = false |- _ => apply Nat.ltb_ge in H
  end.

(** Unfolds the monad, so that a method applied to an object reduces to nested
    conditionals on it. *)
Ltac run :=
  unfold u64_add, u64_sub, lift, zoom, map_err, map_err_res, get, put, modify,
    throw, panic, ok_or, expect, checked_add, checked_sub in *;
  unfold mbind, mret, M_bind, M_ret, res_bind, res_ret in *; cbn in *.

Ltac branches := repeat (case_match; simplify_eq/=); reflect_bools.

(** ** Library lemmas shared by the components *)

Lemma saturating_sub_ge a b : b <= a -> saturating_sub a b = a - b.
Proof. intros Hle. unfold saturating_sub. by rewrite (proj2 (Z.leb_le _ _)). Qed.

Lemma sumZ_app {A} (f : A -> Z) l1 l2 : sumZ f (l1 ++ l2) = sumZ f l1 + sumZ f l2.
Proof. induction l1; simpl; lia. Qed.

Lemma sumZ_perm {A} (f : A -> Z) l1 l2 : l1 ≡ₚ l2 -> sumZ f l1 = sumZ f l2.
Proof. induction 1; simpl; lia. Qed.

Lemma sumZ_nonneg {A} (f : A -> Z) l : (forall x, x ∈ l -> 0 <= f x) -> 0 <= sumZ f l.
Proof.
  induction l as [|x l IH]; intros Hf; simpl; [lia|].
  pose proof (Hf x ltac:(left)). specialize (IH (fun y Hy => Hf y ltac:(by right))). lia.
Qed.

Section MapSum.
Context {K A : Type} `{Countable K} (f : A -> Z).

Lemma map_sumZ_empty : map_sumZ f (∅ : gmap K A) = 0.
Proof. apply map_fold_empty. Qed.

Lemma map_sumZ_insert_None (m : gmap K A) k v :
  m !! k = None -> map_sumZ f (<[k:=v]> m) = f v + map_sumZ f m.
Proof.
  intros Hk. unfold map_sumZ. rewrite map_fold_insert_L; [done| |done].
  intros; lia.
Qed.

Lemma map_sumZ_delete (m : gmap K A) k v :
  m !! k = Some v -> map_sumZ f m = f v + map_sumZ f (delete k m).
Proof.
  intros Hk. rewrite <- (insert_delete_id m k v Hk) at 1.
  rewrite map_sumZ_insert_None; [done|apply lookup_delete_eq].
Qed.

(** The sum after writing a cell is the old sum with the cell's value replaced. *)
Lemma map_sumZ_insert (m : gmap K A) k v :
  map_sumZ f (<[k:=v]> m) =
  map_sumZ f m + f v - match m !! k with Some w => f w | None => 0 end.
Proof.
  destruct (m !! k) as [w|] eqn:Hk.
  - rewrite (map_sumZ_delete m k w Hk), <- insert_delete_eq.
    rewrite map_sumZ_insert_None by apply lookup_delete_eq. lia.
  - rewrite map_sumZ_insert_None by done. lia.
Qed.

Lemma map_sumZ_nonneg (m : gmap K A) :
  (forall k v, m !! k = Some v -> 0 <= f v) -> 0 <= map_sumZ f m.
Proof.
  induction m as [|k v m Hk IH] using map_ind; intros Hf.
  - rewrite map_sumZ_empty. lia.
  - rewrite map_sumZ_insert_None by done.
    pose proof (Hf k v (lookup_insert_eq _ _ _)).
    enough (0 <= map_sumZ f m) by lia. apply IH. intros k' v' Hk'.
    apply (Hf k' v'). rewrite lookup_insert_ne; congruence.
Qed.

(** One cell is bounded by the sum of a map of non-negative cells. *)
Lemma map_sumZ_lookup_le (m : gmap K A) k v :
  (forall k v, m !! k = Some v -> 0 <= f v) ->
  m !! k = Some v -> f v <= map_sumZ f m.
Proof.
  intros Hf Hk. rewrite (map_sumZ_delete m k v Hk).
  enough (0 <= map_sumZ f (delete k m)) by lia.
  apply map_sumZ_nonneg. intros k' v' [_ ?]%lookup_delete_Some. eauto.
Qed.

(** Two distinct cells together are bounded by the sum. *)
Lemma map_sumZ_lookup2_le (m : gmap K A) k v k' v' :
  (forall k v, m !! k = Some v -> 0 <= f v) -> k <> k' ->
  m !! k = Some v -> m !! k' = Some v' -> f v + f v' <= map_sumZ f m.
Proof.
  intros Hf Hne Hk Hk'. rewrite (map_sumZ_delete m k v Hk).
  enough (f v' <= map_sumZ f (delete k m)) by lia.
  apply (map_sumZ_lookup_le _ k'); [|by rewrite lookup_delete_ne].
  intros ?? [_ ?]%lookup_delete_Some. eauto.
Qed.
End MapSum.

(** ** Automation *)

Create HintDb nova.
#[export] Hint Resolve sumZ_nonneg map_sumZ_nonneg : nova.
#[export] Hint Unfold in_u64 : nova.

(** Invariant preservation along [for_each]. *)
Lemma for_each_inv {S E A} (P : S -> Prop) (l : list A) (body : A -> M S E unit) :
  (forall x s, x ∈ l -> P s -> P (body x s).2) ->
  forall s, P s -> P (for_each l body s).2.
Proof.
  induction l as [|x l IH]; intros Hb s Hs; simpl; [done|].
  unfold mbind, M_bind. pose proof (Hb x s ltac:(left) Hs) as Hx.
  destruct (body x s) as [[[]|e|] s'] eqn:Hbody; simpl in *; try done.
  apply IH; [|done]. intros y t Hy. apply Hb. by right.
Qed.

(** ** [slice::sort_by_key]: the stable sort by an integer key *)

Section SortByKey.
Context {A : Type} (key : A -> Z).

Fixpoint insert_by_key (x : A) (l : list A) : list A :=
  match l with
  | [] => [x]
  | y :: l' => if key x <=? key y then x :: y :: l' else y :: insert_by_key x l'
  end.

Definition sort_by_key (l : list A) : list A := fold_right insert_by_key [] l.

Lemma insert_by_key_perm x l : insert_by_key x l ≡ₚ x :: l.
Proof.
  induction l as [|y l IH]; simpl; [done|]. case_match; [done|]. rewrite IH. by constructor.
Qed.

Lemma sort_by_key_perm l : sort_by_key l ≡ₚ l.
Proof. induction l as [|x l IH]; simpl; [done|]. by rewrite insert_by_key_perm, IH. Qed.

Lemma insert_by_key_sorted x l :
  StronglySorted (fun a b => key a <= key b) l ->
  StronglySorted (fun a b => key a <= key b) (insert_by_key x l).
Proof.
  induction 1 as [|y l Hs IH Hf]; simpl; [repeat constructor|].
  destruct (Z.leb_spec (key x) (key y)).
  - constructor; [by constructor|]. constructor; [done|].
    eapply Forall_impl; [exact Hf|]. simpl. lia.
  - constructor; [done|]. rewrite insert_by_key_perm. constructor; [lia|done].
Qed.

Lemma sort_by_key_sorted l : StronglySorted (fun a b => key a <= key b) (sort_by_key l).
Proof. induction l; simpl; [constructor|by apply insert_by_key_sorted]. Qed.
End SortByKey.

Lemma StronglySorted_app_le {A} (R : A -> A -> Prop) l1 l2 :
  StronglySorted R (l1 ++ l2) -> forall x y, x ∈ l1 -> y ∈ l2 -> R x y.
Proof.
  induction l1 as [|a l1 IH]; simpl; intros Hs x y Hx Hy; [by apply not_elem_of_nil in Hx|].
  inversion Hs as [|? ? Hs' Hf]; subst. apply elem_of_cons in Hx as [->|Hx]; [|by eapply IH].
  rewrite Forall_forall in Hf. apply Hf. apply elem_of_app. by right.
Qed.
