(* ===== verification/Prime.v ===== *)
(** * Primality certificates

    The balance circuit of [protocol/src/zkp/] computes in the scalar field of BN254, and
    what its boolean constraints mean depends on that modulus being prime.  This file
    proves it: Pocklington's criterion, and a chain of certificates down to numbers
    small enough for trial division. *)

From Stdlib Require Import ZArith Znumtheory Zpow_facts ZmodInv Lia List Bool.
Import ListNotations.

#[local] Open Scope Z_scope.

(** The order of the BN254 groups, the modulus of [ark_bn254::Fr]. *)
Definition FR_MODULUS : Z :=
  21888242871839275222246405745257275088548364400416034343698204186575808495617.

(** ** Prime divisors *)

Lemma prime_divisor n : 1 < n -> exists q, Z.prime q /\ (q | n).
Proof.
  induction n as [n IH] using (well_founded_induction (Z.lt_wf 0)). intros Hn.
  destruct (prime_dec n) as [Hp|Hp].
  - exists n. split; [now apply prime_alt|apply Z.divide_refl].
  - destruct (not_prime_divide n Hn Hp) as (m & Hm & Hd).
    destruct (IH m) as (q & Hq & Hqm); [lia..|]. exists q. split; [assumption|].
    now apply Z.divide_trans with m.
Qed.

Lemma composite_divisor n : 1 < n -> ~ Z.prime n -> exists q, Z.prime q /\ (q | n) /\ q * q <= n.
Proof.
  intros Hn Hp. rewrite prime_alt in Hp. destruct (not_prime_divide n Hn Hp) as (m & Hm & [k Hk]).
  assert (1 < k) by nia.
  destruct (Z.le_gt_cases m k) as [Hle|Hgt].
  - destruct (prime_divisor m) as (q & Hq & Hqm); [lia|]. exists q. split; [assumption|].
    assert (q <= m) by (apply Z.divide_pos_le; [lia|assumption]).
    assert (2 <= q) by now apply Z.prime_ge_2. split; [|nia].
    apply Z.divide_trans with m; [assumption|]. now exists k.
  - destruct (prime_divisor k) as (q & Hq & Hqk); [lia|]. exists q. split; [assumption|].
    assert (q <= k) by (apply Z.divide_pos_le; [lia|assumption]).
    assert (2 <= q) by now apply Z.prime_ge_2. split; [|nia].
    apply Z.divide_trans with k; [assumption|]. exists m. lia.
Qed.

Lemma prime_of_large_divisors n :
  1 < n -> (forall q, Z.prime q -> (q | n) -> n < q * q) -> Z.prime n.
Proof.
  intros Hn H. destruct (prime_dec n) as [Hp|Hp]; [now apply prime_alt|].
  rewrite <- prime_alt in Hp. destruct (composite_divisor n Hn Hp) as (q & Hq & Hd & Hle).
  specialize (H q Hq Hd). lia.
Qed.

(** ** Trial division, for small numbers *)

Definition trial (n : Z) : bool :=
  forallb (fun d => negb (n mod (Z.of_nat d + 2) =? 0)) (seq 0 (Z.to_nat (Z.sqrt n))).

Lemma trial_prime n : 1 < n -> trial n = true -> Z.prime n.
Proof.
  intros Hn Ht. apply prime_of_large_divisors; [assumption|]. intros q Hq Hd.
  pose proof (Z.prime_ge_2 q Hq). pose proof (Z.sqrt_spec n ltac:(lia)) as [_ Hs].
  destruct (Z.le_gt_cases q (Z.sqrt n + 1)) as [Hle|Hgt]; [exfalso|].
  2: { pose proof (Z.sqrt_nonneg n). unfold Z.succ in Hs.
       pose proof (Z.mul_le_mono_nonneg (Z.sqrt n + 1) q (Z.sqrt n + 1) q). lia. }
  unfold trial in Ht. rewrite forallb_forall in Ht. specialize (Ht (Z.to_nat (q - 2))).
  rewrite Z2Nat.id in Ht by lia. replace (q - 2 + 2) with q in Ht by lia.
  apply Z.mod_divide in Hd; [|lia]. rewrite Hd in Ht. discriminate Ht. apply in_seq. lia.
Qed.

(** ** Pocklington's criterion *)

(** Powers that are one modulo a divisor. *)
Lemma pow_mod_one a b q : 0 < q -> 0 <= b -> a mod q = 1 mod q -> a ^ b mod q = 1 mod q.
Proof.
  intros Hq Hb Ha. rewrite <- Z.mod_pow_l, Ha, Z.mod_pow_l, Z.pow_1_l by lia. reflexivity.
Qed.

(** A prime factor [f] of [n - 1] with its condition divides [q - 1] for every prime
    divisor [q] of [n]. *)
Lemma pocklington_factor n q f a :
  1 < n -> Z.prime q -> (q | n) -> Z.prime f -> (f | n - 1) ->
  a ^ (n - 1) mod n = 1 -> Z.gcd (a ^ ((n - 1) / f) - 1) n = 1 -> (f | q - 1).
Proof.
  intros Hn Hq Hqn Hf Hfn Ha Hg.
  pose proof (Z.prime_ge_2 q Hq) as Hq2. pose proof (Z.prime_ge_2 f Hf) as Hf2.
  destruct (Zdivide_dec f (q - 1)) as [|Hnd]; [assumption|exfalso].
  destruct Hqn as [c Hc]. set (m := (n - 1) / f) in *.
  assert (n - 1 = f * m) as Hm by (apply Z.div_exact; [lia|]; now apply Z.mod_divide; [lia|]).
  assert (0 <= m) by nia. clearbody m.
  assert (a ^ (n - 1) mod q = 1) as Haq.
  { rewrite <- (Z.mod_mod_divide (a ^ (n - 1)) n q), Ha by (now exists c). apply Z.mod_small. lia. }
  assert (a mod q <> 0) as Hz.
  { intros Hz. rewrite <- Z.mod_pow_l, Hz, Z.pow_0_l in Haq by lia. rewrite Z.mod_0_l in Haq; lia. }
  pose proof (Z.fermat_nz q a Hq Hz) as Hfer.
  assert (exists u t, 0 <= u /\ 0 <= t /\ f * u = 1 + (q - 1) * t) as (u & t & Hu & Ht & Hut).
  { assert (rel_prime f (q - 1)) as Hrp by (apply prime_rel_prime; [now apply prime_alt|assumption]).
    apply rel_prime_bezout in Hrp as [x y Hxy].
    exists (x mod (q - 1) + (q - 1)), ((f * (x mod (q - 1) + (q - 1)) - 1) / (q - 1)).
    assert (0 < q - 1).
    { destruct (Z.eq_dec q 2) as [->|]; lia. }
    pose proof (Z.mod_pos_bound x (q - 1) ltac:(lia)).
    assert ((f * (x mod (q - 1) + (q - 1)) - 1) mod (q - 1) = 0) as Hmod.
    { rewrite (Z.mod_eq x (q - 1)) by lia.
      replace (f * (x - (q - 1) * (x / (q - 1)) + (q - 1)) - 1)
        with ((f - y - f * (x / (q - 1))) * (q - 1)) by nia.
      apply Z.mod_mul. lia. }
    split; [lia|]. split; [apply Z.div_pos; nia|].
    apply (Z.div_exact _ (q - 1)) in Hmod; lia. }
  assert (a ^ m mod q = 1) as Hone.
  { transitivity (a ^ (m * (f * u)) mod q).
    - rewrite Hut. replace (m * (1 + (q - 1) * t)) with (m + (q - 1) * (t * m)) by ring.
      assert (0 <= t * m) by nia. assert (0 <= (q - 1) * (t * m)) by nia.
      rewrite Z.pow_add_r by lia. rewrite (Z.pow_mul_r a (q - 1)) by lia. rewrite Z.mul_mod by lia.
      rewrite (pow_mod_one (a ^ (q - 1)) (t * m) q), (Z.mod_small 1 q), Z.mul_1_r, Z.mod_mod; try lia.
      rewrite Hfer, Z.mod_small; lia.
    - replace (m * (f * u)) with ((n - 1) * u) by (rewrite Hm; ring).
      rewrite Z.pow_mul_r, (pow_mod_one (a ^ (n - 1)) u q); try lia; [apply Z.mod_small; lia|].
      rewrite Haq, Z.mod_small; lia. }
  assert ((q | a ^ m - 1)) as Hd1.
  { apply Z.mod_divide; [lia|]. rewrite Zminus_mod, Hone, (Z.mod_small 1 q) by lia. apply Z.mod_0_l. lia. }
  assert ((q | 1)) as Hd by (rewrite <- Hg; apply Z.gcd_greatest; [assumption|now exists c]).
  apply Z.divide_pos_le in Hd; lia.
Qed.

(** A certificate for [n]: a base [a] and two coprime primes, one of which may be left
    out as 1, whose product divides [n - 1] and exceeds the square root of [n].  The
    powers share their computation. *)
Definition pocklington_check (n f g a : Z) : bool :=
  let c := Zpow_mod a ((n - 1) / (f * g)) n in
  let bf := Zpow_mod c g n in
  let bg := Zpow_mod c f n in
  (1 <? n) && ((n - 1) mod (f * g) =? 0) && (Zpow_mod bf f n =? 1) &&
  (Z.gcd (bf - 1) n =? 1) && ((g =? 1) || (Z.gcd (bg - 1) n =? 1)) &&
  (g <? f) && (n <? (f * g) * (f * g)).

Lemma Zpow_mod_pow a m e n : n <> 0 -> 0 <= m -> 0 <= e ->
  Zpow_mod (Zpow_mod a m n) e n = a ^ (m * e) mod n.
Proof.
  intros Hn Hm He. rewrite !Zpow_mod_correct, Z.mod_pow_l, <- Z.pow_mul_r by assumption. reflexivity.
Qed.

Lemma gcd_mod_pred x n : Z.gcd (x mod n - 1) n = Z.gcd (x - 1) n.
Proof. now rewrite <- Z.gcd_mod_l, Zminus_mod_idemp_l, Z.gcd_mod_l. Qed.

Lemma pocklington n f g a :
  pocklington_check n f g a = true -> Z.prime f -> Z.prime g \/ g = 1 -> Z.prime n.
Proof.
  unfold pocklington_check. rewrite !andb_true_iff, orb_true_iff, !Z.ltb_lt, !Z.eqb_eq.
  intros [[[[[[Hn Hd] Ha] Hgf] Hgg] Hfg] Hlt] Hf Hg.
  pose proof (Z.prime_ge_2 f Hf) as Hf2.
  assert (1 <= g) as Hg1 by (destruct Hg as [Hg| ->]; [pose proof (Z.prime_ge_2 g Hg)|]; lia).
  assert (0 < f * g) as Hfg0 by nia. set (m := (n - 1) / (f * g)) in *.
  assert (n - 1 = f * g * m) as Hm by (apply Z.div_exact; lia).
  assert (0 <= m) by (apply Z.div_pos; lia). clearbody m. assert (0 <= m * g) by nia.
  rewrite Zpow_mod_pow in Hgf, Hgg by lia. rewrite (Zpow_mod_pow a m g) in Ha by lia.
  rewrite Zpow_mod_correct, Z.mod_pow_l, <- Z.pow_mul_r in Ha by lia.
  replace (m * g * f) with (n - 1) in Ha by (rewrite Hm; ring).
  rewrite gcd_mod_pred in Hgf, Hgg.
  assert ((n - 1) / f = m * g) as Ef by (rewrite Hm; replace (f * g * m) with (m * g * f) by ring; apply Z.div_mul; lia).
  assert ((n - 1) / g = m * f) as Eg by (rewrite Hm; replace (f * g * m) with (m * f * g) by ring; apply Z.div_mul; lia).
  apply prime_of_large_divisors; [assumption|]. intros q Hq Hqn. pose proof (Z.prime_ge_2 q Hq).
  assert ((f | q - 1)) as [x Hx].
  { apply (pocklington_factor n q f a); try assumption; [exists (g * m); lia|now rewrite Ef]. }
  assert ((g | x)) as [y Hy].
  { destruct Hg as [Hg| ->]; [|apply Z.divide_1_l].
    assert ((g | q - 1)) as Hdg.
    { pose proof (Z.prime_ge_2 g Hg). apply (pocklington_factor n q g a); try assumption.
      - exists (f * m). lia.
      - rewrite Eg. destruct Hgg as [?|?]; [lia|assumption]. }
    rewrite Hx, Z.mul_comm in Hdg. apply (Gauss g f x Hdg).
    apply rel_prime_sym, prime_rel_prime; [now apply prime_alt|].
    intros Hdf. apply Z.divide_pos_le in Hdf; lia. }
  assert (q - 1 = y * (f * g)) as Hqy by (rewrite Hx, Hy; ring). assert (0 < y) by nia.
  assert (f * g <= q - 1) by nia. nia.
Qed.

(** ** The field modulus *)

Ltac by_trial := apply trial_prime; [lia|vm_compute; reflexivity].

Lemma prime_853 : Z.prime 853. Proof. by_trial. Qed.
Lemma prime_1637 : Z.prime 1637. Proof. by_trial. Qed.
Lemma prime_661 : Z.prime 661. Proof. by_trial. Qed.
Lemma prime_93001 : Z.prime 93001. Proof. by_trial. Qed.

Ltac certify f g :=
  apply (pocklington _ f g 2); [vm_compute; reflexivity|auto with primes|first [now right|left; auto with primes]].

Create HintDb primes.
#[local] Hint Resolve prime_853 prime_1637 prime_661 prime_93001 : primes.

Lemma prime_639533339 : Z.prime 639533339.
Proof. certify 1637 853. Qed.
#[local] Hint Resolve prime_639533339 : primes.

Lemma prime_65865678001877903 : Z.prime 65865678001877903.
Proof. certify 639533339 1. Qed.
#[local] Hint Resolve prime_65865678001877903 : primes.

Lemma prime_13818364434197438864469338081 : Z.prime 13818364434197438864469338081.
Proof. certify 65865678001877903 1. Qed.
#[local] Hint Resolve prime_13818364434197438864469338081 : primes.

Lemma prime_12048837557 : Z.prime 12048837557.
Proof. certify 93001 661. Qed.
#[local] Hint Resolve prime_12048837557 : primes.

Lemma prime_5156902474397 : Z.prime 5156902474397.
Proof. certify 12048837557 1. Qed.
#[local] Hint Resolve prime_5156902474397 : primes.

Lemma prime_1670836401704629 : Z.prime 1670836401704629.
Proof. certify 5156902474397 1. Qed.
#[local] Hint Resolve prime_1670836401704629 : primes.

Lemma fr_modulus_prime : Z.prime FR_MODULUS.
Proof. certify 13818364434197438864469338081 1670836401704629. Qed.
