(* ===== verification/Bytes.v ===== *)
(** * Byte encodings

    Bytes are [Z] in [0, 256); byte vectors ([Vec<u8>], [&[u8]], [[u8; n]]) are
    lists of them.  This file holds the integer encodings of the Rust standard
    library the sources use ([to_le_bytes], [to_be_bytes], [from_be_bytes]), the
    bytes of a [String], the bytewise (lexicographic) order, and the lemmas on
    unambiguous concatenation shared by the hash preimages of the protocol. *)

From S2P Require Import Prelude.
From Stdlib Require Import Ascii.

Definition byte_ok (b : Z) : Prop := 0 <= b < 256.

(** [uN::to_le_bytes] for a width of [n] bytes. *)
Fixpoint le_bytes (n : nat) (z : Z) : list Z :=
  match n with
  | O => []
  | S n' => z mod 256 :: le_bytes n' (z / 256)
  end.

Fixpoint le_decode (l : list Z) : Z :=
  match l with
  | [] => 0
  | b :: l' => b + 256 * le_decode l'
  end.

(** [uN::to_be_bytes] and [uN::from_be_bytes]. *)
Definition be_bytes (n : nat) (z : Z) : list Z := reverse (le_bytes n z).
Definition be_decode (l : list Z) : Z := le_decode (reverse l).

(** [str::as_bytes]. *)
Fixpoint str_bytes (s : string) : list Z :=
  match s with
  | EmptyString => []
  | String a s' => Z.of_N (N_of_ascii a) :: str_bytes s'
  end.

(** The order of byte strings ([Ord for [u8]], the key order of a B-tree). *)
Fixpoint bytes_ltb (l k : list Z) : bool :=
  match l, k with
  | [], [] => false
  | [], _ :: _ => true
  | _ :: _, [] => false
  | a :: l', b :: k' => if a <? b then true else if a =? b then bytes_ltb l' k' else false
  end.

(** ** Fixed-width integers *)

Lemma length_le_bytes n z : length (le_bytes n z) = n.
Proof. revert z; induction n; simpl; auto. Qed.

Lemma length_be_bytes n z : length (be_bytes n z) = n.
Proof. unfold be_bytes. by rewrite length_reverse, length_le_bytes. Qed.

Lemma le_bytes_ok n z : Forall byte_ok (le_bytes n z).
Proof.
  revert z; induction n; intros z; simpl; constructor; auto.
  unfold byte_ok. apply Z.mod_pos_bound. lia.
Qed.

Lemma be_bytes_ok n z : Forall byte_ok (be_bytes n z).
Proof. unfold be_bytes. rewrite Forall_reverse. apply le_bytes_ok. Qed.

Lemma le_decode_le_bytes n z :
  0 <= z < 256 ^ Z.of_nat n -> le_decode (le_bytes n z) = z.
Proof.
  revert z; induction n as [|n IH]; intros z Hz; cbn [le_bytes le_decode].
  - change (256 ^ Z.of_nat 0) with 1 in Hz. lia.
  - rewrite Nat2Z.inj_succ, Z.pow_succ_r in Hz by lia.
    rewrite IH.
    + pose proof (Z.div_mod z 256). lia.
    + split; [apply Z.div_pos; lia|]. apply Z.div_lt_upper_bound; lia.
Qed.

Lemma le_bytes_le_decode l : Forall byte_ok l -> le_bytes (length l) (le_decode l) = l.
Proof.
  induction 1 as [|b l Hb Hl IH]; cbn [length le_bytes le_decode]; [done|]. unfold byte_ok in Hb.
  replace (b + 256 * le_decode l) with (le_decode l * 256 + b) by lia.
  rewrite Z.div_add_l, (Z.div_small b), Z.add_0_r, IH by lia.
  by rewrite Z.add_comm, Z.mod_add, Z.mod_small by lia.
Qed.

Lemma le_decode_bound l : Forall byte_ok l -> 0 <= le_decode l < 256 ^ Z.of_nat (length l).
Proof.
  induction 1 as [|b l Hb Hl IH]; cbn [length le_decode]; [done|]. unfold byte_ok in Hb.
  rewrite Nat2Z.inj_succ, Z.pow_succ_r by lia. lia.
Qed.

Lemma be_bytes_be_decode n l : length l = n -> Forall byte_ok l -> be_bytes n (be_decode l) = l.
Proof.
  intros <- Hl. unfold be_bytes, be_decode. rewrite <- length_reverse, le_bytes_le_decode by by apply Forall_reverse.
  apply reverse_involutive.
Qed.

Lemma be_decode_be_bytes n z :
  0 <= z < 256 ^ Z.of_nat n -> be_decode (be_bytes n z) = z.
Proof.
  intros Hz. unfold be_decode, be_bytes. rewrite reverse_involutive.
  by apply le_decode_le_bytes.
Qed.

Lemma le_bytes_inj n x y :
  0 <= x < 256 ^ Z.of_nat n -> 0 <= y < 256 ^ Z.of_nat n ->
  le_bytes n x = le_bytes n y -> x = y.
Proof.
  intros Hx Hy Heq. rewrite <- (le_decode_le_bytes n x), <- (le_decode_le_bytes n y) by done.
  by rewrite Heq.
Qed.

Lemma be_bytes_inj n x y :
  0 <= x < 256 ^ Z.of_nat n -> 0 <= y < 256 ^ Z.of_nat n ->
  be_bytes n x = be_bytes n y -> x = y.
Proof.
  intros Hx Hy Heq. apply (f_equal reverse) in Heq. unfold be_bytes in Heq.
  rewrite !reverse_involutive in Heq. by apply (le_bytes_inj n).
Qed.

(** ** Strings *)

Lemma str_bytes_inj s t : str_bytes s = str_bytes t -> s = t.
Proof.
  revert t; induction s as [|a s IH]; intros [|b t] Heq; simplify_eq/=; [done|].
  f_equal; [|by apply IH].
  rewrite <- (ascii_N_embedding a), <- (ascii_N_embedding b). f_equal. lia.
Qed.

Lemma str_bytes_ok s : Forall byte_ok (str_bytes s).
Proof.
  induction s as [|a s IH]; simpl; constructor; [|done].
  unfold byte_ok. pose proof (N_ascii_bounded a). lia.
Qed.

(** ** The byte order *)

Lemma bytes_ltb_irrefl l : bytes_ltb l l = false.
Proof. induction l; simpl; [done|]. by rewrite Z.ltb_irrefl, Z.eqb_refl. Qed.

Lemma bytes_ltb_app_eq p l k : bytes_ltb (p ++ l) (p ++ k) = bytes_ltb l k.
Proof. induction p; simpl; [done|]. by rewrite Z.ltb_irrefl, Z.eqb_refl. Qed.

Lemma bytes_ltb_app_lt p q l k :
  length p = length q -> p <> q -> bytes_ltb (p ++ l) (q ++ k) = bytes_ltb p q.
Proof.
  revert q; induction p as [|a p IH]; intros [|b q] Hlen Hne; simplify_eq/=.
  destruct (Z.ltb_spec a b), (Z.eqb_spec a b); try done.
  apply IH; [lia|]. congruence.
Qed.

Lemma be_bytes_S n z : be_bytes (S n) z = be_bytes n (z / 256) ++ [z mod 256].
Proof. unfold be_bytes. cbn [le_bytes]. apply reverse_cons. Qed.

(** Big-endian keys sort as the numbers they encode. *)
Lemma be_bytes_ltb n x y :
  0 <= x < 256 ^ Z.of_nat n -> 0 <= y < 256 ^ Z.of_nat n ->
  bytes_ltb (be_bytes n x) (be_bytes n y) = (x <? y).
Proof.
  revert x y; induction n as [|n IH]; intros x y Hx Hy.
  { change (256 ^ Z.of_nat 0) with 1 in *. symmetry. apply Z.ltb_ge. lia. }
  rewrite Nat2Z.inj_succ, Z.pow_succ_r in Hx, Hy by lia. rewrite !be_bytes_S.
  assert (forall z, 0 <= z < 256 * 256 ^ Z.of_nat n -> 0 <= z / 256 < 256 ^ Z.of_nat n) as Hdiv.
  { intros z Hz. split; [apply Z.div_pos; lia|apply Z.div_lt_upper_bound; lia]. }
  pose proof (Z.div_mod x 256 ltac:(lia)). pose proof (Z.div_mod y 256 ltac:(lia)).
  pose proof (Z.mod_pos_bound x 256 ltac:(lia)). pose proof (Z.mod_pos_bound y 256 ltac:(lia)).
  destruct (decide (x / 256 = y / 256)) as [Heq|Hne].
  - rewrite Heq, bytes_ltb_app_eq. cbn [bytes_ltb].
    destruct (Z.ltb_spec (x mod 256) (y mod 256)), (Z.ltb_spec x y);
      try destruct (Z.eqb_spec (x mod 256) (y mod 256)); try done; lia.
  - rewrite bytes_ltb_app_lt.
    + rewrite IH by auto. destruct (Z.ltb_spec (x / 256) (y / 256)), (Z.ltb_spec x y); lia.
    + by rewrite !length_be_bytes.
    + intros Heq%be_bytes_inj; auto.
Qed.

(** ** Unambiguous concatenation *)

(** A field that ends at the first separator. *)
Lemma app_sep_inj (x : Z) (l k r s : list Z) :
  x ∉ l -> x ∉ k -> l ++ x :: r = k ++ x :: s -> l = k /\ r = s.
Proof.
  revert k; induction l as [|a l IH]; intros [|b k] Hl Hk Heq; simplify_eq/=; try done;
    try (exfalso; set_solver).
  destruct (IH k) as [-> ->]; [set_solver..|done|done].
Qed.

Lemma app_zero_inj (l k r s : list Z) :
  0 ∉ l -> 0 ∉ k -> l ++ 0 :: r = k ++ 0 :: s -> l = k /\ r = s.
Proof. apply app_sep_inj. Qed.

Lemma str_bytes_app s t : str_bytes (s +:+ t) = str_bytes s ++ str_bytes t.
Proof. induction s as [|a s IH]; simpl; [done|]. f_equal. exact IH. Qed.

(** A fixed-width field in front. *)
Lemma app_fixed_inj (n : nat) (l k r s : list Z) :
  length l = n -> length k = n -> l ++ r = k ++ s -> l = k /\ r = s.
Proof. intros Hl Hk. apply app_inj_1. congruence. Qed.
