(* ===== verification/Crypto.v ===== *)
(** * Cryptographic interface and key types

    The hash functions, Ed25519, the hex and Bech32 codecs come from third-party
    crates: they are the operations of the class [Crypto], and [CryptoLaws] is
    the documented behaviour the protocol relies on (output widths, signatures
    made by a key verify under it, codecs invert each other on encoded values).
    The wrappers the repository itself defines are translated on top:
    [protocol/src/crypto/hash.rs], [protocol/src/crypto/keys.rs] and the address
    part of [protocol/src/identity/nova_id.rs].  [Toy] is a concrete
    instance that satisfies the laws; the witnesses of the theorems run on it. *)

From S2P Require Import Prelude Bytes.
From Stdlib Require Import Ascii.

Class Crypto := {
  blake3 : list Z -> list Z;
  sha2_256 : list Z -> list Z;
  SigningKey : Type;
  verifying_key : SigningKey -> list Z;
  dalek_sign : SigningKey -> list Z -> list Z;
  valid_point : list Z -> bool;
  dalek_verify : list Z -> list Z -> list Z -> bool;
  hex_encode : list Z -> string;
  hex_decode : string -> res string (list Z);
  bech32_encode : string -> list Z -> string;
  bech32_decode : string -> res string (string * list Z)
}.

Class CryptoLaws (C : Crypto) : Prop := {
  blake3_length : forall m, length (blake3 m) = 32%nat;
  blake3_bytes : forall m, Forall byte_ok (blake3 m);
  sha2_256_bytes : forall m, Forall byte_ok (sha2_256 m);
  verifying_key_length : forall k, length (verifying_key k) = 32%nat;
  verifying_key_bytes : forall k, Forall byte_ok (verifying_key k);
  verifying_key_valid : forall k, valid_point (verifying_key k) = true;
  dalek_sign_length : forall k m, length (dalek_sign k m) = 64%nat;
  dalek_sign_bytes : forall k m, Forall byte_ok (dalek_sign k m);
  dalek_sign_verify : forall k m, dalek_verify (verifying_key k) m (dalek_sign k m) = true;
  hex_roundtrip : forall l, Forall byte_ok l -> hex_decode (hex_encode l) = Ok l;
  bech32_roundtrip : forall hrp l, Forall byte_ok l -> length l = 32%nat -> hrp <> EmptyString ->
    bech32_decode (bech32_encode hrp l) = Ok (hrp, l)
}.

(** ** [crypto/hash.rs] *)

Section Wrappers.
Context {C : Crypto}.

Definition blake3_hash (data : list Z) : list Z := blake3 data.

Definition sha256 (data : list Z) : list Z := sha2_256 data.

Definition double_sha256 (data : list Z) : list Z := sha256 (sha256 data).

(** [blake3::Hasher] fed part by part hashes the concatenation. *)
Definition blake3_hash_multi (parts : list (list Z)) : list Z := blake3 (concat parts).

(** ** [crypto/keys.rs] *)

Record NovaPublicKey := mkPk { pk_bytes : list Z }.
Record NovaSignature := mkSig { sig_bytes : list Z }.
Record NovaKeypair := mkKeypair { kp_signing_key : SigningKey }.

Definition public_key (kp : NovaKeypair) : NovaPublicKey :=
  mkPk (verifying_key (kp_signing_key kp)).

Definition sign (kp : NovaKeypair) (message : list Z) : NovaSignature :=
  mkSig (dalek_sign (kp_signing_key kp) message).

Definition pk_verify (pk : NovaPublicKey) (message : list Z) (signature : NovaSignature) : bool :=
  if negb (valid_point (pk_bytes pk)) then false
  else if negb (bool_decide (length (sig_bytes signature) = 64%nat)) then false
  else dalek_verify (pk_bytes pk) message (sig_bytes signature).

Definition pk_to_hex (pk : NovaPublicKey) : string := hex_encode (pk_bytes pk).

Definition pk_from_hex (s : string) : res string NovaPublicKey :=
  match hex_decode s with
  | Err e => Err e
  | Panic => Panic
  | Ok bytes =>
      if bool_decide (length bytes = 32%nat) then Ok (mkPk bytes)
      else Err "Odd number of digits"%string
  end.

Definition sig_to_hex (s : NovaSignature) : string := hex_encode (sig_bytes s).

(** ** [identity/nova_id.rs], address derivation *)

Definition NOVA_HRP : string := "nova".

Record NovaId := mkNovaId {
  key_hash : list Z;
  nova_public_key : option NovaPublicKey
}.

Inductive NovaIdError :=
| Bech32Decode (msg : string)
| InvalidHrp (expected got : string)
| InvalidDataLength (expected got : nat)
| SignatureVerificationFailed
| NoPublicKey
| PublicKeyMismatch.

Definition from_public_key (pk : NovaPublicKey) : NovaId :=
  mkNovaId (blake3 (pk_bytes pk)) (Some pk).

Definition to_address (id : NovaId) : string := bech32_encode NOVA_HRP (key_hash id).

Definition from_address (addr : string) : res NovaIdError NovaId :=
  match bech32_decode addr with
  | Panic => Panic
  | Err e => Err (Bech32Decode e)
  | Ok (hrp, data) =>
      if negb (bool_decide (hrp = NOVA_HRP)) then Err (InvalidHrp NOVA_HRP hrp)
      else if negb (bool_decide (length data = 32%nat)) then
        Err (InvalidDataLength 32 (length data))
      else Ok (mkNovaId data None)
  end.
End Wrappers.

(** ** Collisions among given messages

    A hash function into 32 bytes has collisions, so "or two messages collide" says
    nothing.  The binding theorems name the finite list of messages that the code hashed
    for their inputs, and say that a search of that list finds the two. *)

Section Collisions.
Context (h : list Z -> list Z).

(** The first two different messages of the list with one digest. *)
Definition find_collision (ms : list (list Z)) : option (list Z * list Z) :=
  head (filter (fun p : list Z * list Z => p.1 <> p.2 /\ h p.1 = h p.2) (list_prod ms ms)).

Definition collides (ms : list (list Z)) : Prop := exists x y, find_collision ms = Some (x, y).

Lemma collides_iff ms : collides ms <-> exists x y, x ∈ ms /\ y ∈ ms /\ x <> y /\ h x = h y.
Proof.
  unfold collides, find_collision. set (l := filter _ _).
  assert (forall x y, (x, y) ∈ l <-> x ∈ ms /\ y ∈ ms /\ x <> y /\ h x = h y) as Hl.
  { intros x y. unfold l. rewrite list_elem_of_filter, list_elem_of_In, in_prod_iff, <- !list_elem_of_In. cbn. tauto. }
  split.
  - intros (x & y & Hh). exists x, y. apply Hl. destruct l as [|p l']; [done|]. injection Hh as ->. by left.
  - intros (x & y & Hin). apply Hl in Hin. destruct l as [|[a b] l']; [by apply not_elem_of_nil in Hin|by exists a, b].
Qed.

Lemma collides_intro x y ms : x ∈ ms -> y ∈ ms -> x <> y -> h x = h y -> collides ms.
Proof. intros. apply collides_iff. by exists x, y. Qed.

Lemma collides_mono ms ms' : ms ⊆ ms' -> collides ms -> collides ms'.
Proof. intros Hs (x & y & ? & ? & ? & ?)%collides_iff. apply (collides_intro x y); auto. Qed.

(** Two messages, given. *)
Lemma digest_inj x y ms : x ∈ ms -> y ∈ ms -> h x = h y -> x = y \/ collides ms.
Proof. intros. destruct (decide (x = y)); [by left|right]. by apply (collides_intro x y). Qed.

Lemma digests_inj l k : h <$> l = h <$> k -> l = k \/ collides (l ++ k).
Proof.
  revert k; induction l as [|x l IH]; intros [|y k] Heq; simplify_eq/=; [by left|].
  destruct (digest_inj x y (x :: l ++ y :: k)) as [->|]; [set_solver..| |by right].
  destruct (IH k) as [->|Hc]; [done|by left|right]. eapply collides_mono; [|exact Hc]. set_solver.
Qed.

Lemma digests_distinct l : NoDup l -> NoDup (h <$> l) \/ collides l.
Proof.
  induction 1 as [|x l Hx Hl [IH|Hc]]; cbn [fmap list_fmap]; [left; constructor| |].
  - destruct (decide (h x ∈ h <$> l)) as [(y & E & Hy)%list_elem_of_fmap|Hn].
    + right. apply (collides_intro x y); [set_solver..| |done]. by intros ->.
    + left. by constructor.
  - right. eapply collides_mono; [|exact Hc]. set_solver.
Qed.

Lemma collides_pair x y : collides [x; y] <-> x <> y /\ h x = h y.
Proof.
  rewrite collides_iff. split; [|intros [? ?]; exists x, y; set_solver].
  intros (a & b & Ha & Hb & Hne & Heq). rewrite !elem_of_cons, elem_of_nil in Ha, Hb.
  destruct Ha as [->|[->|[]]], Hb as [->|[->|[]]]; done.
Qed.
End Collisions.

Notation collision := (collides blake3).

(** ** Laws of the wrappers *)

Section WrapperLaws.
Context {C : Crypto} {L : CryptoLaws C}.

Lemma sign_then_verify kp m : pk_verify (public_key kp) m (sign kp m) = true.
Proof.
  unfold pk_verify, public_key, sign; simpl.
  by rewrite verifying_key_valid, dalek_sign_length, dalek_sign_verify.
Qed.

Lemma pk_hex_roundtrip kp : pk_from_hex (pk_to_hex (public_key kp)) = Ok (public_key kp).
Proof.
  unfold pk_from_hex, pk_to_hex, public_key; simpl.
  by rewrite hex_roundtrip, verifying_key_length by apply verifying_key_bytes.
Qed.

Lemma hex_encode_inj l k :
  Forall byte_ok l -> Forall byte_ok k -> hex_encode l = hex_encode k -> l = k.
Proof. intros Hl Hk Heq. apply hex_roundtrip in Hl, Hk. congruence. Qed.

Lemma address_roundtrip pk :
  from_address (to_address (from_public_key pk)) = Ok (mkNovaId (blake3 (pk_bytes pk)) None).
Proof.
  unfold from_address, to_address; simpl.
  by rewrite bech32_roundtrip, blake3_length
    by (try apply blake3_bytes; try apply blake3_length; done).
Qed.
End WrapperLaws.

(** ** A concrete instance *)

Module Toy.

(** A polynomial digest: not a secure hash, but it has the right shape and
    separates the small inputs of the witnesses. *)
Definition digest (m : list Z) : list Z :=
  replicate 28 0 ++ be_bytes 4 (fold_left (fun acc b => (acc * 257 + b + 1) mod 4294967291) m 7).

Definition nibble (z : Z) : ascii :=
  ascii_of_N (Z.to_N (if z <? 10 then 48 + z else 87 + z)).

Definition unnibble (a : ascii) : option Z :=
  let c := Z.of_N (N_of_ascii a) in
  if (48 <=? c) && (c <=? 57) then Some (c - 48)
  else if (97 <=? c) && (c <=? 102) then Some (c - 87) else None.

Fixpoint hex (l : list Z) : string :=
  match l with
  | [] => EmptyString
  | b :: l' => String (nibble (b / 16)) (String (nibble (b mod 16)) (hex l'))
  end.

Fixpoint unhex (s : string) : res string (list Z) :=
  match s with
  | EmptyString => Ok []
  | String _ EmptyString => Err "Odd number of digits"%string
  | String a (String b s') =>
      match unnibble a, unnibble b, unhex s' with
      | Some x, Some y, Ok l => Ok (16 * x + y :: l)
      | _, _, _ => Err "Invalid character"%string
      end
  end.

(** Splits a string at its first ['1']. *)
Fixpoint split1 (s : string) : option (string * string) :=
  match s with
  | EmptyString => None
  | String a s' =>
      if (a =? "1")%char then Some (EmptyString, s')
      else match split1 s' with Some (p, q) => Some (String a p, q) | None => None end
  end.

(** The human-readable part is hex-encoded with letters only ever before ['1']. *)
Fixpoint alpha (s : string) : string :=
  match s with
  | EmptyString => EmptyString
  | String a s' =>
      let c := Z.of_N (N_of_ascii a) in
      String (ascii_of_N (Z.to_N (97 + c / 16)))
        (String (ascii_of_N (Z.to_N (97 + c mod 16))) (alpha s'))
  end.

Fixpoint unalpha (s : string) : option string :=
  match s with
  | EmptyString => Some EmptyString
  | String _ EmptyString => None
  | String a (String b s') =>
      match unalpha s' with
      | Some r =>
          Some (String (ascii_of_N (Z.to_N
            (16 * (Z.of_N (N_of_ascii a) - 97) + (Z.of_N (N_of_ascii b) - 97)))) r)
      | None => None
      end
  end.

Definition b32_encode (hrp : string) (l : list Z) : string :=
  (alpha hrp ++ String "1" (hex l))%string.

Definition b32_decode (s : string) : res string (string * list Z) :=
  match split1 s with
  | Some (p, q) =>
      match unalpha p, unhex q with
      | Some hrp, Ok l => Ok (hrp, l)
      | _, _ => Err "invalid data"%string
      end
  | None => Err "missing separator"%string
  end.

Definition vk (k : Z) : list Z := be_bytes 32 k.

Definition toy_sign (k : Z) (m : list Z) : list Z :=
  digest (vk k ++ m) ++ digest (m ++ vk k).

Definition toy_verify (pk m s : list Z) : bool :=
  bool_decide (s = digest (pk ++ m) ++ digest (m ++ pk)).
End Toy.

Definition toy_crypto : Crypto := {|
  blake3 := Toy.digest;
  sha2_256 := Toy.digest;
  SigningKey := Z;
  verifying_key := Toy.vk;
  dalek_sign := Toy.toy_sign;
  valid_point := fun _ => true;
  dalek_verify := Toy.toy_verify;
  hex_encode := Toy.hex;
  hex_decode := Toy.unhex;
  bech32_encode := Toy.b32_encode;
  bech32_decode := Toy.b32_decode
|}.

Lemma toy_unnibble z : 0 <= z < 16 -> Toy.unnibble (Toy.nibble z) = Some z.
Proof.
  intros Hz. assert (z = 0 \/ z = 1 \/ z = 2 \/ z = 3 \/ z = 4 \/ z = 5 \/ z = 6 \/ z = 7 \/
    z = 8 \/ z = 9 \/ z = 10 \/ z = 11 \/ z = 12 \/ z = 13 \/ z = 14 \/ z = 15) as Hc by lia.
  repeat destruct Hc as [->|Hc]; subst; reflexivity.
Qed.

Lemma byte_nibbles b : byte_ok b -> 0 <= b / 16 < 16 /\ 0 <= b mod 16 < 16 /\
  16 * (b / 16) + b mod 16 = b.
Proof.
  unfold byte_ok. intros Hb. pose proof (Z.mod_pos_bound b 16). pose proof (Z.div_mod b 16).
  assert (0 <= b / 16) by (apply Z.div_pos; lia).
  assert (b / 16 < 16) by (apply Z.div_lt_upper_bound; lia). lia.
Qed.

Lemma toy_hex_roundtrip l : Forall byte_ok l -> Toy.unhex (Toy.hex l) = Ok l.
Proof.
  induction 1 as [|b l Hb Hl IH]; cbn [Toy.hex Toy.unhex]; [done|].
  apply byte_nibbles in Hb as (Hq & Hr & Hb).
  by rewrite !toy_unnibble, IH, Hb by done.
Qed.

Lemma toy_alpha_split hrp q : Toy.split1 (Toy.alpha hrp ++ String "1" q) = Some (Toy.alpha hrp, q).
Proof.
  induction hrp as [|a s IH]; [done|]. simpl.
  rewrite IH. assert (0 <= Z.of_N (N_of_ascii a) < 256) as Ha by (pose proof (N_ascii_bounded a); lia).
  apply byte_nibbles in Ha as (Hq & Hr & _).
  assert (forall z, 0 <= z < 16 -> (ascii_of_N (Z.to_N (97 + z)) =? "1")%char = false) as Hne.
  { intros z Hz. apply Ascii.eqb_neq. intros Heq. apply (f_equal N_of_ascii) in Heq.
    rewrite N_ascii_embedding in Heq by lia. simpl in Heq. lia. }
  by rewrite !Hne.
Qed.

Lemma toy_unalpha hrp : Toy.unalpha (Toy.alpha hrp) = Some hrp.
Proof.
  induction hrp as [|a s IH]; [done|]. cbn [Toy.alpha Toy.unalpha]. rewrite IH.
  assert (0 <= Z.of_N (N_of_ascii a) < 256) as Ha by (pose proof (N_ascii_bounded a); lia).
  apply byte_nibbles in Ha as (Hq & Hr & Heq).
  rewrite !N_ascii_embedding by lia. f_equal. f_equal.
  etrans; [|apply (ascii_N_embedding a)]. f_equal. lia.
Qed.

Lemma toy_digest_length m : length (Toy.digest m) = 32%nat.
Proof. unfold Toy.digest. by rewrite length_app, length_be_bytes. Qed.

Lemma toy_digest_bytes m : Forall byte_ok (Toy.digest m).
Proof.
  apply Forall_app. split; [|apply be_bytes_ok]. apply Forall_replicate. unfold byte_ok. lia.
Qed.

#[global] Instance toy_laws : CryptoLaws toy_crypto.
Proof.
  split; intros.
  - apply toy_digest_length.
  - apply toy_digest_bytes.
  - apply toy_digest_bytes.
  - apply length_be_bytes.
  - apply be_bytes_ok.
  - done.
  - cbn [dalek_sign toy_crypto]. unfold Toy.toy_sign. by rewrite length_app, !toy_digest_length.
  - apply Forall_app; split; apply toy_digest_bytes.
  - cbn [dalek_verify verifying_key dalek_sign toy_crypto]. unfold Toy.toy_verify.
    by apply bool_decide_eq_true_2.
  - by apply toy_hex_roundtrip.
  - cbn [bech32_decode bech32_encode toy_crypto]. unfold Toy.b32_decode, Toy.b32_encode.
    by rewrite toy_alpha_split, toy_unalpha, toy_hex_roundtrip.
Qed.
