(* ===== verification/Transaction.v ===== *)
(** * Transactions

    [protocol/src/transaction/]: the vocabulary of transactions ([types.rs]),
    their canonical byte format, identifier and builder ([builder.rs]), signing
    ([signing.rs]) and verification ([verification.rs]).

    JSON (the [serde_json] crate) and the Groth16 proof parser (arkworks) are
    operations of the class [TxCodec]; the clock is an argument. *)

From S2P Require Import Prelude Bytes Crypto.
From stdpp Require Import pretty.

#[local] Open Scope Z_scope.

(** ** [types.rs] *)

Inductive TransactionType :=
| Transfer | CreditRequest | CreditSettlement | TokenMint | TokenBurn | ConfidentialTransfer.

Definition display_tx_type (t : TransactionType) : string :=
  match t with
  | Transfer => "Transfer"
  | CreditRequest => "CreditRequest"
  | CreditSettlement => "CreditSettlement"
  | TokenMint => "TokenMint"
  | TokenBurn => "TokenBurn"
  | ConfidentialTransfer => "ConfidentialTransfer"
  end.

Inductive TransactionStatus := TxPending | TxConfirmed | TxFailed | TxExpired.

Inductive Currency := BRL | USD | EUR | BTC | ETH | USDC | NOVA | Custom (ticker : string).

Definition display_currency (c : Currency) : string :=
  match c with
  | BRL => "BRL" | USD => "USD" | EUR => "EUR" | BTC => "BTC" | ETH => "ETH"
  | USDC => "USDC" | NOVA => "NOVA" | Custom ticker => ticker
  end.

Definition decimals (c : Currency) : Z :=
  match c with
  | BRL | USD | EUR => 2
  | BTC | NOVA => 8
  | ETH => 9
  | USDC => 6
  | Custom _ => 8
  end.

Record Amount := mkAmount { value : Z; currency : Currency }.

Definition is_zero (a : Amount) : bool := value a =? 0.

#[global] Instance TransactionType_eq_dec : EqDecision TransactionType.
Proof. solve_decision. Defined.
#[global] Instance TransactionStatus_eq_dec : EqDecision TransactionStatus.
Proof. solve_decision. Defined.
#[global] Instance Currency_eq_dec : EqDecision Currency.
Proof. solve_decision. Defined.
#[global] Instance Amount_eq_dec : EqDecision Amount.
Proof. solve_decision. Defined.

(** ** [builder.rs] *)

Record Transaction := mkTx {
  tx_id : string;
  tx_version : Z;
  tx_type : TransactionType;
  tx_sender : string;
  tx_receiver : string;
  tx_amount : Amount;
  tx_fee : Z;
  tx_nonce : Z;
  tx_timestamp : Z;
  tx_payload : option (list Z);
  tx_sender_public_key : option string;
  tx_signature : option string;
  tx_zkp_proof : option (list Z);
  tx_proof : option (list Z);
  tx_amount_commitment : option (list Z)
}.

#[global] Instance Transaction_eq_dec : EqDecision Transaction.
Proof. solve_decision. Defined.

Class TxCodec := {
  json_tx : Transaction -> option (list Z);
  groth16_decode : list Z -> res string unit
}.

Definition signable_bytes (tx : Transaction) : list Z :=
  le_bytes 2 (tx_version tx) ++
  str_bytes (display_tx_type (tx_type tx)) ++ [0] ++
  str_bytes (tx_sender tx) ++ [0] ++
  str_bytes (tx_receiver tx) ++ [0] ++
  le_bytes 8 (value (tx_amount tx)) ++
  str_bytes (display_currency (currency (tx_amount tx))) ++ [0] ++
  le_bytes 8 (tx_fee tx) ++
  le_bytes 8 (tx_nonce tx) ++
  le_bytes 8 (tx_timestamp tx) ++
  match tx_payload tx with
  | Some payload => [1] ++ le_bytes 4 (Z.of_nat (length payload)) ++ payload
  | None => [0]
  end.

Definition tagged (tag : Z) (o : option (list Z)) : list Z :=
  match o with
  | Some b => [tag] ++ le_bytes 4 (Z.of_nat (length b)) ++ b
  | None => []
  end.

Section Builder.
Context {C : Crypto} {T : TxCodec}.

Definition compute_id (tx : Transaction) : string :=
  hex_encode (double_sha256
    (signable_bytes tx ++ tagged 2 (tx_proof tx) ++ tagged 3 (tx_amount_commitment tx))).

Definition size_bytes (tx : Transaction) : Z :=
  match json_tx tx with Some v => Z.of_nat (length v) | None => 0 end.

Definition fee_per_byte (tx : Transaction) : Z :=
  let size := size_bytes tx in
  if size =? 0 then 0 else tx_fee tx / size.

Definition is_signed (tx : Transaction) : bool := bool_decide (is_Some (tx_signature tx)).
Definition is_shielded (tx : Transaction) : bool := bool_decide (is_Some (tx_zkp_proof tx)).
Definition has_proof (tx : Transaction) : bool := bool_decide (is_Some (tx_proof tx)).
Definition has_commitment (tx : Transaction) : bool := bool_decide (is_Some (tx_amount_commitment tx)).

Definition set_id (tx : Transaction) (i : string) : Transaction :=
  mkTx i (tx_version tx) (tx_type tx) (tx_sender tx) (tx_receiver tx) (tx_amount tx)
    (tx_fee tx) (tx_nonce tx) (tx_timestamp tx) (tx_payload tx) (tx_sender_public_key tx)
    (tx_signature tx) (tx_zkp_proof tx) (tx_proof tx) (tx_amount_commitment tx).

Definition with_proof (proof : list Z) (tx : Transaction) : Transaction :=
  let tx' := mkTx (tx_id tx) (tx_version tx) (tx_type tx) (tx_sender tx) (tx_receiver tx)
    (tx_amount tx) (tx_fee tx) (tx_nonce tx) (tx_timestamp tx) (tx_payload tx)
    (tx_sender_public_key tx) (tx_signature tx) (tx_zkp_proof tx) (Some proof)
    (tx_amount_commitment tx) in
  set_id tx' (compute_id tx').

Definition with_commitment (commitment : list Z) (tx : Transaction) : Transaction :=
  let tx' := mkTx (tx_id tx) (tx_version tx) (tx_type tx) (tx_sender tx) (tx_receiver tx)
    (tx_amount tx) (tx_fee tx) (tx_nonce tx) (tx_timestamp tx) (tx_payload tx)
    (tx_sender_public_key tx) (tx_signature tx) (tx_zkp_proof tx) (tx_proof tx)
    (Some commitment) in
  set_id tx' (compute_id tx').

(** The builder; [b_timestamp = None] takes the clock at build time. *)
Record TransactionBuilder := mkBuilder {
  b_version : Z;
  b_tx_type : TransactionType;
  b_sender : string;
  b_receiver : string;
  b_amount : Amount;
  b_fee : Z;
  b_nonce : Z;
  b_timestamp : option Z;
  b_payload : option (list Z)
}.

Definition builder_new (t : TransactionType) : TransactionBuilder :=
  mkBuilder 1 t "" "" (mkAmount 0 NOVA) 0 0 None None.

(** The chained setters of the builder. *)
Definition with_version (x : Z) (b : TransactionBuilder) : TransactionBuilder :=
  mkBuilder x (b_tx_type b) (b_sender b) (b_receiver b) (b_amount b) (b_fee b) (b_nonce b) (b_timestamp b) (b_payload b).
Definition with_sender (x : string) (b : TransactionBuilder) : TransactionBuilder :=
  mkBuilder (b_version b) (b_tx_type b) x (b_receiver b) (b_amount b) (b_fee b) (b_nonce b) (b_timestamp b) (b_payload b).
Definition with_receiver (x : string) (b : TransactionBuilder) : TransactionBuilder :=
  mkBuilder (b_version b) (b_tx_type b) (b_sender b) x (b_amount b) (b_fee b) (b_nonce b) (b_timestamp b) (b_payload b).
Definition with_amount (x : Amount) (b : TransactionBuilder) : TransactionBuilder :=
  mkBuilder (b_version b) (b_tx_type b) (b_sender b) (b_receiver b) x (b_fee b) (b_nonce b) (b_timestamp b) (b_payload b).
Definition with_fee (x : Z) (b : TransactionBuilder) : TransactionBuilder :=
  mkBuilder (b_version b) (b_tx_type b) (b_sender b) (b_receiver b) (b_amount b) x (b_nonce b) (b_timestamp b) (b_payload b).
Definition with_nonce (x : Z) (b : TransactionBuilder) : TransactionBuilder :=
  mkBuilder (b_version b) (b_tx_type b) (b_sender b) (b_receiver b) (b_amount b) (b_fee b) x (b_timestamp b) (b_payload b).
Definition with_timestamp (x : Z) (b : TransactionBuilder) : TransactionBuilder :=
  mkBuilder (b_version b) (b_tx_type b) (b_sender b) (b_receiver b) (b_amount b) (b_fee b) (b_nonce b) (Some x) (b_payload b).
Definition with_payload (x : list Z) (b : TransactionBuilder) : TransactionBuilder :=
  mkBuilder (b_version b) (b_tx_type b) (b_sender b) (b_receiver b) (b_amount b) (b_fee b) (b_nonce b) (b_timestamp b) (Some x).

Definition build (now_ms : Z) (b : TransactionBuilder) : Transaction :=
  let timestamp := default now_ms (b_timestamp b) in
  let tx := mkTx "" (b_version b) (b_tx_type b) (b_sender b) (b_receiver b) (b_amount b)
    (b_fee b) (b_nonce b) timestamp (b_payload b) None None None None None in
  set_id tx (compute_id tx).

(** ** [signing.rs] *)

Definition sign_transaction (kp : NovaKeypair) (tx : Transaction) : Transaction :=
  let signable := signable_bytes tx in
  let signature := sign kp signable in
  mkTx (tx_id tx) (tx_version tx) (tx_type tx) (tx_sender tx) (tx_receiver tx) (tx_amount tx)
    (tx_fee tx) (tx_nonce tx) (tx_timestamp tx) (tx_payload tx)
    (Some (pk_to_hex (public_key kp))) (Some (sig_to_hex signature))
    (tx_zkp_proof tx) (tx_proof tx) (tx_amount_commitment tx).

(** ** [verification.rs] *)

Inductive TransactionError :=
| IdMismatch (expected actual : string)
| MissingSignature
| MalformedSignature (reason : string)
| InvalidSignature (sender : string)
| InvalidSenderAddress (address : string)
| InvalidNonce (nonce : Z)
| ZeroAmount
| SelfTransfer (address : string)
| TimestampTooFarInFuture (timestamp_ms delta_secs max_secs : Z)
| MissingProof
| MissingCommitment
| InvalidProof (reason : string).

Definition MAX_FUTURE_SECONDS : Z := 300.

(** [x as i64] and subtraction on [i64]. *)
Definition as_i64 (z : Z) : Z := if z <? 2 ^ 63 then z else z - 2 ^ 64.
Definition i64_sub {E} (a b : Z) : res E Z :=
  if (- 2 ^ 63 <=? a - b) && (a - b <? 2 ^ 63) then Ok (a - b) else Panic.

Definition check_timestamp (now_ms : Z) (tx : Transaction) : res TransactionError unit :=
  max_future_ms ← expect (checked_add now_ms (MAX_FUTURE_SECONDS * 1000));
  if max_future_ms <? tx_timestamp tx then
    delta ← i64_sub (as_i64 (tx_timestamp tx)) (as_i64 now_ms);
    Err (TimestampTooFarInFuture (tx_timestamp tx) (Z.quot delta 1000) MAX_FUTURE_SECONDS)
  else Ok tt.

Definition verify_transaction (now_ms : Z) (tx : Transaction) : res TransactionError unit :=
  ensure (negb (tx_nonce tx =? 0)) else (InvalidNonce (tx_nonce tx));
  ensure (negb (value (tx_amount tx) =? 0)) else ZeroAmount;
  ensure (negb (bool_decide (tx_sender tx = tx_receiver tx))) else (SelfTransfer (tx_sender tx));
  _ ← check_timestamp now_ms tx;
  let expected_id := compute_id tx in
  ensure (bool_decide (tx_id tx = expected_id)) else (IdMismatch expected_id (tx_id tx));
  sig_hex ← ok_or (tx_signature tx) MissingSignature;
  sig_bytes ← map_err_res (fun e => MalformedSignature ("hex decode failed: " +:+ e)) (hex_decode sig_hex);
  ensure (bool_decide (length sig_bytes = 64%nat))
    else (MalformedSignature ("expected 64 bytes, got " +:+ pretty (length sig_bytes)));
  let signature := mkSig sig_bytes in
  _ ← map_err_res (fun _ => InvalidSenderAddress (tx_sender tx)) (from_address (tx_sender tx));
  sender_pk_hex ← ok_or (tx_sender_public_key tx) (InvalidSenderAddress (tx_sender tx));
  sender_pk ← map_err_res (fun _ => InvalidSenderAddress (tx_sender tx)) (pk_from_hex sender_pk_hex);
  ensure (bool_decide (to_address (from_public_key sender_pk) = tx_sender tx))
    else (InvalidSenderAddress (tx_sender tx));
  ensure (pk_verify sender_pk (signable_bytes tx) signature) else (InvalidSignature (tx_sender tx));
  ensure (negb (bool_decide (tx_type tx = ConfidentialTransfer)) || bool_decide (is_Some (tx_proof tx)))
    else MissingProof;
  ensure (negb (bool_decide (tx_type tx = ConfidentialTransfer)) || bool_decide (is_Some (tx_amount_commitment tx)))
    else MissingCommitment;
  match tx_proof tx with
  | Some proof_bytes => map_err_res InvalidProof (groth16_decode proof_bytes)
  | None => Ok tt
  end.
End Builder.

(** ** The canonical byte format *)

Definition no_nul (s : string) : Prop := 0 ∉ str_bytes s.

(** Field widths of the Rust struct, and text fields without the separator.  No check of
    [verify_transaction] asks for the latter: a NUL in the receiver or in a custom
    currency shifts the fields, see [nul_shifts_fields]. *)
Record tx_wf (tx : Transaction) : Prop := {
  wf_version : 0 <= tx_version tx < 2 ^ 16;
  wf_value : in_u64 (value (tx_amount tx));
  wf_fee : in_u64 (tx_fee tx);
  wf_nonce : in_u64 (tx_nonce tx);
  wf_timestamp : in_u64 (tx_timestamp tx);
  wf_sender : no_nul (tx_sender tx);
  wf_receiver : no_nul (tx_receiver tx);
  wf_currency : no_nul (display_currency (currency (tx_amount tx)))
}.

(** What a signature covers. *)
Definition signed_fields (tx : Transaction) :=
  (tx_version tx, tx_type tx, tx_sender tx, tx_receiver tx, value (tx_amount tx),
   display_currency (currency (tx_amount tx)),
   (tx_fee tx, tx_nonce tx, tx_timestamp tx, tx_payload tx)).

Lemma display_tx_type_no_nul t : no_nul (display_tx_type t).
Proof. unfold no_nul. destruct t; simpl; rewrite !not_elem_of_cons; repeat split; try lia; apply not_elem_of_nil. Qed.

Lemma display_tx_type_inj t u : display_tx_type t = display_tx_type u -> t = u.
Proof. destruct t, u; simpl; congruence. Qed.

Lemma payload_bytes_inj (p q : option (list Z)) :
  match p with Some b => [1] ++ le_bytes 4 (Z.of_nat (length b)) ++ b | None => [0] end =
  match q with Some b => [1] ++ le_bytes 4 (Z.of_nat (length b)) ++ b | None => [0] end ->
  p = q.
Proof.
  destruct p as [b|], q as [c|]; intros Heq; try discriminate; [|done].
  apply (app_inj_1 [1]) in Heq as [_ Heq]; [|done].
  apply (app_fixed_inj 4) in Heq as [_ ->]; [done|apply length_le_bytes..].
Qed.

(** Peels one field off two equal concatenations. *)
Ltac peel_fixed n H E :=
  apply (app_fixed_inj n) in H as [E H]; [|apply length_le_bytes..].
Ltac peel_text H E :=
  apply app_zero_inj in H as [E H]; [apply str_bytes_inj in E|done..].

Lemma u64_pow (z : Z) : in_u64 z -> 0 <= z < 256 ^ Z.of_nat 8.
Proof. unfold in_u64, U64_MAX. change (256 ^ Z.of_nat 8) with (2 ^ 64). lia. Qed.

#[export] Hint Resolve u64_pow : nova.

Lemma signable_bytes_signed_fields tx ty :
  tx_wf tx -> tx_wf ty -> signable_bytes tx = signable_bytes ty ->
  signed_fields tx = signed_fields ty.
Proof.
  intros [Wv Wa Wf Wn Wt Ws Wr Wc] [Wv' Wa' Wf' Wn' Wt' Ws' Wr' Wc'] H.
  unfold signable_bytes in H; cbn [app] in H.
  pose proof (display_tx_type_no_nul (tx_type tx)) as Wy.
  pose proof (display_tx_type_no_nul (tx_type ty)) as Wy'.
  unfold no_nul in *.
  peel_fixed 2%nat H E1. peel_text H E2. peel_text H E3. peel_text H E4.
  peel_fixed 8%nat H E5. peel_text H E6.
  peel_fixed 8%nat H E7. peel_fixed 8%nat H E8. peel_fixed 8%nat H E9.
  apply payload_bytes_inj in H. apply display_tx_type_inj in E2.
  apply le_bytes_inj in E1; [|lia..].
  apply le_bytes_inj in E5, E7, E8, E9; auto with nova.
  unfold signed_fields. congruence.
Qed.

(** C11. The signing bytes of transactions without NUL in their text fields are unambiguous:
    two of them have the same ones exactly when all their signed fields agree, the
    currency as its text.  No check of the code keeps NUL out, see [nul_shifts_fields]. *)
Theorem signable_bytes_injective tx ty :
  tx_wf tx -> tx_wf ty ->
  (signable_bytes tx = signable_bytes ty <-> signed_fields tx = signed_fields ty).
Proof.
  intros Hx Hy. split; [by apply signable_bytes_signed_fields|].
  unfold signed_fields, signable_bytes. intros Heq. simplify_eq.
  repeat match goal with H : ?f tx = ?f ty |- _ => rewrite H end.
  repeat match goal with H : _ (tx_amount tx) = _ |- _ => rewrite H end.
  repeat match goal with H : display_currency _ = _ |- _ => rewrite H end. done.
Qed.

(** Two currencies with the same text are not told apart by the signed bytes:
    [Currency::Custom] may spell a native ticker. *)
Theorem custom_ticker_shares_signature tx c :
  currency (tx_amount tx) = Custom (display_currency c) ->
  let ty := mkTx (tx_id tx) (tx_version tx) (tx_type tx) (tx_sender tx) (tx_receiver tx)
    (mkAmount (value (tx_amount tx)) c) (tx_fee tx) (tx_nonce tx) (tx_timestamp tx)
    (tx_payload tx) (tx_sender_public_key tx) (tx_signature tx) (tx_zkp_proof tx)
    (tx_proof tx) (tx_amount_commitment tx) in
  signable_bytes tx = signable_bytes ty /\
  forall `{Crypto}, compute_id tx = compute_id ty.
Proof.
  intros Hc ty. assert (signable_bytes tx = signable_bytes ty) as Heq.
  { unfold signable_bytes, ty; simpl. by rewrite Hc. }
  split; [done|]. intros. unfold compute_id. by rewrite Heq.
Qed.

(** ** Verification *)

Section Verification.
Context {C : Crypto} {T : TxCodec}.

(** The signature of [tx] is by the key its sender address is derived from. *)
Definition authentic (tx : Transaction) : Prop :=
  exists sig_hex sig pk_hex pk,
    tx_signature tx = Some sig_hex /\ hex_decode sig_hex = Ok sig /\ length sig = 64%nat /\
    tx_sender_public_key tx = Some pk_hex /\ pk_from_hex pk_hex = Ok pk /\
    to_address (from_public_key pk) = tx_sender tx /\
    pk_verify pk (signable_bytes tx) (mkSig sig) = true.

(** The rules of the module's documentation, as one predicate. *)
Record tx_valid (now_ms : Z) (tx : Transaction) : Prop := {
  valid_nonce : tx_nonce tx <> 0;
  valid_amount : value (tx_amount tx) <> 0;
  valid_parties : tx_sender tx <> tx_receiver tx;
  valid_clock : now_ms + 300000 <= U64_MAX;
  valid_time : tx_timestamp tx <= now_ms + 300000;
  valid_id : tx_id tx = compute_id tx;
  valid_address : exists i, from_address (tx_sender tx) = Ok i;
  valid_auth : authentic tx;
  valid_confidential : tx_type tx = ConfidentialTransfer ->
    is_Some (tx_proof tx) /\ is_Some (tx_amount_commitment tx);
  valid_proof : forall b, tx_proof tx = Some b -> groth16_decode b = Ok tt
}.

Lemma check_timestamp_ok now_ms tx :
  check_timestamp now_ms tx = Ok tt <->
  now_ms + 300000 <= U64_MAX /\ tx_timestamp tx <= now_ms + 300000.
Proof.
  unfold check_timestamp, i64_sub, MAX_FUTURE_SECONDS. run.
  change (300 * 1000) with 300000.
  split; intros H; branches; try done; try lia; exfalso; lia.
Qed.

Lemma map_err_res_ok {E F A} (f : E -> F) (r : res E A) a :
  map_err_res f r = Ok a <-> r = Ok a.
Proof. destruct r; simpl; split; intros; congruence. Qed.

Lemma confidential_guard tx (o : option (list Z)) :
  negb (bool_decide (tx_type tx = ConfidentialTransfer)) || bool_decide (is_Some o) = true <->
  (tx_type tx = ConfidentialTransfer -> is_Some o).
Proof.
  rewrite orb_true_iff, negb_true_iff, bool_decide_eq_false, bool_decide_eq_true.
  destruct (decide (tx_type tx = ConfidentialTransfer)); naive_solver.
Qed.

Lemma res_bind_ok {E A B} (r : res E A) (k : A -> res E B) b :
  (r ≫= k) = Ok b <-> exists a, r = Ok a /\ k a = Ok b.
Proof. destruct r; unfold mbind; simpl; naive_solver. Qed.

Lemma ensure_ok {E A} (c : bool) (e : E) (k : res E A) a :
  (ensure c else e; k) = Ok a <-> c = true /\ k = Ok a.
Proof. destruct c; naive_solver. Qed.

Lemma ok_or_ok {E A} (o : option A) (e : E) a : ok_or o e = Ok a <-> o = Some a.
Proof. destruct o; simpl; split; congruence. Qed.

#[local] Opaque check_timestamp.

Lemma verify_transaction_iff now_ms tx :
  verify_transaction now_ms tx = Ok tt <-> tx_valid now_ms tx.
Proof.
  unfold verify_transaction.
  rewrite !ensure_ok, !negb_true_iff, !Z.eqb_neq, bool_decide_eq_false, res_bind_ok.
  setoid_rewrite ensure_ok. setoid_rewrite res_bind_ok. setoid_rewrite ok_or_ok.
  setoid_rewrite res_bind_ok. setoid_rewrite map_err_res_ok.
  split.
  - intros (Hn & Ha & Hp & [] & Ht & Hid & sh & Hs & s & Hd & H).
    rewrite ensure_ok, res_bind_ok in H. destruct H as (Hl & i & Hi & H).
    apply map_err_res_ok in Hi. rewrite res_bind_ok in H. destruct H as (ph & Hph & H).
    apply ok_or_ok in Hph. rewrite res_bind_ok in H. destruct H as (pk & Hpk & H).
    apply map_err_res_ok in Hpk. rewrite !ensure_ok, !confidential_guard in H.
    destruct H as (Had & Hv & Hc1 & Hc2 & Hpr).
    apply bool_decide_eq_true in Hid, Hl, Had. apply check_timestamp_ok in Ht as [? ?].
    split; try done; [by exists i|by exists sh, s, ph, pk| |]; [naive_solver|].
    intros b Hb. rewrite Hb in Hpr. by apply map_err_res_ok in Hpr.
  - intros [Hn Ha Hp Hck Ht Hid [i Hi] (sh & s & ph & pk & Hs & Hd & Hl & Hph & Hpk & Had & Hv) Hc Hpr].
    repeat split; try done. exists tt. split; [by apply check_timestamp_ok|].
    split; [by apply bool_decide_eq_true|]. exists sh. split; [done|]. exists s. split; [done|].
    rewrite ensure_ok, res_bind_ok. split; [by apply bool_decide_eq_true|].
    exists i. rewrite map_err_res_ok, res_bind_ok. split; [done|].
    exists ph. rewrite ok_or_ok, res_bind_ok. split; [done|].
    exists pk. rewrite map_err_res_ok, !ensure_ok, !confidential_guard, bool_decide_eq_true.
    repeat split; try done; [naive_solver..|].
    destruct (tx_proof tx) as [b|] eqn:Hb; [|done]. apply map_err_res_ok. by apply Hpr.
Qed.

(** [verify_transaction] accepts a transaction exactly when it meets all the
    documented conditions, stated as one proposition: non-zero nonce and amount,
    distinct parties, a timestamp not too far ahead, a key that belongs to the
    sender's address, the right identifier, a valid signature, and for confidential
    transfers a decodable proof and a commitment. *)
Theorem verify_transaction_valid now_ms tx :
  verify_transaction now_ms tx = Ok tt <-> tx_valid now_ms tx.
Proof. apply verify_transaction_iff. Qed.
End Verification.

(** Acceptance does not expire: a transaction accepted once is accepted at every later time. *)
Theorem accepted_at_any_later_time {C : Crypto} {T : TxCodec} now_ms later tx :
  verify_transaction now_ms tx = Ok tt -> now_ms <= later -> later + 300000 <= U64_MAX ->
  verify_transaction later tx = Ok tt.
Proof.
  rewrite !verify_transaction_iff. intros [? ? ? ? ? ? ? ? ? ?] ? ?. split; try done. lia.
Qed.

(** ** What the signature leaves open *)

Section Malleability.
Context {C : Crypto} {L : CryptoLaws C} {T : TxCodec}.

(** What the identifier hashes, in the first round and in the second. *)
Definition id_message (tx : Transaction) : list Z :=
  signable_bytes tx ++ tagged 2 (tx_proof tx) ++ tagged 3 (tx_amount_commitment tx).
Definition id_messages (tx : Transaction) : list (list Z) := [id_message tx; sha256 (id_message tx)].

Lemma tagged_inj tag o p : tagged tag o = tagged tag p -> o = p.
Proof.
  destruct o as [b|], p as [c|]; try done. unfold tagged. intros [_ Heq]%(app_inj_1 [tag]); [|done].
  by apply (app_fixed_inj 4) in Heq as [_ ->]; [|apply length_le_bytes..].
Qed.

Lemma compute_id_binds tx ty :
  signable_bytes tx = signable_bytes ty -> tx_proof tx = tx_proof ty -> compute_id tx = compute_id ty ->
  tx_amount_commitment tx = tx_amount_commitment ty \/ collides sha256 (id_messages tx ++ id_messages ty).
Proof.
  unfold compute_id. intros Hs Hp Heq. apply hex_encode_inj in Heq; [|apply sha2_256_bytes..].
  fold (id_message tx) (id_message ty) in Heq. unfold double_sha256 in Heq.
  apply (digest_inj sha256 _ _ (id_messages tx ++ id_messages ty)) in Heq as [Heq|]; [|by right|unfold id_messages; set_solver..].
  apply (digest_inj sha256 _ _ (id_messages tx ++ id_messages ty)) in Heq as [Heq|]; [|by right|unfold id_messages; set_solver..].
  left. unfold id_message in Heq. rewrite Hs, Hp in Heq. by apply app_inv_head, app_inv_head, tagged_inj in Heq.
Qed.

(** C38. The signature does not cover the proof or the commitment: anybody can attach a
    commitment of his own to a transaction that somebody else signed, and what comes out is
    accepted, with the same signature over the same payment, under another identifier
    (or two of the messages hashed for the two identifiers collide under SHA-256). *)
Theorem signed_payment_malleable now_ms tx commitment :
  verify_transaction now_ms tx = Ok tt -> tx_amount_commitment tx <> Some commitment ->
  let ty := with_commitment commitment tx in
  verify_transaction now_ms ty = Ok tt /\ signed_fields ty = signed_fields tx /\
  tx_signature ty = tx_signature tx /\
  (tx_id ty <> tx_id tx \/ collides sha256 (id_messages tx ++ id_messages ty)).
Proof.
  intros Hv Hc ty. apply verify_transaction_iff in Hv as [? ? ? ? ? Hid ? ? Hconf Hproof].
  assert (signable_bytes tx = signable_bytes ty) as Hsig by done.
  split; [|split; [done|split; [done|]]].
  - apply verify_transaction_iff. split; try done. intros Hty. destruct (Hconf Hty). split; [done|by eexists].
  - destruct (decide (tx_id ty = tx_id tx)) as [E|]; [right|by left].
    destruct (compute_id_binds tx ty Hsig eq_refl) as [Heq|]; [rewrite <- Hid; symmetry; exact E|done|done].
Qed.
End Malleability.

(** ** Build, sign, verify *)

Section RoundTrip.
Context {C : Crypto} {L : CryptoLaws C} {T : TxCodec}.

Lemma build_id now_ms b : tx_id (build now_ms b) = compute_id (build now_ms b).
Proof. done. Qed.

Lemma sign_transaction_id kp tx : compute_id (sign_transaction kp tx) = compute_id tx.
Proof. done. Qed.

Lemma sign_transaction_authentic kp tx :
  tx_sender tx = to_address (from_public_key (public_key kp)) ->
  authentic (sign_transaction kp tx).
Proof.
  intros Hs. eexists _, (sig_bytes (sign kp (signable_bytes tx))), _, (public_key kp).
  split; [done|]. split; [by apply hex_roundtrip, dalek_sign_bytes|].
  split; [apply dalek_sign_length|]. split; [done|].
  split; [apply pk_hex_roundtrip|]. split; [done|].
  apply (sign_then_verify kp (signable_bytes tx)).
Qed.

Lemma signed_build_ok built now_ms kp b :
  b_sender b = to_address (from_public_key (public_key kp)) ->
  b_sender b <> b_receiver b ->
  b_nonce b <> 0 -> value (b_amount b) <> 0 -> b_tx_type b <> ConfidentialTransfer ->
  now_ms + 300000 <= U64_MAX -> default built (b_timestamp b) <= now_ms + 300000 ->
  verify_transaction now_ms (sign_transaction kp (build built b)) = Ok tt.
Proof.
  intros Hs Hne Hn Ha Hy Hck Ht. apply verify_transaction_iff. split; try done.
  - simpl. rewrite Hs, address_roundtrip. eauto.
  - by apply sign_transaction_authentic.
Qed.

(** A transaction made with the builder and signed with the sender's key is
    accepted. *)
Theorem built_and_signed_verifies now_ms kp b :
  b_sender b = to_address (from_public_key (public_key kp)) ->
  b_sender b <> b_receiver b ->
  b_nonce b <> 0 -> value (b_amount b) <> 0 -> b_tx_type b <> ConfidentialTransfer ->
  now_ms + 300000 <= U64_MAX -> default now_ms (b_timestamp b) <= now_ms + 300000 ->
  verify_transaction now_ms (sign_transaction kp (build now_ms b)) = Ok tt.
Proof. apply signed_build_ok. Qed.

(** The age computation of the rejection message overflows [i64] for timestamps
    just above [2^63]. *)
Theorem verify_transaction_timestamp_panics now_ms tx :
  tx_nonce tx <> 0 -> value (tx_amount tx) <> 0 -> tx_sender tx <> tx_receiver tx ->
  0 <= now_ms -> now_ms + 300000 < 2 ^ 63 ->
  2 ^ 63 <= tx_timestamp tx < 2 ^ 63 + now_ms ->
  verify_transaction now_ms tx = Panic.
Proof.
  intros Hn Ha Hp Hnow Hck Ht. unfold verify_transaction.
  rewrite (proj2 (Z.eqb_neq _ _) Hn), (proj2 (Z.eqb_neq _ _) Ha), bool_decide_false by done.
  cbn [negb].
  assert (check_timestamp now_ms tx = Panic) as ->; [|done].
  unfold check_timestamp, i64_sub, as_i64, MAX_FUTURE_SECONDS, U64_MAX. run.
  change (300 * 1000) with 300000. unfold U64_MAX.
  branches; try done; intuition lia.
Qed.
End RoundTrip.

(** ** Witnesses *)

Module TxExamples.
#[local] Existing Instance toy_crypto.

Definition codec : TxCodec := {|
  json_tx := fun tx => Some (le_bytes 8 (value (tx_amount tx)) ++ le_bytes 8 (tx_nonce tx));
  groth16_decode := fun b => if bool_decide (b = []) then Err "empty" else Ok tt
|}.
#[local] Existing Instance codec.

Definition alice : NovaKeypair := mkKeypair 1.
Definition alice_address : string := Eval vm_compute in to_address (from_public_key (public_key alice)).

Definition payment (amount : Amount) : TransactionBuilder :=
  mkBuilder 1 Transfer alice_address "bob" amount 100 1 (Some 5) (Some [1; 2; 3]).

Definition pay_nova : Transaction := build 0 (payment (mkAmount 50 (Custom "NOVA"))).

Definition late : Transaction :=
  build 0 (mkBuilder 1 Transfer alice_address "bob" (mkAmount 50 NOVA) 100 1 (Some (2 ^ 63 + 5)) None).

(** A payment of 50 units to Bob, and one of 7 to a receiver with a NUL in its name. *)
Definition nul : string := String Ascii.zero EmptyString.

Definition to_bob : TransactionBuilder :=
  mkBuilder 1 Transfer alice_address "bob" (mkAmount 50 NOVA) 7 1 (Some 10) (Some [0; 0; 0; 0; 0; 0]).

Definition to_other : TransactionBuilder :=
  mkBuilder 1 Transfer alice_address
    ("bob" +:+ nul +:+ "2" +:+ nul +:+ nul +:+ nul +:+ nul +:+ nul +:+ nul +:+ nul +:+ "NOVA")
    (mkAmount 7 (Custom (String Ascii.one EmptyString))) (10 * 2 ^ 48) (2 ^ 48 + 6 * 2 ^ 56) (Some 0) None.
End TxExamples.

Lemma alice_address_no_nul : no_nul TxExamples.alice_address.
Proof. unfold no_nul. intros H%list_elem_of_In. vm_compute in H. intuition discriminate. Qed.

Lemma pay_nova_wf : tx_wf TxExamples.pay_nova.
Proof.
  split; try (vm_compute; split; congruence).
  - exact alice_address_no_nul.
  - unfold no_nul. intros H%list_elem_of_In. vm_compute in H. intuition discriminate.
  - unfold no_nul. intros H%list_elem_of_In. vm_compute in H. intuition discriminate.
Qed.

Lemma signable_bytes_injective_witness :
  signable_bytes TxExamples.pay_nova = signable_bytes TxExamples.pay_nova <->
  signed_fields TxExamples.pay_nova = signed_fields TxExamples.pay_nova.
Proof. apply (signable_bytes_injective _ _ pay_nova_wf pay_nova_wf). Defined.

Lemma custom_ticker_shares_signature_witness :
  exists ty, currency (tx_amount ty) = NOVA /\
    currency (tx_amount TxExamples.pay_nova) = Custom "NOVA" /\
    signable_bytes TxExamples.pay_nova = signable_bytes ty.
Proof.
  eexists; split; [|split; [|apply (custom_ticker_shares_signature TxExamples.pay_nova NOVA)]];
    reflexivity.
Defined.

Lemma built_and_signed_verifies_witness :
  @verify_transaction toy_crypto TxExamples.codec 1000
    (@sign_transaction toy_crypto TxExamples.alice
      (@build toy_crypto 1000 (TxExamples.payment (mkAmount 50 NOVA)))) = Ok tt.
Proof.
  apply (@built_and_signed_verifies toy_crypto toy_laws TxExamples.codec);
    vm_compute; congruence.
Defined.

Lemma verify_transaction_timestamp_panics_witness :
  @verify_transaction toy_crypto TxExamples.codec 1700000000000 TxExamples.late = Panic.
Proof.
  apply (@verify_transaction_timestamp_panics toy_crypto TxExamples.codec);
    vm_compute; try split; congruence.
Defined.

#[local] Existing Instances toy_crypto TxExamples.codec.

Lemma signed_payment_malleable_witness :
  let tx := sign_transaction TxExamples.alice TxExamples.pay_nova in
  verify_transaction 10 (with_commitment [7] tx) = Ok tt /\
  (tx_id (with_commitment [7] tx) <> tx_id tx \/ collides sha256 (id_messages tx ++ id_messages (with_commitment [7] tx))).
Proof.
  destruct (signed_payment_malleable 10 (sign_transaction TxExamples.alice TxExamples.pay_nova) [7]) as (Hv & _ & _ & Hid).
  - apply signed_build_ok; vm_compute; congruence.
  - discriminate.
  - split; [exact Hv|exact Hid].
Defined.

(** A year later. *)
Lemma accepted_at_any_later_time_witness :
  verify_transaction 31536000000 (sign_transaction TxExamples.alice TxExamples.pay_nova) = Ok tt.
Proof.
  apply (accepted_at_any_later_time 10); [apply signed_build_ok; vm_compute; congruence|lia|unfold U64_MAX; lia].
Defined.

(** The two payments have the same signing bytes, and so the same signature and the same
    identifier; both are accepted. *)
Example nul_shifts_fields :
  let tx := sign_transaction TxExamples.alice (build 0 TxExamples.to_bob) in
  let ty := sign_transaction TxExamples.alice (build 0 TxExamples.to_other) in
  verify_transaction 10 tx = Ok tt /\ verify_transaction 10 ty = Ok tt /\
  tx_signature tx = tx_signature ty /\ tx_id tx = tx_id ty /\ tx_amount tx <> tx_amount ty.
Proof.
  split_and!; [apply signed_build_ok; vm_compute; congruence..|vm_compute; reflexivity|vm_compute; reflexivity|].
  vm_compute. discriminate.
Qed.
