(* ===== verification/Block.v ===== *)
(** * Blocks

    [protocol/src/storage/block.rs] (header, hash, transaction Merkle root,
    construction and integrity check) and the Merkle root of
    [protocol/src/crypto/hash.rs].  The bottom-up loops of both Merkle roots are
    one fuelled loop, [merkle_loop]; [merkle_loop_total] shows that as much fuel
    as there are leaves is enough. *)

From S2P Require Import Prelude Bytes Crypto Transaction.
From stdpp Require Import pretty.

#[local] Open Scope Z_scope.

Definition zero32 : list Z := replicate 32 0.

Record BlockHeader := mkHeader {
  height : Z;
  hash : list Z;
  parent_hash : list Z;
  timestamp : Z;
  validator : string;
  state_root : list Z;
  tx_root : list Z;
  signature : list Z
}.

Record Block := mkBlock { header : BlockHeader; transactions : list Transaction }.

#[global] Instance BlockHeader_eq_dec : EqDecision BlockHeader.
Proof. solve_decision. Defined.
#[global] Instance Block_eq_dec : EqDecision Block.
Proof. solve_decision. Defined.

Section Block.
Context {C : Crypto} {T : TxCodec}.

Definition GENESIS_COINBASE_MESSAGE : list Z :=
  str_bytes "ALAS/2026: The future of payments belongs to everyone".

Definition header_preimage (h : Z) (parent : list Z) (ts : Z) (v : string) (sr tr : list Z) : list Z :=
  le_bytes 8 h ++ parent ++ le_bytes 8 ts ++ str_bytes v ++ sr ++ tr.

Definition compute_header_hash (h : Z) (parent : list Z) (ts : Z) (v : string) (sr tr : list Z) : list Z :=
  blake3_hash (header_preimage h parent ts v sr tr).

(** One pass of [for chunk in hashes.chunks(2)]. *)
Fixpoint merkle_level (hashes : list (list Z)) : list (list Z) :=
  match hashes with
  | [] => []
  | [a] => [blake3_hash (a ++ a)]
  | a :: b :: rest => blake3_hash (a ++ b) :: merkle_level rest
  end.

(** [while hashes.len() > 1 { hashes = next_level }], then [hashes[0]]. *)
Fixpoint merkle_loop (fuel : nat) (hashes : list (list Z)) : option (list Z) :=
  match hashes with
  | [] => None
  | [h] => Some h
  | _ => match fuel with
         | O => None
         | S fuel' => merkle_loop fuel' (merkle_level hashes)
         end
  end.

Definition tx_leaf (tx : Transaction) : list Z := blake3_hash (default [] (json_tx tx)).

Definition compute_merkle_root (txs : list Transaction) : list Z :=
  match txs with
  | [] => zero32
  | _ => let hashes := tx_leaf <$> txs in default zero32 (merkle_loop (length hashes) hashes)
  end.

(** [crypto::hash::merkle_root]. *)
Definition merkle_root (leaves : list (list Z)) : list Z :=
  match leaves with
  | [] => zero32
  | [l] => blake3_hash_multi [l; l]
  | _ => default zero32 (merkle_loop (length leaves) leaves)
  end.

Definition genesis : Block :=
  let v := "nova:0000000000000000000000000000000000000000000000000000000000000000"%string in
  let sr := blake3_hash GENESIS_COINBASE_MESSAGE in
  let h := compute_header_hash 0 zero32 0 v sr zero32 in
  mkBlock (mkHeader 0 h zero32 0 v sr zero32 []) [].

(** [Block::new]; the height addition panics at [u64::MAX]. *)
Definition block_new {E} (now_ms : Z) (parent : Block) (txs : list Transaction) (v : string)
    (sr : list Z) : res E Block :=
  h ← expect (checked_add (height (header parent)) 1);
  let ph := hash (header parent) in
  let tr := compute_merkle_root txs in
  let hh := compute_header_hash h ph now_ms v sr tr in
  Ok (mkBlock (mkHeader h hh ph now_ms v sr tr []) txs).

(** [block.header.signature = sig]: the signature is outside the header hash. *)
Definition with_signature (h : BlockHeader) (s : list Z) : BlockHeader :=
  mkHeader (height h) (hash h) (parent_hash h) (timestamp h) (validator h) (state_root h) (tx_root h) s.

Definition compute_hash (b : Block) : list Z :=
  let h := header b in
  compute_header_hash (height h) (parent_hash h) (timestamp h) (validator h) (state_root h) (tx_root h).

Definition block_verify (b : Block) : res string unit :=
  let h := header b in
  let expected_hash := compute_hash b in
  ensure (bool_decide (hash h = expected_hash)) else
    ("block " +:+ pretty (height h) +:+ " hash mismatch: stored=" +:+ hex_encode (hash h)
       +:+ ", computed=" +:+ hex_encode expected_hash)%string;
  let expected_tx_root := compute_merkle_root (transactions b) in
  ensure (bool_decide (tx_root h = expected_tx_root)) else
    ("block " +:+ pretty (height h) +:+ " tx_root mismatch: stored=" +:+ hex_encode (tx_root h)
       +:+ ", computed=" +:+ hex_encode expected_tx_root)%string;
  ensure (negb ((height h =? 0) && negb (bool_decide (parent_hash h = zero32)))) else
    "genesis block must have zeroed parent_hash"%string;
  Ok tt.

(** ** Termination of the Merkle loop *)

(** Induction two elements at a time, as [chunks(2)] consumes a list. *)
Lemma list_pair_ind {A} (P : list A -> Prop) :
  P [] -> (forall a, P [a]) -> (forall a b l, P l -> P (a :: b :: l)) -> forall l, P l.
Proof.
  intros H0 H1 H2 l. enough (P l /\ forall a, P (a :: l)) by tauto.
  induction l as [|a l [IH IH']]; split; auto.
Qed.

Lemma merkle_level_length hs : (2 * length (merkle_level hs) <= length hs + 1)%nat.
Proof. induction hs using list_pair_ind; simpl in *; lia. Qed.

Lemma merkle_level_nonempty hs : hs <> [] -> merkle_level hs <> [].
Proof. destruct hs as [|a [|b l]]; done. Qed.

(** Enough fuel: one unit per leaf. *)
Lemma merkle_loop_total fuel hs :
  hs <> [] -> (length hs <= fuel)%nat -> is_Some (merkle_loop fuel hs).
Proof.
  revert hs; induction fuel as [|f IH]; intros hs Hne Hlen.
  - destruct hs; simpl in *; [done|lia].
  - destruct hs as [|a [|b l]]; [done|by eexists|].
    cbn [merkle_loop]. apply IH; [by apply merkle_level_nonempty|].
    pose proof (merkle_level_length (a :: b :: l)). simpl in *. lia.
Qed.

Lemma merkle_loop_more fuel fuel' hs r :
  merkle_loop fuel hs = Some r -> (fuel <= fuel')%nat -> merkle_loop fuel' hs = Some r.
Proof.
  revert fuel' hs; induction fuel as [|f IH]; intros [|f'] hs Hr Hle; try lia; try done;
    destruct hs as [|a [|b l]]; try done; cbn [merkle_loop] in *; try done.
  apply IH; [done|lia].
Qed.

Lemma merkle_loop_enough hs :
  hs <> [] -> exists r, forall fuel, (length hs <= fuel)%nat -> merkle_loop fuel hs = Some r.
Proof.
  intros Hne. destruct (merkle_loop_total (length hs) hs Hne) as [r Hr]; [lia|].
  exists r. intros fuel Hf. eapply merkle_loop_more; eauto.
Qed.
End Block.

(** ** What a header hash commits to *)

Section HeaderHash.
Context {C : Crypto} {L : CryptoLaws C} {T : TxCodec}.

(** The bytes hashed into the block hash determine every header field they cover:
    the validator name, the only field of variable length, cannot be traded against
    its neighbours. *)
Theorem header_preimage_injective h ph ts v sr tr h' ph' ts' v' sr' tr' :
  in_u64 h -> in_u64 h' -> in_u64 ts -> in_u64 ts' ->
  length ph = 32%nat -> length ph' = 32%nat -> length sr = 32%nat -> length sr' = 32%nat ->
  length tr = 32%nat -> length tr' = 32%nat ->
  header_preimage h ph ts v sr tr = header_preimage h' ph' ts' v' sr' tr' ->
  (h, ph, ts, v, sr, tr) = (h', ph', ts', v', sr', tr').
Proof.
  intros Hh Hh' Ht Ht' Lp Lp' Ls Ls' Lt Lt' H. unfold header_preimage in H.
  apply (app_fixed_inj 8) in H as [E1 H]; [|apply length_le_bytes..].
  apply (app_fixed_inj 32) in H as [E2 H]; [|done..].
  apply (app_fixed_inj 8) in H as [E3 H]; [|apply length_le_bytes..].
  rewrite !app_assoc in H.
  apply app_inj_2 in H as [H E6]; [|congruence].
  apply app_inj_2 in H as [E4 E5]; [|congruence].
  apply le_bytes_inj in E1, E3; auto with nova. apply str_bytes_inj in E4. congruence.
Qed.

Lemma block_new_spec {E} now_ms parent txs v sr b :
  0 <= height (header parent) ->
  block_new (E := E) now_ms parent txs v sr = Ok b ->
  block_verify b = Ok tt /\ height (header b) = height (header parent) + 1 /\
  parent_hash (header b) = hash (header parent) /\
  transactions b = txs /\ state_root (header b) = sr.
Proof.
  intros Hpos H. unfold block_new in H. run. branches. split; [|done].
  unfold block_verify; simpl. rewrite !bool_decide_true by done.
  rewrite (proj2 (Z.eqb_neq _ _)) by lia. done.
Qed.

(** A block made by [Block::new] on a chain passes [Block::verify]. *)
Theorem block_new_verifies {E} now_ms parent txs v sr b :
  0 <= height (header parent) ->
  block_new (E := E) now_ms parent txs v sr = Ok b ->
  block_verify b = Ok tt /\ height (header b) = height (header parent) + 1 /\
  parent_hash (header b) = hash (header parent) /\
  transactions b = txs /\ state_root (header b) = sr.
Proof. apply block_new_spec. Qed.

(** ** The transaction root binds the transactions of a list of known length *)

(** What the hash function is applied to when a level, a tree, a root is computed. *)
Fixpoint level_messages (hashes : list (list Z)) : list (list Z) :=
  match hashes with
  | [] => []
  | [a] => [a ++ a]
  | a :: b :: rest => (a ++ b) :: level_messages rest
  end.

Fixpoint loop_messages (fuel : nat) (hashes : list (list Z)) : list (list Z) :=
  match hashes, fuel with
  | _ :: _ :: _, S fuel' => level_messages hashes ++ loop_messages fuel' (merkle_level hashes)
  | _, _ => []
  end.

Definition leaf_messages (txs : list Transaction) : list (list Z) := (default [] ∘ json_tx) <$> txs.

Definition root_messages (txs : list Transaction) : list (list Z) :=
  leaf_messages txs ++ loop_messages (length txs) (tx_leaf <$> txs).

Lemma merkle_level_digests hs : merkle_level hs = blake3_hash <$> level_messages hs.
Proof. induction hs as [|a|a b l IH] using list_pair_ind; cbn; [done..|]. by rewrite IH. Qed.

Lemma tx_leaf_digests txs : tx_leaf <$> txs = blake3_hash <$> leaf_messages txs.
Proof. unfold leaf_messages. by rewrite <- list_fmap_compose. Qed.

Lemma level_messages_inj hs ks :
  length hs = length ks -> Forall (fun h => length h = 32%nat) hs ->
  Forall (fun h => length h = 32%nat) ks -> level_messages hs = level_messages ks -> hs = ks.
Proof.
  revert ks; induction hs as [|a|a b l IH] using list_pair_ind;
    intros [|a' [|b' l']] Hlen Hh Hk Heq; try discriminate Hlen; [done| |].
  - inversion_clear Hh; inversion_clear Hk. injection Heq as E. apply app_inj_1 in E as [-> _]; [done|congruence].
  - rewrite !Forall_cons in *. destruct Hh as (Ha & Hb & Hl), Hk as (Ha' & Hb' & Hl').
    injection Heq as E1 E2. injection Hlen as Hlen. apply app_inj_1 in E1 as [-> ->]; [|congruence].
    by rewrite (IH l').
Qed.

Lemma merkle_level_widths hs : Forall (fun h => length h = 32%nat) (merkle_level hs).
Proof. induction hs using list_pair_ind; simpl; repeat constructor; auto; apply blake3_length. Qed.

Lemma merkle_level_same_length hs ks :
  length hs = length ks -> length (merkle_level hs) = length (merkle_level ks).
Proof.
  revert ks; induction hs as [|a|a b l IH] using list_pair_ind; intros [|a' [|b' l']] Hl;
    simplify_eq/=; auto.
Qed.

Lemma merkle_loop_binding fuel hs ks r :
  length hs = length ks -> Forall (fun h => length h = 32%nat) hs ->
  Forall (fun h => length h = 32%nat) ks ->
  merkle_loop fuel hs = Some r -> merkle_loop fuel ks = Some r ->
  hs = ks \/ collision (loop_messages fuel hs ++ loop_messages fuel ks).
Proof.
  revert hs ks; induction fuel as [|f IH]; intros [|a [|b l]] [|a' [|b' l']] Hlen Hh Hk Hr Hr';
    try (simplify_eq/=; by left); try (simplify_eq/=; lia); try done.
  cbn [merkle_loop] in Hr, Hr'. cbn [loop_messages].
  destruct (IH (merkle_level (a :: b :: l)) (merkle_level (a' :: b' :: l'))) as [Heq|Hc];
    auto using merkle_level_widths, merkle_level_same_length.
  - rewrite !merkle_level_digests in Heq. apply digests_inj in Heq as [Heq%level_messages_inj|Hc]; [by left|done..|].
    right. eapply collides_mono; [|exact Hc]. set_solver.
  - right. eapply collides_mono; [|exact Hc]. set_solver.
Qed.

(** C22. The transactions root commits to the transactions: lists of the same length with
    the same root carry the same serialized transactions, or two of the messages hashed
    for the two roots, which a search of these messages finds, have one digest.  (Lists
    of different lengths can share a root, see [block_verify_accepts_duplicate].) *)
Theorem compute_merkle_root_binding txs tys :
  length txs = length tys -> compute_merkle_root txs = compute_merkle_root tys ->
  leaf_messages txs = leaf_messages tys \/ collision (root_messages txs ++ root_messages tys).
Proof.
  intros Hlen Heq. destruct txs as [|t l], tys as [|t' l']; [by left|done..|].
  unfold compute_merkle_root in Heq. unfold root_messages.
  set (hs := tx_leaf <$> t :: l) in *. set (ks := tx_leaf <$> t' :: l') in *.
  assert (length hs = length ks) as Hl by (unfold hs, ks; by rewrite !length_fmap).
  assert (length (t :: l) = length hs) as -> by (unfold hs; by rewrite length_fmap).
  assert (length (t' :: l') = length hs) as -> by (unfold hs; by rewrite length_fmap).
  assert (Forall (fun h => length h = 32%nat) hs) as Hh by
    (apply Forall_fmap, Forall_true; intros; apply blake3_length).
  assert (Forall (fun h => length h = 32%nat) ks) as Hk by
    (apply Forall_fmap, Forall_true; intros; apply blake3_length).
  destruct (merkle_loop_total (length hs) hs) as [r Hr]; [done|lia|].
  destruct (merkle_loop_total (length ks) ks) as [r' Hr']; [done|lia|].
  rewrite Hr, Hr' in Heq; simpl in Heq; subst r'. rewrite <- Hl in Hr'.
  destruct (merkle_loop_binding _ _ _ _ Hl Hh Hk Hr Hr') as [Hhk|Hc].
  - unfold hs, ks in Hhk. rewrite !tx_leaf_digests in Hhk. apply digests_inj in Hhk as [|Hc]; [by left|].
    right. eapply collides_mono; [|exact Hc]. set_solver.
  - right. eapply collides_mono; [|exact Hc]. set_solver.
Qed.

(** ** The duplicated last transaction *)

Lemma merkle_level_dup hs a :
  Nat.even (length hs) = true -> merkle_level (hs ++ [a; a]) = merkle_level (hs ++ [a]).
Proof.
  induction hs as [|x|x y l IH] using list_pair_ind; intros He; [done..|].
  cbn [app merkle_level]. by rewrite IH.
Qed.

Lemma compute_merkle_root_dup txs tx :
  txs <> [] -> Nat.even (length txs) = true ->
  compute_merkle_root (txs ++ [tx; tx]) = compute_merkle_root (txs ++ [tx]).
Proof.
  intros Hne He. destruct txs as [|t l]; [done|]. unfold compute_merkle_root; cbn [app].
  rewrite !fmap_cons, !fmap_app. cbn [fmap list_fmap].
  set (hs := tx_leaf t :: (tx_leaf <$> l)). set (a := tx_leaf tx).
  change (tx_leaf t :: (tx_leaf <$> l) ++ [a; a]) with (hs ++ [a; a]).
  change (tx_leaf t :: (tx_leaf <$> l) ++ [a]) with (hs ++ [a]).
  destruct (merkle_loop_enough (hs ++ [a])) as [r Hr]; [by destruct hs|].
  rewrite Hr by lia. enough (merkle_loop (length (hs ++ [a; a])) (hs ++ [a; a]) = Some r) as -> by done.
  assert (Nat.even (length hs) = true) as Heh by (unfold hs; simpl; rewrite length_fmap; exact He).
  destruct hs as [|x [|y k]] eqn:Ehs; [done|done|].
  cbn [app length merkle_loop].
  change (x :: y :: k ++ [a; a]) with ((x :: y :: k) ++ [a; a]). rewrite merkle_level_dup by done.
  specialize (Hr (S (S (length (k ++ [a; a]))))). rewrite !length_app in Hr |- *.
  cbn [app length merkle_loop] in Hr |- *. rewrite !length_app in Hr. apply Hr. simpl. lia.
Qed.

(** Appending a copy of the last of an odd number (at least three) of
    transactions changes neither the root nor the verdict of [Block::verify]. *)
Theorem block_verify_accepts_duplicate b txs tx :
  transactions b = txs ++ [tx] -> txs <> [] -> Nat.even (length txs) = true ->
  block_verify b = Ok tt ->
  let b' := mkBlock (header b) (txs ++ [tx; tx]) in
  block_verify b' = Ok tt /\ hash (header b') = hash (header b).
Proof.
  intros Ht Hne He Hv b'. split; [|done].
  unfold block_verify, b' in *; cbn [header transactions compute_hash] in *.
  rewrite compute_merkle_root_dup, <- Ht by done. exact Hv.
Qed.

(** The two Merkle roots of the repository agree from two leaves on. *)
Theorem merkle_roots_agree txs :
  (2 <= length txs)%nat -> compute_merkle_root txs = merkle_root (tx_leaf <$> txs).
Proof. destruct txs as [|t [|u l]]; simpl; intros; [lia..|done]. Qed.
End HeaderHash.

(** ** Witnesses *)

Module BlockExamples.
#[local] Existing Instance toy_crypto.
#[local] Existing Instance TxExamples.codec.

Definition pay (n : Z) : Transaction := build n (TxExamples.payment (mkAmount n NOVA)).

Definition block1 : Block :=
  match block_new (E := unit) 7 genesis [pay 1; pay 2; pay 3] "v" zero32 with
  | Ok b => b
  | _ => genesis
  end.
End BlockExamples.

Lemma header_preimage_injective_witness :
  (1, zero32, 2, "v"%string, zero32, zero32) = (1, zero32, 2, "v"%string, zero32, zero32).
Proof.
  apply header_preimage_injective; try reflexivity; vm_compute; split; congruence.
Defined.

Lemma block_new_verifies_witness :
  @block_verify toy_crypto TxExamples.codec BlockExamples.block1 = Ok tt.
Proof.
  apply (@block_new_verifies toy_crypto TxExamples.codec unit 7 (@genesis toy_crypto)
    [BlockExamples.pay 1; BlockExamples.pay 2; BlockExamples.pay 3] "v" zero32
    BlockExamples.block1); vm_compute; congruence.
Defined.

#[local] Existing Instances toy_crypto TxExamples.codec.

Lemma compute_merkle_root_binding_witness :
  leaf_messages [BlockExamples.pay 1] = leaf_messages [BlockExamples.pay 1] \/
  collision (root_messages [BlockExamples.pay 1] ++ root_messages [BlockExamples.pay 1]).
Proof. apply compute_merkle_root_binding; reflexivity. Defined.

(** No two messages collide behind these two roots, so they differ. *)
Example distinct_payments :
  find_collision blake3 (root_messages [BlockExamples.pay 1] ++ root_messages [BlockExamples.pay 2]) = None.
Proof. vm_compute. reflexivity. Qed.

Lemma block_verify_accepts_duplicate_witness :
  let b' := mkBlock (header BlockExamples.block1)
    ([BlockExamples.pay 1; BlockExamples.pay 2] ++ [BlockExamples.pay 3; BlockExamples.pay 3]) in
  @block_verify toy_crypto TxExamples.codec b' = Ok tt /\
  hash (header b') = hash (header BlockExamples.block1).
Proof.
  apply (@block_verify_accepts_duplicate toy_crypto TxExamples.codec BlockExamples.block1
    [BlockExamples.pay 1; BlockExamples.pay 2] (BlockExamples.pay 3));
    vm_compute; congruence.
Defined.

Lemma merkle_roots_agree_witness :
  @compute_merkle_root toy_crypto TxExamples.codec [BlockExamples.pay 1; BlockExamples.pay 2] =
  @merkle_root toy_crypto (@tx_leaf toy_crypto TxExamples.codec <$> [BlockExamples.pay 1; BlockExamples.pay 2]).
Proof. apply (@merkle_roots_agree toy_crypto TxExamples.codec). simpl. lia. Defined.
