(* ===== verification/Sled.v ===== *)
(** * The key-value store interface

    The persistence layer runs on the sled crate.  [Sled] lists the tree
    operations the repository calls; any of them may return an I/O error.
    [SledLaws] is the documented behaviour of a tree (an ordered map from byte
    strings to byte strings), [SledHealthy] the absence of I/O errors.  [mem_tree]
    is the finite-map instance the witnesses run on. *)

From S2P Require Import Prelude Bytes.

#[local] Open Scope Z_scope.

Class Sled (Tr : Type) := {
  sled_new : Tr;
  sled_get : Tr -> list Z -> res string (option (list Z));
  sled_insert : Tr -> list Z -> list Z -> res string Tr;
  sled_apply_batch : Tr -> list (list Z * list Z) -> res string Tr;
  sled_flush : Tr -> res string unit;
  sled_range : Tr -> list Z -> list Z -> res string (list (list Z * list Z));
  sled_len : Tr -> nat
}.

(** [tree.get(k).ok().flatten()]: an I/O error reads as an absent key. *)
Definition view {Tr} `{Sled Tr} (t : Tr) (k : list Z) : option (list Z) :=
  match sled_get t k with Ok o => o | _ => None end.

(** The last value a batch writes under a key. *)
Fixpoint batch_get (ops : list (list Z * list Z)) (k : list Z) : option (list Z) :=
  match ops with
  | [] => None
  | (k', v) :: ops' =>
      match batch_get ops' k with
      | Some v' => Some v'
      | None => if decide (k' = k) then Some v else None
      end
  end.

Class SledLaws (Tr : Type) `{Sled Tr} : Prop := {
  sled_get_new : forall k, view (sled_new : Tr) k = None;
  sled_get_insert : forall (t t' : Tr) k v k', sled_insert t k v = Ok t' ->
    view t' k' = if decide (k = k') then Some v else view t k';
  sled_get_batch : forall (t t' : Tr) ops k, sled_apply_batch t ops = Ok t' ->
    view t' k = match batch_get ops k with Some v => Some v | None => view t k end;
  sled_range_sorted : forall (t : Tr) lo hi l, sled_range t lo hi = Ok l ->
    StronglySorted (fun p q => bytes_ltb p.1 q.1 = true) l;
  sled_range_elem : forall (t : Tr) lo hi l k v, sled_range t lo hi = Ok l ->
    ((k, v) ∈ l <-> view t k = Some v /\ bytes_ltb k lo = false /\ bytes_ltb hi k = false)
}.

Class SledHealthy (Tr : Type) `{Sled Tr} : Prop := {
  sled_get_ok : forall (t : Tr) k, sled_get t k = Ok (view t k);
  sled_insert_ok : forall (t : Tr) k v, exists t', sled_insert t k v = Ok t';
  sled_batch_ok : forall (t : Tr) ops, exists t', sled_apply_batch t ops = Ok t';
  sled_flush_ok : forall (t : Tr), sled_flush t = Ok tt;
  sled_range_ok : forall (t : Tr) lo hi, exists l, sled_range t lo hi = Ok l
}.

(** ** A finite-map instance *)

Definition bytes_le (p q : list Z * list Z) : Prop := bytes_ltb q.1 p.1 = false.

#[global] Instance bytes_le_dec : RelDecision bytes_le.
Proof. intros p q. unfold bytes_le. apply _. Defined.

#[global] Instance mem_tree : Sled (gmap (list Z) (list Z)) := {|
  sled_new := ∅;
  sled_get := fun t k => Ok (t !! k);
  sled_insert := fun t k v => Ok (<[k:=v]> t);
  sled_apply_batch := fun t ops => Ok (fold_left (fun t p => <[p.1:=p.2]> t) ops t);
  sled_flush := fun _ => Ok tt;
  sled_range := fun t lo hi =>
    Ok (merge_sort bytes_le
      (filter (fun p => bytes_ltb p.1 lo = false /\ bytes_ltb hi p.1 = false) (map_to_list t)));
  sled_len := size
|}.

Lemma bytes_ltb_trans l k m :
  bytes_ltb l k = true -> bytes_ltb k m = true -> bytes_ltb l m = true.
Proof.
  revert k m; induction l as [|a l IH]; intros [|b k] [|c m]; simpl; try done.
  destruct (Z.ltb_spec a b), (Z.ltb_spec b c), (Z.ltb_spec a c); try done; try lia;
    destruct (Z.eqb_spec a b), (Z.eqb_spec b c), (Z.eqb_spec a c); try done; try lia.
  apply IH.
Qed.

Lemma bytes_ltb_total l k : bytes_ltb l k = false -> bytes_ltb k l = false -> l = k.
Proof.
  revert k; induction l as [|a l IH]; intros [|b k]; simpl; try done.
  destruct (Z.ltb_spec a b), (Z.ltb_spec b a); try done; try lia.
  destruct (Z.eqb_spec a b), (Z.eqb_spec b a); try done; try lia. subst.
  intros ??. f_equal. by apply IH.
Qed.

Lemma bytes_ltb_asym l k : bytes_ltb l k = true -> bytes_ltb k l = false.
Proof.
  intros H1. destruct (bytes_ltb k l) eqn:H2; [|done].
  pose proof (bytes_ltb_trans _ _ _ H1 H2). by rewrite bytes_ltb_irrefl in H.
Qed.

#[local] Instance bytes_le_total : Total bytes_le.
Proof.
  intros [p ?] [q ?]. unfold bytes_le; simpl.
  destruct (bytes_ltb q p) eqn:E; [right|by left]. by apply bytes_ltb_asym.
Qed.

#[local] Instance bytes_le_trans : Transitive bytes_le.
Proof.
  intros [p ?] [q ?] [r ?]. unfold bytes_le; simpl. intros Hqp Hrq.
  destruct (bytes_ltb r p) eqn:E; [|done]. exfalso.
  destruct (bytes_ltb p q) eqn:Epq.
  - pose proof (bytes_ltb_trans _ _ _ E Epq). congruence.
  - pose proof (bytes_ltb_total _ _ Epq Hqp). congruence.
Qed.

Lemma sorted_strict (l : list (list Z * list Z)) :
  StronglySorted bytes_le l -> NoDup l.*1 ->
  StronglySorted (fun p q => bytes_ltb p.1 q.1 = true) l.
Proof.
  induction 1 as [|p l Hs IH Hp]; intros Hnd; constructor.
  - apply IH. by inversion Hnd.
  - inversion_clear Hnd as [|?? Hni Hnd']. rewrite Forall_forall in *.
    intros q Hq. specialize (Hp q Hq). unfold bytes_le in Hp.
    destruct (bytes_ltb p.1 q.1) eqn:E; [done|]. exfalso. apply Hni.
    rewrite (bytes_ltb_total _ _ E Hp). apply list_elem_of_fmap. eauto.
Qed.

Lemma NoDup_fst_filter (P : list Z * list Z -> Prop) `{!forall p, Decision (P p)} l :
  NoDup l.*1 -> NoDup (filter P l).*1.
Proof.
  induction l as [|p l IH]; simpl; [done|]. intros [Hni Hnd]%NoDup_cons.
  destruct (decide (P p)).
  - rewrite filter_cons_True by done. simpl. constructor; [|by apply IH].
    intros (q & Hq & [_ Hin]%list_elem_of_filter)%list_elem_of_fmap. apply Hni.
    apply list_elem_of_fmap. eauto.
  - rewrite filter_cons_False by done. by apply IH.
Qed.

#[global] Instance mem_tree_laws : SledLaws (gmap (list Z) (list Z)).
Proof.
  split; unfold view; simpl.
  - intros k. apply lookup_empty.
  - intros t t' k v k' [= <-]. by rewrite lookup_insert.
  - intros t t' ops k [= <-]. revert t; induction ops as [|[k' v] ops IH]; intros t; simpl; [done|].
    rewrite IH. destruct (batch_get ops k); [done|]. by rewrite lookup_insert; case_decide.
  - intros t lo hi l [= <-].
    apply sorted_strict; [apply StronglySorted_merge_sort; apply _|].
    rewrite merge_sort_Permutation. apply NoDup_fst_filter, NoDup_fst_map_to_list.
  - intros t lo hi l k v [= <-].
    rewrite merge_sort_Permutation, list_elem_of_filter, elem_of_map_to_list. simpl. tauto.
Qed.

#[global] Instance mem_tree_healthy : SledHealthy (gmap (list Z) (list Z)).
Proof. split; simpl; eauto. Qed.

(** ** A store that fails

    [limited] accepts a number of writes and refuses the others, reads being served:
    its contents after the last accepted write are those of a store whose process
    stopped there. *)

Record limited := Limited { writes_left : nat; limited_map : gmap (list Z) (list Z) }.

Definition spend (t : limited) (m : gmap (list Z) (list Z)) : res string limited :=
  match writes_left t with
  | O => Err "io"%string
  | S n => Ok (Limited n m)
  end.

#[global] Instance limited_sled : Sled limited := {|
  sled_new := Limited 0 ∅;
  sled_get := fun t k => sled_get (limited_map t) k;
  sled_insert := fun t k v => spend t (<[k:=v]> (limited_map t));
  sled_apply_batch := fun t ops => spend t (fold_left (fun m p => <[p.1:=p.2]> m) ops (limited_map t));
  sled_flush := fun _ => Ok tt;
  sled_range := fun t lo hi => sled_range (limited_map t) lo hi;
  sled_len := fun t => sled_len (limited_map t)
|}.

#[global] Instance limited_laws : SledLaws limited.
Proof.
  split; intros *.
  - exact (sled_get_new (Tr := gmap (list Z) (list Z)) k).
  - destruct t as [[|n] m]; [done|]. intros [= <-].
    exact (sled_get_insert m (<[k:=v]> m) k v k' eq_refl).
  - destruct t as [[|n] m]; [done|]. intros [= <-]. exact (sled_get_batch m _ ops k eq_refl).
  - exact (sled_range_sorted (limited_map t) lo hi l).
  - exact (sled_range_elem (limited_map t) lo hi l k v).
Qed.
