(* ===== verification/StateTree.v ===== *)
(** * The state tree

    [protocol/src/storage/state.rs]: the 256-level sparse Merkle tree over a
    sled tree, its inclusion and exclusion proofs, and the transfer primitive.

    The abstract state is a finite map [A] from 32-byte keys to accounts.
    [H l k A] is the hash the tree assigns to the level-[l] node on the path of
    [k]; it is defined from [A] alone.  [tree_inv] says that the node store
    represents [A]; every operation is proved to refine its effect on [A].
    Account serialization (bincode) is the class [AccountCodec], with the order in which
    the [HashMap] of commitments is iterated. *)

From S2P Require Import Prelude Bytes Crypto Sled.

#[local] Open Scope Z_scope.

Definition TREE_DEPTH : nat := 256.

Record AccountState := mkAccount {
  nonce : Z;
  balance : Z;
  balance_commitments : gmap string (list Z);
  credit_lines : list string;
  frozen : bool
}.

(** [AccountState::default]. *)
Definition default_account : AccountState := mkAccount 0 0 ∅ [] false.

Definition with_balance (b : Z) : AccountState := mkAccount 0 b ∅ [] false.

(** [bincode]: the fields one after the other, a [HashMap] as the sequence of its entries
    in the order in which it is iterated.  That order is random: it differs between
    processes, and between maps of one process.  Here it is a function of the entries,
    another one for each node ([with_order]); for a map of at most one entry that is no
    choice, and no code under src/ ever adds an entry to the commitments of an account.
    With two entries or more the theorems about one node speak of runs in which that
    node lists equal maps alike. *)
Class AccountCodec := {
  map_order : gmap string (list Z) -> list (string * list Z);
  bincode : Z -> Z -> list (string * list Z) -> list string -> bool -> list Z;
  from_bytes : list Z -> option AccountState
}.

Definition to_bytes {K : AccountCodec} (s : AccountState) : list Z :=
  bincode (nonce s) (balance s) (map_order (balance_commitments s)) (credit_lines s) (frozen s).

(** Whatever the order was, the account is read back. *)
Class AccountCodecLaws (K : AccountCodec) : Prop := {
  map_order_perm : forall m, map_order m ≡ₚ map_to_list m;
  bincode_roundtrip : forall s entries, entries ≡ₚ map_to_list (balance_commitments s) ->
    from_bytes (bincode (nonce s) (balance s) entries (credit_lines s) (frozen s)) = Some s
}.

Lemma account_roundtrip {K : AccountCodec} {KL : AccountCodecLaws K} s : from_bytes (to_bytes s) = Some s.
Proof. apply bincode_roundtrip, map_order_perm. Qed.

(** The same code where maps are iterated in another order. *)
Definition with_order (o : gmap string (list Z) -> list (string * list Z)) (K : AccountCodec) : AccountCodec :=
  {| map_order := o; bincode := bincode; from_bytes := from_bytes |}.

Definition an_order (o : gmap string (list Z) -> list (string * list Z)) : Prop := forall m, o m ≡ₚ map_to_list m.

Lemma with_order_laws o (K : AccountCodec) : AccountCodecLaws K -> an_order o -> AccountCodecLaws (with_order o K).
Proof. intros HK Ho. split; [exact Ho|]. intros s entries Hp. by apply (bincode_roundtrip (AccountCodecLaws := HK)). Qed.

(** Accounts whose bytes do not depend on the order: those with at most one commitment.
    No code of the repository gives an account any. *)
Definition order_free (s : AccountState) : Prop := (size (balance_commitments s) <= 1)%nat.

Definition all_order_free {X} `{Countable X} (A : gmap X AccountState) : Prop := forall k s, A !! k = Some s -> order_free s.

Lemma no_commitments s : balance_commitments s = ∅ -> order_free s.
Proof. unfold order_free. intros ->. rewrite map_size_empty. lia. Qed.

Lemma all_order_free_empty {X} `{Countable X} : all_order_free (∅ : gmap X AccountState).
Proof. intros k s Hs. by rewrite lookup_empty in Hs. Qed.

Lemma all_order_free_insert {X} `{Countable X} k s (A : gmap X AccountState) :
  order_free s -> all_order_free A -> all_order_free (<[k := s]> A).
Proof. intros Hs HA k' s' [[_ <-]|[_ Hk']]%lookup_insert_Some; [done|by eapply HA]. Qed.

Lemma order_free_list (m : gmap string (list Z)) (l : list (string * list Z)) :
  (size m <= 1)%nat -> l ≡ₚ map_to_list m -> l = map_to_list m.
Proof.
  intros Hs Hp. rewrite <- length_map_to_list in Hs. destruct (map_to_list m) as [|x [|y k]]; cbn in Hs; [| |lia].
  - by apply Permutation_nil_r in Hp.
  - by apply Permutation_singleton_r in Hp.
Qed.

Lemma to_bytes_order o {K : AccountCodec} {KL : AccountCodecLaws K} s :
  an_order o -> order_free s -> to_bytes (K := with_order o K) s = to_bytes s.
Proof.
  intros Ho Hs. unfold to_bytes. cbn [map_order bincode with_order].
  by rewrite (order_free_list _ _ Hs (Ho _)), (order_free_list _ _ Hs (map_order_perm _)).
Qed.

(** A codec for the witnesses: one number per account. *)
#[global] Instance AccountState_eq_dec : EqDecision AccountState.
Proof. solve_decision. Defined.

Definition account_tuple (s : AccountState) :=
  (nonce s, balance s, balance_commitments s, credit_lines s, frozen s).

#[global] Instance AccountState_countable : Countable AccountState.
Proof.
  refine (inj_countable' account_tuple
    (fun '(n, b, bc, cl, fr) => mkAccount n b bc cl fr) _). by intros [].
Defined.

Definition toy_account_codec : AccountCodec := {|
  map_order := map_to_list;
  bincode := fun n b entries cl fr => [Zpos (encode (n, b, entries, cl, fr))];
  from_bytes := fun l =>
    match l with
    | [Zpos p] =>
        match decode p with
        | Some (n, b, entries, cl, fr) => Some (mkAccount n b (list_to_map (entries : list (string * list Z))) cl fr)
        | None => None
        end
    | _ => None
    end
|}.

#[global] Instance toy_account_codec_laws : AccountCodecLaws toy_account_codec.
Proof.
  split; [done|]. intros [n b m cl fr] entries Hp. cbn in *. rewrite decode_encode.
  assert (NoDup entries.*1) as Hnd by (rewrite Hp; apply NoDup_fst_map_to_list).
  by rewrite (list_to_map_proper _ _ Hnd Hp), list_to_map_to_list.
Qed.

Definition backwards (m : gmap string (list Z)) : list (string * list Z) := reverse (map_to_list m).

Lemma backwards_order : an_order backwards.
Proof. intros m. apply reverse_Permutation. Qed.

(** With two commitments the order shows. *)
Example bytes_show_order :
  let s := mkAccount 0 0 {[ "a"%string := [1]; "b"%string := [2] ]} [] false in
  to_bytes (K := toy_account_codec) s <> to_bytes (K := with_order backwards toy_account_codec) s.
Proof. vm_compute. discriminate. Qed.

Record MerkleProof := mkProof { siblings : list (list Z); path_bits : list bool }.

Inductive StateError :=
| InsufficientBalance (have need : Z)
| AccountFrozen (address : string)
| Db (msg : string)
| Serialization (msg : string).

(** ** Key bits *)

Definition get_bit (key : list Z) (bit_index : nat) : bool :=
  let byte_idx := (bit_index / 8)%nat in
  let bit_idx := Z.of_nat (7 - bit_index mod 8) in
  Z.land (Z.shiftr (nth byte_idx key 0) bit_idx) 1 =? 1.

Definition bit_at_level (key : list Z) (level : nat) : bool := get_bit key (TREE_DEPTH - level).

(** ** Node storage keys *)

(** [0xFFu8 << (8 - remainder)], as a byte. *)
Definition mask_of (remainder : nat) : Z := Z.land (Z.shiftl 255 (8 - Z.of_nat remainder)) 255.

(** The first [prefix_bits] bits of the key, packed, the rest of the last byte zeroed. *)
Definition key_prefix (key : list Z) (prefix_bits : nat) : list Z :=
  let len := ((prefix_bits + 7) / 8)%nat in
  let prefix := take len key in
  let remainder := (prefix_bits mod 8)%nat in
  if bool_decide (remainder = 0%nat) then prefix
  else <[(len - 1)%nat := Z.land (nth (len - 1) key 0) (mask_of remainder)]> prefix.

Definition storage_key_for_node (key : list Z) (level : nat) : list Z :=
  be_bytes 2 (Z.of_nat level) ++ key_prefix key (TREE_DEPTH - level).

Definition flip_bit (key : list Z) (bit_index : nat) : list Z :=
  let byte_idx := (bit_index / 8)%nat in
  let bit_idx := Z.of_nat (7 - bit_index mod 8) in
  <[byte_idx := Z.lxor (nth byte_idx key 0) (Z.shiftl 1 bit_idx)]> key.

Definition storage_key_for_sibling (key : list Z) (level : nat) : list Z :=
  storage_key_for_node (flip_bit key (TREE_DEPTH - level)) (level - 1).

Definition leaf_value_key (key : list Z) : list Z := str_bytes "v:" ++ key.

Section StateTree.
Context {C : Crypto} {K : AccountCodec} {Tr : Type} `{Sled Tr}.

(** ** Hashing *)

Fixpoint default_hashes_from (n : nat) (d : list Z) : list (list Z) :=
  d :: match n with O => [] | S n' => default_hashes_from n' (blake3_hash (d ++ d)) end.

Definition compute_default_hashes : list (list Z) :=
  default_hashes_from TREE_DEPTH (replicate 32 0).

Definition leaf_hash (key value_bytes : list Z) : list Z := blake3_hash (key ++ value_bytes).

Definition combine_hashes (left right : list Z) : list Z := blake3_hash (left ++ right).

Definition address_to_key (address : string) : list Z := blake3_hash (str_bytes address).

(** ** The tree *)

Record StateTree := mkTree { st_tree : Tr; st_root : list Z }.

Definition state_tree_new (db : Tr) : StateTree :=
  mkTree db (nth TREE_DEPTH compute_default_hashes []).

Definition from_root (db : Tr) (root : list Z) : StateTree := mkTree db root.

Definition root (self : StateTree) : list Z := st_root self.

Definition tree_get (address : string) (self : StateTree) : option AccountState :=
  match view (st_tree self) (leaf_value_key (address_to_key address)) with
  | Some bytes => from_bytes bytes
  | None => None
  end.

(** The sibling hash read at a level: the stored node if it is 32 bytes long,
    the default hash of the level below otherwise. *)
Definition read_sibling (defaults : list (list Z)) (t : Tr) (key : list Z) (level : nat) : list Z :=
  match view t (storage_key_for_sibling key level) with
  | Some bytes => if bool_decide (length bytes = 32%nat) then bytes else nth (level - 1) defaults []
  | None => nth (level - 1) defaults []
  end.

(** [tree.insert(k, v).expect(..)]. *)
Definition tree_insert {E} (k v : list Z) : M StateTree E unit := fun self =>
  match sled_insert (st_tree self) k v with
  | Ok t' => (Ok tt, mkTree t' (st_root self))
  | _ => (Panic, self)
  end.

(** The body of the leaf-to-root loop of [put]. *)
Definition put_level {E} (key : list Z) (sibs : list (list Z)) (level : nat) (current : list Z)
    : M StateTree E (list Z) :=
  let bit := bit_at_level key level in
  let sibling := nth (level - 1) sibs [] in
  let '(left_child, right_child) := if bit then (sibling, current) else (current, sibling) in
  let current' := combine_hashes left_child right_child in
  _ ← tree_insert (storage_key_for_node key level) current';
  mret current'.

Definition tree_put {E} (address : string) (state : AccountState) : M StateTree E unit :=
  self ← get;
  let key := address_to_key address in
  let defaults := compute_default_hashes in
  let siblings_top_down :=
    (fun level => read_sibling defaults (st_tree self) key level) <$> reverse (seq 1 TREE_DEPTH) in
  let sibs := reverse siblings_top_down in
  let value_bytes := to_bytes state in
  _ ← tree_insert (leaf_value_key key) value_bytes;
  let leaf := leaf_hash key value_bytes in
  _ ← tree_insert (storage_key_for_node key 0) leaf;
  current ← fold_each (seq 1 TREE_DEPTH) (put_level key sibs) leaf;
  modify (fun s => mkTree (st_tree s) current).

Definition get_proof (address : string) (self : StateTree) : MerkleProof :=
  let key := address_to_key address in
  let defaults := compute_default_hashes in
  mkProof ((fun level => read_sibling defaults (st_tree self) key level) <$> seq 1 TREE_DEPTH)
          ((fun level => bit_at_level key level) <$> seq 1 TREE_DEPTH).

(** One step of the verifier's walk to the root. *)
Definition verify_step (current : list Z) (p : list Z * bool) : list Z :=
  let '(sibling, bit) := p in
  let '(left_child, right_child) := if (bit : bool) then (sibling, current) else (current, sibling) in
  combine_hashes left_child right_child.

Definition verify_proof (root : list Z) (address : string) (value : option AccountState)
    (proof : MerkleProof) : bool :=
  if negb (bool_decide (length (siblings proof) = TREE_DEPTH))
     || negb (bool_decide (length (path_bits proof) = TREE_DEPTH)) then false
  else
    let key := address_to_key address in
    let leaf := match value with
                | Some state => leaf_hash key (to_bytes state)
                | None => nth 0 compute_default_hashes []
                end in
    bool_decide (fold_left verify_step (zip (siblings proof) (path_bits proof)) leaf = root).

(** ** Transfers *)

Definition apply_transfer (sender receiver : string) (amount : Z) : M StateTree StateError unit :=
  tree ← get;
  let sender_state := default default_account (tree_get sender tree) in
  require (negb (frozen sender_state)) else (AccountFrozen sender);
  require (negb (balance sender_state <? amount))
    else (InsufficientBalance (balance sender_state) amount);
  new_balance ← u64_sub (balance sender_state) amount;
  new_nonce ← u64_add (nonce sender_state) 1;
  _ ← tree_put sender (mkAccount new_nonce new_balance (balance_commitments sender_state)
        (credit_lines sender_state) (frozen sender_state));
  tree ← get;
  let receiver_state := default default_account (tree_get receiver tree) in
  new_balance ← u64_add (balance receiver_state) amount;
  tree_put receiver (mkAccount (nonce receiver_state) new_balance
    (balance_commitments receiver_state) (credit_lines receiver_state) (frozen receiver_state)).
End StateTree.

Arguments StateTree Tr : clear implicits.
Arguments mkTree {Tr} _ _.
