(* ===== verification/StateTreeBits.v ===== *)
(** * Addressing in the state tree

    Bit-level facts on the 256-bit keys of [StateTree]: what [get_bit] reads,
    what [flip_bit] changes, and that a node's storage key is exactly its level
    and the bits of the path above it. *)

From S2P Require Import Prelude Bytes StateTree.

#[local] Open Scope Z_scope.

Definition key_ok (k : list Z) : Prop := length k = 32%nat /\ Forall byte_ok k.

(** [agree n k k']: the first [n] bits of the keys are the same. *)
Definition agree (n : nat) (k k' : list Z) : Prop :=
  forall i, (i < n)%nat -> get_bit k i = get_bit k' i.

(** ** Bytes and bits *)

Lemma byte_testbit_high b i : byte_ok b -> 8 <= i -> Z.testbit b i = false.
Proof.
  unfold byte_ok. intros Hb Hi. destruct (decide (b = 0)) as [->|]; [apply Z.bits_0|].
  apply Z.bits_above_log2; [lia|]. assert (Z.log2 b < 8); [|lia].
  apply Z.log2_lt_pow2; simpl; lia.
Qed.

Lemma byte_bits_inj b c :
  byte_ok b -> byte_ok c -> (forall i, 0 <= i < 8 -> Z.testbit b i = Z.testbit c i) -> b = c.
Proof.
  intros Hb Hc Heq. apply Z.bits_inj'. intros i Hi.
  destruct (decide (i < 8)); [apply Heq; lia|].
  rewrite !byte_testbit_high by (done || lia). done.
Qed.

Lemma byte_ok_bits b : 0 <= b -> (forall i, 8 <= i -> Z.testbit b i = false) -> byte_ok b.
Proof.
  intros H0 Hb. unfold byte_ok. split; [done|]. destruct (decide (b = 0)) as [->|]; [lia|].
  change 256 with (2 ^ 8). apply Z.log2_lt_pow2; [lia|].
  destruct (decide (Z.log2 b < 8)); [done|]. exfalso.
  pose proof (Z.bit_log2 b ltac:(lia)) as Hl. rewrite Hb in Hl by lia. done.
Qed.

Lemma nth_byte_ok k j : Forall byte_ok k -> byte_ok (nth j k 0).
Proof.
  intros Hk. destruct (decide (j < length k)%nat).
  - rewrite Forall_nth in Hk. by apply Hk.
  - rewrite nth_overflow by lia. unfold byte_ok. lia.
Qed.

Lemma get_bit_testbit k i :
  get_bit k i = Z.testbit (nth (i / 8) k 0) (Z.of_nat (7 - i mod 8)).
Proof.
  unfold get_bit. rewrite <- (Z.add_0_l (Z.of_nat (7 - i mod 8))) at 2.
  rewrite <- Z.shiftr_spec by lia. rewrite Z.bit0_odd.
  set (x := Z.shiftr _ _). change 1 with (Z.ones 1) at 1. rewrite Z.land_ones by lia.
  change (2 ^ 1) with 2. rewrite Zmod_odd. by destruct (Z.odd x).
Qed.

Lemma get_bit_byte k j b :
  0 <= b < 8 -> get_bit k (8 * j + (7 - Z.to_nat b)) = Z.testbit (nth j k 0) b.
Proof.
  intros Hb. rewrite get_bit_testbit.
  replace ((8 * j + (7 - Z.to_nat b)) / 8)%nat with j
    by (apply (Nat.div_unique _ 8 j (7 - Z.to_nat b)); lia).
  replace ((8 * j + (7 - Z.to_nat b)) mod 8)%nat with (7 - Z.to_nat b)%nat
    by (apply (Nat.mod_unique _ 8 j); lia).
  f_equal. lia.
Qed.

(** ** Agreement *)

Lemma agree_sym n k k' : agree n k k' -> agree n k' k.
Proof. intros Ha i Hi. symmetry. by apply Ha. Qed.

Lemma agree_trans n k k' k'' : agree n k k' -> agree n k' k'' -> agree n k k''.
Proof. intros Ha Hb i Hi. rewrite Ha by done. by apply Hb. Qed.

Lemma agree_weaken n m k k' : (m <= n)%nat -> agree n k k' -> agree m k k'.
Proof. intros Hm Ha i Hi. apply Ha. lia. Qed.

Lemma agree_S n k k' : agree (S n) k k' <-> agree n k k' /\ get_bit k n = get_bit k' n.
Proof.
  split.
  - intros Ha. split; [|apply Ha; lia]. intros i Hi. apply Ha. lia.
  - intros [Ha Hn] i Hi. destruct (decide (i = n)) as [->|]; [done|]. apply Ha. lia.
Qed.

#[global] Instance agree_dec n k k' : Decision (agree n k k').
Proof.
  refine (cast_if (decide (Forall (fun i => get_bit k i = get_bit k' i) (seq 0 n))));
    unfold agree; rewrite Forall_seq in *; [intros i Hi; apply f; lia|].
  intros Ha. apply n0. intros i Hi. apply Ha. lia.
Defined.

Lemma agree_full k k' : key_ok k -> key_ok k' -> agree 256 k k' -> k = k'.
Proof.
  intros [Hl Hk] [Hl' Hk'] Ha. apply (nth_ext _ _ 0 0); [congruence|].
  intros j Hj. apply byte_bits_inj; [by apply nth_byte_ok..|].
  intros b Hb. rewrite <- !get_bit_byte by done. apply Ha. lia.
Qed.

(** ** Flipping a bit *)

Lemma nth_insert (k : list Z) i j x :
  nth j (<[i:=x]> k) 0 = if decide (i = j /\ (i < length k)%nat) then x else nth j k 0.
Proof.
  rewrite !nth_lookup. destruct (decide (i = j /\ _)) as [[-> Hi]|Hn].
  - by rewrite list_lookup_insert_eq.
  - destruct (decide (i = j)) as [->|].
    + rewrite list_insert_ge by lia. done.
    + by rewrite list_lookup_insert_ne.
Qed.

Lemma flip_bit_ok k i : key_ok k -> (i < 256)%nat -> key_ok (flip_bit k i).
Proof.
  intros [Hl Hk] Hi. unfold flip_bit. split; [by rewrite length_insert|].
  apply Forall_insert; [done|]. pose proof (nth_byte_ok k (i / 8) Hk) as Hb.
  apply byte_ok_bits.
  - apply Z.lxor_nonneg. unfold byte_ok in Hb. rewrite Z.shiftl_nonneg. lia.
  - intros b Hb8. rewrite Z.lxor_spec, byte_testbit_high, Z.shiftl_spec by (done || lia).
    rewrite xorb_false_l. rewrite Z.bits_above_log2; simpl; lia.
Qed.

Lemma get_bit_flip k i j :
  key_ok k -> (i < 256)%nat -> (j < 256)%nat ->
  get_bit (flip_bit k i) j = xorb (get_bit k j) (bool_decide (i = j)).
Proof.
  intros [Hl Hk] Hi Hj. rewrite !get_bit_testbit. unfold flip_bit. rewrite nth_insert.
  assert (i / 8 < 32)%nat by (apply Nat.div_lt_upper_bound; lia).
  pose proof (Nat.mod_upper_bound i 8). pose proof (Nat.mod_upper_bound j 8).
  pose proof (Nat.div_mod_eq i 8). pose proof (Nat.div_mod_eq j 8).
  destruct (decide (i / 8 = j / 8 /\ _)%nat) as [[Hij _]|Hn].
  - rewrite Hij, Z.lxor_spec. f_equal. rewrite Z.shiftl_spec by lia.
    destruct (decide (i = j)) as [->|Hne].
    + rewrite Z.sub_diag, bool_decide_true; done.
    + rewrite bool_decide_false by done.
      destruct (decide (7 - j mod 8 < 7 - i mod 8)%nat); [apply Z.testbit_neg_r; lia|].
      apply Z.bits_above_log2; [lia|]. change (Z.log2 1) with 0. lia.
  - rewrite bool_decide_false by (intros ->; apply Hn; split; [done|lia]). by rewrite xorb_false_r.
Qed.

Lemma flip_bit_self k i :
  key_ok k -> (i < 256)%nat -> get_bit (flip_bit k i) i = negb (get_bit k i).
Proof. intros Hk Hi. rewrite get_bit_flip, bool_decide_true by done. by destruct (get_bit k i). Qed.

Lemma flip_bit_agree k i : key_ok k -> (i < 256)%nat -> agree i (flip_bit k i) k.
Proof.
  intros Hk Hi j Hj. rewrite get_bit_flip, bool_decide_false by (done || lia).
  apply xorb_false_r.
Qed.

Lemma flip_bit_involutive k i : key_ok k -> (i < 256)%nat -> flip_bit (flip_bit k i) i = k.
Proof.
  intros Hk Hi. apply agree_full; [|done|]; [by do 2 (apply flip_bit_ok; [|done])|].
  intros j Hj. rewrite !get_bit_flip by (done || by apply flip_bit_ok).
  destruct (get_bit k j); by case_bool_decide.
Qed.

Lemma agree_flip n k k' i :
  key_ok k -> key_ok k' -> (i < 256)%nat -> (n <= 256)%nat ->
  agree n k k' -> agree n (flip_bit k i) (flip_bit k' i).
Proof. intros Hk Hk' Hi Hn Ha j Hj. rewrite !get_bit_flip by (done || lia). by rewrite Ha. Qed.

(** ** Storage keys *)

Lemma key_prefix_length k n :
  key_ok k -> (n <= 256)%nat -> length (key_prefix k n) = ((n + 7) / 8)%nat.
Proof.
  intros [Hl _] Hn. assert ((n + 7) / 8 <= 32)%nat by (apply Nat.lt_succ_r, Nat.div_lt_upper_bound; lia).
  unfold key_prefix. case_bool_decide; rewrite ?length_insert, length_take; lia.
Qed.

Lemma mask_of_testbit r b :
  (0 < r < 8)%nat -> 0 <= b < 8 -> Z.testbit (mask_of r) b = bool_decide (7 - b < Z.of_nat r).
Proof.
  intros Hr Hb. unfold mask_of. rewrite Z.land_spec, Z.shiftl_spec by lia.
  change 255 with (Z.ones 8). rewrite (Z.ones_spec_low 8 b) by lia. rewrite andb_true_r.
  case_bool_decide.
  - apply Z.ones_spec_low. lia.
  - apply Z.testbit_neg_r. lia.
Qed.

Lemma nth_take_lt (k : list Z) n j : (j < n)%nat -> nth j (take n k) 0 = nth j k 0.
Proof. intros Hj. rewrite !nth_lookup, lookup_take. by case_decide. Qed.

Lemma key_prefix_bit k n j b :
  key_ok k -> (n <= 256)%nat -> (j < (n + 7) / 8)%nat -> 0 <= b < 8 ->
  Z.testbit (nth j (key_prefix k n) 0) b =
  Z.testbit (nth j k 0) b && bool_decide (8 * Z.of_nat j + 7 - b < Z.of_nat n).
Proof.
  intros [Hl Hk] Hn Hj Hb. unfold key_prefix.
  pose proof (Nat.div_mod_eq n 8) as Hdm. pose proof (Nat.mod_upper_bound n 8).
  pose proof (Nat.div_mod_eq (n + 7) 8) as Hdm7. pose proof (Nat.mod_upper_bound (n + 7) 8).
  assert ((n + 7) / 8 <= 32)%nat by (apply Nat.lt_succ_r, Nat.div_lt_upper_bound; lia).
  case_bool_decide as Hr.
  - rewrite nth_take_lt, bool_decide_true by (done || lia). by rewrite andb_true_r.
  - rewrite nth_insert, length_take. case_decide as Hc.
    + destruct Hc as [<- _]. rewrite Z.land_spec, mask_of_testbit by lia. f_equal.
      apply bool_decide_ext. lia.
    + rewrite nth_take_lt, bool_decide_true by (done || lia). by rewrite andb_true_r.
Qed.

Lemma key_prefix_ok k n : key_ok k -> Forall byte_ok (key_prefix k n).
Proof.
  intros [Hl Hk]. unfold key_prefix. case_bool_decide; [by apply Forall_take|].
  apply Forall_insert; [by apply Forall_take|]. apply byte_ok_bits.
  - apply Z.land_nonneg. left. apply (nth_byte_ok k). done.
  - intros i Hi. rewrite Z.land_spec, byte_testbit_high; [done|by apply nth_byte_ok|done].
Qed.

Lemma key_prefix_agree k k' n :
  key_ok k -> key_ok k' -> (n <= 256)%nat ->
  (key_prefix k n = key_prefix k' n <-> agree n k k').
Proof.
  intros Hk Hk' Hn. split.
  - intros Heq i Hi.
    pose proof (Nat.div_mod_eq i 8). pose proof (Nat.mod_upper_bound i 8).
    assert (i / 8 < (n + 7) / 8)%nat as Hj
      by (pose proof (Nat.div_mod_eq (n + 7) 8); pose proof (Nat.mod_upper_bound (n + 7) 8); lia).
    assert (forall x, key_ok x -> get_bit x i =
      Z.testbit (nth (i / 8) (key_prefix x n) 0) (Z.of_nat (7 - i mod 8))) as Hb.
    { intros x Hx. rewrite get_bit_testbit, key_prefix_bit, bool_decide_true by (done || lia).
      by rewrite andb_true_r. }
    by rewrite !Hb, Heq.
  - intros Ha. apply (nth_ext _ _ 0 0); [by rewrite !key_prefix_length|].
    rewrite key_prefix_length by done. intros j Hj.
    apply byte_bits_inj; [by apply nth_byte_ok, key_prefix_ok..|].
    intros b Hb. rewrite !key_prefix_bit by done.
    case_bool_decide as Hc; [|by rewrite !andb_false_r].
    rewrite !andb_true_r, <- !get_bit_byte by done. apply Ha. lia.
Qed.

(** Two nodes share a storage key exactly when they are the same node. *)
Lemma storage_key_inj k k' l l' :
  key_ok k -> key_ok k' -> (l <= 256)%nat -> (l' <= 256)%nat ->
  (storage_key_for_node k l = storage_key_for_node k' l' <-> l = l' /\ agree (256 - l) k k').
Proof.
  intros Hk Hk' Hl Hl'. unfold storage_key_for_node. split.
  - intros [Hlev Hp]%(app_fixed_inj 2); [|apply length_be_bytes..].
    apply be_bytes_inj in Hlev; [|change (256 ^ Z.of_nat 2) with 65536; lia..].
    assert (l = l') as <- by lia. split; [done|].
    apply key_prefix_agree in Hp; try done. unfold TREE_DEPTH. lia.
  - intros [<- Ha]. f_equal. apply key_prefix_agree; try done. unfold TREE_DEPTH. lia.
Qed.

(** Leaf values live apart from the nodes. *)
Lemma leaf_value_key_ne_node k k' l :
  (l <= 256)%nat -> leaf_value_key k <> storage_key_for_node k' l.
Proof.
  intros Hl [Hlev _]%(app_fixed_inj 2); [|done|apply length_be_bytes].
  change (str_bytes "v:") with (be_bytes 2 30266) in Hlev.
  apply be_bytes_inj in Hlev; change (256 ^ Z.of_nat 2) with 65536; lia.
Qed.

Lemma leaf_value_key_inj k k' : leaf_value_key k = leaf_value_key k' -> k = k'.
Proof. apply app_inv_head. Qed.
