(* ===== verification/StateTreeSpec.v ===== *)
(** * The state tree refines a finite map of accounts

    The abstract state of a [StateTree] is a finite map [A] from 32-byte keys to
    accounts.  [H l k A] is the hash of the level-[l] node on the path of [k],
    defined from [A] alone: two trees with the same accounts have the same root,
    whatever the order of the writes was.  [tree_inv s A] says that the store of
    [s] holds exactly the nodes and values of [A]. *)

From S2P Require Import Prelude Bytes Crypto Sled StateTree StateTreeBits.

#[local] Open Scope Z_scope.

Section Spec.
Context {C : Crypto} {L : CryptoLaws C} {K : AccountCodec} {KL : AccountCodecLaws K}.
Context {Tr : Type} `{S : Sled Tr} {SL : SledLaws Tr} {SH : SledHealthy Tr}.

Implicit Types (A : gmap (list Z) AccountState) (k key : list Z) (l : nat).

(** The hash of an empty subtree of height [l]. *)
Fixpoint empty_hash (l : nat) : list Z :=
  match l with
  | O => replicate 32 0
  | Datatypes.S l' => combine_hashes (empty_hash l') (empty_hash l')
  end.

Fixpoint H (l : nat) (k : list Z) (A : gmap (list Z) AccountState) : list Z :=
  match l with
  | O => match A !! k with Some s => leaf_hash k (to_bytes s) | None => empty_hash 0 end
  | Datatypes.S l' =>
      let i := (255 - l')%nat in
      if get_bit k i then combine_hashes (H l' (flip_bit k i) A) (H l' k A)
      else combine_hashes (H l' k A) (H l' (flip_bit k i) A)
  end.

(** What the code reads at a node position. *)
Definition node_at (t : Tr) (k : list Z) (l : nat) : list Z :=
  match view t (storage_key_for_node k l) with
  | Some bytes => if bool_decide (length bytes = 32%nat) then bytes else empty_hash l
  | None => empty_hash l
  end.

Record store_inv (t : Tr) (A : gmap (list Z) AccountState) : Prop := {
  inv_keys : forall k s, A !! k = Some s -> key_ok k;
  inv_values : forall k, key_ok k -> view t (leaf_value_key k) = to_bytes <$> A !! k;
  inv_nodes : forall k l, key_ok k -> (l <= 256)%nat -> node_at t k l = H l k A
}.

Definition zero_key : list Z := replicate 32 0.

(** The invariant of a state tree: its store represents [A], its root is [A]'s. *)
Record tree_inv (s : StateTree Tr) (A : gmap (list Z) AccountState) : Prop := {
  inv_store : store_inv (st_tree s) A;
  inv_root : st_root s = H 256 zero_key A
}.

(** ** Hashes of the abstract state *)

Lemma zero_key_ok : key_ok zero_key.
Proof. split; [done|]. apply Forall_replicate. unfold byte_ok. lia. Qed.

Lemma address_to_key_ok a : key_ok (address_to_key a).
Proof. split; [apply blake3_length|apply blake3_bytes]. Qed.

Lemma empty_hash_length l : length (empty_hash l) = 32%nat.
Proof. destruct l; [done|]. apply blake3_length. Qed.

Lemma H_length l k A : length (H l k A) = 32%nat.
Proof.
  destruct l; simpl.
  - case_match; [apply blake3_length|done].
  - case_match; apply blake3_length.
Qed.

(** [H] only depends on the bits above the node. *)
Lemma H_agree l k k' A :
  key_ok k -> key_ok k' -> (l <= 256)%nat -> agree (256 - l) k k' -> H l k A = H l k' A.
Proof.
  revert k k'; induction l as [|l IH]; intros k k' Hk Hk' Hl Ha; cbn [H].
  - by rewrite (agree_full k k').
  - set (i := (255 - l)%nat). assert (i < 256)%nat by lia.
    replace (256 - Datatypes.S l)%nat with i in Ha by lia.
    assert (forall x y, key_ok x -> key_ok y -> agree i x y -> get_bit x i = get_bit y i ->
      H l x A = H l y A) as IH'.
    { intros x y Hx Hy Hxy Hb. apply IH; [done..|lia|].
      replace (256 - l)%nat with (Datatypes.S i) by lia. by apply agree_S. }
    pose proof (flip_bit_ok k i Hk ltac:(done)). pose proof (flip_bit_ok k' i Hk' ltac:(done)).
    pose proof (flip_bit_agree k i Hk ltac:(done)) as F.
    pose proof (flip_bit_agree k' i Hk' ltac:(done)) as F'.
    assert (agree i (flip_bit k i) k') by eauto using agree_trans.
    assert (agree i k (flip_bit k' i)) by eauto using agree_trans, agree_sym.
    assert (agree i (flip_bit k i) (flip_bit k' i)) by eauto using agree_trans, agree_sym.
    destruct (get_bit k i) eqn:Eb, (get_bit k' i) eqn:Eb'; f_equal; apply IH';
      rewrite ?flip_bit_self, ?Eb, ?Eb' by done; done.
Qed.

(** A subtree that holds no account has the empty hash. *)
Lemma H_empty_subtree l k A :
  key_ok k -> (l <= 256)%nat ->
  (forall k' s, A !! k' = Some s -> ~ agree (256 - l) k k') -> H l k A = empty_hash l.
Proof.
  revert k; induction l as [|l IH]; intros k Hk Hl Hno; cbn [H empty_hash].
  - destruct (A !! k) eqn:E; [|done]. exfalso. by apply (Hno k a).
  - set (i := (255 - l)%nat). assert (i < 256)%nat by lia.
    rewrite (IH k), (IH (flip_bit k i)); [by destruct (get_bit k i)|..]; try lia;
      auto using flip_bit_ok; intros k' s Hs Ha; apply (Hno k' s Hs);
      replace (256 - Datatypes.S l)%nat with i by lia;
      apply (agree_weaken _ i) in Ha; try lia; [|done].
    eapply agree_trans; [|exact Ha]. by apply agree_sym, flip_bit_agree.
Qed.

(** Writing an account outside a subtree does not change its hash. *)
Lemma H_insert_outside l k key s A :
  key_ok k -> (l <= 256)%nat -> ~ agree (256 - l) k key -> H l k (<[key:=s]> A) = H l k A.
Proof.
  revert k; induction l as [|l IH]; intros k Hk Hl Hno; cbn [H].
  - rewrite lookup_insert_ne; [done|]. intros ->. by apply Hno.
  - set (i := (255 - l)%nat). assert (i < 256)%nat by lia.
    replace (256 - Datatypes.S l)%nat with i in Hno by lia.
    rewrite (IH k), (IH (flip_bit k i)); [done|..]; try lia; auto using flip_bit_ok;
      intros Ha; apply Hno; apply (agree_weaken _ i) in Ha; try lia; [|done].
    eapply agree_trans; [|exact Ha]. by apply agree_sym, flip_bit_agree.
Qed.

(** ** The default hashes *)

Lemma default_hashes_from_nth n d i :
  (i <= n)%nat ->
  nth i (default_hashes_from n d) [] = Nat.iter i (fun h => combine_hashes h h) d.
Proof.
  revert d i; induction n as [|n IH]; intros d [|i] Hi; try done; try lia.
  cbn [default_hashes_from nth]. rewrite IH by lia.
  exact (eq_sym (Nat.iter_succ_r i (list Z) (fun h => combine_hashes h h) d)).
Qed.

Lemma default_hash_nth i : (i <= 256)%nat -> nth i compute_default_hashes [] = empty_hash i.
Proof.
  intros Hi. unfold compute_default_hashes. rewrite default_hashes_from_nth by done.
  clear Hi. induction i as [|i IH]; [done|]. cbn [Nat.iter nat_rect empty_hash].
  by rewrite <- IH.
Qed.

Lemma read_sibling_node t key level :
  (1 <= level <= 256)%nat ->
  read_sibling compute_default_hashes t key level =
  node_at t (flip_bit key (256 - level)) (level - 1).
Proof.
  intros Hl. unfold read_sibling, node_at, storage_key_for_sibling.
  rewrite default_hash_nth by lia. done.
Qed.

(** ** The empty tree *)

Lemma store_inv_new : store_inv (sled_new : Tr) ∅.
Proof.
  split.
  - intros k s Hs. by rewrite lookup_empty in Hs.
  - intros k Hk. by rewrite sled_get_new, lookup_empty.
  - intros k l Hk Hl. unfold node_at. rewrite sled_get_new.
    symmetry. apply H_empty_subtree; [done..|]. intros k' s Hs. by rewrite lookup_empty in Hs.
Qed.

Lemma state_tree_new_inv : tree_inv (state_tree_new (sled_new : Tr)) ∅.
Proof.
  split; [apply store_inv_new|]. unfold state_tree_new; cbn [st_root].
  rewrite default_hash_nth by reflexivity.
  symmetry. apply H_empty_subtree; [apply zero_key_ok|reflexivity|].
  intros k' s Hs. by rewrite lookup_empty in Hs.
Qed.

(** The hash of a populated node combines the hash below it and its sibling's. *)
Lemma H_step l k A :
  H (Datatypes.S l) k A =
  if bit_at_level k (Datatypes.S l) then combine_hashes (H l (flip_bit k (255 - l)) A) (H l k A)
  else combine_hashes (H l k A) (H l (flip_bit k (255 - l)) A).
Proof. done. Qed.

Lemma H_root k k' A : key_ok k -> key_ok k' -> H 256 k A = H 256 k' A.
Proof. intros. apply H_agree; [done..|]. intros i Hi. lia. Qed.
End Spec.

Section Orders.
Context {C : Crypto} {K : AccountCodec} {KL : AccountCodecLaws K}.

(** A node that iterates its maps in another order computes the same hashes, as long as no
    account has more than one commitment. *)
Lemma H_order o l k A : an_order o -> all_order_free A -> H (K := with_order o K) l k A = H l k A.
Proof.
  intros Ho HA. revert k; induction l as [|l IH]; intros k; cbn [H].
  - destruct (A !! k) as [s|] eqn:E; [|done]. by rewrite to_bytes_order by (try done; by eapply HA).
  - by rewrite !IH.
Qed.
End Orders.
