(* ===== verification/StateTreeProofs.v ===== *)
(** * Correctness of the state tree operations

    [tree_put] writes one account of the abstract map and recomputes its root;
    [tree_get] reads it; proofs made by [get_proof] verify; a verified inclusion
    proof speaks the truth unless BLAKE3 is broken. *)

From S2P Require Import Prelude Bytes Crypto Sled StateTree StateTreeBits StateTreeSpec.

#[local] Open Scope Z_scope.

#[local] Arguments H : simpl never.
#[local] Arguments storage_key_for_node : simpl never.

Section Put.
Context {C : Crypto} {L : CryptoLaws C} {K : AccountCodec} {KL : AccountCodecLaws K}.
Context {Tr : Type} `{Sd : Sled Tr} {SL : SledLaws Tr}.

(** A store that rejects some write. *)
Definition refuses (t : Tr) : Prop := exists k v, forall t', sled_insert t k v <> Ok t'.

(** A write is made, or panics on the store's error and changes nothing. *)
Lemma tree_insert_cases {E} k v (s : StateTree Tr) :
  (exists t, tree_insert (E := E) k v s = (Ok tt, mkTree t (st_root s)) /\
    forall k', view t k' = if decide (k = k') then Some v else view (st_tree s) k') \/
  tree_insert (E := E) k v s = (Panic, s) /\ refuses (st_tree s).
Proof.
  unfold tree_insert. destruct (sled_insert (st_tree s) k v) as [t|e|] eqn:Ei; [left|right; split; [done|]..].
  - exists t. split; [done|]. intros k'. by eapply sled_get_insert.
  - exists k, v. by rewrite Ei.
  - exists k, v. by rewrite Ei.
Qed.

(** Reading a node after one node was written. *)
Lemma node_at_insert t t' key lev h k l :
  key_ok key -> key_ok k -> (lev <= 256)%nat -> (l <= 256)%nat -> length h = 32%nat ->
  (forall k', view t' k' = if decide (storage_key_for_node key lev = k') then Some h else view t k') ->
  node_at t' k l = if decide (lev = l /\ agree (256 - lev) key k) then h else node_at t k l.
Proof.
  intros Hkey Hk Hlev Hl Hh Hv. unfold node_at. rewrite Hv.
  destruct (decide (storage_key_for_node key lev = storage_key_for_node k l)) as [E|E].
  - apply storage_key_inj in E; try done. rewrite decide_True by done.
    by rewrite bool_decide_true.
  - rewrite decide_False; [done|]. intros Ha. apply E. by apply storage_key_inj.
Qed.

(** The store represents [A] outside the path of [key]: nothing is said of the
    value at [key] nor of the nodes above it. *)
Record off_path (t : Tr) (key : list Z) (A : gmap (list Z) AccountState) : Prop := {
  op_keys : forall k s, A !! k = Some s -> key_ok k;
  op_values : forall k, key_ok k -> k <> key -> view t (leaf_value_key k) = to_bytes <$> A !! k;
  op_nodes : forall k l, key_ok k -> (l <= 256)%nat -> ~ agree (256 - l) k key -> node_at t k l = H l k A
}.

Lemma store_off_path t key A : store_inv t A -> off_path t key A.
Proof. intros [Hk Hv Hn]. split; auto. Qed.

(** The store [t] of a [put] that began over [t0] and has written the value and the
    first [n] nodes of the path. *)
Record put_progress (t0 t : Tr) (key : list Z) (s : AccountState) (A : gmap (list Z) AccountState)
    (n : nat) : Prop := {
  pp_values : forall k, key_ok k -> view t (leaf_value_key k) = to_bytes <$> <[key:=s]> A !! k;
  pp_done : forall k l, key_ok k -> (l < n)%nat -> (l <= 256)%nat -> node_at t k l = H l k (<[key:=s]> A);
  pp_todo : forall k l, key_ok k -> (n <= l <= 256)%nat -> node_at t k l = node_at t0 k l
}.

(** The value is written first. *)
Lemma put_value_progress t0 t key s A :
  off_path t0 key A ->
  (forall k', view t k' = if decide (leaf_value_key key = k') then Some (to_bytes s) else view t0 k') ->
  put_progress t0 t key s A 0.
Proof.
  intros [_ Hv _] Hw. split.
  - intros k Hk. rewrite Hw. destruct (decide (leaf_value_key key = leaf_value_key k)) as [->%leaf_value_key_inj|Hne].
    + by rewrite lookup_insert_eq.
    + rewrite lookup_insert_ne by congruence. apply Hv; congruence.
  - intros; lia.
  - intros k l Hk Hl. unfold node_at. rewrite Hw, decide_False; [done|]. apply leaf_value_key_ne_node. lia.
Qed.

(** Then the nodes of the path, the leaf first. *)
Lemma put_progress_write t0 t t' key s A n :
  key_ok key -> off_path t0 key A -> (n <= 256)%nat -> put_progress t0 t key s A n ->
  (forall k', view t' k' = if decide (storage_key_for_node key n = k')
     then Some (H n key (<[key:=s]> A)) else view t k') ->
  put_progress t0 t' key s A (S n).
Proof.
  intros Hkey Hoff Hn [Hv Hd Ht] Hw.
  assert (forall k l, key_ok k -> (l <= 256)%nat -> node_at t' k l =
    if decide (n = l /\ agree (256 - n) key k) then H n key (<[key:=s]> A) else node_at t k l) as Hn'.
  { intros k l Hk Hl. apply node_at_insert; try done. apply H_length. }
  split.
  - intros k Hk. rewrite Hw, decide_False; [by apply Hv|].
    intros E. symmetry in E. by apply leaf_value_key_ne_node in E.
  - intros k l Hk Hl Hl'. rewrite Hn' by done.
    destruct (decide _) as [[<- Ha]|Hne]; [by apply H_agree|].
    destruct (decide (l = n)) as [->|]; [|apply Hd; [done|lia|done]].
    assert (~ agree (256 - n) k key) as Hno by (intros Ha%agree_sym; by apply Hne).
    rewrite Ht, (op_nodes _ _ _ Hoff) by (done || lia). symmetry. by apply H_insert_outside.
  - intros k l Hk Hl. rewrite Hn' by (done || lia). rewrite decide_False by lia. apply Ht; [done|lia].
Qed.

(** A sibling of the path is off the path. *)
Lemma sibling_off_path key i : key_ok key -> (i < 256)%nat -> ~ agree (256 - i) (flip_bit key (255 - i)) key.
Proof.
  intros Hkey Hi Ha. specialize (Ha (255 - i)%nat ltac:(lia)). rewrite flip_bit_self in Ha by (done || lia).
  by destruct (get_bit key (255 - i)).
Qed.

(** The hash the loop computes at a level is the abstract one. *)
Lemma put_level_hash key s A n sibling :
  key_ok key -> (n < 256)%nat -> sibling = H n (flip_bit key (255 - n)) A ->
  (let '(a, b) := if bit_at_level key (S n) then (sibling, H n key (<[key:=s]> A))
                  else (H n key (<[key:=s]> A), sibling) in combine_hashes a b) =
  H (S n) key (<[key:=s]> A).
Proof.
  intros Hkey Hn ->. rewrite H_step.
  assert (H n (flip_bit key (255 - n)) (<[key:=s]> A) = H n (flip_bit key (255 - n)) A) as E.
  { apply H_insert_outside; [apply flip_bit_ok; [done|lia]|lia|]. by apply sibling_off_path. }
  by destruct (bit_at_level key (S n)); rewrite E.
Qed.

Lemma put_level_cases {E} t0 key s A n sibs (st : StateTree Tr) :
  key_ok key -> off_path t0 key A -> (n < 256)%nat -> put_progress t0 (st_tree st) key s A (S n) ->
  nth n sibs [] = H n (flip_bit key (255 - n)) A ->
  (exists t, put_level (E := E) key sibs (S n) (H n key (<[key:=s]> A)) st =
    (Ok (H (S n) key (<[key:=s]> A)), mkTree t (st_root st)) /\ put_progress t0 t key s A (S (S n))) \/
  put_level (E := E) key sibs (S n) (H n key (<[key:=s]> A)) st = (Panic, st) /\ refuses (st_tree st).
Proof.
  intros Hkey Hoff Hn Hp Hs. unfold put_level. replace (S n - 1)%nat with n by lia.
  pose proof (put_level_hash key s A n _ Hkey Hn Hs) as Hh.
  destruct (if bit_at_level key (S n) then _ else _) as [a b]. rewrite Hh. unfold mbind, M_bind.
  destruct (tree_insert_cases (E := E) (storage_key_for_node key (S n)) (H (S n) key (<[key:=s]> A)) st)
    as [(t & Hi & Hw)|[Hi Hr]]; rewrite Hi; [left|by right].
  exists t. split; [done|]. by eapply put_progress_write.
Qed.

Lemma put_loop_cases {E} t0 key s A sibs m n (st : StateTree Tr) :
  key_ok key -> off_path t0 key A -> (n + m = 256)%nat -> put_progress t0 (st_tree st) key s A (S n) ->
  (forall i, (i < 256)%nat -> nth i sibs [] = H i (flip_bit key (255 - i)) A) ->
  let r := fold_each (E := E) (seq (S n) m) (put_level key sibs) (H n key (<[key:=s]> A)) st in
  (exists t, r = (Ok (H 256 key (<[key:=s]> A)), mkTree t (st_root st)) /\ put_progress t0 t key s A 257) \/
  (exists t i, r = (Panic, mkTree t (st_root st)) /\ refuses t /\ (i <= 256)%nat /\ put_progress t0 t key s A i).
Proof.
  revert n st; induction m as [|m IH]; intros n st Hkey Hoff Hn Hp Hs; cbn [seq fold_each]; cbv zeta.
  - assert (n = 256%nat) as -> by lia. left. exists (st_tree st). split; [by destruct st|done].
  - unfold mbind, M_bind.
    destruct (put_level_cases (E := E) t0 key s A n sibs st Hkey Hoff ltac:(lia) Hp (Hs n ltac:(lia)))
      as [(t & Hl & Hp')|[Hl Hr]]; rewrite Hl.
    + exact (IH (S n) (mkTree t (st_root st)) Hkey Hoff ltac:(lia) Hp' Hs).
    + right. exists (st_tree st), (S n). split_and!; [by destruct st|done|lia|done].
Qed.

Lemma put_siblings_at t key i :
  (i < 256)%nat ->
  nth i (reverse ((fun level => read_sibling compute_default_hashes t key level)
    <$> reverse (seq 1 TREE_DEPTH))) [] = node_at t (flip_bit key (255 - i)) i.
Proof.
  intros Hi. rewrite <- fmap_reverse, reverse_involutive.
  rewrite nth_lookup, list_lookup_fmap, lookup_seq_lt by (unfold TREE_DEPTH; lia).
  cbn [fmap option_fmap option_map default].
  rewrite read_sibling_node by lia. replace (256 - (1 + i))%nat with (255 - i)%nat by lia.
  by replace (1 + i - 1)%nat with i by lia.
Qed.

(** A write over a store that is right off its path completes, or stops after some of
    its own nodes because the store refused the next one. *)
Lemma tree_put_cases {E} address state (s : StateTree Tr) A :
  let key := address_to_key address in
  let A' := <[key := state]> A in
  off_path (st_tree s) key A ->
  (exists s', tree_put (E := E) address state s = (Ok tt, s') /\ tree_inv s' A') \/
  (exists t, tree_put (E := E) address state s = (Panic, mkTree t (st_root s)) /\ refuses t /\
    (t = st_tree s \/ exists n, (n <= 256)%nat /\ put_progress (st_tree s) t key state A n)).
Proof.
  intros key A' Hoff. assert (key_ok key) as Hkey by apply address_to_key_ok.
  unfold tree_put. fold key. unfold get, mbind, M_bind.
  destruct (tree_insert_cases (E := E) (leaf_value_key key) (to_bytes state) s) as [(t1 & Hi1 & Hw1)|[Hi1 Hr]];
    rewrite Hi1; [|right; exists (st_tree s); destruct s; auto].
  pose proof (put_value_progress _ _ _ _ _ Hoff Hw1) as Hp1.
  replace (leaf_hash key (to_bytes state)) with (H 0 key A') by (unfold H, A'; by rewrite lookup_insert_eq).
  destruct (tree_insert_cases (E := E) (storage_key_for_node key 0) (H 0 key A') (mkTree t1 (st_root s)))
    as [(t2 & Hi2 & Hw2)|[Hi2 Hr]]; rewrite Hi2; [|right; exists t1; split_and!; [done|done|right; exists 0%nat; split; [lia|done]]].
  cbn [st_root st_tree] in *. pose proof (put_progress_write _ _ _ _ _ _ 0 Hkey Hoff ltac:(lia) Hp1 Hw2) as Hp2.
  assert (forall i, (i < 256)%nat -> nth i (reverse ((fun level => read_sibling compute_default_hashes (st_tree s) key level)
    <$> reverse (seq 1 TREE_DEPTH))) [] = H i (flip_bit key (255 - i)) A) as Hsib.
  { intros i Hi. rewrite put_siblings_at by done. apply (op_nodes _ _ _ Hoff); [apply flip_bit_ok; [done|lia]|lia|].
    by apply sibling_off_path. }
  destruct (put_loop_cases (E := E) _ key state A _ TREE_DEPTH 0 (mkTree t2 (st_root s)) Hkey Hoff eq_refl Hp2 Hsib)
    as [(t3 & Hl & Hp3)|(t3 & i & Hl & Hr & Hi & Hp3)]; fold A' in Hl; rewrite Hl; [left|right; exists t3; eauto 7].
  eexists. split; [done|]. destruct Hp3 as [Hv Hd _]. split; [split|]; cbn [st_tree st_root].
  - intros k st. destruct (decide (key = k)) as [<-|]; [done|].
    unfold A'. rewrite lookup_insert_ne by done. apply (op_keys _ _ _ Hoff).
  - exact Hv.
  - intros k l Hk Hl'. apply Hd; [done|lia|done].
  - apply H_root; [done|apply zero_key_ok].
Qed.

(** The root a completed write computes depends on the siblings of its path alone. *)
Lemma put_level_root {E} key st A sibs n (s s' : StateTree Tr) h :
  key_ok key -> (n < 256)%nat -> nth n sibs [] = H n (flip_bit key (255 - n)) A ->
  put_level (E := E) key sibs (S n) (H n key (<[key:=st]> A)) s = (Ok h, s') ->
  h = H (S n) key (<[key:=st]> A).
Proof.
  intros Hkey Hn Hs. unfold put_level. replace (S n - 1)%nat with n by lia.
  pose proof (put_level_hash key st A n _ Hkey Hn Hs) as Hh.
  destruct (if bit_at_level key (S n) then _ else _) as [a b]. rewrite Hh. unfold mbind, M_bind.
  destruct (tree_insert _ _ s) as [[[]|e|] s1]; by intros [=].
Qed.

Lemma put_loop_root {E} key st A sibs m n (s s' : StateTree Tr) h :
  key_ok key -> (n + m = 256)%nat ->
  (forall i, (i < 256)%nat -> nth i sibs [] = H i (flip_bit key (255 - i)) A) ->
  fold_each (E := E) (seq (S n) m) (put_level key sibs) (H n key (<[key:=st]> A)) s = (Ok h, s') ->
  h = H 256 key (<[key:=st]> A).
Proof.
  intros Hkey Hn Hs. revert n s Hn; induction m as [|m IH]; intros n s Hn; cbn [seq fold_each].
  - intros [= <- _]. by replace n with 256%nat by lia.
  - unfold mbind, M_bind. destruct (put_level key sibs (S n) _ s) as [[h1|e|] s1] eqn:Hl; try done.
    apply put_level_root in Hl as ->; [|done|lia|apply Hs; lia]. apply IH. lia.
Qed.

Lemma tree_put_root {E} address st (s s' : StateTree Tr) A :
  let key := address_to_key address in
  (forall i, (i < 256)%nat -> node_at (st_tree s) (flip_bit key (255 - i)) i = H i (flip_bit key (255 - i)) A) ->
  tree_put (E := E) address st s = (Ok tt, s') -> st_root s' = H 256 zero_key (<[key:=st]> A).
Proof.
  intros key Hsib. assert (key_ok key) as Hkey by apply address_to_key_ok.
  unfold tree_put. fold key. unfold get, mbind, M_bind.
  destruct (tree_insert (leaf_value_key key) _ s) as [[[]|e|] s1]; try done.
  destruct (tree_insert (storage_key_for_node key 0) _ s1) as [[[]|e|] s2]; try done.
  replace (leaf_hash key (to_bytes st)) with (H 0 key (<[key:=st]> A)) by (unfold H; by rewrite lookup_insert_eq).
  destruct (fold_each _ _ _ s2) as [[h|e|] s3] eqn:Hl; try done. intros [= <-]. cbn [st_root].
  rewrite (H_root zero_key key) by (done || apply zero_key_ok).
  refine (put_loop_root _ _ _ _ _ 0 _ _ _ Hkey _ _ Hl); [done|]. intros i Hi. rewrite put_siblings_at by done. by apply Hsib.
Qed.

(** A write of one address, however it ends, leaves the values of the others. *)
Lemma tree_insert_frame {E} k v (s s' : StateTree Tr) r k' :
  tree_insert (E := E) k v s = (r, s') -> k <> k' -> view (st_tree s') k' = view (st_tree s) k'.
Proof.
  intros Hi Hne. destruct (tree_insert_cases (E := E) k v s) as [(t & Hi' & Hw)|[Hi' _]];
    rewrite Hi in Hi'; injection Hi' as _ ->; [|done]. cbn [st_tree]. by rewrite Hw, decide_False.
Qed.

Lemma put_loop_frame {E} key sibs ls h (s s' : StateTree Tr) r k :
  Forall (fun l => l <= 256)%nat ls -> fold_each (E := E) ls (put_level key sibs) h s = (r, s') ->
  view (st_tree s') (leaf_value_key k) = view (st_tree s) (leaf_value_key k).
Proof.
  intros Hls. revert h s; induction Hls as [|l ls Hl _ IH]; intros h s; cbn [fold_each]; [by intros [= _ <-]|].
  unfold mbind, M_bind, put_level at 1. cbv zeta. unfold mbind, M_bind.
  destruct (if bit_at_level key l then _ else _) as [a b].
  destruct (tree_insert (storage_key_for_node key l) _ s) as [r1 s1] eqn:Hi.
  assert (view (st_tree s1) (leaf_value_key k) = view (st_tree s) (leaf_value_key k)) as <-.
  { eapply tree_insert_frame; [exact Hi|]. intros E'. symmetry in E'. by apply leaf_value_key_ne_node in E'. }
  destruct r1 as [[]|e|]; [apply IH|by intros [= _ <-]..].
Qed.

Lemma tree_put_frame {E} address st (s s' : StateTree Tr) r other :
  tree_put (E := E) address st s = (r, s') -> address_to_key other <> address_to_key address ->
  tree_get other s' = tree_get other s.
Proof.
  intros Hput Hne. unfold tree_get. enough (view (st_tree s') (leaf_value_key (address_to_key other)) =
    view (st_tree s) (leaf_value_key (address_to_key other))) as -> by done.
  revert Hput. unfold tree_put, get, mbind, M_bind. set (key := address_to_key address).
  destruct (tree_insert (leaf_value_key key) _ s) as [r1 s1] eqn:H1.
  rewrite <- (tree_insert_frame _ _ _ _ _ (leaf_value_key (address_to_key other)) H1) by (by intros ?%leaf_value_key_inj).
  destruct r1 as [[]|e|]; [|by intros [= _ <-]..].
  destruct (tree_insert (storage_key_for_node key 0) _ s1) as [r2 s2] eqn:H2.
  rewrite <- (tree_insert_frame _ _ _ _ _ (leaf_value_key (address_to_key other)) H2)
    by (intros E'; symmetry in E'; by apply leaf_value_key_ne_node in E').
  destruct r2 as [[]|e|]; [|by intros [= _ <-]..].
  destruct (fold_each _ _ _ s2) as [r3 s3] eqn:H3.
  assert (Forall (fun l => l <= 256)%nat (seq 1 TREE_DEPTH)) as Hls.
  { apply Forall_forall. intros l Hl%elem_of_seq. change (1 <= l < 1 + 256)%nat in Hl. lia. }
  rewrite <- (put_loop_frame _ _ _ _ _ _ _ (address_to_key other) Hls H3).
  destruct r3 as [h|e|]; by intros [= _ <-].
Qed.

Lemma tree_get_store address (s : StateTree Tr) o :
  view (st_tree s) (leaf_value_key (address_to_key address)) = to_bytes <$> o -> tree_get address s = o.
Proof. intros Hv. unfold tree_get. rewrite Hv. destruct o; [apply account_roundtrip|done]. Qed.

Lemma tree_get_spec address (s : StateTree Tr) A :
  tree_inv s A -> tree_get address s = A !! address_to_key address.
Proof. intros [[_ Hv _] _]. apply tree_get_store, Hv, address_to_key_ok. Qed.

(** A store without errors refuses nothing, so a write completes. *)
Lemma healthy_accepts {SH : SledHealthy Tr} (t : Tr) : ~ refuses t.
Proof. intros (k & v & Hno). destruct (sled_insert_ok t k v) as [t' Ht]. by apply (Hno t'). Qed.

Lemma tree_put_store {SH : SledHealthy Tr} {E} address state (s : StateTree Tr) A :
  off_path (st_tree s) (address_to_key address) A ->
  exists s', tree_put (E := E) address state s = (Ok tt, s') /\
  tree_inv s' (<[address_to_key address := state]> A).
Proof.
  intros [Hok|(t & _ & Hr & _)]%(tree_put_cases (E := E) address state); [done|]. by apply healthy_accepts in Hr.
Qed.

Lemma tree_put_spec {SH : SledHealthy Tr} {E} address state (s : StateTree Tr) A :
  tree_inv s A ->
  exists s', tree_put (E := E) address state s = (Ok tt, s') /\
  tree_inv s' (<[address_to_key address := state]> A).
Proof. intros [Hst _]. by apply tree_put_store, store_off_path. Qed.
End Put.

Lemma tree_get_new {C : Crypto} {K : AccountCodec} {Tr} `{Sled Tr} address (s : StateTree Tr) :
  tree_get address (state_tree_new (st_tree s)) = tree_get address s.
Proof. reflexivity. Qed.

(** ** Sequences of writes *)

#[local] Opaque tree_put tree_get H compute_default_hashes.

#[local] Transparent H.
Lemma H_leaf {C : Crypto} {K : AccountCodec} key A :
  H 0 key A = match A !! key with Some s => leaf_hash key (to_bytes s) | None => empty_hash 0 end.
Proof. reflexivity. Qed.
#[local] Opaque H.

Section Theorems.
Context {C : Crypto} {L : CryptoLaws C} {K : AccountCodec} {KL : AccountCodecLaws K}.
Context {Tr : Type} `{Sd : Sled Tr} {SL : SledLaws Tr} {SH : SledHealthy Tr}.

Definition put_all {E} (ws : list (string * AccountState)) : M (StateTree Tr) E unit :=
  for_each ws (fun w => tree_put w.1 w.2).

Definition apply_writes (ws : list (string * AccountState)) (A : gmap (list Z) AccountState) :
    gmap (list Z) AccountState :=
  fold_left (fun A w => <[address_to_key w.1 := w.2]> A) ws A.

Lemma put_all_spec {E} ws (s : StateTree Tr) A :
  tree_inv s A -> exists s', put_all (E := E) ws s = (Ok tt, s') /\ tree_inv s' (apply_writes ws A).
Proof.
  revert s A; induction ws as [|[a st] ws IH]; intros s A Hs; [by exists s|].
  destruct (tree_put_spec (E := E) a st s A Hs) as (s1 & Hp & H1).
  destruct (IH _ _ H1) as (s2 & Hw & H2). exists s2. split; [|exact H2].
  unfold put_all in *. cbn [for_each fst snd]. unfold mbind, M_bind. rewrite Hp. apply Hw.
Qed.

(** C1. The tree implements a finite map: reads after any writes return the last
    account written under the address's key. *)
Theorem state_tree_refines_map {E} ws address :
  exists s, put_all (E := E) ws (state_tree_new (sled_new : Tr)) = (Ok tt, s) /\
    tree_get address s = apply_writes ws ∅ !! address_to_key address.
Proof.
  destruct (put_all_spec (E := E) ws _ _ state_tree_new_inv) as (s & Hs & Hi).
  exists s. split; [done|]. by apply tree_get_spec.
Qed.

(** ** Merkle proofs *)

Lemma zip_fmap_seq {B D} (f : nat -> B) (g : nat -> D) n m :
  zip (f <$> seq n m) (g <$> seq n m) = (fun i => (f i, g i)) <$> seq n m.
Proof. revert n; induction m; intros n; simpl; [done|]. by rewrite IHm. Qed.

(** What would have to be found among given messages to break the tree: two with the same
    BLAKE3 digest, or one whose digest is the 32 zero bytes that stand for an absent leaf. *)
Definition hash_break (ms : list (list Z)) : Prop :=
  collision ms \/ Exists (fun m => blake3 m = replicate 32 0) ms.

Lemma hash_break_mono ms ms' : ms ⊆ ms' -> hash_break ms -> hash_break ms'.
Proof.
  intros Hs [Hc|He]; [left; by eapply collides_mono|right]. rewrite Exists_exists in *.
  destruct He as (m & ? & ?). exists m. auto.
Qed.

(** The message hashed for the node above [k] of level [l + 1]. *)
Definition node_message (l : nat) (k : list Z) (A : gmap (list Z) AccountState) : list Z :=
  let f := flip_bit k (255 - l) in
  if bit_at_level k (S l) then H l f A ++ H l k A else H l k A ++ H l f A.

Definition leaf_message (k : list Z) (A : gmap (list Z) AccountState) : list (list Z) :=
  match A !! k with Some s => [k ++ to_bytes s] | None => [] end.

(** What the tree of [A] hashes on the path of [k], from level [l] down. *)
Fixpoint path_messages (l : nat) (k : list Z) (A : gmap (list Z) AccountState) : list (list Z) :=
  match l with
  | O => leaf_message k A
  | S l' => node_message l' k A :: path_messages l' k A
  end.

(** The same on the path that bits select, from the root down, and the key it leads to. *)
Definition turn (k : list Z) (l : nat) (b : bool) : list Z :=
  if Bool.eqb b (bit_at_level k (S l)) then k else flip_bit k (255 - l).

Fixpoint selected_key (bits : list bool) (k : list Z) : list Z :=
  match bits with [] => k | b :: bs => selected_key bs (turn k (length bs) b) end.

Fixpoint selected_messages (bits : list bool) (k : list Z) (A : gmap (list Z) AccountState) : list (list Z) :=
  match bits with
  | [] => leaf_message k A
  | b :: bs => node_message (length bs) k A :: selected_messages bs (turn k (length bs) b) A
  end.

(** What the verifier hashes. *)
Definition step_message (current : list Z) (p : list Z * bool) : list Z :=
  let '(sibling, bit) := p in if (bit : bool) then sibling ++ current else current ++ sibling.

Fixpoint walk_messages (p : list (list Z * bool)) (current : list Z) : list (list Z) :=
  match p with
  | [] => []
  | q :: p' => step_message current q :: walk_messages p' (verify_step current q)
  end.

Definition proof_messages (address : string) (state : AccountState) (proof : MerkleProof) : list (list Z) :=
  let m := address_to_key address ++ to_bytes state in
  m :: walk_messages (zip (siblings proof) (path_bits proof)) (blake3_hash m).

(** Walking an honest path from level [n] recomputes the node hashes. *)
Lemma verify_walk t key A n m :
  key_ok key -> store_inv t A -> (n + m = 256)%nat ->
  fold_left verify_step ((fun level => (read_sibling compute_default_hashes t key level,
    bit_at_level key level)) <$> seq (S n) m) (H n key A) = H 256 key A.
Proof.
  intros Hkey Hst. revert n; induction m as [|m IH]; intros n Hn.
  - by assert (n = 256%nat) as -> by lia.
  - rewrite <- (IH (S n)) by lia. cbn [seq fmap list_fmap fold_left].
    f_equal. unfold verify_step. rewrite read_sibling_node by lia.
    replace (256 - S n)%nat with (255 - n)%nat by lia. replace (S n - 1)%nat with n by lia.
    rewrite (inv_nodes _ _ Hst) by (try apply flip_bit_ok; done || lia).
    rewrite H_step. by destruct (bit_at_level key (S n)).
Qed.

Lemma get_proof_ok address (s : StateTree Tr) A :
  tree_inv s A -> verify_proof (root s) address (tree_get address s) (get_proof address s) = true.
Proof.
  intros Hs. rewrite (tree_get_spec _ _ _ Hs). unfold verify_proof, get_proof.
  cbn [siblings path_bits]. rewrite !length_fmap, !length_seq, bool_decide_true by done.
  cbn [negb orb]. apply bool_decide_eq_true. rewrite zip_fmap_seq.
  set (key := address_to_key address). assert (key_ok key) as Hkey by apply address_to_key_ok.
  replace (match A !! key with Some _ => _ | None => _ end) with (H 0 key A)
    by (by rewrite H_leaf, default_hash_nth by lia).
  destruct Hs as [Hst Hr]. rewrite (verify_walk _ _ _ 0 TREE_DEPTH Hkey Hst) by done.
  unfold root. rewrite Hr. apply H_root; [done|apply zero_key_ok].
Qed.

Lemma get_proof_ok_order o address (s : StateTree Tr) A :
  an_order o -> all_order_free A -> tree_inv s A ->
  verify_proof (K := with_order o K) (root s) address (tree_get address s) (get_proof address s) = true.
Proof.
  intros Ho Hfree Hs. rewrite <- (get_proof_ok address s A Hs), (tree_get_spec _ _ _ Hs). unfold verify_proof.
  destruct (A !! address_to_key address) as [st|] eqn:E; [|done].
  by rewrite to_bytes_order by (try done; by eapply Hfree).
Qed.

(** C23. Proofs made by the tree verify: inclusion for the accounts it holds, exclusion for
    the others; also at a verifier that iterates maps in another order, provided no account
    has more than one commitment. *)
Theorem get_proof_verifies o address (s : StateTree Tr) A :
  an_order o -> all_order_free A -> tree_inv s A ->
  verify_proof (K := with_order o K) (root s) address (tree_get address s) (get_proof address s) = true.
Proof. apply get_proof_ok_order. Qed.
End Theorems.

Section Walks.
Context {C : Crypto} {L : CryptoLaws C} {K : AccountCodec}.

Lemma combine_hashes_binding a b c d ms :
  length a = length c -> combine_hashes a b = combine_hashes c d -> a ++ b ∈ ms -> c ++ d ∈ ms ->
  (a = c /\ b = d) \/ collision ms.
Proof.
  intros Hl Heq Hab Hcd. destruct (digest_inj blake3 (a ++ b) (c ++ d) ms) as [E|]; [done..| |by right].
  left. by apply app_inj_1 in E.
Qed.

Lemma verify_fold_length p leaf :
  length leaf = 32%nat -> length (fold_left verify_step p leaf) = 32%nat.
Proof.
  induction p as [|[sib b] p IH] using rev_ind; intros Hl; [done|].
  rewrite fold_left_app. simpl. destruct b; apply blake3_length.
Qed.

Lemma walk_messages_app p q leaf :
  walk_messages (p ++ [q]) leaf = walk_messages p leaf ++ [step_message (fold_left verify_step p leaf) q].
Proof. revert leaf; induction p as [|x p IH]; intros leaf; cbn; [done|]. by rewrite IH. Qed.

Lemma node_message_hash l k A : H (S l) k A = blake3 (node_message l k A).
Proof. rewrite H_step. unfold node_message. by destruct (bit_at_level k (S l)). Qed.

(** A walk that ends in the root started at the hash of the leaf its bits select. *)
Lemma verify_fold_sound p leaf k A :
  length leaf = 32%nat -> Forall (fun q : list Z * bool => length q.1 = 32%nat) p ->
  fold_left verify_step p leaf = H (length p) k A ->
  leaf = H 0 (selected_key (reverse p.*2) k) A \/
  collision (walk_messages p leaf ++ selected_messages (reverse p.*2) k A).
Proof.
  revert k; induction p as [|[sib b] p IH] using rev_ind; intros k Hl Hp Heq; [by left|].
  rewrite fold_left_app in Heq. rewrite length_app, Nat.add_comm in Heq. cbn [length plus fold_left] in Heq.
  apply Forall_app in Hp as [Hp [Hsib _]%Forall_cons]. cbn [fst] in Hsib.
  pose proof (verify_fold_length p leaf Hl) as Hf.
  rewrite fmap_app, reverse_app. cbn [fmap list_fmap reverse rev_append app fst snd selected_key selected_messages].
  change (reverse [b] ++ reverse p.*2) with (b :: reverse p.*2). cbn [selected_key selected_messages].
  rewrite length_reverse, length_fmap, walk_messages_app. set (cur := fold_left verify_step p leaf) in *.
  set (ms := (walk_messages p leaf ++ [step_message cur (sib, b)]) ++ _).
  assert (step_message cur (sib, b) ∈ ms) as Hin by (unfold ms; set_solver).
  assert (node_message (length p) k A ∈ ms) as Hin' by (unfold ms; set_solver).
  assert (cur = H (length p) (turn k (length p) b) A \/ collision ms) as [Hcur|]; [|apply IH in Hcur; [|done..]|by right].
  - rewrite H_step in Heq. unfold node_message in Hin'. unfold turn.
    destruct b, (bit_at_level k (S (length p))); cbn [Bool.eqb verify_step step_message] in *;
      eapply combine_hashes_binding in Heq; try exact Hin; try exact Hin'; rewrite ?H_length; try congruence;
      (destruct Heq as [[E1 E2]|]; [left|by right]); congruence.
  - destruct Hcur as [Hcur|Hc]; [by left|right]. eapply collides_mono; [|exact Hc]. unfold ms. set_solver.
Qed.

Lemma Forall_fst_zip {X Y} (P : X -> Prop) (l : list X) (k : list Y) :
  Forall P l -> Forall (fun q => P q.1) (zip l k).
Proof. intros Hl. revert k; induction Hl; intros [|y k]; constructor; auto. Qed.
End Walks.

(** Two nodes, which may iterate maps in different orders. *)
Section TwoOrders.
Context {C : Crypto} {L : CryptoLaws C} {K K' : AccountCodec} {KL : AccountCodecLaws K} {KL' : AccountCodecLaws K'}.
Context (same_format : forall b, from_bytes (AccountCodec := K') b = from_bytes (AccountCodec := K) b).

Lemma to_bytes_same s s' : to_bytes (K := K) s = to_bytes (K := K') s' -> s = s'.
Proof.
  intros E. pose proof (account_roundtrip (K := K) s) as R. rewrite E, <- same_format, account_roundtrip in R. congruence.
Qed.

(** What an accepted inclusion proof says of the accounts whose root it is checked against. *)
Lemma verify_inclusion_at address state proof A :
  (forall k s, A !! k = Some s -> key_ok k) -> Forall (fun h => length h = 32%nat) (siblings proof) ->
  verify_proof (K := K') (H (K := K) 256 zero_key A) address (Some state) proof = true ->
  A !! address_to_key address = Some state \/
  hash_break (proof_messages (K := K') address state proof ++
    selected_messages (K := K) (reverse (path_bits proof)) zero_key A).
Proof.
  intros Hkeys Hsib Hv. unfold verify_proof in Hv.
  case_bool_decide as E1; [|done]. case_bool_decide as E2; [|done]. cbn [negb orb] in Hv.
  apply bool_decide_eq_true in Hv. unfold leaf_hash in Hv.
  set (key := address_to_key address) in *. set (m := key ++ to_bytes (K := K') state) in *.
  set (p := zip (siblings proof) (path_bits proof)) in *.
  assert (length p = 256%nat) as Hz by (unfold p; rewrite length_zip_with; unfold TREE_DEPTH in *; lia).
  assert (p.*2 = path_bits proof) as Hbits by (unfold p; apply snd_zip; lia).
  assert (proof_messages (K := K') address state proof = m :: walk_messages p (blake3_hash m)) as -> by done.
  destruct (verify_fold_sound (K := K) p (blake3_hash m) zero_key A) as [Hleaf|Hc];
    [apply blake3_length|by apply (Forall_fst_zip (fun h => length h = 32%nat))|rewrite Hz; exact Hv| |].
  2: { right. left. rewrite Hbits in Hc. eapply collides_mono; [|exact Hc]. set_solver. }
  rewrite Hbits in Hleaf. rewrite H_leaf in Hleaf.
  set (k' := selected_key (reverse (path_bits proof)) zero_key) in *.
  assert (leaf_message (K := K) k' A ⊆ selected_messages (K := K) (reverse (path_bits proof)) zero_key A) as Hsub.
  { unfold k'. generalize (reverse (path_bits proof)) as bits, zero_key as k.
    induction bits as [|b bits IH]; intros k; cbn [selected_key selected_messages]; [done|].
    intros x Hx. right. by apply IH. }
  destruct (A !! k') as [s'|] eqn:EA.
  - assert (k' ++ to_bytes (K := K) s' ∈ leaf_message (K := K) k' A) as Hin by (unfold leaf_message; rewrite EA; by left).
    set (ms := (m :: _) ++ _).
    destruct (digest_inj blake3 m (k' ++ to_bytes (K := K) s') ms) as [E|Hc]; [unfold ms; set_solver..|done| |by right; left].
    left. destruct (Hkeys _ _ EA) as [Hk' _]. assert (key_ok key) as [Hkl _] by apply address_to_key_ok.
    apply app_inj_1 in E as [-> Eb]; [|congruence]. rewrite EA. f_equal. by apply to_bytes_same.
  - right. right. apply Exists_exists. exists m. split; [by left|exact Hleaf].
Qed.

(** Equal hashes along the path of [k] mean equal accounts at [k]. *)
Lemma H_binding l k A A' :
  H (K := K) l k A = H (K := K') l k A' ->
  A !! k = A' !! k \/ hash_break (path_messages (K := K) l k A ++ path_messages (K := K') l k A').
Proof.
  induction l as [|l IH]; cbn [path_messages].
  - rewrite !H_leaf. unfold leaf_message, leaf_hash. intros Heq.
    destruct (A !! k) as [s|], (A' !! k) as [s'|]; [|right; right; by constructor..|by left].
    apply (digest_inj blake3 _ _ ([k ++ to_bytes (K := K) s] ++ [k ++ to_bytes (K := K') s'])) in Heq as [E|Hc];
      [left| |set_solver..].
    + apply app_inv_head, to_bytes_same in E. by rewrite E.
    + by right; left.
  - intros Heq. set (ms := _ ++ _). enough (H (K := K) l k A = H (K := K') l k A' \/ collision ms) as [Hl|Hc].
    + destruct (IH Hl) as [|Hc]; [by left|right]. eapply hash_break_mono; [|exact Hc]. unfold ms. set_solver.
    + by right; left.
    + assert (node_message (K := K) l k A ∈ ms) as Hin by (unfold ms; set_solver).
      assert (node_message (K := K') l k A' ∈ ms) as Hin' by (unfold ms; set_solver).
      rewrite !H_step in Heq. unfold node_message in Hin, Hin'.
      destruct (bit_at_level k (S l)); eapply combine_hashes_binding in Heq; try exact Hin; try exact Hin';
        rewrite ?H_length; try done; tauto.
Qed.

Lemma root_binding {Tr} `{Sd : Sled Tr} k (s s' : StateTree Tr) A A' :
  tree_inv (K := K) s A -> tree_inv (K := K') s' A' -> root s = root s' -> key_ok k ->
  A !! k = A' !! k \/ hash_break (path_messages (K := K) 256 k A ++ path_messages (K := K') 256 k A').
Proof.
  intros [_ Hr] [_ Hr'] Heq Hk. unfold root in Heq. rewrite Hr, Hr' in Heq.
  apply (H_binding 256). rewrite (H_root k zero_key A Hk zero_key_ok), (H_root k zero_key A' Hk zero_key_ok).
  exact Heq.
Qed.
End TwoOrders.

Section Binding.
Context {C : Crypto} {L : CryptoLaws C} {K : AccountCodec} {KL : AccountCodecLaws K}.
Context {Tr : Type} `{Sd : Sled Tr} {SL : SledLaws Tr} {SH : SledHealthy Tr}.

(** C2. A verified inclusion proof is right about the account, whatever the order in which
    the verifier iterates maps, unless BLAKE3 breaks on the messages that the verifier
    hashes for the proof and the tree on the path the proof selects: two of them have one
    digest, or one hashes to the empty leaf. *)
Theorem verify_proof_inclusion_sound o address state proof (s : StateTree Tr) A :
  an_order o -> tree_inv s A -> Forall (fun h => length h = 32%nat) (siblings proof) ->
  verify_proof (K := with_order o K) (root s) address (Some state) proof = true ->
  tree_get address s = Some state \/
  hash_break (proof_messages (K := with_order o K) address state proof ++
    selected_messages (reverse (path_bits proof)) zero_key A).
Proof.
  intros Ho Hs Hsib Hv. pose proof (with_order_laws o K KL Ho) as KL'.
  rewrite (tree_get_spec _ _ _ Hs). unfold root in Hv. rewrite (inv_root _ _ Hs) in Hv.
  eapply verify_inclusion_at; [done|apply (inv_keys _ _ (inv_store _ _ Hs))|done..].
Qed.

Lemma verify_exclusion_any_address r a b p : verify_proof r a None p = verify_proof r b None p.
Proof. reflexivity. Qed.

(** An exclusion proof is not tied to the address it is checked for: the path
    bits are the prover's, so a proof that one account is absent verifies as the
    absence of every account, existing ones included. *)
Theorem exclusion_proof_transfers present absent state (s : StateTree Tr) A :
  tree_inv s A -> tree_get present s = Some state -> tree_get absent s = None ->
  verify_proof (root s) present None (get_proof absent s) = true.
Proof.
  intros Hs _ Ha. rewrite (verify_exclusion_any_address _ present absent), <- Ha.
  by apply (get_proof_ok absent s A).
Qed.

(** ** Binding of the root *)

(** C21. The root commits to the accounts: two trees with equal roots, of nodes that may
    iterate maps in different orders, answer a query alike, unless BLAKE3 breaks on the
    messages hashed on the path of that address in the two trees. *)
Theorem root_binds_accounts o address (s s' : StateTree Tr) A A' :
  an_order o -> tree_inv s A -> tree_inv (K := with_order o K) s' A' -> root s = root s' ->
  tree_get address s = tree_get address s' \/
  hash_break (path_messages 256 (address_to_key address) A ++
    path_messages (K := with_order o K) 256 (address_to_key address) A').
Proof.
  intros Ho Hs Hs' Heq. pose proof (with_order_laws o K KL Ho) as KL'.
  rewrite (tree_get_spec _ _ _ Hs). change (tree_get address s') with (tree_get (K := with_order o K) address s').
  rewrite (tree_get_spec _ _ _ Hs'). eapply root_binding; eauto. apply address_to_key_ok.
Qed.

(** Writes never panic on a healthy store, and the root is a function of the
    resulting accounts alone: not of the order or number of the writes, and, while no
    account has more than one commitment, not of the order in which a node iterates maps. *)
Theorem state_root_deterministic {E} o ws ws' :
  an_order o -> all_order_free (apply_writes ws ∅) -> apply_writes ws ∅ = apply_writes ws' ∅ ->
  exists s s', put_all (E := E) ws (state_tree_new (sled_new : Tr)) = (Ok tt, s) /\
    put_all (K := with_order o K) (E := E) ws' (state_tree_new (sled_new : Tr)) = (Ok tt, s') /\ root s = root s'.
Proof.
  intros Ho Hfree Heq. pose proof (with_order_laws o K KL Ho) as KL'.
  destruct (put_all_spec (E := E) ws _ _ state_tree_new_inv) as (s & Hs & [_ Hr]).
  destruct (put_all_spec (K := with_order o K) (E := E) ws' _ _ state_tree_new_inv) as (s' & Hs' & [_ Hr']).
  exists s, s'. split; [done|]. split; [done|]. unfold root. rewrite Hr, Hr', <- Heq.
  symmetry. by apply H_order.
Qed.

(** Reopening a persisted store with [StateTree::new] reads its accounts but
    takes the root of the empty tree: if the store holds an account, the root the
    tree had is lost. *)
Theorem state_tree_new_forgets_root (s : StateTree Tr) A address st :
  tree_inv s A -> tree_get address s = Some st ->
  tree_get address (state_tree_new (st_tree s)) = Some st /\
  (root (state_tree_new (st_tree s)) <> root s \/
   hash_break (path_messages 256 (address_to_key address) ∅ ++ path_messages 256 (address_to_key address) A)).
Proof.
  intros Hs Hg. split; [rewrite <- Hg; apply tree_get_new|].
  destruct (decide (root (state_tree_new (st_tree s)) = root s)) as [E|]; [|tauto].
  rewrite (tree_get_spec _ _ _ Hs) in Hg.
  destruct (root_binding (fun b => eq_refl) (address_to_key address) (state_tree_new (sled_new : Tr)) s ∅ A)
    as [Hn|]; [apply state_tree_new_inv|done|exact E|apply address_to_key_ok| |tauto].
  by rewrite Hg in Hn.
Qed.
End Binding.

(** ** Witnesses: a tree with one account over the in-memory store *)

Module TreeExamples.
#[export] Existing Instances toy_crypto toy_account_codec.

Definition writes : list (string * AccountState) := [("alice", with_balance 100)].

Definition tree : StateTree (gmap (list Z) (list Z)) :=
  (put_all (E := StateError) writes (state_tree_new sled_new)).2.

Definition accounts : gmap (list Z) AccountState := apply_writes writes ∅.

Lemma tree_ok : tree_inv tree accounts.
Proof.
  unfold tree, accounts.
  destruct (put_all_spec (E := StateError) writes (state_tree_new sled_new) ∅ state_tree_new_inv)
    as (s & Hs & Hi). rewrite Hs. exact Hi.
Qed.

(** The same writes at a node that iterates maps backwards. *)
Definition other : AccountCodec := with_order backwards toy_account_codec.

Definition other_tree : StateTree (gmap (list Z) (list Z)) :=
  (put_all (K := other) (E := StateError) writes (state_tree_new sled_new)).2.

Lemma other_tree_ok : tree_inv (K := other) other_tree accounts.
Proof.
  unfold other_tree, accounts.
  destruct (put_all_spec (K := other) (E := StateError) writes (state_tree_new sled_new) ∅ state_tree_new_inv)
    as (s & Hs & Hi). rewrite Hs. exact Hi.
Qed.

Lemma accounts_order_free : all_order_free accounts.
Proof. apply all_order_free_insert; [by apply no_commitments|apply all_order_free_empty]. Qed.

Lemma roots_equal : root tree = root other_tree.
Proof.
  unfold root. rewrite (inv_root _ _ tree_ok), (inv_root _ _ other_tree_ok). symmetry.
  apply H_order; [exact backwards_order|exact accounts_order_free].
Qed.

Lemma tree_alice : tree_get "alice" tree = Some (with_balance 100).
Proof. rewrite (tree_get_spec _ _ _ tree_ok). vm_compute. reflexivity. Qed.

Lemma tree_bob : tree_get "bob" tree = None.
Proof. rewrite (tree_get_spec _ _ _ tree_ok). vm_compute. reflexivity. Qed.
End TreeExamples.

Import TreeExamples.

Lemma state_root_deterministic_witness :
  exists s s', put_all (E := StateError) (writes ++ [("bob", default_account)])
      (state_tree_new (sled_new : gmap (list Z) (list Z))) = (Ok tt, s) /\
    put_all (K := other) (E := StateError) (("bob", default_account) :: writes)
      (state_tree_new (sled_new : gmap (list Z) (list Z))) = (Ok tt, s') /\ root s = root s'.
Proof.
  apply (state_root_deterministic backwards); [exact backwards_order| |vm_compute; reflexivity].
  do 2 (apply all_order_free_insert; [by apply no_commitments|]). apply all_order_free_empty.
Defined.

Lemma state_tree_refines_map_witness :
  exists s, put_all (E := StateError) writes
      (state_tree_new (sled_new : gmap (list Z) (list Z))) = (Ok tt, s) /\
    tree_get "alice" s = apply_writes writes ∅ !! address_to_key "alice".
Proof. apply state_tree_refines_map. Defined.

Lemma get_proof_verifies_witness :
  verify_proof (K := other) (root tree) "alice" (tree_get "alice" tree) (get_proof "alice" tree) = true.
Proof.
  apply (get_proof_verifies backwards "alice" tree accounts);
    [exact backwards_order|exact accounts_order_free|exact tree_ok].
Defined.

Lemma get_proof_siblings_length : Forall (fun h => length h = 32%nat) (siblings (get_proof "alice" tree)).
Proof.
  unfold get_proof. cbn [siblings]. apply Forall_fmap, Forall_forall. intros l Hl.
  apply elem_of_seq in Hl. unfold compose, TREE_DEPTH in *.
  rewrite read_sibling_node by lia. destruct tree_ok as [Hst _].
  rewrite (inv_nodes _ _ Hst); [apply H_length|apply flip_bit_ok; [apply address_to_key_ok|lia]|lia].
Qed.

Lemma verify_proof_inclusion_sound_witness :
  tree_get "alice" tree = Some (with_balance 100) \/
  hash_break (proof_messages (K := other) "alice" (with_balance 100) (get_proof "alice" tree) ++
    selected_messages (reverse (path_bits (get_proof "alice" tree))) zero_key accounts).
Proof.
  apply (verify_proof_inclusion_sound backwards "alice" (with_balance 100) (get_proof "alice" tree) tree accounts).
  - exact backwards_order.
  - exact tree_ok.
  - exact get_proof_siblings_length.
  - rewrite <- tree_alice. exact (get_proof_ok_order _ _ _ _ backwards_order accounts_order_free tree_ok).
Defined.

Lemma exclusion_proof_transfers_witness :
  verify_proof (root tree) "alice" None (get_proof "bob" tree) = true.
Proof.
  apply (exclusion_proof_transfers "alice" "bob" (with_balance 100) tree accounts);
    [exact tree_ok|exact tree_alice|exact tree_bob].
Defined.

Lemma root_binds_accounts_witness :
  tree_get "alice" tree = tree_get "alice" other_tree \/
  hash_break (path_messages 256 (address_to_key "alice") accounts ++
    path_messages (K := other) 256 (address_to_key "alice") accounts).
Proof.
  apply (root_binds_accounts backwards "alice" tree other_tree accounts accounts);
    [exact backwards_order|exact tree_ok|exact other_tree_ok|exact roots_equal].
Defined.

Lemma state_tree_new_forgets_root_witness :
  tree_get "alice" (state_tree_new (st_tree tree)) = Some (with_balance 100) /\
  (root (state_tree_new (st_tree tree)) <> root tree \/
   hash_break (path_messages 256 (address_to_key "alice") ∅ ++ path_messages 256 (address_to_key "alice") accounts)).
Proof.
  apply (state_tree_new_forgets_root tree accounts "alice"); [exact tree_ok|exact tree_alice].
Defined.
