(* ===== verification/StateTransfer.v ===== *)
(** * Transfers on the state tree

    [apply_transfer] of [protocol/src/storage/state.rs].  [transfer] is the same
    operation on the abstract map of accounts; [apply_transfer_refines] is the
    simulation between the two, and the theorems on supply, balances and errors
    are proved on the map and carried over to the tree. *)

From S2P Require Import Prelude Bytes Crypto Sled StateTree StateTreeBits StateTreeSpec StateTreeProofs.

#[local] Open Scope Z_scope.
#[local] Opaque tree_put tree_get H compute_default_hashes.

Notation Accounts := (gmap (list Z) AccountState).

(** ** The abstract transfer *)

Definition account (A : Accounts) (k : list Z) : AccountState := default default_account (A !! k).

Definition debit (a : AccountState) (amount : Z) : AccountState :=
  mkAccount (nonce a + 1) (balance a - amount) (balance_commitments a) (credit_lines a) (frozen a).

Definition credit (a : AccountState) (amount : Z) : AccountState :=
  mkAccount (nonce a) (balance a + amount) (balance_commitments a) (credit_lines a) (frozen a).

(** The outcome of a transfer and the accounts after it. *)
Definition transfer (sender : string) (sk rk : list Z) (amount : Z) (A : Accounts)
    : res StateError unit * Accounts :=
  let s := account A sk in
  if frozen s then (Err (AccountFrozen sender), A)
  else if balance s <? amount then (Err (InsufficientBalance (balance s) amount), A)
  else if U64_MAX <? nonce s + 1 then (Panic, A)
  else
    let A1 := <[sk := debit s amount]> A in
    let r := account A1 rk in
    if U64_MAX <? balance r + amount then (Panic, A1)
    else (Ok tt, <[rk := credit r amount]> A1).

(** The total native supply. *)
Definition supply (A : Accounts) : Z := map_sumZ balance A.

(** Balances and nonces are [u64]s. *)
Definition accounts_ok (A : Accounts) : Prop :=
  forall k a, A !! k = Some a -> in_u64 (balance a) /\ in_u64 (nonce a).

(** ** Lemmas on the abstract transfer *)

Lemma account_ok A k : accounts_ok A -> in_u64 (balance (account A k)) /\ in_u64 (nonce (account A k)).
Proof.
  intros HA. unfold account. destruct (A !! k) as [a|] eqn:E; [by apply (HA k)|].
  simpl. unfold in_u64, U64_MAX. lia.
Qed.

Lemma account_insert A k a k' : account (<[k:=a]> A) k' = if decide (k = k') then a else account A k'.
Proof.
  unfold account. case_decide as E; [subst; by rewrite lookup_insert_eq|by rewrite lookup_insert_ne].
Qed.

Lemma supply_insert A k a : supply (<[k:=a]> A) = supply A + balance a - balance (account A k).
Proof.
  unfold supply, account. rewrite map_sumZ_insert. by destruct (A !! k).
Qed.

Lemma accounts_ok_insert A k a :
  accounts_ok A -> in_u64 (balance a) -> in_u64 (nonce a) -> accounts_ok (<[k:=a]> A).
Proof.
  intros HA Hb Hn k' a'. rewrite lookup_insert_Some. intros [[<- <-]|[_ Ha]]; [done|by apply (HA k')].
Qed.

(** One account never holds more than the supply. *)
Lemma balance_le_supply A k : accounts_ok A -> balance (account A k) <= supply A.
Proof.
  intros HA. assert (forall k' v, A !! k' = Some v -> 0 <= balance v) as Hn.
  { intros k' v Hv. apply HA in Hv as [[??] _]. lia. }
  unfold account. destruct (A !! k) as [a|] eqn:E; simpl.
  - by apply (map_sumZ_lookup_le balance A k).
  - by apply map_sumZ_nonneg.
Qed.

Lemma supply_debit A k amount :
  supply (<[k := debit (account A k) amount]> A) = supply A - amount.
Proof. rewrite supply_insert. simpl. lia. Qed.

Lemma supply_credit A k amount :
  supply (<[k := credit (account A k) amount]> A) = supply A + amount.
Proof. rewrite supply_insert. simpl. lia. Qed.

Lemma accounts_ok_debit A k amount :
  accounts_ok A -> 0 <= amount <= balance (account A k) -> nonce (account A k) < U64_MAX ->
  accounts_ok (<[k := debit (account A k) amount]> A).
Proof.
  intros HA Ham Hn. destruct (account_ok A k HA) as [[??] [??]].
  apply accounts_ok_insert; [done|..]; unfold in_u64; simpl; lia.
Qed.

Lemma accounts_ok_credit A k amount :
  accounts_ok A -> 0 <= amount -> balance (account A k) + amount <= U64_MAX ->
  accounts_ok (<[k := credit (account A k) amount]> A).
Proof.
  intros HA Ham Hn. destruct (account_ok A k HA) as [[??] [??]].
  apply accounts_ok_insert; [done|..]; unfold in_u64; simpl; lia.
Qed.

Lemma transfer_accounts_ok sender sk rk amount A :
  accounts_ok A -> 0 <= amount -> accounts_ok (transfer sender sk rk amount A).2.
Proof.
  intros HA Ham. unfold transfer. repeat case_match; reflect_bools; simpl; try done.
  - apply accounts_ok_debit; [done|lia..].
  - apply accounts_ok_credit; [apply accounts_ok_debit; [done|lia..]|lia..].
Qed.

(** With a supply that fits 64 bits, crediting cannot overflow. *)
Lemma transfer_credit_fits sk rk amount A :
  accounts_ok A -> 0 <= amount <= balance (account A sk) -> nonce (account A sk) < U64_MAX ->
  supply A <= U64_MAX ->
  balance (account (<[sk := debit (account A sk) amount]> A) rk) + amount <= U64_MAX.
Proof.
  intros HA Ham Hn Hs.
  pose proof (balance_le_supply _ rk (accounts_ok_debit A sk amount HA Ham Hn)) as Hle.
  rewrite supply_debit in Hle. lia.
Qed.

Lemma transfer_supply sender sk rk amount A :
  accounts_ok A -> 0 <= amount -> supply A <= U64_MAX ->
  supply (transfer sender sk rk amount A).2 = supply A.
Proof.
  intros HA Ham Hs. unfold transfer. repeat case_match; reflect_bools; simpl; try done.
  - pose proof (transfer_credit_fits sk rk amount A HA ltac:(lia) ltac:(lia) Hs). lia.
  - rewrite supply_credit, supply_debit. lia.
Qed.

Lemma transfer_ok_iff sender sk rk amount A :
  accounts_ok A -> 0 <= amount -> supply A <= U64_MAX -> nonce (account A sk) < U64_MAX ->
  (transfer sender sk rk amount A).1 =
  if frozen (account A sk) then Err (AccountFrozen sender)
  else if balance (account A sk) <? amount
  then Err (InsufficientBalance (balance (account A sk)) amount) else Ok tt.
Proof.
  intros HA Ham Hs Hn. unfold transfer. repeat case_match; reflect_bools; simpl; try done; [lia|].
  pose proof (transfer_credit_fits sk rk amount A HA ltac:(lia) ltac:(lia) Hs). lia.
Qed.

Lemma transfer_err_unchanged sender sk rk amount A e :
  (transfer sender sk rk amount A).1 = Err e -> (transfer sender sk rk amount A).2 = A.
Proof. unfold transfer. by repeat case_match. Qed.

Lemma transfer_account sender sk rk amount A k :
  (transfer sender sk rk amount A).1 = Ok tt ->
  account (transfer sender sk rk amount A).2 k =
  mkAccount (nonce (account A k) + (if decide (k = sk) then 1 else 0))
    (balance (account A k) - (if decide (k = sk) then amount else 0)
                           + (if decide (k = rk) then amount else 0))
    (balance_commitments (account A k)) (credit_lines (account A k)) (frozen (account A k)).
Proof.
  unfold transfer. repeat case_match; simpl; try done; intros _; subst;
    rewrite !account_insert; repeat case_decide; subst; try congruence;
    unfold credit, debit; rewrite ?account_insert; repeat case_decide; try congruence; simpl;
    repeat match goal with |- context [account A ?x] => destruct (account A x) end; simpl; f_equal; lia.
Qed.

(** ** The simulation *)

Section Transfer.
Context {C : Crypto} {L : CryptoLaws C} {K : AccountCodec} {KL : AccountCodecLaws K}.
Context {Tr : Type} `{Sd : Sled Tr} {SL : SledLaws Tr} {SH : SledHealthy Tr}.

Notation key := address_to_key.

Lemma apply_transfer_sim sender receiver amount (s : StateTree Tr) A :
  tree_inv s A ->
  let '(r, A') := transfer sender (key sender) (key receiver) amount A in
  exists s', apply_transfer sender receiver amount s = (r, s') /\ tree_inv s' A' /\
    (forall e, r = Err e -> s' = s).
Proof.
  intros Hs. unfold apply_transfer, transfer. unfold mbind, M_bind, get, throw, u64_sub, u64_add, lift, expect.
  rewrite (tree_get_spec _ _ _ Hs). fold (account A (key sender)).
  set (a := account A (key sender)).
  destruct (frozen a) eqn:Hf; cbn [negb]; [by exists s|].
  destruct (Z.ltb_spec (balance a) amount); cbn [negb]; [by exists s|].
  unfold checked_sub, checked_add.
  rewrite (proj2 (Z.leb_le amount (balance a))) by done.
  destruct (Z.ltb_spec U64_MAX (nonce a + 1)) as [Hn|Hn].
  { rewrite (proj2 (Z.leb_gt _ _)) by lia. by exists s. }
  rewrite (proj2 (Z.leb_le _ _)) by lia.
  replace (mkAccount (nonce a + 1) (balance a - amount) _ _ false) with (debit a amount)
    by (unfold debit; by rewrite Hf).
  destruct (tree_put_spec (E := StateError) sender (debit a amount) s A Hs) as (s1 & Hp & H1).
  rewrite Hp. rewrite (tree_get_spec _ _ _ H1).
  fold (account (<[key sender := debit a amount]> A) (key receiver)).
  set (b := account _ (key receiver)).
  destruct (Z.ltb_spec U64_MAX (balance b + amount)) as [Hb|Hb].
  { rewrite (proj2 (Z.leb_gt _ _)) by lia. by exists s1. }
  rewrite (proj2 (Z.leb_le _ _)) by lia. fold (credit b amount).
  destruct (tree_put_spec (E := StateError) receiver (credit b amount) s1 _ H1) as (s2 & Hp2 & H2).
  by exists s2.
Qed.

(** The tree's transfer simulates the map's, outcome by outcome, and a refused
    transfer leaves the tree as it was. *)
Theorem apply_transfer_refines sender receiver amount (s : StateTree Tr) A :
  tree_inv s A ->
  exists r s', apply_transfer sender receiver amount s = (r, s') /\
    tree_inv s' (transfer sender (key sender) (key receiver) amount A).2 /\
    r = (transfer sender (key sender) (key receiver) amount A).1 /\
    (forall e, r = Err e -> s' = s).
Proof.
  intros Hs. pose proof (apply_transfer_sim sender receiver amount s A Hs) as Hsim.
  destruct (transfer sender _ _ amount A) as [r A']. destruct Hsim as (s' & ? & ? & ?).
  by exists r, s'.
Qed.

(** C6. A transfer never creates or destroys native units, whether it succeeds or is
    refused, and does not panic: it succeeds exactly when the sender is not frozen
    and can pay. *)
Theorem apply_transfer_conserves sender receiver amount (s : StateTree Tr) A :
  tree_inv s A -> accounts_ok A -> supply A <= U64_MAX -> 0 <= amount ->
  nonce (account A (key sender)) < U64_MAX ->
  exists r s' A', apply_transfer sender receiver amount s = (r, s') /\ tree_inv s' A' /\
    supply A' = supply A /\ accounts_ok A' /\
    r = (if frozen (account A (key sender)) then Err (AccountFrozen sender)
         else if balance (account A (key sender)) <? amount
         then Err (InsufficientBalance (balance (account A (key sender))) amount) else Ok tt).
Proof.
  intros Hs HA Hsup Ham Hn.
  pose proof (apply_transfer_sim sender receiver amount s A Hs) as Hsim.
  pose proof (transfer_supply sender (key sender) (key receiver) amount A HA Ham Hsup) as Hc.
  pose proof (transfer_accounts_ok sender (key sender) (key receiver) amount A HA Ham) as Hok.
  pose proof (transfer_ok_iff sender (key sender) (key receiver) amount A HA Ham Hsup Hn) as Hr.
  destruct (transfer sender _ _ amount A) as [r A']. destruct Hsim as (s' & Hrun & Hinv & _).
  exists r, s', A'. simpl in *. done.
Qed.

Definition read (address : string) (s : StateTree Tr) : AccountState :=
  default default_account (tree_get address s).

(** What a successful transfer does to every address: the sender's nonce grows
    by one, the sender is debited, the receiver credited (both, when they are the
    same account), and nothing else changes. *)
Theorem apply_transfer_effect sender receiver amount (s s' : StateTree Tr) A address :
  tree_inv s A -> apply_transfer sender receiver amount s = (Ok tt, s') ->
  read address s' =
  mkAccount (nonce (read address s) + (if decide (key address = key sender) then 1 else 0))
    (balance (read address s) - (if decide (key address = key sender) then amount else 0)
       + (if decide (key address = key receiver) then amount else 0))
    (balance_commitments (read address s)) (credit_lines (read address s)) (frozen (read address s)).
Proof.
  intros Hs Hrun. pose proof (apply_transfer_sim sender receiver amount s A Hs) as Hsim.
  pose proof (transfer_account sender (key sender) (key receiver) amount A (key address)) as Ha.
  destruct (transfer sender _ _ amount A) as [r A'].
  destruct Hsim as (s2 & Hrun' & Hinv & _). rewrite Hrun in Hrun'. injection Hrun' as <- <-.
  unfold read. rewrite (tree_get_spec _ _ _ Hs), (tree_get_spec _ _ _ Hinv). by apply Ha.
Qed.
End Transfer.

(** ** Witnesses *)

Import TreeExamples.

Lemma examples_accounts_ok : accounts_ok accounts.
Proof.
  unfold accounts, apply_writes, writes. cbn [fold_left fst snd].
  apply accounts_ok_insert; [by intros ???|..]; unfold in_u64, U64_MAX; simpl; lia.
Qed.

Lemma examples_supply : supply accounts = 100.
Proof. vm_compute. reflexivity. Qed.

Lemma apply_transfer_refines_witness :
  exists r s', apply_transfer "alice" "bob" 30 tree = (r, s') /\
    tree_inv s' (transfer "alice" (address_to_key "alice") (address_to_key "bob") 30 accounts).2 /\
    r = (transfer "alice" (address_to_key "alice") (address_to_key "bob") 30 accounts).1 /\
    (forall e, r = Err e -> s' = tree).
Proof. apply (apply_transfer_refines "alice" "bob" 30 tree accounts). exact tree_ok. Defined.

Lemma apply_transfer_conserves_witness :
  exists r s' A', apply_transfer "alice" "bob" 30 tree = (r, s') /\ tree_inv s' A' /\
    supply A' = supply accounts /\ accounts_ok A' /\
    r = (if frozen (account accounts (address_to_key "alice")) then Err (AccountFrozen "alice")
         else if balance (account accounts (address_to_key "alice")) <? 30
         then Err (InsufficientBalance (balance (account accounts (address_to_key "alice"))) 30)
         else Ok tt).
Proof.
  apply (apply_transfer_conserves "alice" "bob" 30 tree accounts).
  - exact tree_ok.
  - exact examples_accounts_ok.
  - rewrite examples_supply. unfold U64_MAX. lia.
  - lia.
  - vm_compute. reflexivity.
Defined.

Definition tree2 : StateTree (gmap (list Z) (list Z)) := (apply_transfer "alice" "bob" 30 tree).2.

Lemma tree2_run : apply_transfer "alice" "bob" 30 tree = (Ok tt, tree2).
Proof.
  unfold tree2. pose proof (apply_transfer_sim "alice" "bob" 30 tree accounts tree_ok) as Hsim.
  pose proof (transfer_ok_iff "alice" (address_to_key "alice") (address_to_key "bob") 30 accounts
    examples_accounts_ok ltac:(lia) ltac:(rewrite examples_supply; unfold U64_MAX; lia)
    ltac:(vm_compute; reflexivity)) as Hr.
  destruct (transfer _ _ _ _ _) as [r A']. destruct Hsim as (s' & Hs' & _). cbn [fst] in Hr.
  assert (frozen (account accounts (address_to_key "alice")) = false) as E1 by (vm_compute; reflexivity).
  assert (balance (account accounts (address_to_key "alice")) <? 30 = false) as E2 by (vm_compute; reflexivity).
  rewrite E1, E2 in Hr. subst r. rewrite Hs'. reflexivity.
Qed.

Lemma apply_transfer_effect_witness :
  balance (read "alice" tree2) = 70 /\ nonce (read "alice" tree2) = 1 /\
  balance (read "bob" tree2) = 30.
Proof.
  pose proof (apply_transfer_effect "alice" "bob" 30 tree tree2 accounts "alice" tree_ok tree2_run) as Ha.
  pose proof (apply_transfer_effect "alice" "bob" 30 tree tree2 accounts "bob" tree_ok tree2_run) as Hb.
  unfold read in Ha, Hb. rewrite tree_alice in Ha. rewrite tree_bob in Hb.
  unfold read. rewrite Ha, Hb. split_and!; vm_compute; reflexivity.
Defined.
