(* ===== verification/StateRecovery.v ===== *)
(** * Interrupted writes of the state tree

    [StateTree::put] of [protocol/src/storage/state.rs] makes 258 writes, the value first
    and the root of the path last, each of which panics when the store fails; a process
    may also stop between two of them.  [off_path] is what holds after any of these
    stops: the store still represents the accounts outside the path of the written key.
    The store is any [Sled] with its laws, so it may refuse a write at any point.

    [attempts] are writes of one account with failures and restarts between them:
    other accounts stay readable, and a write that completes repairs the tree.
    [put_root_over_torn] gives the root that a write elsewhere computes over a torn
    path, [transfer_interrupted] what an interrupted [apply_transfer] leaves. *)

From S2P Require Import Prelude Bytes Crypto Sled StateTree StateTreeBits StateTreeSpec StateTreeProofs StateTransfer.

#[local] Open Scope Z_scope.
#[local] Opaque tree_put tree_get H compute_default_hashes verify_proof.

Section Torn.
Context {C : Crypto} {L : CryptoLaws C} {K : AccountCodec} {KL : AccountCodecLaws K}.
Context {Tr : Type} `{Sd : Sled Tr} {SL : SledLaws Tr}.

Implicit Types (t : Tr) (A : Accounts) (key : list Z) (s : StateTree Tr).

(** Two handles on the same stored contents: a store before and after it is reopened. *)
Definition same_contents t t' : Prop := forall k, view t k = view t' k.

#[global] Instance same_contents_equiv : Equivalence same_contents.
Proof. split; [by intros ?|by intros ?? E k|intros ??? E F k; by rewrite E]. Qed.

#[global] Instance node_at_proper : Proper (same_contents ==> eq ==> eq ==> eq) node_at.
Proof. intros t t' E k ? <- l ? <-. unfold node_at. by rewrite E. Qed.

#[global] Instance off_path_proper : Proper (same_contents ==> eq ==> eq ==> iff) off_path.
Proof.
  assert (forall t t' key A, same_contents t t' -> off_path t key A -> off_path t' key A) as Himp.
  { intros t t' key A E [Hk Hv Hn]. split; [done|intros; by rewrite <- E; apply Hv|intros; by rewrite <- E; apply Hn]. }
  intros t t' E key ? <- A ? <-. split; apply Himp; [done|by symmetry].
Qed.

Lemma tree_get_contents address s s' :
  same_contents (st_tree s) (st_tree s') -> tree_get address s = tree_get address s'.
Proof. intros E. with_strategy transparent [tree_get] unfold tree_get. by rewrite E. Qed.

Lemma tree_get_key address address' s :
  address_to_key address = address_to_key address' -> tree_get address s = tree_get address' s.
Proof. intros E. with_strategy transparent [tree_get] unfold tree_get. by rewrite E. Qed.

(** What is off the path does not depend on the account at its end. *)
Lemma off_path_insert t key st A : key_ok key -> off_path t key A <-> off_path t key (<[key:=st]> A).
Proof.
  intros Hkey. split; intros [Hk Hv Hn]; split.
  - intros k a [[<- _]|[_ Ha]]%lookup_insert_Some; eauto.
  - intros k Hk' Hne. rewrite lookup_insert_ne by done. by apply Hv.
  - intros k l Hk' Hl Hno. rewrite H_insert_outside by done. by apply Hn.
  - intros k a Ha. destruct (decide (k = key)) as [->|]; [done|]. apply (Hk k a). by rewrite lookup_insert_ne.
  - intros k Hk' Hne. rewrite Hv, lookup_insert_ne by done. done.
  - intros k l Hk' Hl Hno. rewrite Hn by done. by apply H_insert_outside.
Qed.

(** Outside its path, a put under way changes nothing. *)
Lemma progress_off_path t0 t key st A n :
  key_ok key -> off_path t0 key A -> put_progress t0 t key st A n -> off_path t key A.
Proof.
  intros Hkey [Hk0 Hv0 Hn0] [Hv Hd Ht]. split; [done|..].
  - intros k Hk Hne. rewrite Hv, lookup_insert_ne by done. done.
  - intros k l Hk Hl Hno. destruct (decide (l < n)%nat).
    + rewrite Hd by (done || lia). by apply H_insert_outside.
    + rewrite Ht by (done || lia). by apply Hn0.
Qed.

(** An account off the path is read as it is. *)
Lemma off_path_get address key s A :
  off_path (st_tree s) key A -> address_to_key address <> key -> tree_get address s = A !! address_to_key address.
Proof. intros [_ Hv _] Hne. apply tree_get_store, Hv; [apply address_to_key_ok|done]. Qed.

(** One write of an account, however it ends. *)
Lemma put_attempt {E} address st s r s' A :
  off_path (st_tree s) (address_to_key address) A -> tree_put (E := E) address st s = (r, s') ->
  off_path (st_tree s') (address_to_key address) A /\
  (tree_get address s' = tree_get address s \/ tree_get address s' = Some st) /\
  (r = Ok tt /\ tree_inv s' (<[address_to_key address := st]> A) \/ r = Panic /\ root s' = root s).
Proof.
  intros Hoff Hput. pose proof (address_to_key_ok address) as Hkey.
  destruct (tree_put_cases (E := E) address st s A Hoff) as [(s1 & Hrun & Hinv)|(t & Hrun & _ & Hcase)];
    rewrite Hput in Hrun; injection Hrun as -> ->.
  - split_and!; [|right|by left].
    + apply (off_path_insert _ _ st); [done|]. apply store_off_path, Hinv.
    + by rewrite (tree_get_spec _ _ _ Hinv), lookup_insert_eq.
  - destruct Hcase as [->|(n & Hn & Hp)]; split_and!; try (by right); try done.
    + left. by apply tree_get_contents.
    + by eapply progress_off_path.
    + right. apply tree_get_store. cbn [st_tree]. rewrite (pp_values _ _ _ _ _ _ Hp) by done. by rewrite lookup_insert_eq.
Qed.

(** What is read after a write over a sound tree: the new accounts when it completes,
    the old or the new ones when it does not. *)
Lemma put_reads {E} address st s r s' A :
  tree_inv s A -> tree_put (E := E) address st s = (r, s') ->
  r = Ok tt /\ tree_inv s' (<[address_to_key address := st]> A) \/
  r = Panic /\ ((forall a, tree_get a s' = A !! address_to_key a) \/
    (forall a, tree_get a s' = <[address_to_key address := st]> A !! address_to_key a)).
Proof.
  intros Hs Hput. pose proof (store_off_path _ (address_to_key address) _ (inv_store _ _ Hs)) as Hoff.
  destruct (put_attempt _ _ _ _ _ _ Hoff Hput) as (Hoff' & Hg & [?|[-> _]]); [by left|right; split; [done|]].
  rewrite (tree_get_spec _ _ _ Hs) in Hg.
  destruct Hg as [Hg|Hg]; [left|right]; intros a;
    (destruct (decide (address_to_key a = address_to_key address)) as [E'|E'];
      [rewrite (tree_get_key a address) by done; rewrite Hg, E', ?lookup_insert_eq|
       rewrite ?lookup_insert_ne by done; apply (off_path_get _ _ _ _ Hoff')]); done.
Qed.

(** ** Attempts to write one account *)

(** Writes of one address, complete or not, with restarts between them: a restart
    reopens the same contents and takes any root. *)
Inductive attempts (address : string) (s : StateTree Tr) : list AccountState -> StateTree Tr -> Prop :=
| att_none : attempts address s [] s
| att_put sts s1 st (r : res StateError unit) s2 :
    attempts address s sts s1 -> tree_put address st s1 = (r, s2) -> attempts address s (sts ++ [st]) s2
| att_restart sts s1 db rt :
    attempts address s sts s1 -> same_contents (st_tree s1) db -> attempts address s sts (from_root db rt).

Lemma attempts_off_path address s sts s' A :
  off_path (st_tree s) (address_to_key address) A -> attempts address s sts s' ->
  off_path (st_tree s') (address_to_key address) A /\
  (tree_get address s' = tree_get address s \/ exists st, st ∈ sts /\ tree_get address s' = Some st).
Proof.
  intros Hoff Hatt. induction Hatt as [|sts s1 st r s2 _ [IHo IHg] Hput|sts s1 db rt _ [IHo IHg] Hdb]; [auto|..].
  - destruct (put_attempt _ _ _ _ _ _ IHo Hput) as (Ho & Hg & _). split; [done|].
    destruct Hg as [->| ->]; [|right; exists st; set_solver].
    destruct IHg as [->|(st' & ? & ->)]; [by left|right; exists st'; set_solver].
  - split; [cbn [from_root st_tree]; by rewrite <- Hdb|].
    by rewrite (tree_get_contents address (from_root db rt) s1) by (by symmetry).
Qed.

(** C17. However many writes of an account stopped half way, with restarts between them,
    every other account is still read as it was, that account is read as it was or as
    one of the attempts would have it, and a write of it that completes leaves a tree
    that represents the accounts exactly, its root included. *)
Theorem interrupted_puts_heal address s sts s' A :
  store_inv (st_tree s) A -> attempts address s sts s' ->
  (forall other, address_to_key other <> address_to_key address -> tree_get other s' = A !! address_to_key other) /\
  (tree_get address s' = A !! address_to_key address \/ exists st, st ∈ sts /\ tree_get address s' = Some st) /\
  forall st s2, tree_put (E := StateError) address st s' = (Ok tt, s2) -> tree_inv s2 (<[address_to_key address := st]> A).
Proof.
  intros Hs Hatt. destruct (attempts_off_path _ _ _ _ A (store_off_path _ _ _ Hs) Hatt) as [Hoff Hget].
  split_and!.
  - intros other Hne. by eapply off_path_get.
  - rewrite (tree_get_store address s (A !! address_to_key address)) in Hget; [done|].
    apply (inv_values _ _ Hs), address_to_key_ok.
  - intros st s2 Hput. by destruct (put_attempt _ _ _ _ _ _ Hoff Hput) as (_ & _ & [[_ ?]|[? _]]).
Qed.

(** ** The root over a torn path *)

(** The siblings another address reads over a path whose first [n] nodes are new are
    those of the accounts before the write, or those of the accounts after it. *)
Lemma torn_siblings t0 t key st A n key2 :
  key_ok key -> key_ok key2 -> store_inv t0 A -> key2 <> key -> put_progress t0 t key st A n ->
  exists B, (B = A \/ B = <[key:=st]> A) /\
    forall i, (i < 256)%nat -> node_at t (flip_bit key2 (255 - i)) i = H i (flip_bit key2 (255 - i)) B.
Proof.
  intros Hkey Hkey2 H0 Hne [_ Hd Ht].
  assert (forall i, (i < 256)%nat -> node_at t (flip_bit key2 (255 - i)) i =
    H i (flip_bit key2 (255 - i)) (if decide (i < n)%nat then <[key:=st]> A else A)) as Hnode.
  { intros i Hi. pose proof (flip_bit_ok key2 (255 - i) Hkey2 ltac:(lia)). case_decide.
    - apply Hd; [done|lia..].
    - rewrite Ht by (done || lia). by apply (inv_nodes _ _ H0); [|lia]. }
  destruct (decide (agree (256 - n) key key2)) as [Ha|Ha].
  - exists (<[key:=st]> A). split; [by right|]. intros i Hi. rewrite Hnode by done.
    case_decide; [done|]. symmetry. apply H_insert_outside; [apply flip_bit_ok; [done|lia]|lia|].
    intros Hb. apply (sibling_off_path key2 i Hkey2 Hi). eapply agree_trans; [exact Hb|].
    eapply agree_weaken; [|exact Ha]. lia.
  - exists A. split; [by left|]. intros i Hi. rewrite Hnode by done. case_decide; [|done].
    apply H_insert_outside; [apply flip_bit_ok; [done|lia]|lia|].
    intros Hb. apply Ha. apply agree_sym in Hb. eapply agree_trans; [eapply agree_weaken; [|exact Hb]; lia|].
    eapply agree_weaken; [|apply flip_bit_agree; [done|]]; lia.
Qed.

(** After a write that stopped half way, a write of another account computes the root
    of a map of accounts: the interrupted account stands in it as it was before the
    write, or as the write would have made it, whatever a read of it answers. *)
Theorem put_root_over_torn address st s s1 db rt A other st2 s2 :
  tree_inv s A -> tree_put (E := StateError) address st s = (Panic, s1) -> same_contents (st_tree s1) db ->
  address_to_key other <> address_to_key address ->
  tree_put (E := StateError) other st2 (from_root db rt) = (Ok tt, s2) ->
  exists B, (B = A \/ B = <[address_to_key address := st]> A) /\
    root s2 = H 256 zero_key (<[address_to_key other := st2]> B) /\
    tree_get address s2 = tree_get address s1.
Proof.
  intros [Hst _] Hput Hdb Hne Hput2. pose proof (address_to_key_ok address) as Hka. pose proof (address_to_key_ok other) as Hko.
  assert (exists B, (B = A \/ B = <[address_to_key address:=st]> A) /\ forall i, (i < 256)%nat ->
    node_at (st_tree s1) (flip_bit (address_to_key other) (255 - i)) i = H i (flip_bit (address_to_key other) (255 - i)) B)
    as (B & HB & Hsib).
  { destruct (tree_put_cases (E := StateError) address st s A (store_off_path _ _ _ Hst))
      as [(s1' & Hrun & _)|(t & Hrun & _ & [->|(n & _ & Hp)])]; rewrite Hput in Hrun; [done|..]; injection Hrun as ->.
    - exists A. split; [by left|]. intros i Hi. apply (inv_nodes _ _ Hst); [by apply flip_bit_ok; [|lia]|lia].
    - by eapply torn_siblings. }
  exists B. split_and!; [done|..].
  - refine (tree_put_root _ _ _ _ B _ Hput2). intros i Hi. cbn [from_root st_tree]. rewrite <- Hdb. by apply Hsib.
  - rewrite (tree_get_contents address s1 (from_root db rt)) by done. by eapply tree_put_frame; [|by intros ?%eq_sym].
Qed.

(** The first write of a put is the value: when it goes through and a later one fails,
    the account is read as written, and no proof of what is read verifies against
    the root the tree keeps, unless BLAKE3 breaks on the messages hashed for it. *)
Theorem torn_read_unprovable address st s s1 A proof :
  tree_inv s A -> tree_put (E := StateError) address st s = (Panic, s1) ->
  tree_get address s <> Some st -> tree_get address s1 = Some st ->
  Forall (fun h => length h = 32%nat) (siblings proof) ->
  root s1 = root s /\ (verify_proof (root s1) address (tree_get address s1) proof = true ->
    hash_break (proof_messages address st proof ++ selected_messages (reverse (path_bits proof)) zero_key A)).
Proof.
  intros Hs Hput Hold Hnew Hsib. pose proof (store_off_path _ (address_to_key address) _ (inv_store _ _ Hs)) as Hoff.
  destruct (put_attempt _ _ _ _ _ _ Hoff Hput) as (_ & _ & [[? _]|[_ Hr]]); [done|]. split; [done|].
  rewrite Hnew, Hr. unfold root. rewrite (inv_root _ _ Hs). intros Hv.
  rewrite (tree_get_spec _ _ _ Hs) in Hold.
  destruct (verify_inclusion_at (fun b => eq_refl) address st proof A (inv_keys _ _ (inv_store _ _ Hs)) Hsib Hv); done.
Qed.

(** ** Interrupted transfers *)

(** C37. A transfer over a store that may fail does what it does over a healthy one, or
    panics and leaves the accounts as they were, with the sender debited only, or as
    they should be: units are never created, and [amount] of them are gone when the
    debit was written and the credit was not. *)
Theorem interrupted_transfer sender receiver amount s A r s' :
  let sk := address_to_key sender in
  let rk := address_to_key receiver in
  let A1 := <[sk := debit (account A sk) amount]> A in
  let A2 := <[rk := credit (account A1 rk) amount]> A1 in
  tree_inv s A -> apply_transfer sender receiver amount s = (r, s') ->
  r = (transfer sender sk rk amount A).1 /\ tree_inv s' (transfer sender sk rk amount A).2 \/
  r = Panic /\ exists B, (B = A \/ B = A1 \/ B = A2) /\
    (forall address, tree_get address s' = B !! address_to_key address) /\
    (supply B = supply A \/ supply B = supply A - amount).
Proof.
  intros sk rk A1 A2 Hs. unfold apply_transfer, transfer. unfold mbind, M_bind, get, throw, u64_sub, u64_add, lift, expect.
  rewrite (tree_get_spec _ _ _ Hs). fold sk rk. fold (account A sk). set (a := account A sk) in *.
  destruct (frozen a) eqn:Hf; cbn [negb]; [intros [= <- <-]; by left|].
  destruct (Z.ltb_spec (balance a) amount); cbn [negb]; [intros [= <- <-]; by left|].
  unfold checked_sub, checked_add. rewrite (proj2 (Z.leb_le amount (balance a))) by done.
  destruct (Z.ltb_spec U64_MAX (nonce a + 1)) as [Hn|Hn].
  { rewrite (proj2 (Z.leb_gt _ _)) by lia. intros [= <- <-]. by left. }
  rewrite (proj2 (Z.leb_le _ _)) by lia.
  replace (mkAccount (nonce a + 1) (balance a - amount) _ _ false) with (debit a amount)
    by (unfold debit; by rewrite Hf).
  destruct (tree_put sender (debit a amount) s) as [r1 s1] eqn:Hput.
  destruct (put_reads _ _ _ _ _ A Hs Hput) as [[-> H1]|[-> Hread]].
  2: { intros [= <- <-]. right. split; [done|]. destruct Hread as [Hread|Hread]; [exists A|exists A1];
    (split_and!; [auto|exact Hread|]); [by left|right; apply supply_debit]. }
  rewrite (tree_get_spec _ _ _ H1). fold sk A1 rk. fold (account A1 rk). set (b := account A1 rk) in *.
  destruct (Z.ltb_spec U64_MAX (balance b + amount)) as [Hb|Hb].
  { rewrite (proj2 (Z.leb_gt _ _)) by lia. intros [= <- <-]. by left. }
  rewrite (proj2 (Z.leb_le _ _)) by lia. fold (credit b amount). intros Hput2.
  destruct (put_reads _ _ _ _ _ A1 H1 Hput2) as [[-> H2]|[-> Hread]]; [by left|right; split; [done|]].
  destruct Hread as [Hread|Hread]; [exists A1|exists A2]; (split_and!; [auto|exact Hread|]).
  - right. apply supply_debit.
  - left. unfold A2, b. rewrite supply_credit. unfold A1, a. rewrite supply_debit. lia.
Qed.
End Torn.

(** ** Witnesses: stores that refuse the writes after the n-th *)

Module StateRecoveryExamples.
Export TreeExamples.

(** The tree with alice's account, over a store that accepts [n] more writes. *)
Definition tree_with (n : nat) : StateTree limited := mkTree (Limited n (st_tree tree)) (st_root tree).

Lemma tree_with_inv n : tree_inv (tree_with n) accounts.
Proof. destruct tree_ok as [[Hk Hv Hn] Hr]. by split; [split|]. Qed.

Lemma limited_insert {E} n m r k v :
  tree_insert (E := E) k v (mkTree (Limited (S n) m) r) = (Ok tt, mkTree (Limited n (<[k:=v]> m)) r).
Proof. done. Qed.

Lemma limited_level {E} key sibs l n m r h :
  exists m' h', put_level (E := E) key sibs l h (mkTree (Limited (S n) m) r) = (Ok h', mkTree (Limited n m') r).
Proof.
  unfold put_level. destruct (if bit_at_level key l then _ else _) as [a b]. unfold mbind, M_bind.
  rewrite limited_insert. by eexists _, _.
Qed.

Lemma limited_loop {E} key sibs ls n m r h :
  exists m' h', fold_each (E := E) ls (put_level key sibs) h (mkTree (Limited (length ls + n) m) r) =
    (Ok h', mkTree (Limited n m') r).
Proof.
  revert m h; induction ls as [|l ls IH]; intros m h; [by eexists _, _|]. cbn [length plus fold_each].
  destruct (limited_level (E := E) key sibs l (length ls + n) m r h) as (m1 & h1 & Hl). unfold mbind, M_bind.
  rewrite Hl. apply IH.
Qed.

(** A write makes 258 writes of the store. *)
Lemma limited_put {E} address st n m r :
  exists m' r', tree_put (E := E) address st (mkTree (Limited (258 + n) m) r) = (Ok tt, mkTree (Limited n m') r').
Proof.
  with_strategy transparent [tree_put] unfold tree_put. unfold get, mbind, M_bind.
  rewrite (limited_insert (257 + n)), (limited_insert (256 + n)).
  edestruct (limited_loop (E := E) (address_to_key address)) as (m' & h' & Hl).
  rewrite (Hl : fold_each (seq 1 TREE_DEPTH) _ _ _ = _). by eexists _, _.
Qed.

Lemma limited_put_stops {E} address st m r :
  tree_put (E := E) address st (mkTree (Limited 1 m) r) =
  (Panic, mkTree (Limited 0 (<[leaf_value_key (address_to_key address) := to_bytes st]> m)) r).
Proof. with_strategy transparent [tree_put] unfold tree_put. done. Qed.

Lemma limited_put_refused {E} address st m r :
  tree_put (E := E) address st (mkTree (Limited 0 m) r) = (Panic, mkTree (Limited 0 m) r).
Proof. with_strategy transparent [tree_put] unfold tree_put. done. Qed.

(** The write of alice's account stopped after its value. *)
Definition torn : StateTree limited := (tree_put (E := StateError) "alice" (with_balance 5) (tree_with 1)).2.

Lemma torn_run : tree_put (E := StateError) "alice" (with_balance 5) (tree_with 1) = (Panic, torn).
Proof. unfold torn, tree_with. by rewrite limited_put_stops. Qed.

(** The same contents in a store that works again. *)
Definition reopened : limited := Limited 1000 (limited_map (st_tree torn)).

Lemma torn_alice : tree_get "alice" torn = Some (with_balance 5).
Proof.
  unfold torn, tree_with. rewrite limited_put_stops. apply tree_get_store. unfold view. cbn.
  by rewrite lookup_insert_eq.
Qed.

Lemma tree_with_alice n : tree_get "alice" (tree_with n) = Some (with_balance 100).
Proof. rewrite (tree_get_spec _ _ _ (tree_with_inv n)). vm_compute. reflexivity. Qed.

Lemma bob_not_alice : address_to_key "bob" <> address_to_key "alice".
Proof. vm_compute. discriminate. Qed.
End StateRecoveryExamples.

Import StateRecoveryExamples.

Lemma torn_attempts : attempts "alice" (tree_with 1) [with_balance 5] (from_root reopened []).
Proof.
  apply (att_restart _ _ _ torn); [|by intros ?].
  exact (att_put _ _ [] _ _ _ _ (att_none _ _) torn_run).
Qed.

Lemma interrupted_puts_heal_witness :
  tree_get "bob" (from_root reopened []) = None /\
  exists s2, tree_put (E := StateError) "alice" (with_balance 7) (from_root reopened []) = (Ok tt, s2) /\
    tree_inv s2 (<[address_to_key "alice" := with_balance 7]> accounts).
Proof.
  destruct (interrupted_puts_heal "alice" (tree_with 1) [with_balance 5] (from_root reopened []) accounts
    (inv_store _ _ (tree_with_inv 1)) torn_attempts) as (Ho & _ & Hheal).
  split; [rewrite Ho by exact bob_not_alice; vm_compute; reflexivity|].
  destruct (limited_put (E := StateError) "alice" (with_balance 7) 742 (limited_map (st_tree torn)) []) as (m & r & Hput).
  exists (mkTree (Limited 742 m) r). split; [exact Hput|]. exact (Hheal _ _ Hput).
Defined.

Lemma put_root_over_torn_witness :
  exists s2 B, tree_put (E := StateError) "bob" default_account (from_root reopened []) = (Ok tt, s2) /\
    (B = accounts \/ B = <[address_to_key "alice" := with_balance 5]> accounts) /\
    root s2 = H 256 zero_key (<[address_to_key "bob" := default_account]> B) /\
    tree_get "alice" s2 = Some (with_balance 5).
Proof.
  destruct (limited_put (E := StateError) "bob" default_account 742 (limited_map (st_tree torn)) []) as (m & r & Hput).
  destruct (put_root_over_torn "alice" (with_balance 5) (tree_with 1) torn reopened [] accounts "bob" default_account
    (mkTree (Limited 742 m) r) (tree_with_inv 1) torn_run (fun k => eq_refl) bob_not_alice Hput) as (B & HB & Hr & Hg).
  exists (mkTree (Limited 742 m) r), B. split_and!; [exact Hput|exact HB|exact Hr|]. rewrite Hg. exact torn_alice.
Defined.

Lemma torn_read_unprovable_witness : root torn = root (tree_with 1).
Proof.
  apply (torn_read_unprovable "alice" (with_balance 5) (tree_with 1) torn accounts
    (mkProof (replicate 256 (replicate 32 0)) (replicate 256 false)) (tree_with_inv 1) torn_run).
  - rewrite tree_with_alice. discriminate.
  - exact torn_alice.
  - by apply Forall_replicate.
Defined.

(** With room for the writes of the debit and no more, the credit is refused: 30 units are gone. *)
Lemma transfer_cut : exists s', apply_transfer "alice" "bob" 30 (tree_with 258) = (Panic, s') /\
  tree_inv s' (<[address_to_key "alice" := debit (with_balance 100) 30]> accounts).
Proof.
  destruct (limited_put (E := StateError) "alice" (debit (with_balance 100) 30) 0 (st_tree tree) (st_root tree)) as (m & r & Hput).
  destruct (put_reads _ _ _ _ _ accounts (tree_with_inv 258) Hput) as [[_ Hinv]|[? _]]; [|done].
  exists (mkTree (Limited 0 m) r). split; [|exact Hinv].
  unfold apply_transfer. unfold mbind, M_bind, get, u64_sub, u64_add, lift, expect. rewrite tree_with_alice.
  cbn -[debit].
  change (checked_add 0 1) with (Some 1). cbv beta iota.
  match goal with |- context [@tree_put _ _ _ _ _ _ ?a _] => change a with (debit (with_balance 100) 30) end.
  rewrite (Hput : tree_put "alice" _ (tree_with 258) = _).
  rewrite (tree_get_spec _ _ _ Hinv), lookup_insert_ne by (by intros ?%eq_sym%bob_not_alice).
  replace (accounts !! address_to_key "bob") with (None : option AccountState) by (vm_compute; reflexivity).
  cbn. change (checked_add 0 30) with (Some 30). cbv beta iota.
  by rewrite limited_put_refused.
Qed.

Lemma interrupted_transfer_witness :
  exists s' B, apply_transfer "alice" "bob" 30 (tree_with 258) = (Panic, s') /\
    balance (read "alice" s') = 70 /\ tree_get "bob" s' = None /\
    (forall address, tree_get address s' = B !! address_to_key address) /\
    (supply B = supply accounts \/ supply B = supply accounts - 30).
Proof.
  destruct transfer_cut as (s' & Hrun & Hinv). exists s'.
  assert (balance (read "alice" s') = 70 /\ tree_get "bob" s' = None) as [Ha Hb].
  { unfold read. rewrite !(tree_get_spec _ _ _ Hinv), lookup_insert_eq. split; [done|].
    rewrite lookup_insert_ne by (by intros ?%eq_sym%bob_not_alice). vm_compute. reflexivity. }
  destruct (interrupted_transfer "alice" "bob" 30 (tree_with 258) accounts Panic s' (tree_with_inv 258) Hrun)
    as [[Hr _]|(_ & B & _ & Hread & Hs)].
  - exfalso. revert Hr. vm_compute. discriminate.
  - exists B. exact (conj Hrun (conj Ha (conj Hb (conj Hread Hs)))).
Defined.
