(* ===== verification/Db.v ===== *)
(** * NovaDB

    [protocol/src/storage/db.rs]: blocks, transactions, accounts and the chain
    height in named sled trees.  [db_inv db B] says that the block tree holds
    exactly the finite map [B] from heights to blocks; reads and range scans are
    proved against [B].  The bincode encodings of blocks and transactions are the
    class [StorageCodec]. *)

From S2P Require Import Prelude Bytes Crypto Transaction Block Sled StateTree.

#[local] Open Scope Z_scope.

Inductive DbError :=
| DbSled (msg : string)
| DbSerialization (msg : string)
| DbNotFound (key : string).

Class StorageCodec := {
  block_ser : Block -> res string (list Z);
  block_de : list Z -> res string Block;
  tx_ser : Transaction -> res string (list Z);
  tx_de : list Z -> res string Transaction;
  account_ser : AccountState -> res string (list Z);
  account_de : list Z -> res string AccountState
}.

Class StorageCodecLaws (SC : StorageCodec) : Prop := {
  block_ser_ok : forall b, exists v, block_ser b = Ok v;
  tx_ser_ok : forall tx, exists v, tx_ser tx = Ok v;
  block_de_ser : forall b v, block_ser b = Ok v -> block_de v = Ok b;
  account_ser_ok : forall a, exists v, account_ser a = Ok v;
  tx_de_ser : forall tx v, tx_ser tx = Ok v -> tx_de v = Ok tx;
  account_de_ser : forall a v, account_ser a = Ok v -> account_de v = Ok a
}.

Definition META_LATEST_HEIGHT : list Z := str_bytes "latest_block_height".

Record NovaDB (Tr : Type) := mkDb {
  db_default : Tr;
  db_blocks : Tr;
  db_block_hashes : Tr;
  db_transactions : Tr;
  db_accounts : Tr;
  db_metadata : Tr
}.

Arguments mkDb {Tr} _ _ _ _ _ _.
Arguments db_default {Tr} _.
Arguments db_blocks {Tr} _.
Arguments db_block_hashes {Tr} _.
Arguments db_transactions {Tr} _.
Arguments db_accounts {Tr} _.
Arguments db_metadata {Tr} _.

Section Db.
Context {SC : StorageCodec} {Tr : Type} `{Sd : Sled Tr}.

(** [from_db] on a database whose trees are all new. *)
Definition open_temporary : NovaDB Tr :=
  mkDb sled_new sled_new sled_new sled_new sled_new sled_new.

Definition set_blocks (t : Tr) (d : NovaDB Tr) : NovaDB Tr :=
  mkDb (db_default d) t (db_block_hashes d) (db_transactions d) (db_accounts d) (db_metadata d).
Definition set_block_hashes (t : Tr) (d : NovaDB Tr) : NovaDB Tr :=
  mkDb (db_default d) (db_blocks d) t (db_transactions d) (db_accounts d) (db_metadata d).
Definition set_transactions (t : Tr) (d : NovaDB Tr) : NovaDB Tr :=
  mkDb (db_default d) (db_blocks d) (db_block_hashes d) t (db_accounts d) (db_metadata d).
Definition set_accounts (t : Tr) (d : NovaDB Tr) : NovaDB Tr :=
  mkDb (db_default d) (db_blocks d) (db_block_hashes d) (db_transactions d) t (db_metadata d).
Definition set_metadata (t : Tr) (d : NovaDB Tr) : NovaDB Tr :=
  mkDb (db_default d) (db_blocks d) (db_block_hashes d) (db_transactions d) (db_accounts d) t.

(** [self.<tree>.insert(k, v)?] *)
Definition db_insert (pr : NovaDB Tr -> Tr) (up : Tr -> NovaDB Tr -> NovaDB Tr) (k v : list Z)
    : M (NovaDB Tr) DbError unit := fun d =>
  match sled_insert (pr d) k v with
  | Ok t => (Ok tt, up t d)
  | Err e => (Err (DbSled e), d)
  | Panic => (Panic, d)
  end.

(** [self.<tree>.apply_batch(batch)?] *)
Definition db_batch (pr : NovaDB Tr -> Tr) (up : Tr -> NovaDB Tr -> NovaDB Tr)
    (ops : list (list Z * list Z)) : M (NovaDB Tr) DbError unit := fun d =>
  match sled_apply_batch (pr d) ops with
  | Ok t => (Ok tt, up t d)
  | Err e => (Err (DbSled e), d)
  | Panic => (Panic, d)
  end.

(** The batch built from the transactions of a block. *)
Fixpoint tx_batch (txs : list Transaction) : res DbError (list (list Z * list Z)) :=
  match txs with
  | [] => Ok []
  | tx :: txs' =>
      tx_bytes ← map_err_res DbSerialization (tx_ser tx);
      rest ← tx_batch txs';
      Ok ((str_bytes (tx_id tx), tx_bytes) :: rest)
  end.

Definition flush : M (NovaDB Tr) DbError unit := fun d =>
  (map_err_res DbSled (sled_flush (db_default d)), d).

Definition put_block (block : Block) : M (NovaDB Tr) DbError unit :=
  let height_key := be_bytes 8 (height (header block)) in
  block_bytes ← lift (map_err_res DbSerialization (block_ser block));
  _ ← db_batch db_blocks set_blocks [(height_key, block_bytes)];
  _ ← db_insert db_block_hashes set_block_hashes (hash (header block)) height_key;
  ops ← lift (tx_batch (transactions block));
  _ ← db_batch db_transactions set_transactions ops;
  _ ← db_insert db_metadata set_metadata META_LATEST_HEIGHT height_key;
  flush.

(** Lookup in a tree, then deserialization. *)
Definition get_decoded {A} (t : Tr) (de : list Z -> res string A) (k : list Z)
    : res DbError (option A) :=
  o ← map_err_res DbSled (sled_get t k);
  match o with
  | Some bytes => a ← map_err_res DbSerialization (de bytes); Ok (Some a)
  | None => Ok None
  end.

Definition get_block (height : Z) (d : NovaDB Tr) : res DbError (option Block) :=
  get_decoded (db_blocks d) block_de (be_bytes 8 height).

(** [u64::from_be_bytes(bytes.try_into()?)] *)
Definition height_of_bytes (bytes : list Z) : res string Z :=
  if bool_decide (length bytes = 8%nat) then Ok (be_decode bytes) else Err "invalid height bytes".

Definition get_block_by_hash (h : list Z) (d : NovaDB Tr) : res DbError (option Block) :=
  o ← get_decoded (db_block_hashes d) height_of_bytes h;
  match o with
  | Some height => get_block height d
  | None => Ok None
  end.

Fixpoint decode_blocks (entries : list (list Z * list Z)) : res DbError (list Block) :=
  match entries with
  | [] => Ok []
  | (_, value) :: rest =>
      block ← map_err_res DbSerialization (block_de value);
      blocks ← decode_blocks rest;
      Ok (block :: blocks)
  end.

Definition get_block_range (start end_ : Z) (d : NovaDB Tr) : res DbError (list Block) :=
  entries ← map_err_res DbSled (sled_range (db_blocks d) (be_bytes 8 start) (be_bytes 8 end_));
  decode_blocks entries.

Definition put_transaction (tx : Transaction) : M (NovaDB Tr) DbError unit :=
  tx_bytes ← lift (map_err_res DbSerialization (tx_ser tx));
  db_insert db_transactions set_transactions (str_bytes (tx_id tx)) tx_bytes.

Definition get_transaction (id : string) (d : NovaDB Tr) : res DbError (option Transaction) :=
  get_decoded (db_transactions d) tx_de (str_bytes id).

Definition put_account (address : string) (state : AccountState) : M (NovaDB Tr) DbError unit :=
  bytes ← lift (map_err_res DbSerialization (account_ser state));
  db_insert db_accounts set_accounts (str_bytes address) bytes.

Definition get_account (address : string) (d : NovaDB Tr) : res DbError (option AccountState) :=
  get_decoded (db_accounts d) account_de (str_bytes address).

Definition get_latest_block_height (d : NovaDB Tr) : res DbError (option Z) :=
  get_decoded (db_metadata d) height_of_bytes META_LATEST_HEIGHT.

Definition set_latest_block_height (height : Z) : M (NovaDB Tr) DbError unit :=
  db_insert db_metadata set_metadata META_LATEST_HEIGHT (be_bytes 8 height).

Definition block_count (d : NovaDB Tr) : nat := sled_len (db_blocks d).
Definition transaction_count (d : NovaDB Tr) : nat := sled_len (db_transactions d).
Definition account_count (d : NovaDB Tr) : nat := sled_len (db_accounts d).

(** ** The abstract block store *)

Record db_inv (d : NovaDB Tr) (B : gmap Z Block) : Prop := {
  di_blocks : forall k v, view (db_blocks d) k = Some v <->
    exists h b, k = be_bytes 8 h /\ B !! h = Some b /\ block_ser b = Ok v;
  di_heights : forall h b, B !! h = Some b -> in_u64 h /\ height (header b) = h
}.
End Db.

#[local] Arguments be_bytes : simpl never.
#[local] Arguments META_LATEST_HEIGHT : simpl never.

Section DbProofs.
Context {SC : StorageCodec} {SCL : StorageCodecLaws SC}.
Context {Tr : Type} `{Sd : Sled Tr} {SL : SledLaws Tr} {SH : SledHealthy Tr}.

Implicit Types (d : NovaDB Tr) (b : Block) (B : gmap Z Block).

Lemma db_insert_ok pr up k v d :
  exists t, db_insert pr up k v d = (Ok tt, up t d) /\
    forall k', view t k' = if decide (k = k') then Some v else view (pr d) k'.
Proof.
  unfold db_insert. destruct (sled_insert_ok (pr d) k v) as [t Ht]. rewrite Ht.
  exists t. split; [done|]. intros k'. by eapply sled_get_insert.
Qed.

Lemma db_batch_ok pr up ops d :
  exists t, db_batch pr up ops d = (Ok tt, up t d) /\
    forall k, view t k = match batch_get ops k with Some v => Some v | None => view (pr d) k end.
Proof.
  unfold db_batch. destruct (sled_batch_ok (pr d) ops) as [t Ht]. rewrite Ht.
  exists t. split; [done|]. intros k. by eapply sled_get_batch.
Qed.

Lemma flush_ok d : flush d = (Ok tt, d).
Proof. unfold flush. by rewrite sled_flush_ok. Qed.

(** The last transaction of a list with a given id. *)
Definition find_last_tx (id : string) (txs : list Transaction) : option Transaction :=
  last (filter (fun tx => tx_id tx = id) txs).

Lemma last_filter_cons id tx txs :
  find_last_tx id (tx :: txs) =
  match find_last_tx id txs with
  | Some t => Some t
  | None => if decide (tx_id tx = id) then Some tx else None
  end.
Proof.
  unfold find_last_tx. rewrite filter_cons. case_decide.
  - rewrite last_cons. by destruct (last _).
  - by destruct (last _).
Qed.

Lemma tx_batch_ok txs :
  exists ops, tx_batch txs = Ok ops /\
    forall id, match find_last_tx id txs with
      | Some tx => exists v, tx_ser tx = Ok v /\ batch_get ops (str_bytes id) = Some v
      | None => batch_get ops (str_bytes id) = None
      end.
Proof.
  induction txs as [|tx txs (ops & IH & Hops)]; [by exists []|].
  destruct (tx_ser_ok tx) as [v Hv]. exists ((str_bytes (tx_id tx), v) :: ops). split.
  - simpl. rewrite Hv, IH. done.
  - intros id. rewrite last_filter_cons. specialize (Hops id). simpl.
    destruct (find_last_tx id txs) as [t|].
    + destruct Hops as (w & Hw & ->). eauto.
    + rewrite Hops. destruct (decide (tx_id tx = id)) as [->|Hne].
      * rewrite decide_True by done. eauto.
      * by rewrite decide_False by (intros ?%str_bytes_inj; done).
Qed.

Lemma get_decoded_spec {A} (t : Tr) (de : list Z -> res string A) k :
  get_decoded t de k =
  match view t k with
  | Some v => map_err_res DbSerialization (de v ≫= fun a => Ok (Some a))
  | None => Ok None
  end.
Proof.
  unfold get_decoded. rewrite sled_get_ok. simpl. destruct (view t k); [|done].
  by destruct (de l).
Qed.

Lemma u64_bound h : in_u64 h <-> 0 <= h < 256 ^ Z.of_nat 8.
Proof. unfold in_u64, U64_MAX. lia. Qed.

Lemma height_roundtrip h : in_u64 h -> height_of_bytes (be_bytes 8 h) = Ok h.
Proof.
  intros Hh. unfold height_of_bytes. rewrite bool_decide_true by apply length_be_bytes.
  by rewrite be_decode_be_bytes by (by apply u64_bound).
Qed.

(** Everything [put_block] changes, tree by tree. *)
Lemma put_block_trees b d :
  exists d' bytes, put_block b d = (Ok tt, d') /\ block_ser b = Ok bytes /\
    (forall k, view (db_blocks d') k =
       if decide (be_bytes 8 (height (header b)) = k) then Some bytes else view (db_blocks d) k) /\
    (forall k, view (db_block_hashes d') k =
       if decide (hash (header b) = k) then Some (be_bytes 8 (height (header b)))
       else view (db_block_hashes d) k) /\
    (forall id, match find_last_tx id (transactions b) with
       | Some tx => exists v, tx_ser tx = Ok v /\ view (db_transactions d') (str_bytes id) = Some v
       | None => view (db_transactions d') (str_bytes id) = view (db_transactions d) (str_bytes id)
       end) /\
    view (db_metadata d') META_LATEST_HEIGHT = Some (be_bytes 8 (height (header b))) /\
    db_accounts d' = db_accounts d.
Proof.
  unfold put_block, lift. destruct (block_ser_ok b) as [bytes Hb]. rewrite Hb.
  set (hk := be_bytes 8 (height (header b))).
  unfold mbind, M_bind. cbn [map_err_res].
  destruct (db_batch_ok db_blocks set_blocks [(hk, bytes)] d) as (t1 & E1 & V1). rewrite E1.
  set (d1 := set_blocks t1 d).
  destruct (db_insert_ok db_block_hashes set_block_hashes (hash (header b)) hk d1) as (t2 & E2 & V2).
  rewrite E2. set (d2 := set_block_hashes t2 d1).
  destruct (tx_batch_ok (transactions b)) as (ops & E3 & Hops). rewrite E3.
  destruct (db_batch_ok db_transactions set_transactions ops d2) as (t4 & E4 & V4). rewrite E4.
  set (d3 := set_transactions t4 d2).
  destruct (db_insert_ok db_metadata set_metadata META_LATEST_HEIGHT hk d3) as (t5 & E5 & V5).
  rewrite E5, flush_ok. exists (set_metadata t5 d3), bytes. cbn. split_and!; try done.
  - intros k. rewrite V1. cbn [batch_get]. by destruct (decide (hk = k)).
  - intros id. specialize (Hops id). destruct (find_last_tx id (transactions b)).
    + destruct Hops as (v & Hv & Hg). exists v. by rewrite V4, Hg.
    + by rewrite V4, Hops.
Qed.

Lemma put_block_inv b d B :
  db_inv d B -> in_u64 (height (header b)) ->
  exists d', put_block b d = (Ok tt, d') /\ db_inv d' (<[height (header b) := b]> B).
Proof.
  intros [Hb Hh] Hu. destruct (put_block_trees b d) as (d' & bytes & Hp & Hs & Vb & _).
  exists d'. split; [done|]. split.
  - intros k v. rewrite Vb. case_decide as E.
    + split.
      * intros [= <-]. exists (height (header b)), b. by rewrite lookup_insert_eq.
      * intros (h & b' & -> & Hl & Hv). apply lookup_insert_Some in Hl as [[_ <-]|[Hne Hl]]; [congruence|].
        apply be_bytes_inj in E; [done|by apply u64_bound..|apply u64_bound].
        by apply (Hh h b').
    + rewrite Hb. split; intros (h & b' & -> & Hl & Hv); exists h, b'.
      * by rewrite lookup_insert_ne by congruence.
      * apply lookup_insert_Some in Hl as [[<- _]|[Hne Hl]]; done.
  - intros h b'. rewrite lookup_insert_Some. intros [[<- <-]|[_ Hl]]; [done|by apply Hh].
Qed.

Lemma get_block_inv h d B : db_inv d B -> in_u64 h -> get_block h d = Ok (B !! h).
Proof.
  intros [Hb Hh] Hu. unfold get_block. rewrite get_decoded_spec.
  destruct (view (db_blocks d) (be_bytes 8 h)) as [v|] eqn:Ev.
  - apply Hb in Ev as (h' & b & Heq & Hl & Hv).
    apply be_bytes_inj in Heq as ->; [|by apply u64_bound|apply u64_bound; by apply (Hh h' b)].
    by rewrite Hl, (block_de_ser b v Hv).
  - destruct (B !! h) as [b|] eqn:E; [|done]. destruct (block_ser_ok b) as [v Hv].
    assert (view (db_blocks d) (be_bytes 8 h) = Some v) as Hc by (apply Hb; eauto). congruence.
Qed.

(** After a block is stored it is the chain tip. *)
Lemma put_block_tip b d B :
  db_inv d B -> in_u64 (height (header b)) ->
  exists d', put_block b d = (Ok tt, d') /\ db_inv d' (<[height (header b) := b]> B) /\
    get_latest_block_height d' = Ok (Some (height (header b))) /\
    get_block (height (header b)) d' = Ok (Some b).
Proof.
  intros Hi Hu. destruct (put_block_inv b d B Hi Hu) as (d' & Hp & Hi').
  destruct (put_block_trees b d) as (d2 & bytes & Hp2 & _ & _ & _ & _ & Vm & _).
  rewrite Hp in Hp2. injection Hp2 as <-. exists d'. split_and!; [done..| |].
  - unfold get_latest_block_height. rewrite get_decoded_spec, Vm. by rewrite height_roundtrip.
  - rewrite (get_block_inv _ _ _ Hi' Hu). by rewrite lookup_insert_eq.
Qed.

(** Everything [put_block] makes readable. *)
Lemma put_block_lookup b d B :
  db_inv d B -> in_u64 (height (header b)) ->
  exists d', put_block b d = (Ok tt, d') /\ db_inv d' (<[height (header b) := b]> B) /\
    get_block_by_hash (hash (header b)) d' = Ok (Some b) /\
    get_latest_block_height d' = Ok (Some (height (header b))) /\
    (forall h, in_u64 h -> get_block h d' = Ok (<[height (header b) := b]> B !! h)) /\
    (forall id, get_transaction id d' =
       match find_last_tx id (transactions b) with
       | Some tx => Ok (Some tx)
       | None => get_transaction id d
       end) /\
    (forall a, get_account a d' = get_account a d).
Proof.
  intros Hi Hu. destruct (put_block_inv b d B Hi Hu) as (d' & Hp & Hi').
  destruct (put_block_trees b d) as (d2 & bytes & Hp2 & Hs & Vb & Vh & Vt & Vm & Va).
  rewrite Hp in Hp2. injection Hp2 as <-. exists d'. split; [done|]. split; [done|].
  split; [|split; [|split; [|split]]].
  - unfold get_block_by_hash. rewrite get_decoded_spec, Vh, decide_True by done.
    rewrite height_roundtrip by done. simpl. rewrite (get_block_inv _ _ _ Hi' Hu).
    by rewrite lookup_insert_eq.
  - unfold get_latest_block_height. rewrite get_decoded_spec, Vm. by rewrite height_roundtrip.
  - intros h Hh. by apply get_block_inv.
  - intros id. specialize (Vt id). unfold get_transaction. rewrite !get_decoded_spec.
    destruct (find_last_tx id (transactions b)) as [tx|].
    + destruct Vt as (v & Hv & ->). by rewrite (tx_de_ser tx v Hv).
    + by rewrite Vt.
  - intros a. unfold get_account. by rewrite Va.
Qed.

(** A stored block is found by height and by hash, sets the chain height, and
    every transaction it carries is found by id; the blocks at other heights and
    the accounts are untouched. *)
Theorem put_block_readable b d B :
  db_inv d B -> in_u64 (height (header b)) ->
  exists d', put_block b d = (Ok tt, d') /\ db_inv d' (<[height (header b) := b]> B) /\
    get_block_by_hash (hash (header b)) d' = Ok (Some b) /\
    get_latest_block_height d' = Ok (Some (height (header b))) /\
    (forall h, in_u64 h -> get_block h d' = Ok (<[height (header b) := b]> B !! h)) /\
    (forall id, get_transaction id d' =
       match find_last_tx id (transactions b) with
       | Some tx => Ok (Some tx)
       | None => get_transaction id d
       end) /\
    (forall a, get_account a d' = get_account a d).
Proof. apply put_block_lookup. Qed.

(** A range entry and the block decoded from it. *)
Definition entry_of (B : gmap Z Block) (e : list Z * list Z) (b : Block) : Prop :=
  e.1 = be_bytes 8 (height (header b)) /\ B !! height (header b) = Some b /\ block_ser b = Ok e.2.

Lemma decode_blocks_ok d B entries :
  db_inv d B -> Forall (fun e => view (db_blocks d) e.1 = Some e.2) entries ->
  exists l, decode_blocks entries = Ok l /\ Forall2 (entry_of B) entries l.
Proof.
  intros [Hb Hh]. induction 1 as [|[k v] es He Hes (l & Hl & Hf)]; [by exists []|].
  apply Hb in He as (h & b & Hk & Hlk & Hv). simpl in *.
  exists (b :: l). rewrite (block_de_ser b v Hv), Hl. split; [done|].
  constructor; [|done]. destruct (Hh h b Hlk) as [_ <-]. done.
Qed.

Lemma decoded_sorted d B entries l :
  db_inv d B -> Forall2 (entry_of B) entries l ->
  StronglySorted (fun p q => bytes_ltb p.1 q.1 = true) entries ->
  StronglySorted (fun b c => height (header b) < height (header c)) l.
Proof.
  intros [_ Hh] Hf Hs. revert l Hf; induction Hs as [|e es Hs IH He]; intros l Hf;
    inversion_clear Hf as [|? b ? l' Hb Hrest]; constructor; [by apply IH|].
  apply Forall_forall. intros c Hc.
  apply list_elem_of_lookup in Hc as [i Hi].
  destruct (Forall2_lookup_r _ _ _ _ _ Hrest Hi) as (e' & He' & Hk' & Hl' & _).
  rewrite Forall_forall in He. specialize (He e' (list_elem_of_lookup_2 _ _ _ He')).
  destruct Hb as (Hk & Hl & _). rewrite Hk, Hk' in He.
  rewrite be_bytes_ltb in He by (apply u64_bound; eapply Hh; eassumption).
  by apply Z.ltb_lt in He.
Qed.

(** A range scan returns exactly the stored blocks of the range, each once, in
    ascending height order.  Missing heights are skipped: the scan does not stop
    at the first gap, as the comment on the method says it does. *)
Theorem get_block_range_complete start end_ d B :
  db_inv d B -> in_u64 start -> in_u64 end_ ->
  exists l, get_block_range start end_ d = Ok l /\
    StronglySorted (fun b c => height (header b) < height (header c)) l /\
    forall b, b ∈ l <-> exists h, start <= h <= end_ /\ B !! h = Some b.
Proof.
  intros Hi Hs He. unfold get_block_range.
  destruct (sled_range_ok (db_blocks d) (be_bytes 8 start) (be_bytes 8 end_)) as [es Hr].
  rewrite Hr. pose proof (fun k v => sled_range_elem _ _ _ _ k v Hr) as Helem.
  destruct (decode_blocks_ok d B es Hi) as (l & Hl & Hf).
  { apply Forall_forall. intros [k v] Hkv. by apply Helem in Hkv as [? _]. }
  exists l. split; [done|]. split.
  { eapply decoded_sorted; [done..|]. by eapply sled_range_sorted. }
  destruct Hi as [Hb Hh]. intros b. split.
  - intros [i Hbi]%list_elem_of_lookup.
    destruct (Forall2_lookup_r _ _ _ _ _ Hf Hbi) as ([k v] & Hkv & Hk & Hlk & _). simpl in Hk. subst k.
    apply list_elem_of_lookup_2, Helem in Hkv as (_ & Hlo & Hhi).
    destruct (Hh _ _ Hlk) as [Hu _]. exists (height (header b)). split; [|done].
    rewrite be_bytes_ltb in Hlo, Hhi by (by apply u64_bound).
    apply Z.ltb_ge in Hlo, Hhi. lia.
  - intros (h & Hrange & Hlk). destruct (Hh _ _ Hlk) as [Hu Hhb].
    destruct (block_ser_ok b) as [v Hv].
    assert ((be_bytes 8 h, v) ∈ es) as [i Hi]%list_elem_of_lookup.
    { apply Helem. split; [apply Hb; eauto|].
      rewrite !be_bytes_ltb by (by apply u64_bound). rewrite !Z.ltb_ge. lia. }
    destruct (Forall2_lookup_l _ _ _ _ _ Hf Hi) as (b' & Hb' & Hk & Hlk' & _). simpl in Hk.
    apply be_bytes_inj in Hk as ->; [|by apply u64_bound|apply u64_bound; by eapply Hh].
    rewrite Hlk in Hlk'. injection Hlk' as ->. by eapply list_elem_of_lookup_2.
Qed.

(** Transactions and accounts written one by one are read back, and no other
    key is affected. *)
Theorem put_get_roundtrip tx a st d :
  exists d1 d2, put_transaction tx d = (Ok tt, d1) /\ put_account a st d1 = (Ok tt, d2) /\
    (forall id, get_transaction id d2 =
       if decide (tx_id tx = id) then Ok (Some tx) else get_transaction id d) /\
    (forall a', get_account a' d2 = if decide (a = a') then Ok (Some st) else get_account a' d).
Proof.
  destruct (tx_ser_ok tx) as [v Hv]. destruct (account_ser_ok st) as [w Hw].
  destruct (db_insert_ok db_transactions set_transactions (str_bytes (tx_id tx)) v d) as (t1 & E1 & V1).
  destruct (db_insert_ok db_accounts set_accounts (str_bytes a) w (set_transactions t1 d))
    as (t2 & E2 & V2).
  exists (set_transactions t1 d), (set_accounts t2 (set_transactions t1 d)).
  unfold put_transaction, put_account, lift, mbind, M_bind. rewrite Hv, Hw. cbn [map_err_res].
  split_and!; [done..| |].
  - intros id. unfold get_transaction. rewrite !get_decoded_spec. cbn. rewrite V1.
    destruct (decide (tx_id tx = id)) as [->|Hne].
    + by rewrite decide_True, (tx_de_ser tx v Hv).
    + by rewrite decide_False by (intros ?%str_bytes_inj; done).
  - intros a'. unfold get_account. rewrite !get_decoded_spec. cbn. rewrite V2.
    destruct (decide (a = a')) as [->|Hne].
    + by rewrite decide_True, (account_de_ser st w Hw).
    + by rewrite decide_False by (intros ?%str_bytes_inj; done).
Qed.
End DbProofs.

(** [put_block] writes four trees one after the other: an I/O error on the hash
    index leaves the block stored while the call fails and the chain height still
    points below it. *)
Theorem put_block_not_atomic {SC : StorageCodec} {Tr} `{Sd : Sled Tr} {SL : SledLaws Tr}
    b bytes (d : NovaDB Tr) t e :
  block_ser b = Ok bytes ->
  sled_apply_batch (db_blocks d) [(be_bytes 8 (height (header b)), bytes)] = Ok t ->
  sled_insert (db_block_hashes d) (hash (header b)) (be_bytes 8 (height (header b))) = Err e ->
  exists d', put_block b d = (Err (DbSled e), d') /\
    view (db_blocks d') (be_bytes 8 (height (header b))) = Some bytes /\
    db_metadata d' = db_metadata d /\ db_transactions d' = db_transactions d.
Proof.
  intros Hs Hb Hi. exists (set_blocks t d).
  unfold put_block, lift, mbind, M_bind, db_batch, db_insert. rewrite Hs. cbn [map_err_res].
  rewrite Hb. cbn [set_blocks db_block_hashes]. rewrite Hi. split; [done|]. cbn.
  split; [|done]. rewrite (sled_get_batch _ _ _ _ Hb). cbn. by rewrite decide_True.
Qed.

(** ** A codec for the witnesses *)

Module ToyCodec.
Definition currency_sum (c : Currency) : nat + string :=
  match c with
  | BRL => inl 0%nat | USD => inl 1%nat | EUR => inl 2%nat | BTC => inl 3%nat | ETH => inl 4%nat
  | USDC => inl 5%nat | NOVA => inl 6%nat | Custom t => inr t
  end.
Definition sum_currency (x : nat + string) : Currency :=
  match x with
  | inl 0%nat => BRL | inl 1%nat => USD | inl 2%nat => EUR | inl 3%nat => BTC | inl 4%nat => ETH
  | inl 5%nat => USDC | inl _ => NOVA | inr t => Custom t
  end.

#[export] Instance currency_countable : Countable Currency.
Proof. refine (inj_countable' currency_sum sum_currency _). by intros []. Defined.

Definition type_nat (t : TransactionType) : nat :=
  match t with
  | Transfer => 0 | CreditRequest => 1 | CreditSettlement => 2 | TokenMint => 3 | TokenBurn => 4
  | ConfidentialTransfer => 5
  end.
Definition nat_type (n : nat) : TransactionType :=
  match n with
  | 0 => Transfer | 1 => CreditRequest | 2 => CreditSettlement | 3 => TokenMint | 4 => TokenBurn
  | _ => ConfidentialTransfer
  end%nat.

#[export] Instance type_countable : Countable TransactionType.
Proof. refine (inj_countable' type_nat nat_type _). by intros []. Defined.

#[export] Instance amount_countable : Countable Amount.
Proof.
  refine (inj_countable' (fun a => (value a, currency a)) (fun '(v, c) => mkAmount v c) _).
  by intros [].
Defined.

#[export] Instance tx_countable : Countable Transaction.
Proof.
  refine (inj_countable' (fun t => ((tx_id t, tx_version t, tx_type t, tx_sender t, tx_receiver t),
      (tx_amount t, tx_fee t, tx_nonce t, tx_timestamp t, tx_payload t),
      (tx_sender_public_key t, tx_signature t, tx_zkp_proof t, tx_proof t, tx_amount_commitment t)))
    (fun '((a, b, c, d, e), (f, g, h, i, j), (k, l, m, n, o)) =>
      mkTx a b c d e f g h i j k l m n o) _).
  by intros [].
Defined.

#[export] Instance header_countable : Countable BlockHeader.
Proof.
  refine (inj_countable' (fun h => ((height h, hash h, parent_hash h, timestamp h),
      (validator h, state_root h, tx_root h, signature h)))
    (fun '((a, b, c, d), (e, f, g, h)) => mkHeader a b c d e f g h) _).
  by intros [].
Defined.

#[export] Instance block_countable : Countable Block.
Proof.
  refine (inj_countable' (fun b => (header b, transactions b)) (fun '(h, t) => mkBlock h t) _).
  by intros [].
Defined.

Definition ser {A} `{Countable A} (a : A) : res string (list Z) := Ok [Zpos (encode a)].
Definition de {A} `{Countable A} (l : list Z) : res string A :=
  match l with [Zpos p] => ok_or (decode p) "bad"%string | _ => Err "bad"%string end.

Definition storage_codec : StorageCodec := {|
  block_ser := ser; block_de := de; tx_ser := ser; tx_de := de; account_ser := ser; account_de := de
|}.
End ToyCodec.

Lemma toy_de_ser {A} `{Countable A} (a : A) v : ToyCodec.ser a = Ok v -> ToyCodec.de v = Ok a.
Proof. intros [= <-]. unfold ToyCodec.de. by rewrite decode_encode. Qed.

#[global] Instance toy_storage_laws : StorageCodecLaws ToyCodec.storage_codec.
Proof. split; try (intros; by eexists); intros ?? Hs; by apply toy_de_ser. Qed.

Module DbExamples.
#[export] Existing Instance ToyCodec.storage_codec.

Definition at_height (h : Z) : Block :=
  mkBlock (mkHeader h (be_bytes 32 h) zero32 0 "v" zero32 zero32 []) [BlockExamples.pay h].

Definition empty_db : NovaDB (gmap (list Z) (list Z)) := open_temporary.

Lemma empty_db_inv : db_inv empty_db ∅.
Proof. split; [|done]. intros k v. split; [done|]. by intros (h & b & _ & Hl & _). Qed.

(** A chain with a gap: blocks 1 and 3. *)
Definition gap_db : NovaDB (gmap (list Z) (list Z)) :=
  (put_block (at_height 3) (put_block (at_height 1) empty_db).2).2.

Lemma gap_db_inv : db_inv gap_db (<[3 := at_height 3]> (<[1 := at_height 1]> ∅)).
Proof.
  unfold gap_db. assert (in_u64 1) by (unfold in_u64, U64_MAX; lia).
  assert (in_u64 3) by (unfold in_u64, U64_MAX; lia).
  destruct (put_block_inv (at_height 1) empty_db ∅ empty_db_inv) as (d1 & H1 & I1); [done|].
  rewrite H1. cbn [snd].
  destruct (put_block_inv (at_height 3) d1 _ I1) as (d2 & H2 & I2); [done|]. by rewrite H2.
Qed.

(** A store on which writing a 32-byte key fails. *)
Record flaky := Flaky { flaky_map : gmap (list Z) (list Z) }.

#[export] Instance flaky_sled : Sled flaky := {|
  sled_new := Flaky ∅;
  sled_get := fun t k => sled_get (flaky_map t) k;
  sled_insert := fun t k v =>
    if bool_decide (length k = 32%nat) then Err "io"%string else Ok (Flaky (<[k:=v]> (flaky_map t)));
  sled_apply_batch := fun t ops => Ok (Flaky (fold_left (fun t p => <[p.1:=p.2]> t) ops (flaky_map t)));
  sled_flush := fun _ => Ok tt;
  sled_range := fun t lo hi => sled_range (flaky_map t) lo hi;
  sled_len := fun t => sled_len (flaky_map t)
|}.

#[export] Instance flaky_laws : SledLaws flaky.
Proof.
  split; intros *.
  - exact (sled_get_new (Tr := gmap (list Z) (list Z)) k).
  - cbn. case_bool_decide; [done|]. intros [= <-].
    exact (sled_get_insert (flaky_map t) (<[k:=v]> (flaky_map t)) k v k' eq_refl).
  - cbn. intros [= <-]. exact (sled_get_batch (flaky_map t) _ ops k eq_refl).
  - exact (sled_range_sorted (flaky_map t) lo hi l).
  - exact (sled_range_elem (flaky_map t) lo hi l k v).
Qed.
End DbExamples.

Import ToyCodec DbExamples.

Lemma put_block_readable_witness :
  exists d', put_block (at_height 1) empty_db = (Ok tt, d') /\
    get_block_by_hash (be_bytes 32 1) d' = Ok (Some (at_height 1)) /\
    get_latest_block_height d' = Ok (Some 1).
Proof.
  destruct (put_block_readable (at_height 1) empty_db ∅) as (d' & H1 & _ & H2 & H3 & _).
  - exact empty_db_inv.
  - unfold in_u64, U64_MAX; simpl; lia.
  - exists d'. split; [exact H1|]. split; [exact H2|exact H3].
Defined.

Lemma get_block_range_complete_witness :
  exists l, get_block_range 0 10 gap_db = Ok l /\
    StronglySorted (fun b c => height (header b) < height (header c)) l /\
    forall b, b ∈ l <->
      exists h, 0 <= h <= 10 /\ (<[3 := at_height 3]> (<[1 := at_height 1]> ∅) : gmap Z Block) !! h = Some b.
Proof.
  apply (get_block_range_complete 0 10 gap_db); [exact gap_db_inv|unfold in_u64, U64_MAX; lia..].
Defined.

Lemma put_get_roundtrip_witness :
  exists d1 d2, put_transaction (BlockExamples.pay 1) empty_db = (Ok tt, d1) /\
    put_account "alice" (with_balance 5) d1 = (Ok tt, d2) /\
    get_account "alice" d2 = Ok (Some (with_balance 5)).
Proof.
  destruct (put_get_roundtrip (BlockExamples.pay 1) "alice" (with_balance 5) empty_db)
    as (d1 & d2 & H1 & H2 & _ & H3).
  exists d1, d2. split; [exact H1|]. split; [exact H2|]. apply (H3 "alice"%string).
Defined.

Lemma put_block_not_atomic_witness :
  exists d', put_block (at_height 1) (open_temporary (Tr := flaky)) = (Err (DbSled "io"), d') /\
    view (db_blocks d') (be_bytes 8 (height (header (at_height 1)))) = Some [Zpos (encode (at_height 1))] /\
    db_metadata d' = db_metadata (open_temporary (Tr := flaky)) /\
    db_transactions d' = db_transactions (open_temporary (Tr := flaky)).
Proof.
  apply (put_block_not_atomic (at_height 1) [Zpos (encode (at_height 1))]
    (open_temporary (Tr := flaky)) (Flaky (<[be_bytes 8 1 := [Zpos (encode (at_height 1))]]> ∅)) "io");
    reflexivity.
Defined.
