(* ===== verification/Mempool.v ===== *)
(** * The mempool

    [protocol/src/network/mempool.rs]: the pool of pending transactions with its
    fee index (a [BTreeMap], here a list sorted by [FeeKey]) and its per-sender
    counters.  [pool_inv] ties the three indices together and holds in every
    reachable pool; the theorems on selection and eviction follow from it.
    The wall clock is an argument of the operations that read it. *)

From S2P Require Import Prelude Bytes Crypto Transaction Sled.

#[local] Open Scope Z_scope.

Record MempoolConfig := mkMempoolConfig {
  max_size : nat;
  max_per_sender : nat;
  expiry_seconds : Z;
  min_fee : Z
}.

Definition default_mempool_config : MempoolConfig := mkMempoolConfig 10000 100 3600 0.

(** ** The fee key and its order *)

Record FeeKey := mkFeeKey { inverted_fee : Z; fk_added_at : Z; fk_tx_id : string }.

#[global] Instance FeeKey_eq_dec : EqDecision FeeKey.
Proof. solve_decision. Defined.

(** [FeeKey::cmp(a, b) == Less]: by inverted fee, then arrival, then id. *)
Definition feekey_ltb (a b : FeeKey) : bool :=
  (inverted_fee a <? inverted_fee b) ||
  ((inverted_fee a =? inverted_fee b) &&
   ((fk_added_at a <? fk_added_at b) ||
    ((fk_added_at a =? fk_added_at b) &&
     bytes_ltb (str_bytes (fk_tx_id a)) (str_bytes (fk_tx_id b))))).

(** [BTreeMap<FeeKey, String>] as the sorted list of its entries. *)
Notation FeeIndex := (list (FeeKey * string)).

Fixpoint index_insert (k : FeeKey) (v : string) (l : FeeIndex) : FeeIndex :=
  match l with
  | [] => [(k, v)]
  | (k', v') :: l' =>
      if feekey_ltb k k' then (k, v) :: (k', v') :: l'
      else if feekey_ltb k' k then (k', v') :: index_insert k v l'
      else (k, v) :: l'
  end.

Definition index_remove (k : FeeKey) (l : FeeIndex) : FeeIndex := filter (fun p => p.1 <> k) l.

Record MempoolEntry := mkEntry {
  transaction : Transaction;
  added_at : Z;
  entry_fpb : Z
}.

Inductive MempoolError :=
| DuplicateTransaction
| FeeTooLow (min got : Z)
| SenderLimitExceeded (sender : string) (limit : nat)
| MempoolFull (size : nat).

Record Mempool := mkPool {
  pool_txs : gmap string MempoolEntry;
  fee_index : FeeIndex;
  sender_counts : gmap string nat;
  config : MempoolConfig
}.

Definition mempool_new (config : MempoolConfig) : Mempool := mkPool ∅ [] ∅ config.

(** The fee key of an entry. *)
Definition entry_key (e : MempoolEntry) : FeeKey :=
  mkFeeKey (U64_MAX - entry_fpb e) (added_at e) (tx_id (transaction e)).

Definition decrement_sender_count (sender : string) (p : Mempool) : Mempool :=
  match sender_counts p !! sender with
  | Some count =>
      mkPool (pool_txs p) (fee_index p)
        (if (count <=? 1)%nat then delete sender (sender_counts p)
         else <[sender := (count - 1)%nat]> (sender_counts p))
        (config p)
  | None => p
  end.

Definition remove_from_indices (entry : MempoolEntry) (p : Mempool) : Mempool :=
  decrement_sender_count (tx_sender (transaction entry))
    (mkPool (pool_txs p) (index_remove (entry_key entry) (fee_index p)) (sender_counts p) (config p)).

Definition pool_remove (id : string) (p : Mempool) : option Transaction * Mempool :=
  match pool_txs p !! id with
  | Some entry =>
      (Some (transaction entry),
       remove_from_indices entry
         (mkPool (delete id (pool_txs p)) (fee_index p) (sender_counts p) (config p)))
  | None => (None, p)
  end.

Definition remove_batch (ids : list string) (p : Mempool) : Mempool :=
  fold_left (fun p id => (pool_remove id p).2) ids p.

Definition pool_get (id : string) (p : Mempool) : option Transaction :=
  transaction <$> pool_txs p !! id.

Definition pool_contains (id : string) (p : Mempool) : bool :=
  bool_decide (is_Some (pool_txs p !! id)).

(** The loop of [select_transactions] over the index. *)
Fixpoint select_loop (max_count : nat) (index : FeeIndex) (txs : gmap string MempoolEntry)
    (result : list Transaction) : list Transaction :=
  match index with
  | [] => result
  | (_, id) :: index' =>
      if (max_count <=? length result)%nat then result
      else match txs !! id with
           | Some entry => select_loop max_count index' txs (result ++ [transaction entry])
           | None => select_loop max_count index' txs result
           end
  end.

Definition select_transactions (max_count : nat) (p : Mempool) : list Transaction :=
  select_loop max_count (fee_index p) (pool_txs p) [].

Definition pool_size (p : Mempool) : nat := size (pool_txs p).

Definition pool_is_empty (p : Mempool) : bool := (pool_size p =? 0)%nat.

Definition pool_clear (p : Mempool) : Mempool := mkPool ∅ [] ∅ (config p).

(** The ids the expiry pass collects before it removes any. *)
Definition expired_ids (now : Z) (p : Mempool) : list string :=
  let cutoff := saturating_sub now (expiry_seconds (config p)) in
  (filter (fun kv => added_at kv.2 < cutoff) (map_to_list (pool_txs p))).*1.

Definition expire_old (now : Z) (p : Mempool) : nat * Mempool :=
  let ids := expired_ids now p in
  (length ids, fold_left (fun p id => (pool_remove id p).2) ids p).

Definition pending_for_sender (sender : string) (p : Mempool) : list Transaction :=
  (fun kv => transaction kv.2) <$>
    filter (fun kv => tx_sender (transaction kv.2) = sender) (map_to_list (pool_txs p)).

Definition try_evict_lowest (incoming_fpb : Z) (p : Mempool) : bool * Mempool :=
  match last (fee_index p) with
  | None => (false, p)
  | Some (lowest_key, evicted_id) =>
      let lowest_fpb := U64_MAX - inverted_fee lowest_key in
      if incoming_fpb <=? lowest_fpb then (false, p)
      else
        let p1 := mkPool (pool_txs p) (index_remove lowest_key (fee_index p)) (sender_counts p) (config p) in
        match pool_txs p1 !! evicted_id with
        | Some entry =>
            (true, decrement_sender_count (tx_sender (transaction entry))
               (mkPool (delete evicted_id (pool_txs p1)) (fee_index p1) (sender_counts p1) (config p1)))
        | None => (true, p1)
        end
  end.

Section Add.
Context {T : TxCodec}.

(** The three index insertions at the end of [add]. *)
Definition pool_insert (entry : MempoolEntry) (p : Mempool) : Mempool :=
  let id := tx_id (transaction entry) in
  let sender := tx_sender (transaction entry) in
  mkPool (<[id := entry]> (pool_txs p)) (index_insert (entry_key entry) id (fee_index p))
    (<[sender := S (default 0%nat (sender_counts p !! sender))]> (sender_counts p)) (config p).

Definition pool_add (now : Z) (tx : Transaction) : M Mempool MempoolError unit := fun p =>
  if pool_contains (tx_id tx) p then (Err DuplicateTransaction, p)
  else if tx_fee tx <? min_fee (config p) then (Err (FeeTooLow (min_fee (config p)) (tx_fee tx)), p)
  else if (max_per_sender (config p) <=? default 0%nat (sender_counts p !! tx_sender tx))%nat
  then (Err (SenderLimitExceeded (tx_sender tx) (max_per_sender (config p))), p)
  else
    let '(room, p') :=
      if (max_size (config p) <=? pool_size p)%nat then try_evict_lowest (fee_per_byte tx) p
      else (true, p) in
    if room then (Ok tt, pool_insert (mkEntry tx now (fee_per_byte tx)) p')
    else (Err (MempoolFull (max_size (config p))), p').
End Add.

(** ** The order on fee keys *)

Lemma feekey_irrefl a : feekey_ltb a a = false.
Proof. unfold feekey_ltb. by rewrite !Z.ltb_irrefl, !Z.eqb_refl, bytes_ltb_irrefl. Qed.

Lemma feekey_trans a b c :
  feekey_ltb a b = true -> feekey_ltb b c = true -> feekey_ltb a c = true.
Proof.
  unfold feekey_ltb. rewrite !orb_true_iff, !andb_true_iff, !orb_true_iff, !andb_true_iff.
  rewrite !Z.ltb_lt, !Z.eqb_eq. intros Hab Hbc.
  destruct Hab as [?|[? [?|[? Hs]]]], Hbc as [?|[? [?|[? Hs']]]]; try (left; lia); right;
    (split; [lia|]); try (left; lia); right; (split; [lia|]).
  by eapply bytes_ltb_trans.
Qed.

Lemma feekey_total a b : feekey_ltb a b = false -> feekey_ltb b a = false -> a = b.
Proof.
  unfold feekey_ltb. intros Hab Hba. destruct a as [x y s], b as [x' y' s']; simpl in *.
  destruct (Z.ltb_spec x x'), (Z.ltb_spec x' x); simpl in *; try done; try lia.
  assert (x = x') as <- by lia. rewrite Z.eqb_refl in *. simpl in *.
  destruct (Z.ltb_spec y y'), (Z.ltb_spec y' y); simpl in *; try done; try lia.
  assert (y = y') as <- by lia. rewrite Z.eqb_refl in *. simpl in *.
  f_equal. apply str_bytes_inj. by apply bytes_ltb_total.
Qed.

Notation sorted_index := (StronglySorted (fun p q : FeeKey * string => feekey_ltb p.1 q.1 = true)).

Lemma index_insert_elem k v l x :
  sorted_index l -> (x ∈ index_insert k v l <-> x = (k, v) \/ (x ∈ l /\ x.1 <> k)).
Proof.
  induction 1 as [|[k' v'] l Hs IH Hf]; simpl.
  - rewrite list_elem_of_singleton. set_solver.
  - rewrite Forall_forall in Hf. simpl in Hf.
    assert (forall y, y ∈ l -> feekey_ltb k k' = true -> y.1 <> k) as Hne1.
    { intros y Hy Hlt <-. specialize (Hf y Hy). pose proof (feekey_trans _ _ _ Hlt Hf).
      by rewrite feekey_irrefl in H. }
    destruct (feekey_ltb k k') eqn:E1; [|destruct (feekey_ltb k' k) eqn:E2].
    + rewrite !elem_of_cons. split; [|naive_solver].
      intros [->|[->|Hx]]; [by left|right..]; (split; [eauto|]); [|by apply Hne1].
      simpl. intros ->. by rewrite feekey_irrefl in E1.
    + rewrite !elem_of_cons, IH. split; [|naive_solver].
      intros [->|[->|[Hx Hk]]]; [right|by left|right; eauto]. split; [by left|].
      simpl. intros ->. by rewrite feekey_irrefl in E2.
    + pose proof (feekey_total _ _ E1 E2) as ->. rewrite !elem_of_cons. split.
      * intros [->|Hx]; [by left|right]. split; [by right|]. intros <-.
        specialize (Hf x Hx). by rewrite feekey_irrefl in Hf.
      * intros [->|[[->|Hx] Hk]]; [by left| |by right]. done.
Qed.

Lemma index_insert_sorted k v l : sorted_index l -> sorted_index (index_insert k v l).
Proof.
  induction 1 as [|[k' v'] l Hs IH Hf]; simpl; [repeat constructor|].
  rewrite Forall_forall in Hf. simpl in Hf.
  destruct (feekey_ltb k k') eqn:E1; [|destruct (feekey_ltb k' k) eqn:E2].
  - constructor; [by constructor; [|apply Forall_forall]|].
    constructor; [done|]. apply Forall_forall. intros y Hy. simpl.
    eapply feekey_trans; [done|by apply Hf].
  - constructor; [done|]. apply Forall_forall. intros y Hy.
    apply index_insert_elem in Hy as [->|[Hy _]]; [done|by apply Hf|done].
  - pose proof (feekey_total _ _ E1 E2) as ->. constructor; [done|]. by apply Forall_forall.
Qed.

Lemma index_remove_elem k l x : x ∈ index_remove k l <-> x ∈ l /\ x.1 <> k.
Proof. unfold index_remove. rewrite list_elem_of_filter. tauto. Qed.

Lemma StronglySorted_filter {A} (R : A -> A -> Prop) (P : A -> Prop) `{!forall x, Decision (P x)} l :
  StronglySorted R l -> StronglySorted R (filter P l).
Proof.
  induction 1 as [|x l Hs IH Hf]; [constructor|]. rewrite filter_cons. case_decide; [|done].
  constructor; [done|]. rewrite Forall_forall in *. intros y [_ Hy]%list_elem_of_filter. auto.
Qed.

Lemma StronglySorted_weaken {A} (R R' : A -> A -> Prop) l :
  (forall x y, R x y -> R' x y) -> StronglySorted R l -> StronglySorted R' l.
Proof. intros HR. induction 1; constructor; [done|]. eapply Forall_impl; eauto. Qed.

(** In a sorted index no element is above the last. *)
Lemma sorted_last l k v x : sorted_index l -> last l = Some (k, v) -> x ∈ l -> feekey_ltb k x.1 = false.
Proof.
  intros Hs Hl Hx. apply last_Some in Hl as [l' ->]. apply elem_of_app in Hx as [Hx|Hx].
  - apply StronglySorted_app in Hs as (Hlt & _ & _).
    specialize (Hlt x (k, v) Hx ltac:(set_solver)). simpl in Hlt.
    destruct (feekey_ltb k x.1) eqn:E; [|done].
    pose proof (feekey_trans _ _ _ E Hlt). by rewrite feekey_irrefl in H.
  - apply list_elem_of_singleton in Hx as ->. apply feekey_irrefl.
Qed.

Lemma sorted_NoDup l : sorted_index l -> NoDup l.
Proof.
  induction 1 as [|x l Hs IH Hf]; constructor; [|done]. intros Hx.
  rewrite Forall_forall in Hf. specialize (Hf x Hx). by rewrite feekey_irrefl in Hf.
Qed.

(** ** The invariant *)

(** How many pending transactions a sender has. *)
Definition pending (s : string) (txs : gmap string MempoolEntry) : nat :=
  size (filter (fun kv => tx_sender (transaction kv.2) = s) txs).

Lemma map_to_list_filter_perm {A} (P : string * A -> Prop) `{!forall x, Decision (P x)} (m : gmap string A) :
  filter P (map_to_list m) ≡ₚ map_to_list (filter P m).
Proof.
  apply NoDup_Permutation; [apply NoDup_filter, NoDup_map_to_list|apply NoDup_map_to_list|].
  intros [k v]. rewrite list_elem_of_filter, !elem_of_map_to_list, map_lookup_filter_Some. tauto.
Qed.

Section Invariant.
Context {T : TxCodec}.

(** What an entry carries agrees with its transaction. *)
Definition entry_ok (id : string) (e : MempoolEntry) : Prop :=
  tx_id (transaction e) = id /\ entry_fpb e = fee_per_byte (transaction e).

(** The three indices describe the same set of transactions, within the limits. *)
Record pool_inv (p : Mempool) : Prop := {
  pi_sorted : sorted_index (fee_index p);
  pi_index : forall k id, (k, id) ∈ fee_index p <->
    exists e, pool_txs p !! id = Some e /\ k = entry_key e;
  pi_entries : forall id e, pool_txs p !! id = Some e -> entry_ok id e;
  pi_counts : forall s, default 0%nat (sender_counts p !! s) = pending s (pool_txs p);
  pi_no_zero : forall s, sender_counts p !! s <> Some 0%nat;
  pi_capacity : (pool_size p <= max_size (config p))%nat;
  pi_per_sender : forall s, (pending s (pool_txs p) <= max_per_sender (config p))%nat
}.

Lemma pending_insert s id e (txs : gmap string MempoolEntry) :
  txs !! id = None ->
  pending s (<[id := e]> txs) =
  (pending s txs + if decide (tx_sender (transaction e) = s) then 1 else 0)%nat.
Proof.
  intros Hn. unfold pending. case_decide.
  - rewrite map_filter_insert_True, map_size_insert_None by (done || by rewrite map_lookup_filter, Hn).
    lia.
  - rewrite map_filter_insert_False by done. rewrite delete_id by done. lia.
Qed.

Lemma pending_delete s id e (txs : gmap string MempoolEntry) :
  txs !! id = Some e ->
  pending s txs =
  (pending s (delete id txs) + if decide (tx_sender (transaction e) = s) then 1 else 0)%nat.
Proof.
  intros He. rewrite <- (insert_delete_id txs id e He) at 1.
  apply pending_insert. apply lookup_delete_eq.
Qed.

Lemma decrement_fields s p :
  pool_txs (decrement_sender_count s p) = pool_txs p /\
  fee_index (decrement_sender_count s p) = fee_index p /\
  config (decrement_sender_count s p) = config p.
Proof. unfold decrement_sender_count. by destruct (sender_counts p !! s). Qed.

Lemma decrement_count s p s' :
  default 0%nat (sender_counts (decrement_sender_count s p) !! s') =
  (default 0%nat (sender_counts p !! s') - if decide (s = s') then 1 else 0)%nat.
Proof.
  unfold decrement_sender_count. destruct (sender_counts p !! s) as [n|] eqn:E; simpl.
  - destruct (Nat.leb_spec n 1), (decide (s = s')) as [<-|Hne].
    + rewrite lookup_delete_eq, E. simpl. lia.
    + rewrite lookup_delete_ne by done. lia.
    + rewrite lookup_insert_eq, E. simpl. lia.
    + rewrite lookup_insert_ne by done. lia.
  - case_decide as Hs; [subst; rewrite E; done|lia].
Qed.

Lemma decrement_no_zero s p :
  (forall s', sender_counts p !! s' <> Some 0%nat) ->
  forall s', sender_counts (decrement_sender_count s p) !! s' <> Some 0%nat.
Proof.
  intros Hz s'. unfold decrement_sender_count. destruct (sender_counts p !! s) as [n|] eqn:E; simpl; [|done].
  destruct (Nat.leb_spec n 1).
  - rewrite lookup_delete_Some. intros [_ ?]. by eapply Hz.
  - rewrite lookup_insert_Some. intros [[_ ?]|[_ ?]]; [simplify_eq; lia|by eapply Hz].
Qed.

(** Dropping an entry from all three indices. *)
Definition drop_entry (id : string) (e : MempoolEntry) (p : Mempool) : Mempool :=
  remove_from_indices e (mkPool (delete id (pool_txs p)) (fee_index p) (sender_counts p) (config p)).

Lemma drop_entry_txs id e p : pool_txs (drop_entry id e p) = delete id (pool_txs p).
Proof. unfold drop_entry, remove_from_indices. by rewrite (proj1 (decrement_fields _ _)). Qed.

Lemma drop_entry_index id e p : fee_index (drop_entry id e p) = index_remove (entry_key e) (fee_index p).
Proof. unfold drop_entry, remove_from_indices. by rewrite (proj1 (proj2 (decrement_fields _ _))). Qed.

Lemma drop_entry_config id e p : config (drop_entry id e p) = config p.
Proof. unfold drop_entry, remove_from_indices. by rewrite (proj2 (proj2 (decrement_fields _ _))). Qed.

Lemma remove_batch_config ids p : config (remove_batch ids p) = config p.
Proof.
  unfold remove_batch. revert p; induction ids as [|i ids IH]; intros p; [done|]. cbn [fold_left]. rewrite IH.
  unfold pool_remove. destruct (pool_txs p !! i) as [e|] eqn:He; [|done]. cbn [snd].
  pose proof (drop_entry_config i e p) as Hc. unfold drop_entry in Hc. exact Hc.
Qed.

Lemma entry_key_inj id e id' e' : entry_ok id e -> entry_ok id' e' -> entry_key e = entry_key e' -> id = id'.
Proof. intros [<- _] [<- _]. unfold entry_key. congruence. Qed.

Lemma drop_entry_inv id e p :
  pool_inv p -> pool_txs p !! id = Some e -> pool_inv (drop_entry id e p).
Proof.
  intros [Hs Hi He Hc Hz Hcap Hps] Hid. split; unfold pool_size;
    rewrite ?drop_entry_txs, ?drop_entry_index, ?drop_entry_config.
  - by apply StronglySorted_filter.
  - intros k id'. rewrite index_remove_elem, Hi. simpl. split.
    + intros [(e' & He' & ->) Hne]. exists e'. rewrite lookup_delete_ne; [done|]. intros <-. congruence.
    + intros (e' & [Hne He']%lookup_delete_Some & ->). split; [eauto|].
      intros Hk. apply Hne. symmetry. by eapply entry_key_inj; eauto.
  - intros id' e' [_ He']%lookup_delete_Some. by apply He.
  - intros s. unfold drop_entry, remove_from_indices. rewrite decrement_count. simpl.
    rewrite Hc, (pending_delete s id e) by done. case_decide; lia.
  - intros s. unfold drop_entry, remove_from_indices. by apply decrement_no_zero.
  - unfold pool_size in Hcap. rewrite map_size_delete_Some by (by eexists). lia.
  - intros s. specialize (Hps s). rewrite (pending_delete s id e) in Hps by done. lia.
Qed.

Lemma pool_remove_drop id p :
  pool_remove id p = match pool_txs p !! id with
                     | Some e => (Some (transaction e), drop_entry id e p)
                     | None => (None, p)
                     end.
Proof. reflexivity. Qed.

Lemma pool_remove_inv id p : pool_inv p -> pool_inv (pool_remove id p).2.
Proof.
  intros Hp. rewrite pool_remove_drop. destruct (pool_txs p !! id) eqn:E; [|done].
  by apply drop_entry_inv.
Qed.

Lemma pool_remove_txs id p : pool_txs (pool_remove id p).2 = delete id (pool_txs p).
Proof.
  rewrite pool_remove_drop. destruct (pool_txs p !! id) eqn:E; simpl; [apply drop_entry_txs|].
  by rewrite delete_id.
Qed.

Lemma remove_all_inv ids p : pool_inv p -> pool_inv (remove_batch ids p).
Proof.
  revert p; induction ids as [|id ids IH]; intros p Hp; [done|]. apply IH. by apply pool_remove_inv.
Qed.

Lemma remove_all_lookup ids p id :
  pool_txs (remove_batch ids p) !! id = if decide (id ∈ ids) then None else pool_txs p !! id.
Proof.
  unfold remove_batch. revert p; induction ids as [|i ids IH]; intros p; simpl; [done|].
  rewrite IH, pool_remove_txs. destruct (decide (id ∈ ids)), (decide (id ∈ i :: ids)); try set_solver.
  - destruct (decide (i = id)) as [->|]; [apply lookup_delete_eq|set_solver].
  - rewrite lookup_delete_ne; [done|set_solver].
Qed.

(** [try_evict_lowest] either keeps the pool or drops one entry the incoming
    transaction outbids, and which no other entry underbids. *)
Lemma try_evict_spec fpb p :
  pool_inv p ->
  match try_evict_lowest fpb p with
  | (false, p') => p' = p /\ forall id e, pool_txs p !! id = Some e -> fpb <= entry_fpb e
  | (true, p') => exists id e, pool_txs p !! id = Some e /\ p' = drop_entry id e p /\
      entry_fpb e < fpb /\ forall id' e', pool_txs p !! id' = Some e' -> entry_fpb e <= entry_fpb e'
  end.
Proof.
  intros Hp. unfold try_evict_lowest. destruct (last (fee_index p)) as [[k id]|] eqn:El.
  - pose proof (last_Some_elem_of _ _ El) as Hk. apply (pi_index p Hp) in Hk as (e & He & ->).
    assert (forall id' e', pool_txs p !! id' = Some e' -> entry_fpb e <= entry_fpb e') as Hmin.
    { intros id' e' He'. pose proof (sorted_last _ _ _ (entry_key e', id') (pi_sorted p Hp) El) as Hl.
      specialize (Hl ltac:(apply (pi_index p Hp); eauto)). simpl in Hl. unfold feekey_ltb in Hl.
      apply orb_false_iff in Hl as [Hl _]. apply Z.ltb_ge in Hl. simpl in Hl. lia. }
    simpl. destruct (Z.leb_spec fpb (U64_MAX - (U64_MAX - entry_fpb e))).
    + split; [done|]. intros id' e' He'. specialize (Hmin _ _ He'). lia.
    + rewrite He. exists id, e. split; [done|]. split; [done|]. split; [lia|done].
  - split; [done|]. intros id e He. apply last_None in El.
    assert ((entry_key e, id) ∈ fee_index p) as Hc by (apply (pi_index p Hp); eauto).
    rewrite El in Hc. by apply not_elem_of_nil in Hc.
Qed.

Lemma pool_insert_inv e p :
  pool_inv p -> pool_txs p !! tx_id (transaction e) = None ->
  entry_fpb e = fee_per_byte (transaction e) ->
  (pool_size p < max_size (config p))%nat ->
  (pending (tx_sender (transaction e)) (pool_txs p) < max_per_sender (config p))%nat ->
  pool_inv (pool_insert e p).
Proof.
  intros [Hs Hi He Hc Hz Hcap Hps] Hn Hf Hsz Hsend. unfold pool_insert.
  set (id := tx_id (transaction e)) in *. set (s0 := tx_sender (transaction e)) in *.
  split; unfold pool_size; simpl.
  - by apply index_insert_sorted.
  - intros k id'. rewrite index_insert_elem by done. simpl. rewrite Hi. split.
    + intros [[= -> ->]|[(e' & He' & ->) Hne]]; [exists e; by rewrite lookup_insert_eq|].
      exists e'. rewrite lookup_insert_ne by congruence. done.
    + intros (e' & [[<- <-]|[Hne He']]%lookup_insert_Some & ->); [by left|right].
      split; [eauto|]. intros Hk. apply Hne. symmetry.
      eapply (entry_key_inj _ e' _ e); [by apply He|by split|done].
  - intros id' e' [[<- <-]|[_ He']]%lookup_insert_Some; [by split|by apply He].
  - intros s. rewrite pending_insert by done. fold s0. destruct (decide (s0 = s)) as [<-|Hne].
    + rewrite lookup_insert_eq. simpl. rewrite Hc. lia.
    + rewrite lookup_insert_ne by done. rewrite Hc. lia.
  - intros s. rewrite lookup_insert_Some. intros [[_ ?]|[_ ?]]; [done|by eapply Hz].
  - rewrite map_size_insert_None by done. unfold pool_size in Hsz. lia.
  - intros s. rewrite pending_insert by done. fold s0. specialize (Hps s).
    destruct (decide (s0 = s)) as [<-|]; lia.
Qed.
End Invariant.

Section Operations.
Context {T : TxCodec}.

Lemma mempool_new_inv cfg : pool_inv (mempool_new cfg).
Proof.
  split; unfold pool_size, pending; simpl.
  - constructor.
  - intros k id. split; [by intros ?%not_elem_of_nil|]. by intros (e & He & _).
  - done.
  - done.
  - done.
  - rewrite map_size_empty. lia.
  - intros s. rewrite map_filter_empty, map_size_empty. lia.
Qed.

(** The fee density an entry is ranked by is that of its transaction. *)
Lemma pool_get_fpb id tx p :
  pool_inv p -> pool_get id p = Some tx ->
  exists e, pool_txs p !! id = Some e /\ transaction e = tx /\ entry_fpb e = fee_per_byte tx /\ tx_id tx = id.
Proof.
  intros Hp. unfold pool_get. destruct (pool_txs p !! id) as [e|] eqn:E; [|done].
  intros [= <-]. destruct (pi_entries p Hp _ _ E) as [? ?]. eauto.
Qed.

Lemma pool_contains_false id p : pool_contains id p = false <-> pool_txs p !! id = None.
Proof. unfold pool_contains. rewrite bool_decide_eq_false. symmetry. apply eq_None_not_Some. Qed.

Lemma pool_size_delete id e p :
  pool_txs p !! id = Some e -> pool_size p = S (pool_size (drop_entry id e p)).
Proof.
  intros He. unfold pool_size. rewrite drop_entry_txs, map_size_delete_Some by (by eexists).
  assert (size (pool_txs p) <> 0%nat); [|lia]. intros Hz%map_size_empty_inv.
  by rewrite Hz, lookup_empty in He.
Qed.

Lemma pool_insert_get e p id :
  pool_get id (pool_insert e p) =
  if decide (tx_id (transaction e) = id) then Some (transaction e) else pool_get id p.
Proof.
  unfold pool_get, pool_insert. simpl. case_decide as E.
  - subst. by rewrite lookup_insert_eq.
  - by rewrite lookup_insert_ne.
Qed.

(** The outcome of [add] and the pool it leaves. *)
Lemma pool_add_spec now tx p :
  pool_inv p ->
  match pool_add now tx p with
  | (Ok _, p') => pool_inv p' /\ pool_get (tx_id tx) p = None /\ min_fee (config p) <= tx_fee tx /\
      (forall id, pool_get id p' = if decide (tx_id tx = id) then Some tx else pool_get id p) \/
      pool_inv p' /\ pool_size p = max_size (config p) /\
      exists out, pool_get (tx_id out) p = Some out /\ fee_per_byte out < fee_per_byte tx /\
        (forall id tx', pool_get id p = Some tx' -> fee_per_byte out <= fee_per_byte tx') /\
        (forall id, pool_get id p' = if decide (tx_id tx = id) then Some tx
           else if decide (tx_id out = id) then None else pool_get id p)
  | (Err e, p') => p' = p /\
      match e with
      | DuplicateTransaction => is_Some (pool_get (tx_id tx) p)
      | FeeTooLow m g => m = min_fee (config p) /\ g = tx_fee tx /\ g < m
      | SenderLimitExceeded s n => s = tx_sender tx /\ n = max_per_sender (config p) /\
          pending s (pool_txs p) = n
      | MempoolFull n => n = max_size (config p) /\ pool_size p = n /\
          forall id tx', pool_get id p = Some tx' -> fee_per_byte tx <= fee_per_byte tx'
      end
  | (Panic, _) => False
  end.
Proof.
  intros Hp. unfold pool_add. destruct (pool_contains (tx_id tx) p) eqn:Hd.
  { split; [done|]. unfold pool_get. apply bool_decide_eq_true in Hd. by apply fmap_is_Some. }
  apply pool_contains_false in Hd.
  destruct (Z.ltb_spec (tx_fee tx) (min_fee (config p))); [by split_and!; try lia|].
  rewrite (pi_counts p Hp).
  destruct (Nat.leb_spec (max_per_sender (config p)) (pending (tx_sender tx) (pool_txs p))).
  { split; [done|]. split; [done|]. split; [done|]. pose proof (pi_per_sender p Hp (tx_sender tx)). lia. }
  pose proof (pi_capacity p Hp) as Hcap.
  destruct (Nat.leb_spec (max_size (config p)) (pool_size p)).
  - pose proof (try_evict_spec (fee_per_byte tx) p Hp) as He.
    destruct (try_evict_lowest (fee_per_byte tx) p) as [[] p'].
    + destruct He as (id & e & He & -> & Hlt & Hmin). right.
      pose proof (pi_entries p Hp _ _ He) as [Hid Hfpb].
      pose proof (pool_size_delete id e p He) as Hsz.
      split; [|split; [lia|]].
      * apply pool_insert_inv; [by apply drop_entry_inv|..]; rewrite ?drop_entry_txs, ?drop_entry_config.
        -- apply lookup_delete_None. by right.
        -- done.
        -- lia.
        -- simpl. rewrite (pending_delete (tx_sender tx) id e) in H0 by done. lia.
      * exists (transaction e). rewrite Hid. unfold pool_get at 1. rewrite He. split_and!; [done|lia|..].
        -- intros id' tx' (e' & He' & <- & <- & _)%pool_get_fpb; [|done]. rewrite <- Hfpb. eauto.
        -- intros id'. rewrite pool_insert_get. simpl. case_decide; [done|].
           unfold pool_get. rewrite drop_entry_txs. case_decide as Hx.
           ++ subst. by rewrite lookup_delete_eq.
           ++ by rewrite lookup_delete_ne.
    + destruct He as [-> Hmin]. split; [done|]. split; [done|]. split; [lia|].
      intros id tx' (e' & He' & <- & <- & _)%pool_get_fpb; eauto.
  - left. split; [by apply pool_insert_inv|]. split; [unfold pool_get; by rewrite Hd|]. split; [done|].
    intros id. by rewrite pool_insert_get.
Qed.

Lemma pool_add_inv now tx p : pool_inv p -> pool_inv (pool_add now tx p).2.
Proof.
  intros Hp. pose proof (pool_add_spec now tx p Hp) as Hs.
  destruct (pool_add now tx p) as [[[]|e|] p']; simpl; [tauto|by destruct Hs as [-> _]|done].
Qed.

Lemma expire_old_txs now p :
  pool_inv p -> forall id,
  pool_txs (expire_old now p).2 !! id =
  match pool_txs p !! id with
  | Some e => if decide (added_at e < saturating_sub now (expiry_seconds (config p))) then None else Some e
  | None => None
  end.
Proof.
  intros Hp id. unfold expire_old. cbn [snd]. fold (remove_batch (expired_ids now p) p).
  rewrite remove_all_lookup.
  assert (id ∈ expired_ids now p <-> exists e, pool_txs p !! id = Some e /\
    added_at e < saturating_sub now (expiry_seconds (config p))) as Hex.
  { unfold expired_ids. rewrite list_elem_of_fmap. split.
    - intros ([id' e] & -> & [Hlt Hin]%list_elem_of_filter). apply elem_of_map_to_list in Hin. eauto.
    - intros (e & He & Hlt). exists (id, e). split; [done|]. apply list_elem_of_filter.
      split; [done|]. by apply elem_of_map_to_list. }
  destruct (pool_txs p !! id) as [e|] eqn:He.
  - destruct (decide (id ∈ _)) as [Hi|Hi]; rewrite Hex in Hi.
    + destruct Hi as (e' & [= <-] & Hlt). by rewrite decide_True.
    + rewrite decide_False; [done|]. eauto.
  - by case_decide.
Qed.

(** ** Reachable pools *)

(** Everything the node does to a pool. *)
Inductive pool_step : Mempool -> Mempool -> Prop :=
| step_add now tx p : pool_step p (pool_add now tx p).2
| step_remove id p : pool_step p (pool_remove id p).2
| step_remove_batch ids p : pool_step p (remove_batch ids p)
| step_expire now p : pool_step p (expire_old now p).2
| step_clear p : pool_step p (pool_clear p).

Inductive pool_reachable (cfg : MempoolConfig) : Mempool -> Prop :=
| reach_new : pool_reachable cfg (mempool_new cfg)
| reach_step p q : pool_reachable cfg p -> pool_step p q -> pool_reachable cfg q.

Lemma pool_step_inv p q : pool_step p q -> pool_inv p -> pool_inv q.
Proof.
  intros [] Hp.
  - by apply pool_add_inv.
  - by apply pool_remove_inv.
  - by apply remove_all_inv.
  - by apply remove_all_inv.
  - apply mempool_new_inv.
Qed.

(** C7. In every pool the node can reach, the transaction table, the fee index and the
    sender counters describe the same transactions, the index is sorted, and
    neither the capacity nor any per-sender limit is exceeded. *)
Theorem pool_reachable_inv cfg p : pool_reachable cfg p -> pool_inv p.
Proof. induction 1; [apply mempool_new_inv|by eapply pool_step_inv]. Qed.

(** C25. [add] on every branch: each refusal states its reason and leaves the pool as it
    was; an accepted transaction is inserted, and when the pool was full exactly one
    transaction of the lowest fee density, strictly outbid, makes room for it. *)
Theorem pool_add_outcome now tx p :
  pool_inv p ->
  match pool_add now tx p with
  | (Ok _, p') => pool_inv p' /\ pool_get (tx_id tx) p = None /\ min_fee (config p) <= tx_fee tx /\
      (forall id, pool_get id p' = if decide (tx_id tx = id) then Some tx else pool_get id p) \/
      pool_inv p' /\ pool_size p = max_size (config p) /\
      exists out, pool_get (tx_id out) p = Some out /\ fee_per_byte out < fee_per_byte tx /\
        (forall id tx', pool_get id p = Some tx' -> fee_per_byte out <= fee_per_byte tx') /\
        (forall id, pool_get id p' = if decide (tx_id tx = id) then Some tx
           else if decide (tx_id out = id) then None else pool_get id p)
  | (Err e, p') => p' = p /\
      match e with
      | DuplicateTransaction => is_Some (pool_get (tx_id tx) p)
      | FeeTooLow m g => m = min_fee (config p) /\ g = tx_fee tx /\ g < m
      | SenderLimitExceeded s n => s = tx_sender tx /\ n = max_per_sender (config p) /\
          pending s (pool_txs p) = n
      | MempoolFull n => n = max_size (config p) /\ pool_size p = n /\
          forall id tx', pool_get id p = Some tx' -> fee_per_byte tx <= fee_per_byte tx'
      end
  | (Panic, _) => False
  end.
Proof. apply pool_add_spec. Qed.

(** Expiry removes exactly the transactions older than the configured age and
    reports how many they were. *)
Theorem expire_old_exact now p :
  pool_inv p ->
  pool_inv (expire_old now p).2 /\
  (forall id, pool_txs (expire_old now p).2 !! id =
    match pool_txs p !! id with
    | Some e => if decide (added_at e < saturating_sub now (expiry_seconds (config p))) then None
                else Some e
    | None => None
    end) /\
  (expire_old now p).1 =
    size (filter (fun kv => added_at kv.2 < saturating_sub now (expiry_seconds (config p))) (pool_txs p)).
Proof.
  intros Hp. split; [by apply remove_all_inv|]. split; [by apply expire_old_txs|].
  unfold expire_old, expired_ids. cbn [fst]. rewrite length_fmap.
  rewrite <- length_map_to_list. apply Permutation_length, map_to_list_filter_perm.
Qed.
End Operations.

(** ** Selection *)

Section Select.
Context {T : TxCodec}.

(** The pool's transactions in index order. *)
Definition ranked (p : Mempool) : list Transaction :=
  omap (fun kv => transaction <$> pool_txs p !! kv.2) (fee_index p).

Lemma select_loop_take n index txs result :
  select_loop n index txs result =
  result ++ take (n - length result) (omap (fun kv => transaction <$> txs !! kv.2) index).
Proof.
  revert result; induction index as [|[k id] index IH]; intros result; simpl.
  - by rewrite take_nil, app_nil_r.
  - destruct (Nat.leb_spec n (length result)) as [Hle|Hlt].
    + replace (n - length result)%nat with 0%nat by lia. by rewrite take_0, app_nil_r.
    + destruct (txs !! id) as [e|]; simpl; rewrite IH; [|done].
      rewrite length_app. simpl. replace (n - length result)%nat with (S (n - (length result + 1))) by lia.
      by rewrite <- app_assoc.
Qed.

(** The relation between earlier and later transactions of the ranking. *)
Definition outranks (a b : Transaction) : Prop := fee_per_byte b <= fee_per_byte a /\ tx_id a <> tx_id b.

Lemma ranked_sorted_aux p index :
  pool_inv p -> sorted_index index -> (forall x, x ∈ index -> x ∈ fee_index p) ->
  StronglySorted outranks (omap (fun kv => transaction <$> pool_txs p !! kv.2) index) /\
  length (omap (fun kv => transaction <$> pool_txs p !! kv.2) index) = length index.
Proof.
  intros Hp. induction 1 as [|[k id] index Hs IH Hf]; intros Hin; simpl; [split; [constructor|done]|].
  destruct IH as [IHs IHl]; [set_solver|].
  destruct (proj1 (pi_index p Hp k id) (Hin (k, id) ltac:(left))) as (e & He & ->). rewrite He. simpl.
  split; [|exact (f_equal S IHl)]. constructor; [done|]. apply Forall_forall. intros tx Htx.
  apply list_elem_of_omap in Htx as ([k' id'] & Hx & Htx). simpl in Htx.
  destruct (pool_txs p !! id') as [e'|] eqn:He'; [|done]. injection Htx as <-.
  rewrite Forall_forall in Hf. specialize (Hf _ Hx). simpl in Hf.
  destruct (proj1 (pi_index p Hp k' id') (Hin (k', id') ltac:(by right))) as (e2 & He2 & ->).
  assert (e2 = e') as -> by congruence.
  destruct (pi_entries p Hp _ _ He) as [Hid Hfpb], (pi_entries p Hp _ _ He') as [Hid' Hfpb']. split.
  - rewrite <- Hfpb, <- Hfpb'. unfold feekey_ltb in Hf. simpl in Hf.
    apply orb_true_iff in Hf as [?%Z.ltb_lt|[?%Z.eqb_eq _]%andb_true_iff]; lia.
  - intros Heq. assert (id = id') as <- by congruence. assert (e = e') as <- by congruence.
    by rewrite feekey_irrefl in Hf.
Qed.

Lemma ranked_sorted p : pool_inv p -> StronglySorted outranks (ranked p).
Proof. intros Hp. apply (ranked_sorted_aux p (fee_index p) Hp (pi_sorted p Hp) (fun x Hx => Hx)). Qed.

Lemma ranked_elem p tx : pool_inv p -> (tx ∈ ranked p <-> pool_get (tx_id tx) p = Some tx).
Proof.
  intros Hp. unfold ranked. rewrite list_elem_of_omap. split.
  - intros ([k id] & _ & Htx). fold (pool_get id p) in Htx.
    by destruct (pool_get_fpb id tx p Hp Htx) as (_ & _ & _ & _ & ->).
  - intros Htx. destruct (pool_get_fpb _ _ _ Hp Htx) as (e & He & Ht & _).
    exists (entry_key e, tx_id tx). split; [|done]. apply (pi_index p Hp). eauto.
Qed.

Lemma ranked_length p : pool_inv p -> length (ranked p) = pool_size p.
Proof.
  intros Hp. unfold ranked.
  rewrite (proj2 (ranked_sorted_aux p _ Hp (pi_sorted p Hp) (fun x Hx => Hx))).
  unfold pool_size. rewrite <- length_map_to_list.
  rewrite <- (length_fmap (fun kv => (entry_key kv.2, kv.1)) (map_to_list (pool_txs p))).
  apply Permutation_length, NoDup_Permutation.
  - apply sorted_NoDup, Hp.
  - apply NoDup_fmap_2_strong, NoDup_map_to_list.
    intros [id e] [id' e'] He%elem_of_map_to_list He'%elem_of_map_to_list [= _ _ _ ->]. congruence.
  - intros [k id]. rewrite (pi_index p Hp), list_elem_of_fmap. split.
    + intros (e & He & ->). exists (id, e). split; [done|]. by apply elem_of_map_to_list.
    + intros ([id' e] & [= -> ->] & He%elem_of_map_to_list). eauto.
Qed.

Lemma outranks_NoDup l : StronglySorted outranks l -> NoDup (tx_id <$> l).
Proof.
  induction 1 as [|x l Hs IH Hf]; simpl; constructor; [|done].
  intros (y & Hy & Hin)%list_elem_of_fmap. rewrite Forall_forall in Hf. by destruct (Hf y Hin).
Qed.

(** A transaction added to an idle pool is the one offered next. *)
Lemma pool_add_idle now tx p n :
  pool_inv p -> pool_txs p = ∅ -> min_fee (config p) <= tx_fee tx ->
  (0 < max_per_sender (config p))%nat -> (0 < max_size (config p))%nat -> (0 < n)%nat ->
  exists p', pool_add now tx p = (Ok tt, p') /\ pool_inv p' /\ select_transactions n p' = [tx] /\
    config p' = config p /\ forall id, id <> tx_id tx -> pool_txs p' !! id = None.
Proof.
  intros Hp He Hf Hs Hm Hn. pose proof (pool_add_spec now tx p Hp) as Hspec.
  unfold pool_add in *. rewrite (proj2 (pool_contains_false (tx_id tx) p)) in * by (by rewrite He).
  rewrite (proj2 (Z.ltb_ge _ _) Hf) in *. rewrite (pi_counts p Hp) in *.
  unfold pending in *. rewrite He, map_filter_empty, map_size_empty in *.
  rewrite (proj2 (Nat.leb_gt _ _) Hs) in *. unfold pool_size in *. rewrite He, map_size_empty in *.
  rewrite (proj2 (Nat.leb_gt _ _) Hm) in *.
  set (p' := pool_insert _ p) in *. exists p'. split; [done|].
  assert (pool_inv p') as Hi by (destruct Hspec as [[? _]|[? _]]; done). split; [done|].
  assert (pool_size p' = 1%nat) as Hsz.
  { unfold pool_size, p', pool_insert. simpl. by rewrite He, map_size_insert_None. }
  assert (tx ∈ ranked p') as Hin.
  { apply ranked_elem; [done|]. unfold p'. rewrite pool_insert_get. by rewrite decide_True. }
  assert (config p' = config p /\ forall id, id <> tx_id tx -> pool_txs p' !! id = None) as Hrest.
  { split; [done|]. intros id Hid. unfold p'. cbn. by rewrite lookup_insert_ne, He, lookup_empty. }
  pose proof (ranked_length p' Hi) as Hl. rewrite Hsz in Hl. clearbody p'. split; [|exact Hrest].
  unfold select_transactions. rewrite select_loop_take. cbn [app length]. fold (ranked p').
  destruct (ranked p') as [|x [|y r]]; try done. apply list_elem_of_singleton in Hin as ->.
  rewrite Nat.sub_0_r. destruct n; [lia|]. cbn. by rewrite take_nil.
Qed.

(** The transactions offered to a block are the best ones: as many as asked for
    and available, pairwise distinct, from highest to lowest fee density, and none
    left in the pool pays more per byte than one that was chosen. *)
Theorem select_transactions_best n p :
  pool_inv p ->
  let sel := select_transactions n p in
  length sel = Nat.min n (pool_size p) /\ NoDup (tx_id <$> sel) /\
  StronglySorted (fun a b => fee_per_byte b <= fee_per_byte a) sel /\
  (forall tx, tx ∈ sel -> pool_get (tx_id tx) p = Some tx) /\
  (forall tx tx', tx ∈ sel -> pool_get (tx_id tx') p = Some tx' -> tx' ∉ sel ->
     fee_per_byte tx' <= fee_per_byte tx).
Proof.
  intros Hp sel. assert (sel = take n (ranked p)) as Hsel.
  { unfold sel, select_transactions. rewrite select_loop_take. simpl. by rewrite Nat.sub_0_r. }
  pose proof (ranked_sorted p Hp) as Hs. rewrite <- (take_drop n (ranked p)), <- Hsel in Hs.
  apply StronglySorted_app in Hs as (Hcross & Hs & _). split_and!.
  - by rewrite Hsel, length_take, ranked_length.
  - by apply outranks_NoDup.
  - eapply StronglySorted_weaken; [|exact Hs]. by intros a b [? _].
  - intros tx Htx. apply ranked_elem; [done|]. rewrite Hsel in Htx.
    by apply elem_of_take in Htx as (i & Hi & _); eapply list_elem_of_lookup_2.
  - intros tx tx' Htx Hget Hno. apply ranked_elem in Hget; [|done].
    rewrite <- (take_drop n (ranked p)), <- Hsel in Hget. apply elem_of_app in Hget as [|Hd]; [done|].
    by apply (Hcross tx tx').
Qed.
End Select.

(** ** Witnesses: a pool of two transactions, filled to its capacity *)

Module PoolExamples.
#[export] Existing Instances toy_crypto TxExamples.codec.

Definition tx (fee : Z) : Transaction :=
  build 0 (mkBuilder 1 Transfer TxExamples.alice_address "bob" (mkAmount 50 NOVA) fee 1 (Some 5) None).

Definition cfg : MempoolConfig := mkMempoolConfig 2 5 60 0.

Definition pool : Mempool := (pool_add 20 (tx 2000) (pool_add 10 (tx 1000) (mempool_new cfg)).2).2.

Lemma pool_reach : pool_reachable cfg pool.
Proof.
  eapply reach_step; [eapply reach_step; [apply reach_new|]|]; apply step_add.
Qed.

Lemma pool_ok : pool_inv pool.
Proof. apply pool_add_inv, pool_add_inv, mempool_new_inv. Qed.
End PoolExamples.

Import PoolExamples.

Lemma pool_reachable_inv_witness : pool_inv pool /\ pool_size pool = 2%nat.
Proof.
  split; [apply (pool_reachable_inv cfg pool); exact pool_reach|vm_compute; reflexivity].
Defined.

Lemma pool_add_outcome_witness :
  pool_inv (pool_add 30 (tx 3000) pool).2 /\
  pool_get (tx_id (tx 1000)) (pool_add 30 (tx 3000) pool).2 = None.
Proof.
  pose proof (pool_add_outcome 30 (tx 3000) pool pool_ok) as Ho.
  assert ((pool_add 30 (tx 3000) pool).1 = Ok tt) as Hr by (vm_compute; reflexivity).
  split; [|vm_compute; reflexivity].
  destruct (pool_add 30 (tx 3000) pool) as [r p']. cbn [fst snd] in *. subst r. tauto.
Defined.

Lemma expire_old_exact_witness : (expire_old 75 pool).1 = 1%nat /\ pool_inv (expire_old 75 pool).2.
Proof.
  destruct (expire_old_exact 75 pool pool_ok) as (Hi & _ & _).
  split; [vm_compute; reflexivity|exact Hi].
Defined.

Lemma select_transactions_best_witness :
  select_transactions 1 pool = [tx 2000] /\ NoDup (tx_id <$> select_transactions 1 pool).
Proof.
  destruct (select_transactions_best 1 pool pool_ok) as (_ & Hn & _).
  split; [vm_compute; reflexivity|exact Hn].
Defined.
