(* ===== verification/MempoolConc.v ===== *)
(** * The mempool under concurrent calls

    [Mempool] is shared between threads without a lock of its own: the table and the
    sender counters are [DashMap]s, the fee index is behind an [RwLock], and a method
    takes them one after the other.  A [DashMap] is an array of shards, each behind a lock
    of its own: an access by key takes one of them, [len], [iter] and [clear] take one
    after the other, so that [len] adds up sizes of different moments.  Here a call is a
    program counter [pc] and one step of it is one such access; worker threads interleave
    these steps freely ([wstep]).  A call that runs alone computes what [Mempool] says;
    calls that add distinct transactions keep table and index in agreement under every
    schedule, but not the capacity; races show what else is lost.  The wall clock of a
    step is an argument. *)

From S2P Require Import Prelude Bytes Crypto Transaction Sled Mempool.

#[local] Open Scope Z_scope.

(** The shards of the table and of the counters, by key. *)
Class Shards := {
  shard_amount : nat;
  shard_of : string -> nat;
  sender_shard_of : string -> nat;
  shard_of_lt : forall id, (shard_of id < shard_amount)%nat;
  sender_shard_of_lt : forall sender, (sender_shard_of sender < shard_amount)%nat
}.

Inductive outcome :=
| RAdd (r : res MempoolError unit)
| RRemove (r : option Transaction)
| RUnit
| RCount (n : nat).

(** Where a call stands: the access it performs next. *)
Inductive pc :=
| AddDup (tx : Transaction)                      (* transactions.contains_key *)
| AddSender (tx : Transaction)                   (* sender_counts.get *)
| AddLen (tx : Transaction) (shard n : nat)        (* a shard in transactions.len, [n] counted so far *)
| AddEvict (tx : Transaction)                    (* fee_index.write in try_evict_lowest *)
| EvictTable (tx : Transaction) (id : string)    (* transactions.remove *)
| EvictCount (tx : Transaction) (sender : string) (* sender_counts.get_mut *)
| EvictDrop (tx : Transaction) (sender : string) (* sender_counts.remove *)
| AddTable (tx : Transaction)                    (* transactions.insert *)
| AddIndex (e : MempoolEntry)                    (* fee_index.write().insert *)
| AddCount (sender : string)                     (* sender_counts.entry *)
| RemTable (ids : list string) (r : outcome)     (* transactions.remove *)
| RemIndex (e : MempoolEntry) (ids : list string) (r : outcome)
| RemCount (sender : string) (ids : list string) (r : outcome)
| RemDrop (sender : string) (ids : list string) (r : outcome)
| ExpireScan (shard : nat) (start : Z) (ids : list string) (* a shard in transactions.iter *)
| ClearTable (shard : nat)
| ClearIndex
| ClearCounts (shard : nat)
| Returned (r : outcome).

(** The calls. *)
Definition call_add (tx : Transaction) : pc := AddDup tx.
Definition call_remove (id : string) : pc := RemTable [id] (RRemove None).
Definition call_remove_batch (ids : list string) : pc := RemTable ids RUnit.
Definition call_expire : pc := ExpireScan 0 0 [].
Definition call_clear : pc := ClearTable 0.

Definition set_txs (t : gmap string MempoolEntry) (p : Mempool) : Mempool :=
  mkPool t (fee_index p) (sender_counts p) (config p).
Definition set_index (i : FeeIndex) (p : Mempool) : Mempool :=
  mkPool (pool_txs p) i (sender_counts p) (config p).
Definition set_counts (c : gmap string nat) (p : Mempool) : Mempool :=
  mkPool (pool_txs p) (fee_index p) c (config p).

(** [decrement_sender_count] up to the end of its first guard. *)
Definition count_step (sender : string) (next drop : pc) (p : Mempool) : pc * Mempool :=
  match sender_counts p !! sender with
  | Some count =>
      if (count <=? 1)%nat then (drop, p)
      else (next, set_counts (<[sender := (count - 1)%nat]> (sender_counts p)) p)
  | None => (next, p)
  end.

Section Steps.
Context {T : TxCodec} {Sh : Shards}.

Definition shard_size (shard : nat) (p : Mempool) : nat :=
  size (filter (fun kv : string * MempoolEntry => shard_of kv.1 = shard) (pool_txs p)).

(** The shard after this one, if there is one. *)
Definition next_shard (shard : nat) (next : nat -> pc) (last : pc) : pc :=
  if (S shard <? shard_amount)%nat then next (S shard) else last.

Definition thread_step (now : Z) (c : pc) (p : Mempool) : pc * Mempool :=
  match c with
  | AddDup tx =>
      if pool_contains (tx_id tx) p then (Returned (RAdd (Err DuplicateTransaction)), p)
      else if tx_fee tx <? min_fee (config p)
      then (Returned (RAdd (Err (FeeTooLow (min_fee (config p)) (tx_fee tx)))), p)
      else (AddSender tx, p)
  | AddSender tx =>
      if (max_per_sender (config p) <=? default 0%nat (sender_counts p !! tx_sender tx))%nat
      then (Returned (RAdd (Err (SenderLimitExceeded (tx_sender tx) (max_per_sender (config p))))), p)
      else (AddLen tx 0 0, p)
  | AddLen tx shard n =>
      let n' := (n + shard_size shard p)%nat in
      (next_shard shard (fun j => AddLen tx j n')
         (if (max_size (config p) <=? n')%nat then AddEvict tx else AddTable tx), p)
  | AddEvict tx =>
      match last (fee_index p) with
      | None => (Returned (RAdd (Err (MempoolFull (max_size (config p))))), p)
      | Some (lowest_key, evicted_id) =>
          if fee_per_byte tx <=? U64_MAX - inverted_fee lowest_key
          then (Returned (RAdd (Err (MempoolFull (max_size (config p))))), p)
          else (EvictTable tx evicted_id, set_index (index_remove lowest_key (fee_index p)) p)
      end
  | EvictTable tx id =>
      match pool_txs p !! id with
      | Some entry => (EvictCount tx (tx_sender (transaction entry)), set_txs (delete id (pool_txs p)) p)
      | None => (AddTable tx, p)
      end
  | EvictCount tx sender => count_step sender (AddTable tx) (EvictDrop tx sender) p
  | EvictDrop tx sender => (AddTable tx, set_counts (delete sender (sender_counts p)) p)
  | AddTable tx =>
      let entry := mkEntry tx now (fee_per_byte tx) in
      (AddIndex entry, set_txs (<[tx_id tx := entry]> (pool_txs p)) p)
  | AddIndex e =>
      (AddCount (tx_sender (transaction e)),
       set_index (index_insert (entry_key e) (tx_id (transaction e)) (fee_index p)) p)
  | AddCount sender =>
      (Returned (RAdd (Ok tt)),
       set_counts (<[sender := S (default 0%nat (sender_counts p !! sender))]> (sender_counts p)) p)
  | RemTable [] r => (Returned r, p)
  | RemTable (id :: ids) r =>
      match pool_txs p !! id with
      | Some entry =>
          (RemIndex entry ids (match r with RRemove _ => RRemove (Some (transaction entry)) | _ => r end),
           set_txs (delete id (pool_txs p)) p)
      | None => (RemTable ids r, p)
      end
  | RemIndex e ids r =>
      (RemCount (tx_sender (transaction e)) ids r, set_index (index_remove (entry_key e) (fee_index p)) p)
  | RemCount sender ids r => count_step sender (RemTable ids r) (RemDrop sender ids r) p
  | RemDrop sender ids r => (RemTable ids r, set_counts (delete sender (sender_counts p)) p)
  | ExpireScan shard start ids =>
      let start' := if (shard =? 0)%nat then now else start in
      let ids' := ids ++ filter (fun id => shard_of id = shard) (expired_ids start' p) in
      (next_shard shard (fun j => ExpireScan j start' ids') (RemTable ids' (RCount (length ids'))), p)
  | ClearTable shard =>
      (next_shard shard ClearTable ClearIndex,
       set_txs (filter (fun kv : string * MempoolEntry => shard_of kv.1 <> shard) (pool_txs p)) p)
  | ClearIndex => (ClearCounts 0, set_index [] p)
  | ClearCounts shard =>
      (next_shard shard ClearCounts (Returned RUnit),
       set_counts (filter (fun kv : string * nat => sender_shard_of kv.1 <> shard) (sender_counts p)) p)
  | Returned r => (Returned r, p)
  end.

(** A step of a call that runs alone. *)
Definition alone (now : Z) (a b : pc * Mempool) : Prop := b = thread_step now a.1 a.2.

(** ** Worker threads *)

(** The call in progress and those to come. *)
Notation worker := (pc * list pc)%type.

Record world := mkWorld { w_pool : Mempool; w_workers : list worker }.

Definition worker_step (now : Z) (x : worker) (p : Mempool) : option (worker * Mempool) :=
  match x with
  | (Returned _, []) => None
  | (Returned _, c :: q) => Some ((c, q), p)
  | (c, q) => let '(c', p') := thread_step now c p in Some ((c', q), p')
  end.

(** Whether the step of a worker takes an evicted transaction out of the table. *)
Definition evictions (x : worker) : nat := match x.1 with EvictTable _ _ => 1 | _ => 0 end.

Inductive wstep : nat -> world -> world -> Prop :=
| wstep_at now p p' l1 x x' l2 :
    worker_step now x p = Some (x', p') ->
    wstep (evictions x) (mkWorld p (l1 ++ x :: l2)) (mkWorld p' (l1 ++ x' :: l2)).

(** Runs of a given length, with a given number of evictions. *)
Inductive wsteps : nat -> nat -> world -> world -> Prop :=
| wsteps_refl w : wsteps 0 0 w w
| wsteps_cons k b e w w' w'' : wstep b w w' -> wsteps k e w' w'' -> wsteps (S k) (b + e) w w''.

Definition idle_worker (x : worker) : Prop := exists r, x = (Returned r, []).
Definition quiescent (w : world) : Prop := Forall idle_worker (w_workers w).

(** A schedule: which worker moves, at what time. *)
Fixpoint schedule (s : list (nat * Z)) (w : world) : world :=
  match s with
  | [] => w
  | (i, now) :: s' =>
      match w_workers w !! i with
      | Some x =>
          match worker_step now x (w_pool w) with
          | Some (x', p') => schedule s' (mkWorld p' (<[i := x']> (w_workers w)))
          | None => schedule s' w
          end
      | None => schedule s' w
      end
  end.
End Steps.

Notation worker := (pc * list pc)%type.

(** ** Shards *)

Section ShardFacts.
Context {Sh : Shards}.

(** Entries in the shards from [i] on. *)
Definition rest_size (i : nat) (p : Mempool) : nat :=
  sum_list ((fun j => shard_size j p) <$> seq i (shard_amount - i)).

Lemma rest_size_step i p : (i < shard_amount)%nat -> rest_size i p = (shard_size i p + rest_size (S i) p)%nat.
Proof.
  intros Hi. unfold rest_size. replace (shard_amount - i)%nat with (S (shard_amount - S i)) by lia. done.
Qed.

Lemma rest_size_end p : rest_size shard_amount p = 0%nat.
Proof. unfold rest_size. by rewrite Nat.sub_diag. Qed.

Lemma shard_size_insert j id e p : pool_txs p !! id = None ->
  shard_size j (set_txs (<[id := e]> (pool_txs p)) p) = (shard_size j p + if decide (shard_of id = j) then 1 else 0)%nat.
Proof.
  intros Hn. unfold shard_size. cbn [set_txs pool_txs]. case_decide as Hj.
  - rewrite map_filter_insert_True by done. rewrite map_size_insert_None; [lia|].
    apply map_lookup_filter_None. by left.
  - rewrite map_filter_insert_not by (intros; done). lia.
Qed.

Lemma rest_size_insert i id e p : pool_txs p !! id = None ->
  rest_size i (set_txs (<[id := e]> (pool_txs p)) p) = (rest_size i p + if decide (i <= shard_of id)%nat then 1 else 0)%nat.
Proof.
  intros Hn. unfold rest_size. pose proof (shard_of_lt id) as Hlt.
  assert (forall n i, sum_list ((fun j => shard_size j (set_txs (<[id := e]> (pool_txs p)) p)) <$> seq i n) =
    (sum_list ((fun j => shard_size j p) <$> seq i n) + if decide (i <= shard_of id < i + n)%nat then 1 else 0)%nat) as Hs.
  { clear i. induction n as [|n IH]; intros i; cbn [seq].
    { rewrite decide_False by lia. done. }
    rewrite !fmap_cons. cbn [sum_list_with Datatypes.id]. rewrite IH, shard_size_insert by done. repeat case_decide; lia. }
  rewrite Hs. repeat case_decide; lia.
Qed.

Lemma shard_size_same j p q : pool_txs p = pool_txs q -> shard_size j p = shard_size j q.
Proof. unfold shard_size. by intros ->. Qed.

Lemma rest_size_same i p q : pool_txs p = pool_txs q -> rest_size i p = rest_size i q.
Proof. intros E. unfold rest_size. f_equal. apply list_fmap_ext. intros. by apply shard_size_same. Qed.

(** What [len] gives to a thread that is alone. *)
Lemma rest_size_all p : rest_size 0 p = pool_size p.
Proof.
  destruct p as [t x c cf]. unfold pool_size. cbn [pool_txs].
  induction t as [|id e t Hid IH] using map_ind.
  - unfold rest_size. rewrite map_size_empty. induction (seq 0 _) as [|j l IHl]; [done|].
    rewrite fmap_cons. cbn [sum_list_with Datatypes.id]. rewrite IHl. unfold shard_size. cbn [pool_txs]. by rewrite map_filter_empty, map_size_empty.
  - pose proof (rest_size_insert 0 id e (mkPool t x c cf) Hid) as Hs.
    unfold set_txs in Hs. cbn [pool_txs fee_index sender_counts config] in Hs. rewrite Hs, IH, map_size_insert_None by done. rewrite decide_True by lia. lia.
Qed.

(** A scan shard by shard finds everything. *)
Lemma scan_all (l : list string) i :
  (forall id, id ∈ l -> (i <= shard_of id)%nat) ->
  concat ((fun j => filter (fun id => shard_of id = j) l) <$> seq i (shard_amount - i)) ≡ₚ l.
Proof.
  intros Hl. assert (forall n i, (forall id, id ∈ l -> (i <= shard_of id < i + n)%nat) ->
    concat ((fun j => filter (fun id => shard_of id = j) l) <$> seq i n) ≡ₚ l) as Hs.
  { clear i Hl. intros n. revert l. induction n as [|n IH]; intros l i Hl.
    - destruct l as [|id l]; [done|]. specialize (Hl id ltac:(by left)). lia.
    - cbn [seq]. rewrite fmap_cons. cbn [concat].
      etrans; [|apply (filter_app_complement (fun id => shard_of id = i))].
      apply Permutation_app_head. rewrite <- (IH (filter (fun id => shard_of id <> i) l) (S i)).
      + match goal with |- ?a ≡ₚ ?b => enough (a = b) as -> by done end. f_equal. apply list_fmap_ext. intros k j Hj. apply lookup_seq in Hj as [-> _].
        rewrite list_filter_filter. apply list_filter_iff. intros id. lia.
      + intros id [Hne Hin]%list_elem_of_filter. specialize (Hl id Hin). lia. }
  apply Hs. intros id Hin. specialize (Hl id Hin). pose proof (shard_of_lt id). lia.
Qed.

Lemma clear_last {A} (m : gmap string A) (f : string -> nat) i :
  (forall k x, m !! k = Some x -> (i <= f k)%nat) ->
  forall k x, filter (fun kv : string * A => f kv.1 <> i) m !! k = Some x -> (S i <= f k)%nat.
Proof. intros Hm k x [Hk Hne]%map_lookup_filter_Some. specialize (Hm k x Hk). cbn in Hne. lia. Qed.
End ShardFacts.

(** ** Removing in another order *)

Definition lowered (o : option nat) : option nat :=
  match o with Some n => if (n <=? 1)%nat then None else Some (n - 1)%nat | None => None end.

Lemma decrement_alter sender p :
  decrement_sender_count sender p =
  mkPool (pool_txs p) (fee_index p) (partial_alter lowered sender (sender_counts p)) (config p).
Proof.
  unfold decrement_sender_count. destruct p as [t x c cf]. cbn [sender_counts pool_txs fee_index config].
  destruct (c !! sender) as [n|] eqn:E.
  - f_equal. apply map_eq. intros k. destruct (decide (sender = k)) as [<-|Hne].
    + rewrite lookup_partial_alter_eq, E. cbn. destruct (n <=? 1)%nat; [apply lookup_delete_eq|apply lookup_insert_eq].
    + rewrite lookup_partial_alter_ne by done. destruct (n <=? 1)%nat; [by rewrite lookup_delete_ne|by rewrite lookup_insert_ne].
  - f_equal. apply map_eq. intros k. destruct (decide (sender = k)) as [<-|Hne].
    + by rewrite lookup_partial_alter_eq, E.
    + by rewrite lookup_partial_alter_ne.
Qed.

Lemma pool_remove_alter id p :
  (pool_remove id p).2 =
  match pool_txs p !! id with
  | Some e => mkPool (delete id (pool_txs p)) (index_remove (entry_key e) (fee_index p))
                (partial_alter lowered (tx_sender (transaction e)) (sender_counts p)) (config p)
  | None => p
  end.
Proof.
  unfold pool_remove. destruct (pool_txs p !! id) as [e|]; [|done]. cbn [snd]. unfold remove_from_indices.
  by rewrite decrement_alter.
Qed.

Lemma index_remove_comm k k' (x : FeeIndex) : index_remove k (index_remove k' x) = index_remove k' (index_remove k x).
Proof. unfold index_remove. rewrite !list_filter_filter. apply list_filter_iff. intros y. tauto. Qed.

Lemma partial_alter_lowered_comm s s' (c : gmap string nat) :
  partial_alter lowered s (partial_alter lowered s' c) = partial_alter lowered s' (partial_alter lowered s c).
Proof. destruct (decide (s = s')) as [->|]; [done|]. by apply partial_alter_partial_alter_ne. Qed.

Lemma pool_remove_comm a b p : (pool_remove a (pool_remove b p).2).2 = (pool_remove b (pool_remove a p).2).2.
Proof.
  destruct (decide (a = b)) as [->|Hne]; [done|].
  rewrite (pool_remove_alter a), (pool_remove_alter b (pool_remove a p).2), (pool_remove_alter b p), (pool_remove_alter a p).
  destruct (pool_txs p !! a) as [ea|] eqn:Ea, (pool_txs p !! b) as [eb|] eqn:Eb;
    cbn [pool_txs fee_index sender_counts config]; rewrite ?lookup_delete_ne, ?Ea, ?Eb by done; [|done..].
  by rewrite delete_delete, index_remove_comm, partial_alter_lowered_comm.
Qed.

Lemma remove_batch_perm ids ids' p : ids ≡ₚ ids' -> remove_batch ids p = remove_batch ids' p.
Proof.
  intros Hp. revert p. unfold remove_batch. induction Hp as [|x l l' _ IH|x y l|l1 l2 l3 _ IH1 _ IH2]; intros p; cbn [fold_left].
  - done.
  - apply IH.
  - by rewrite pool_remove_comm.
  - by rewrite IH1.
Qed.

(** ** A call that runs alone *)

Section Alone.
Context {T : TxCodec} {Sh : Shards} (now : Z).

Notation "a ↠ b" := (rtc (alone now) a b) (at level 70).

Lemma alone_next c p d : thread_step now c p ↠ d -> (c, p) ↠ d.
Proof. intros H. eapply rtc_l; [reflexivity|exact H]. Qed.

(** The two accesses of [decrement_sender_count], run together. *)
Lemma alone_count sender next drop p :
  (forall q, thread_step now drop q = (next, set_counts (delete sender (sender_counts q)) q)) ->
  count_step sender next drop p ↠ (next, decrement_sender_count sender p).
Proof.
  intros Hd. unfold count_step, decrement_sender_count.
  destruct (sender_counts p !! sender) as [count|]; [|done].
  destruct (count <=? 1)%nat; [|done]. apply alone_next. by rewrite Hd.
Qed.

Lemma alone_evict tx p :
  thread_step now (AddEvict tx) p ↠
  (let '(room, p') := try_evict_lowest (fee_per_byte tx) p in
   (if room then AddTable tx else Returned (RAdd (Err (MempoolFull (max_size (config p))))), p')).
Proof.
  cbn [thread_step]. unfold try_evict_lowest. destruct (last (fee_index p)) as [[k id]|]; [|done].
  destruct (_ <=? _); [done|]. apply alone_next. cbn [thread_step set_index pool_txs].
  destruct (pool_txs p !! id) as [e|]; [|done]. apply alone_next. cbn [thread_step].
  by apply alone_count.
Qed.

Lemma alone_insert tx p :
  (AddTable tx, p) ↠ (Returned (RAdd (Ok tt)), pool_insert (mkEntry tx now (fee_per_byte tx)) p).
Proof. do 3 apply alone_next. done. Qed.

Lemma some_shard : (0 < shard_amount)%nat.
Proof. pose proof (shard_of_lt ""%string). lia. Qed.

Lemma alone_len tx p i n : (i < shard_amount)%nat ->
  (AddLen tx i n, p) ↠
  (if (max_size (config p) <=? n + rest_size i p)%nat then AddEvict tx else AddTable tx, p).
Proof.
  intros Hi. remember (shard_amount - S i)%nat as d eqn:Hd. revert i n Hi Hd. induction d as [|d IH]; intros i n Hi Hd;
    apply alone_next; cbn [thread_step]; unfold next_shard; rewrite (rest_size_step i) by done.
  - rewrite (proj2 (Nat.ltb_ge _ _)) by lia. replace (S i) with shard_amount by lia.
    by rewrite rest_size_end, Nat.add_0_r.
  - rewrite (proj2 (Nat.ltb_lt _ _)) by lia. rewrite Nat.add_assoc. apply IH; lia.
Qed.

Lemma alone_add tx p : (call_add tx, p) ↠ (Returned (RAdd (pool_add now tx p).1), (pool_add now tx p).2).
Proof.
  apply alone_next. cbn [call_add thread_step]. unfold pool_add.
  destruct (pool_contains _ _); [done|]. destruct (_ <? _); [done|].
  apply alone_next. cbn [thread_step]. destruct (_ <=? _)%nat; [done|].
  etrans; [apply alone_len, some_shard|]. rewrite rest_size_all. cbn [Nat.add]. destruct (_ <=? _)%nat.
  - apply alone_next. etrans; [apply alone_evict|].
    destruct (try_evict_lowest _ p) as [[] p']; [apply alone_insert|done].
  - apply alone_insert.
Qed.

Lemma alone_remove_one id ids r p :
  (RemTable (id :: ids) r, p) ↠
  (RemTable ids (match r, (pool_remove id p).1 with
                 | RRemove _, Some tx => RRemove (Some tx) | _, _ => r end), (pool_remove id p).2).
Proof.
  apply alone_next. cbn [thread_step]. unfold pool_remove.
  destruct (pool_txs p !! id) as [e|]; [|by destruct r]. cbn [fst snd].
  do 2 apply alone_next. cbn [thread_step]. unfold remove_from_indices.
  destruct r; by apply alone_count.
Qed.

Lemma alone_remove_all ids r p :
  (forall o, r <> RRemove o) ->
  (RemTable ids r, p) ↠ (Returned r, fold_left (fun p id => (pool_remove id p).2) ids p).
Proof.
  intros Hr. revert p; induction ids as [|id ids IH]; intros p; [by apply alone_next|].
  etrans; [apply alone_remove_one|]. cbn [fold_left].
  destruct r; try apply IH. by destruct (Hr r).
Qed.

Lemma alone_scan p i start ids : (i < shard_amount)%nat -> (i = 0%nat -> ids = []) ->
  let at_start := if (i =? 0)%nat then now else start in
  exists ids', ids' ≡ₚ ids ++ concat ((fun j => filter (fun id => shard_of id = j) (expired_ids at_start p)) <$> seq i (shard_amount - i)) /\
    (ExpireScan i start ids, p) ↠ (RemTable ids' (RCount (length ids')), p).
Proof.
  intros Hi _. cbv zeta. remember (shard_amount - S i)%nat as d eqn:Hd. revert i start ids Hi Hd.
  induction d as [|d IH]; intros i start ids Hi Hd; set (st := if (i =? 0)%nat then now else start).
  - exists (ids ++ filter (fun id => shard_of id = i) (expired_ids st p)). split.
    + replace (shard_amount - i)%nat with 1%nat by lia. cbn. by rewrite app_nil_r.
    + apply alone_next. cbn [thread_step]. fold st. unfold next_shard. by rewrite (proj2 (Nat.ltb_ge _ _)) by lia.
  - destruct (IH (S i) st (ids ++ filter (fun id => shard_of id = i) (expired_ids st p)) ltac:(lia) ltac:(lia)) as (ids' & Hp & Hr).
    cbn [Nat.eqb] in Hp. exists ids'. split.
    + rewrite Hp. replace (shard_amount - i)%nat with (S (shard_amount - S i)) by lia. cbn [seq fmap list_fmap concat].
      by rewrite <- app_assoc.
    + apply alone_next. cbn [thread_step]. fold st. unfold next_shard. by rewrite (proj2 (Nat.ltb_lt _ _)) by lia.
Qed.

Lemma alone_clear_table p i : (i < shard_amount)%nat ->
  (forall k x, pool_txs p !! k = Some x -> (i <= shard_of k)%nat) -> (ClearTable i, p) ↠ (ClearIndex, set_txs ∅ p).
Proof.
  intros Hi. remember (shard_amount - S i)%nat as d eqn:Hd. revert i p Hi Hd. induction d as [|d IH]; intros i p Hi Hd Hm;
    apply alone_next; cbn [thread_step]; unfold next_shard; pose proof (clear_last _ _ _ Hm) as Hm'.
  - rewrite (proj2 (Nat.ltb_ge _ _)) by lia.
    replace (filter _ (pool_txs p)) with (∅ : gmap string MempoolEntry); [done|]. symmetry. apply map_empty. intros k.
    apply eq_None_not_Some. intros [x Hx]. specialize (Hm' k x Hx). pose proof (shard_of_lt k). lia.
  - rewrite (proj2 (Nat.ltb_lt _ _)) by lia. by apply (IH (S i) (set_txs _ p)); [lia..|].
Qed.

Lemma alone_clear_counts p i : (i < shard_amount)%nat ->
  (forall k x, sender_counts p !! k = Some x -> (i <= sender_shard_of k)%nat) ->
  (ClearCounts i, p) ↠ (Returned RUnit, set_counts ∅ p).
Proof.
  intros Hi. remember (shard_amount - S i)%nat as d eqn:Hd. revert i p Hi Hd. induction d as [|d IH]; intros i p Hi Hd Hm;
    apply alone_next; cbn [thread_step]; unfold next_shard; pose proof (clear_last _ _ _ Hm) as Hm'.
  - rewrite (proj2 (Nat.ltb_ge _ _)) by lia.
    replace (filter _ (sender_counts p)) with (∅ : gmap string nat); [done|]. symmetry. apply map_empty. intros k.
    apply eq_None_not_Some. intros [x Hx]. specialize (Hm' k x Hx). pose proof (sender_shard_of_lt k). lia.
  - rewrite (proj2 (Nat.ltb_lt _ _)) by lia. by apply (IH (S i) (set_counts _ p)); [lia..|].
Qed.

(** The model of [Mempool] is right about one thread: a call whose accesses are not
    interleaved with others ends, with the result and the pool that [pool_add],
    [pool_remove], [remove_batch], [expire_old] and [pool_clear] give. *)
Theorem call_alone_atomic p :
  (forall tx, (call_add tx, p) ↠ (Returned (RAdd (pool_add now tx p).1), (pool_add now tx p).2)) /\
  (forall id, (call_remove id, p) ↠ (Returned (RRemove (pool_remove id p).1), (pool_remove id p).2)) /\
  (forall ids, (call_remove_batch ids, p) ↠ (Returned RUnit, remove_batch ids p)) /\
  (call_expire, p) ↠ (Returned (RCount (expire_old now p).1), (expire_old now p).2) /\
  (call_clear, p) ↠ (Returned RUnit, pool_clear p).
Proof.
  split_and!.
  - intros tx. apply alone_add.
  - intros id. etrans; [apply alone_remove_one|]. apply alone_next. cbn [thread_step].
    unfold pool_remove. by destruct (pool_txs p !! id).
  - intros ids. by apply alone_remove_all.
  - destruct (alone_scan p 0 0 [] some_shard ltac:(done)) as (ids & Hp & Hr). cbn [Nat.eqb app] in Hp.
    rewrite Nat.sub_0_r in Hp. pose proof (scan_all (expired_ids now p) 0 ltac:(intros; lia)) as Ha.
    rewrite Nat.sub_0_r in Ha. rewrite Ha in Hp. etrans; [exact Hr|]. etrans; [by apply alone_remove_all|].
    unfold expire_old. cbn [fst snd]. fold (remove_batch ids p) (remove_batch (expired_ids now p) p).
    by rewrite (remove_batch_perm _ _ _ Hp), Hp.
  - etrans; [apply (alone_clear_table p 0 some_shard); intros; lia|]. apply alone_next. cbn [thread_step].
    etrans; [apply (alone_clear_counts _ 0 some_shard); intros; lia|]. done.
Qed.
End Alone.

(** ** Concurrent additions of distinct transactions *)

(** What a worker still has to do: the identifiers it will insert, the one it is
    evicting, the entry whose index key is missing. *)
Definition ins_pc (c : pc) : list string :=
  match c with
  | AddDup tx | AddSender tx | AddLen tx _ _ | AddEvict tx | EvictTable tx _ | EvictCount tx _
  | EvictDrop tx _ | AddTable tx => [tx_id tx]
  | _ => []
  end.
Definition inserting (x : worker) : list string := ins_pc x.1 ++ concat (ins_pc <$> x.2).
Definition evicting (x : worker) : list string :=
  match x.1 with EvictTable _ id => [id] | _ => [] end.
Definition linking (x : worker) : list MempoolEntry :=
  match x.1 with AddIndex e => [e] | _ => [] end.

(** Only calls of [add]. *)
Definition adding (x : worker) : Prop :=
  match x.1 with
  | RemTable _ _ | RemIndex _ _ _ | RemCount _ _ _ | RemDrop _ _ _
  | ExpireScan _ _ _ | ClearTable _ | ClearIndex | ClearCounts _ => False
  | _ => True
  end /\ Forall (fun c => exists tx, c = call_add tx) x.2.

Section Adds.
Context {T : TxCodec} {Sh : Shards}.

(** Table and index agree up to what is in flight. *)
Record flight_inv (p : Mempool) (I E : list string) (K : list MempoolEntry) : Prop := {
  fi_fresh : NoDup I /\ (forall id, id ∈ I -> pool_txs p !! id = None);
  fi_sorted : StronglySorted (fun a b : FeeKey * string => feekey_ltb a.1 b.1 = true) (fee_index p);
  fi_entries : forall id e, pool_txs p !! id = Some e -> entry_ok id e;
  fi_evicting : NoDup E /\ (forall id, id ∈ E -> is_Some (pool_txs p !! id));
  fi_linking : NoDup K /\ (forall e, e ∈ K -> pool_txs p !! tx_id (transaction e) = Some e /\
                                              tx_id (transaction e) ∉ E);
  fi_index : forall k id, (k, id) ∈ fee_index p <->
    exists e, pool_txs p !! id = Some e /\ k = entry_key e /\ id ∉ E /\ e ∉ K
}.

Lemma flight_inv_perm p I I' E E' K K' :
  I ≡ₚ I' -> E ≡ₚ E' -> K ≡ₚ K' -> flight_inv p I E K -> flight_inv p I' E' K'.
Proof.
  intros HI HE HK [[? ?] ? ? [? ?] [? Hl] Hx]. split; try done.
  - split; [by rewrite <- HI|]. intros id. rewrite <- HI. auto.
  - split; [by rewrite <- HE|]. intros id. rewrite <- HE. auto.
  - split; [by rewrite <- HK|]. intros e. rewrite <- HK, <- HE. auto.
  - intros k id. rewrite Hx. split; intros (e & ? & ? & Hid & He); exists e; rewrite HE, HK in *; done.
Qed.

Lemma flight_reject p id I E K : flight_inv p (id :: I) E K -> flight_inv p I E K.
Proof.
  intros [[Hn Hi] ? ? ? ? ?]. apply NoDup_cons in Hn as [_ Hn]. split; try done.
  split; [done|]. intros id' Hid. apply Hi. by right.
Qed.

Lemma flight_counts p c I E K : flight_inv p I E K -> flight_inv (set_counts c p) I E K.
Proof. by intros [? ? ? ? ? ?]. Qed.

Lemma flight_evict p k id I E K :
  flight_inv p I E K -> last (fee_index p) = Some (k, id) ->
  flight_inv (set_index (index_remove k (fee_index p)) p) I (id :: E) K.
Proof.
  intros [Hi Hs He [HnE HE] [HnK HK] Hx] Hl.
  assert ((k, id) ∈ fee_index p) as Hin by by apply last_Some_elem_of.
  apply Hx in Hin as (e & Hid & -> & HidE & HeK).
  split; cbn [set_index pool_txs fee_index]; try done.
  - by apply StronglySorted_filter.
  - split; [by constructor|]. intros id' [->|Hid']%elem_of_cons; [by eexists|auto].
  - split; [done|]. intros e' He'. destruct (HK e' He') as [He'' Hne]. split; [done|].
    intros [E1|]%elem_of_cons; [|done]. rewrite E1, Hid in He''. by injection He'' as <-.
  - intros k' id'. rewrite index_remove_elem, Hx. setoid_rewrite not_elem_of_cons. split.
    + intros [(e' & Hid' & -> & HE' & HK') Hne]. exists e'. split_and!; try done.
      intros ->. rewrite Hid in Hid'. injection Hid' as <-. done.
    + intros (e' & Hid' & -> & [Hne HE'] & HK'). split; [by eauto 10|]. cbn [fst]. intros Ek.
      apply Hne. destruct (He _ _ Hid) as [<- _]. destruct (He _ _ Hid') as [<- _].
      by injection Ek.
Qed.

Lemma flight_evict_table p id I E K :
  flight_inv p I (id :: E) K ->
  exists e, pool_txs p !! id = Some e /\ flight_inv (set_txs (delete id (pool_txs p)) p) I E K /\
    pool_size p = S (pool_size (set_txs (delete id (pool_txs p)) p)).
Proof.
  intros [[HnI HI] Hs He [HnE HE] [HnK HK] Hx]. apply NoDup_cons in HnE as [Hid HnE].
  destruct (HE id) as [e Hide]; [by left|]. exists e. split; [done|].
  assert (forall id', id <> id' -> delete id (pool_txs p) !! id' = pool_txs p !! id') as Hd
    by (intros; by apply lookup_delete_ne).
  split; [|by unfold pool_size; cbn; rewrite map_size_delete_Some by eauto;
           pose proof (map_size_ne_0_lookup_2 (pool_txs p) id ltac:(eauto)); lia].
  split; cbn [set_txs pool_txs fee_index]; try done.
  - split; [done|]. intros id' Hid'. apply lookup_delete_None. right. auto.
  - intros id' e' [_ Hid']%lookup_delete_Some. by apply He.
  - split; [done|]. intros id' Hid'. rewrite Hd by congruence. apply HE. by right.
  - split; [done|]. intros e' He'. destruct (HK e' He') as [? [? ?]%not_elem_of_cons].
    rewrite Hd by congruence. done.
  - intros k id'. rewrite Hx. setoid_rewrite not_elem_of_cons. split.
    + intros (e' & ? & -> & [? ?] & ?). exists e'. by rewrite Hd by congruence.
    + intros (e' & [? ?]%lookup_delete_Some & -> & ? & ?). exists e'. split_and!; congruence.
Qed.

Lemma flight_add_table p now tx I E K :
  let entry := mkEntry tx now (fee_per_byte tx) in
  flight_inv p (tx_id tx :: I) E K ->
  flight_inv (set_txs (<[tx_id tx := entry]> (pool_txs p)) p) I E (entry :: K) /\
  pool_size (set_txs (<[tx_id tx := entry]> (pool_txs p)) p) = S (pool_size p).
Proof.
  intros entry [[HnI HI] Hs He [HnE HE] [HnK HK] Hx]. apply NoDup_cons in HnI as [Hid HnI].
  pose proof (HI (tx_id tx) ltac:(by left)) as Hnone.
  assert (forall id', tx_id tx <> id' -> <[tx_id tx := entry]> (pool_txs p) !! id' = pool_txs p !! id') as Hd
    by (intros; by apply lookup_insert_ne).
  assert (tx_id tx ∉ E) as HtE. { intros Hin. destruct (HE _ Hin) as [? ?]. congruence. }
  split; [|by unfold pool_size; cbn; rewrite map_size_insert_None].
  split; cbn [set_txs pool_txs fee_index]; try done.
  - split; [done|]. intros id' Hid'. rewrite Hd by congruence. apply HI. by right.
  - intros id' e'. destruct (decide (tx_id tx = id')) as [<-|].
    + rewrite lookup_insert_eq. by intros [= <-].
    + rewrite Hd by done. apply He.
  - split; [done|]. intros id' Hid'. rewrite Hd by congruence. by apply HE.
  - split.
    + constructor; [|done]. intros Hin. destruct (HK _ Hin) as [Hc _]. cbn in Hc. congruence.
    + intros e' [->|He']%elem_of_cons; [by cbn; rewrite lookup_insert_eq|].
      destruct (HK e' He') as [Hc ?]. rewrite Hd by congruence. done.
  - intros k id'. rewrite Hx. setoid_rewrite not_elem_of_cons. destruct (decide (tx_id tx = id')) as [<-|].
    + rewrite lookup_insert_eq, Hnone. split; [by intros (? & ? & _)|].
      by intros (? & [= <-] & _ & _ & [? _]).
    + rewrite Hd by done. split; intros (e' & Hide & ? & ? & ?); exists e'; split_and!; try done.
      * intros ->. apply He in Hide as [Hc _]. cbn in Hc. congruence.
      * tauto.
Qed.

Lemma flight_add_index p e I E K :
  flight_inv p I E (e :: K) ->
  flight_inv (set_index (index_insert (entry_key e) (tx_id (transaction e)) (fee_index p)) p) I E K.
Proof.
  intros [HI Hs He HE [HnK HK] Hx]. apply NoDup_cons in HnK as [HeK HnK].
  destruct (HK e ltac:(by left)) as [Hid HidE].
  split; cbn [set_index pool_txs fee_index]; try done.
  - by apply index_insert_sorted.
  - split; [done|]. intros e' He'. apply HK. by right.
  - intros k id. rewrite index_insert_elem by done. rewrite Hx. setoid_rewrite not_elem_of_cons. split.
    + intros [[= -> ->]|[(e' & ? & ? & ? & [? ?]) ?]]; [by exists e|by exists e'].
    + intros (e' & Hide & -> & ? & ?). destruct (decide (tx_id (transaction e) = id)) as [<-|Hne].
      * left. rewrite Hid in Hide. by injection Hide as <-.
      * right. destruct (He _ _ Hide) as [Hc _]. split; [|cbn; intros Ek; apply Hne; rewrite <- Hc; by injection Ek].
        exists e'. split_and!; try done. intros ->. done.
Qed.

(** All workers together. *)
Definition gather {A} (f : worker -> list A) (ws : list worker) : list A := concat (f <$> ws).

Lemma gather_at {A} (f : worker -> list A) l1 x l2 : gather f (l1 ++ x :: l2) ≡ₚ f x ++ gather f (l1 ++ l2).
Proof.
  unfold gather. rewrite !fmap_app, fmap_cons, !concat_app. cbn [concat].
  rewrite !app_assoc. by rewrite (Permutation_app_comm (concat (f <$> l1)) (f x)).
Qed.

Definition total (f : worker -> nat) (ws : list worker) : nat := sum_list (f <$> ws).

Lemma total_at f l1 x l2 : total f (l1 ++ x :: l2) = (f x + total f (l1 ++ l2))%nat.
Proof. unfold total. rewrite !fmap_app, fmap_cons, !sum_list_with_app. cbn. lia. Qed.

(** Room that a worker has been granted and has not used yet, or will be granted if the
    table stays as it is: its count so far and the shards still to be counted leave room. *)
Definition claim (p : Mempool) (x : worker) : nat :=
  match x.1 with
  | EvictCount _ _ | EvictDrop _ _ | AddTable _ => 1
  | AddLen _ i n => if (n + rest_size i p <? max_size (config p))%nat then 1 else 0
  | _ => 0
  end%nat.

Lemma claim_le p x : (claim p x <= 1)%nat.
Proof. unfold claim. destruct x as [[] ?]; cbn; try lia. case_match; lia. Qed.

Lemma total_cons f x ws : total f (x :: ws) = (f x + total f ws)%nat.
Proof. done. Qed.

Lemma total_claim p ws : (total (claim p) ws <= length ws)%nat.
Proof. induction ws as [|x ws IH]; [done|]. rewrite total_cons. cbn [length]. pose proof (claim_le p x). lia. Qed.

Lemma total_mono f g ws : (forall x, f x <= g x)%nat -> (total f ws <= total g ws)%nat.
Proof.
  intros Hfg. induction ws as [|x ws IH]; [done|]. rewrite !total_cons. specialize (Hfg x). lia.
Qed.

(** Only an eviction renews claims. *)
Lemma claim_mono p p' x : config p' = config p -> (forall i, rest_size i p <= rest_size i p')%nat -> (claim p' x <= claim p x)%nat.
Proof.
  intros Hc Hr. unfold claim. rewrite Hc. destruct (x.1) as [| |tx i n| | | | | | | | | | | | | | | |]; try lia.
  specialize (Hr i). destruct (Nat.ltb_spec (n + rest_size i p') (max_size (config p))); [|lia].
  by rewrite (proj2 (Nat.ltb_lt _ _)) by lia.
Qed.

Record adds_inv (cfg : MempoolConfig) (n ev : nat) (w : world) : Prop := {
  ai_config : config (w_pool w) = cfg;
  ai_workers : length (w_workers w) = n;
  ai_adding : Forall adding (w_workers w);
  ai_flight : flight_inv (w_pool w) (gather inserting (w_workers w)) (gather evicting (w_workers w))
                (gather linking (w_workers w));
  ai_room : (pool_size (w_pool w) + total (claim (w_pool w)) (w_workers w) <= max_size cfg + (n - 1) * (1 + ev))%nat
}.

(** How many steps a worker can still take. *)
Definition cost_pc (c : pc) : nat :=
  match c with
  | AddDup _ => 9 + shard_amount | AddSender _ => 8 + shard_amount | AddLen _ i _ => 8 + (shard_amount - S i)
  | AddEvict _ => 7 | EvictTable _ _ => 6
  | EvictCount _ _ => 5 | EvictDrop _ _ => 4 | AddTable _ => 3 | AddIndex _ => 2 | AddCount _ => 1
  | _ => 0
  end%nat.
Definition cost (x : worker) : nat := (cost_pc x.1 + (10 + shard_amount) * length x.2)%nat.

(** Steps that leave the table as it is leave the claims as they are. *)
Lemma claims_kept p p' ws : config p' = config p -> pool_txs p' = pool_txs p -> total (claim p') ws = total (claim p) ws.
Proof.
  intros Hc Ht. apply Nat.le_antisymm; apply total_mono; intros x; apply claim_mono; try done;
    intros i; by rewrite (rest_size_same i p p').
Qed.

(** The last shard counted decides. *)
Lemma last_shard p i : (shard_amount <= S i)%nat -> (rest_size i p <= shard_size i p)%nat.
Proof.
  intros Hi. destruct (decide (i < shard_amount)%nat) as [Hs|Hs].
  - rewrite rest_size_step by done. replace (S i) with shard_amount by lia. rewrite rest_size_end. lia.
  - unfold rest_size. replace (shard_amount - i)%nat with 0%nat by lia. cbn. lia.
Qed.

(** What a step of one worker preserves, whatever the others hold. *)
Lemma worker_step_inv now x x' p p' I E K :
  worker_step now x p = Some (x', p') -> adding x ->
  flight_inv p (inserting x ++ I) (evicting x ++ E) (linking x ++ K) ->
  config p' = config p /\ adding x' /\ (cost x' < cost x)%nat /\
  flight_inv p' (inserting x' ++ I) (evicting x' ++ E) (linking x' ++ K).
Proof.
  destruct x as [c q]. intros Hstep [Hc Hq] Hf. unfold inserting, evicting, linking, cost in *. cbn [fst snd] in *.
  pose proof some_shard as Hsome.
  destruct c; cbn [worker_step thread_step fst snd ins_pc app] in *; try done.
  - (* AddDup *)
    repeat case_match; simplify_eq/=; split_and!; try done; try lia; by eapply flight_reject.
  - repeat case_match; simplify_eq/=; split_and!; try done; try lia; by eapply flight_reject.
  - (* AddLen *)
    injection Hstep as <- <-. unfold next_shard. destruct (Nat.ltb_spec (S shard) shard_amount);
      [|destruct (_ <=? _)%nat]; cbn [fst snd ins_pc cost_pc app]; split_and!; try done; lia.
  - destruct (last (fee_index p)) as [[k id]|] eqn:El; [destruct (_ <=? _)|]; simplify_eq/=;
      split_and!; try done; try lia; try (by eapply flight_reject).
    by apply flight_evict.
  - destruct (flight_evict_table _ _ _ _ _ Hf) as (e & He & Hf' & Hs). rewrite He in Hstep. simplify_eq/=.
    split_and!; try done; lia.
  - unfold count_step in Hstep. repeat case_match; simplify_eq/=; split_and!; try done; try lia; by apply flight_counts.
  - simplify_eq/=. split_and!; try done; [lia|by apply flight_counts].
  - simplify_eq/=. destruct (flight_add_table p now tx _ _ _ Hf) as [Hf' Hs]. split_and!; try done; lia.
  - simplify_eq/=. split_and!; try done; [lia|by apply flight_add_index].
  - simplify_eq/=. split_and!; try done; [lia|by apply flight_counts].
  - destruct q as [|c q]; [done|]. simplify_eq/=. apply Forall_cons in Hq as [[tx ->] Hq]. cbn in *.
    split_and!; try done; lia.
Qed.

(** What it does to the table and to its claim. *)
Inductive room_step (x x' : worker) (p p' : Mempool) : Prop :=
| room_kept : pool_txs p' = pool_txs p -> (claim p' x' <= claim p x)%nat -> room_step x x' p p'
| room_counting : pool_txs p' = pool_txs p -> (pool_size p < max_size (config p))%nat -> room_step x x' p p'
| room_used : pool_size p' = S (pool_size p) -> claim p x = 1%nat -> claim p' x' = 0%nat ->
    (forall i, rest_size i p <= rest_size i p')%nat -> room_step x x' p p'
| room_made : evictions x = 1%nat -> pool_size p = S (pool_size p') -> room_step x x' p p'.

Lemma worker_step_room now x x' p p' I E K :
  worker_step now x p = Some (x', p') -> adding x ->
  flight_inv p (inserting x ++ I) (evicting x ++ E) (linking x ++ K) -> room_step x x' p p'.
Proof.
  destruct x as [c q]. intros Hstep [Hc Hq] Hf. unfold inserting, evicting, linking in *. cbn [fst snd] in *.
  destruct c; cbn [worker_step thread_step fst snd ins_pc app] in *; try done.
  - repeat case_match; simplify_eq/=; by apply room_kept.
  - (* AddSender *)
    destruct (_ <=? _)%nat; simplify_eq/=; [by apply room_kept|].
    destruct (decide (pool_size p' < max_size (config p'))%nat) as [Hs|Hs]; [by apply room_counting|].
    apply room_kept; [done|]. unfold claim. cbn [fst]. by rewrite rest_size_all, (proj2 (Nat.ltb_ge _ _)) by (cbn; lia).
  - (* AddLen *)
    injection Hstep as <- <-. apply room_kept; [done|]. unfold next_shard, claim. cbn [fst].
    destruct (Nat.ltb_spec (S shard) shard_amount) as [Hlt|Hge].
    + rewrite (rest_size_step shard) by lia. by rewrite Nat.add_assoc.
    + pose proof (last_shard p shard Hge). destruct (Nat.leb_spec (max_size (config p)) (n + shard_size shard p)); [lia|].
      by rewrite (proj2 (Nat.ltb_lt _ _)) by lia.
  - repeat case_match; simplify_eq/=; by apply room_kept.
  - destruct (flight_evict_table _ _ _ _ _ Hf) as (e & He & _ & Hs). rewrite He in Hstep. simplify_eq/=.
    by apply room_made.
  - unfold count_step in Hstep. repeat case_match; simplify_eq/=; by apply room_kept.
  - simplify_eq/=. by apply room_kept.
  - simplify_eq/=. destruct (flight_add_table p now tx _ _ _ Hf) as [_ Hs].
    assert (pool_txs p !! tx_id tx = None) as Hn by (destruct Hf as [[_ Hf] _ _ _ _ _]; apply Hf; by left).
    apply room_used; [done..|]. intros i. rewrite rest_size_insert by done. lia.
  - simplify_eq/=. by apply room_kept.
  - simplify_eq/=. by apply room_kept.
  - destruct q as [|c q]; [done|]. simplify_eq/=. apply Forall_cons in Hq as [[tx ->] Hq]. by apply room_kept.
Qed.

(** The room taken and claimed, with [m] other workers. *)
Lemma room_step_bound x x' p p' ws m ev :
  room_step x x' p p' -> config p' = config p -> (length ws <= m)%nat ->
  (pool_size p + (claim p x + total (claim p) ws) <= max_size (config p) + m * (1 + ev))%nat ->
  (pool_size p' + (claim p' x' + total (claim p') ws) <= max_size (config p) + m * (1 + (evictions x + ev)))%nat.
Proof.
  intros Hs Hc Hws Hb. pose proof (total_claim p' ws) as Hg'. pose proof (claim_le p' x') as Hx'.
  destruct Hs as [Ht Hle|Ht Hlt|Hs H1 H0 Hr|He Hs].
  - rewrite (claims_kept p p' ws Hc Ht). unfold pool_size in *. rewrite Ht. lia.
  - unfold pool_size in *. rewrite Ht. lia.
  - assert (total (claim p') ws <= total (claim p) ws)%nat by (apply total_mono; intros; by apply claim_mono). lia.
  - rewrite He. lia.
Qed.

Lemma adds_inv_step cfg n ev b w w' :
  adds_inv cfg n ev w -> wstep b w w' ->
  adds_inv cfg n (b + ev) w' /\ (total cost (w_workers w') < total cost (w_workers w))%nat.
Proof.
  intros [Hcfg Hn Ha Hf Hr] Hs. destruct Hs as [now p p' l1 x x' l2 Hstep]. cbn [w_pool w_workers] in *.
  rewrite total_at in Hr.
  assert (length (l1 ++ l2) = (n - 1)%nat) as Hl by (rewrite !length_app in *; cbn in *; lia).
  apply (flight_inv_perm _ _ _ _ _ _ _ (gather_at inserting l1 x l2) (gather_at evicting l1 x l2)
    (gather_at linking l1 x l2)) in Hf.
  apply Forall_app in Ha as [Ha1 [Hax Ha2]%Forall_cons]. rewrite <- Hcfg in Hr.
  pose proof (worker_step_room now x x' p p' _ _ _ Hstep Hax Hf) as Hroom.
  destruct (worker_step_inv now x x' p p' _ _ _ Hstep Hax Hf) as (Hc & Ha & Hk & Hf').
  split; [|rewrite !total_at; lia]. split; cbn [w_pool w_workers].
  - congruence.
  - rewrite !length_app in *. cbn in *. lia.
  - apply Forall_app. split; [done|]. by constructor.
  - eapply flight_inv_perm; [symmetry; apply gather_at..|]. exact Hf'.
  - rewrite total_at, <- Hcfg. eapply room_step_bound; [exact Hroom|exact Hc|lia|exact Hr].
Qed.

Lemma adds_inv_steps cfg n ev k e w w' :
  adds_inv cfg n ev w -> wsteps k e w w' ->
  adds_inv cfg n (e + ev) w' /\ (k + total cost (w_workers w') <= total cost (w_workers w))%nat.
Proof.
  intros Hi Hs. revert ev Hi. induction Hs as [w|k b e w w1 w' H1 Hs IH]; intros ev Hi; [split; [done|lia]|].
  destruct (adds_inv_step _ _ _ _ _ _ Hi H1) as [Hi1 Hc]. destruct (IH _ Hi1) as [Hi2 Hk]. split; [|lia].
  by replace (b + e + ev)%nat with (e + (b + ev))%nat by lia.
Qed.

Lemma worker_progress x p : idle_worker x \/ exists x' p', worker_step 0 x p = Some (x', p').
Proof.
  destruct x as [c q]. destruct c;
    try (right; cbn [worker_step]; destruct (thread_step _ _ _); eauto; fail).
  destruct q as [|c q]; [left; by eexists|right; cbn; eauto].
Qed.

Lemma world_progress w : quiescent w \/ exists b w', wstep b w w'.
Proof.
  destruct w as [p ws]. unfold quiescent. cbn [w_workers].
  assert (Forall idle_worker ws \/ exists l1 x l2 x' p', ws = l1 ++ x :: l2 /\ worker_step 0 x p = Some (x', p'))
    as [|(l1 & x & l2 & x' & p' & -> & Hs)]; [|by left|right; eexists _, _; by econstructor].
  induction ws as [|x ws [IH|(l1 & y & l2 & x' & p' & -> & Hs)]]; [by left| |].
  - destruct (worker_progress x p) as [?|(x' & p' & Hs)]; [left; by constructor|].
    right. by exists [], x, ws, x', p'.
  - right. by exists (x :: l1), y, l2, x', p'.
Qed.

(** The workers before the first step: each with a queue of transactions to add. *)
Definition add_workers (txss : list (list Transaction)) : list worker :=
  (fun txs : list Transaction => (Returned RUnit, call_add <$> txs)) <$> txss.

Lemma add_workers_gather {A} (f : worker -> list A) txss :
  (forall txs, f (Returned RUnit, call_add <$> txs) = []) -> gather f (add_workers txss) = [].
Proof.
  intros Hf. unfold gather, add_workers. induction txss as [|txs txss IH]; [done|].
  cbn [fmap list_fmap concat] in *. by rewrite Hf.
Qed.

Lemma add_workers_inserting txss : gather inserting (add_workers txss) = tx_id <$> concat txss.
Proof.
  unfold gather, add_workers. induction txss as [|txs txss IH]; [done|].
  cbn [fmap list_fmap concat] in *. rewrite IH, fmap_app. f_equal. unfold inserting. cbn [fst snd ins_pc app].
  clear. induction txs as [|tx txs IH]; [done|]. cbn. by rewrite IH.
Qed.

Lemma add_workers_cost txss : total cost (add_workers txss) = ((10 + shard_amount) * length (concat txss))%nat.
Proof.
  unfold total, add_workers. induction txss as [|txs txss IH]; [done|].
  cbn [concat]. rewrite length_app. change (cost (Returned RUnit, call_add <$> txs) +
    sum_list (cost <$> ((fun txs : list Transaction => (Returned RUnit, call_add <$> txs)) <$> txss)) =
    (10 + shard_amount) * (length txs + length (concat txss)))%nat.
  rewrite IH. unfold cost. cbn [fst snd cost_pc]. rewrite length_fmap. lia.
Qed.

Lemma add_workers_claim p txss : total (claim p) (add_workers txss) = 0%nat.
Proof. unfold total, add_workers. induction txss as [|txs txss IH]; [done|]. exact IH. Qed.

Lemma add_workers_inv p txss :
  pool_inv p -> NoDup (tx_id <$> concat txss) -> (forall tx, tx ∈ concat txss -> pool_txs p !! tx_id tx = None) ->
  adds_inv (config p) (length txss) 0 (mkWorld p (add_workers txss)).
Proof.
  intros [Hs Hx He _ _ Hc _] Hnd Hnew. split; cbn [w_pool w_workers].
  - done.
  - apply length_fmap.
  - apply Forall_fmap, Forall_true. intros txs. split; [done|]. cbn. apply Forall_fmap, Forall_true. by eexists.
  - rewrite add_workers_inserting, !add_workers_gather by done. split; try done.
    + split; [done|]. intros id (tx & -> & Htx)%list_elem_of_fmap. by apply Hnew.
    + split; [constructor|]. by intros ? ?%not_elem_of_nil.
    + split; [constructor|]. by intros ? ?%not_elem_of_nil.
    + intros k id. rewrite Hx. split; [intros (e & ? & ?)|intros (e & ? & ? & _)]; exists e; [|done].
      split_and!; try done; apply not_elem_of_nil.
  - rewrite add_workers_claim. lia.
Qed.

Lemma quiescent_flight w :
  quiescent w -> gather inserting (w_workers w) = [] /\ gather evicting (w_workers w) = [] /\
    gather linking (w_workers w) = [].
Proof.
  unfold quiescent, gather. destruct w as [p ws]. cbn. induction 1 as [|x ws [r ->] Hws IH]; [done|].
  cbn. destruct IH as (-> & -> & ->). done.
Qed.

(** C18. Any number of threads adding distinct new transactions, under every schedule: a
    call takes at most ten steps and one for each shard, and the run never blocks before
    all calls returned; when they have, the fee index lists exactly the transactions of the
    table, in order, although each was entered in separate steps.  The capacity does not
    hold: the number of entries is counted shard by shard while others write.  The table
    exceeds it by at most one per other thread, and by that much again for every
    eviction of the run. *)
Theorem concurrent_adds_agree p txss k ev w :
  pool_inv p -> NoDup (tx_id <$> concat txss) -> (forall tx, tx ∈ concat txss -> pool_txs p !! tx_id tx = None) ->
  wsteps k ev (mkWorld p (add_workers txss)) w ->
  (k <= (10 + shard_amount) * length (concat txss))%nat /\
  (quiescent w \/ exists b w', wstep b w w') /\
  (quiescent w ->
   StronglySorted (fun a b : FeeKey * string => feekey_ltb a.1 b.1 = true) (fee_index (w_pool w)) /\
   (forall key id, (key, id) ∈ fee_index (w_pool w) <->
      exists e, pool_txs (w_pool w) !! id = Some e /\ key = entry_key e) /\
   (forall id e, pool_txs (w_pool w) !! id = Some e -> entry_ok id e)) /\
  (pool_size (w_pool w) <= max_size (config p) + (length txss - 1) * (1 + ev))%nat.
Proof.
  intros Hp Hnd Hnew Hs.
  destruct (adds_inv_steps _ _ _ _ _ _ _ (add_workers_inv _ _ Hp Hnd Hnew) Hs) as [[Hc Hn Ha Hf Hr] Hk].
  cbn [w_workers] in Hk. rewrite add_workers_cost in Hk. rewrite Nat.add_0_r in Hr.
  split; [lia|]. split; [apply world_progress|]. split; [|lia].
  intros Hq. destruct (quiescent_flight _ Hq) as (E1 & E2 & E3). rewrite E1, E2, E3 in Hf.
  destruct Hf as [_ Hso He _ _ Hx]. split; [done|]. split; [|done].
  intros key id. rewrite Hx. split; [intros (e & ? & ? & _)|intros (e & ? & ?)]; exists e; [done|].
  split_and!; try done; apply not_elem_of_nil.
Qed.
End Adds.

(** ** Races *)

Lemma wsteps_trans `{T : TxCodec} {Sh : Shards} k e j f w w' w'' :
  wsteps k e w w' -> wsteps j f w' w'' -> wsteps (k + j) (e + f) w w''.
Proof.
  induction 1 as [|k b e w w1 w' H1 Hs IH]; [done|]. intros Hj. cbn [Nat.add]. rewrite <- Nat.add_assoc.
  eapply wsteps_cons; [exact H1|by apply IH].
Qed.

(** Nobody else moves while a worker counts. *)
Lemma wsteps_len_from `{T : TxCodec} {Sh : Shards} p l1 tx q l2 i n : (i < shard_amount)%nat ->
  exists k, wsteps k 0 (mkWorld p (l1 ++ (AddLen tx i n, q) :: l2))
    (mkWorld p (l1 ++ (if (max_size (config p) <=? n + rest_size i p)%nat then AddEvict tx else AddTable tx, q) :: l2)).
Proof.
  intros Hi. remember (shard_amount - S i)%nat as d eqn:Hd. revert i n Hi Hd. induction d as [|d IH]; intros i n Hi Hd;
    rewrite (rest_size_step i) by done.
  - exists 1%nat. eapply (wsteps_cons 0 0 0); [|apply wsteps_refl]. apply (wstep_at 0 p p l1 (AddLen tx i n, q)). cbn [worker_step thread_step].
    unfold next_shard. rewrite (proj2 (Nat.ltb_ge _ _)) by lia. replace (S i) with shard_amount by lia.
    by rewrite rest_size_end, Nat.add_0_r.
  - destruct (IH (S i) (n + shard_size i p)%nat ltac:(lia) ltac:(lia)) as [k Hk]. exists (S k).
    eapply (wsteps_cons k 0 0); [|rewrite Nat.add_assoc; exact Hk]. apply (wstep_at 0 p p l1 (AddLen tx i n, q)). cbn [worker_step thread_step].
    unfold next_shard. by rewrite (proj2 (Nat.ltb_lt _ _)) by lia.
Qed.

Lemma wsteps_len `{T : TxCodec} {Sh : Shards} p l1 tx q l2 :
  exists k, wsteps k 0 (mkWorld p (l1 ++ (AddLen tx 0 0, q) :: l2))
    (mkWorld p (l1 ++ (if (max_size (config p) <=? pool_size p)%nat then AddEvict tx else AddTable tx, q) :: l2)).
Proof. rewrite <- rest_size_all. exact (wsteps_len_from p l1 tx q l2 0 0 some_shard). Qed.

(** One step of the first, or of the second, of two workers. *)
Ltac reduce_step := cbn [worker_step thread_step call_add call_remove set_txs set_index set_counts
  pool_txs fee_index sender_counts config transaction app].
Ltac first_moves now := eapply wsteps_cons; [eapply (wstep_at now _ _ []); reduce_step|cbn [app]].
Ltac second_moves now := eapply wsteps_cons; [eapply (wstep_at now _ _ [_]); reduce_step|cbn [app]].

Section Races.
Context {T : TxCodec} {Sh : Shards}.

Lemma index_insert_2 k k' v : k <> k' ->
  index_remove k (index_insert k v (index_insert k' v [])) = [(k', v)].
Proof.
  intros Hne. unfold index_remove. cbn [index_insert].
  destruct (feekey_ltb k k') eqn:E1; [|destruct (feekey_ltb k' k) eqn:E2].
  - rewrite filter_cons_False, filter_cons_True by (cbn; congruence). done.
  - rewrite filter_cons_True, filter_cons_False by (cbn; congruence). done.
  - by rewrite (feekey_total _ _ E1 E2) in Hne.
Qed.

(** The same transaction submitted by two threads at once: both calls succeed, each of
    the two looked before the other wrote.  It is counted twice and has two index keys
    of which its removal takes one: an empty table is left with a key that leads nowhere
    and a counter that keeps one of the sender's places taken for good. *)
Theorem duplicate_add_race cfg tx (t1 t2 : Z) :
  t1 <> t2 -> min_fee cfg <= tx_fee tx -> (0 < max_per_sender cfg)%nat -> (0 < max_size cfg)%nat ->
  exists k ev w,
    wsteps k ev (mkWorld (mempool_new cfg) [(call_add tx, []); (call_add tx, [call_remove (tx_id tx)])]) w /\
    w_workers w = [(Returned (RAdd (Ok tt)), []); (Returned (RRemove (Some tx)), [])] /\
    pool_txs (w_pool w) = ∅ /\ length (fee_index (w_pool w)) = 1%nat /\
    sender_counts (w_pool w) !! tx_sender tx = Some 1%nat.
Proof.
  intros Ht Hfee Hs Hm.
  set (p := mempool_new cfg).
  assert ((tx_fee tx <? min_fee (config p)) = false) as Hf by by apply Z.ltb_ge.
  assert ((max_per_sender (config p) <=? default 0 (sender_counts p !! tx_sender tx))%nat = false) as Hp
    by by apply Nat.leb_gt.
  assert ((max_size (config p) <=? pool_size p)%nat = false) as Hz by by apply Nat.leb_gt.
  assert (pool_contains (tx_id tx) p = false) as Hc by done.
  assert (pool_txs p = ∅ /\ sender_counts p = ∅ /\ fee_index p = []) as (Ht0 & Hs0 & Hi0) by done.
  clearbody p.
  destruct (wsteps_len p [] tx [] [(AddLen tx 0 0, [call_remove (tx_id tx)])]) as [k1 Hk1].
  destruct (wsteps_len p [(AddTable tx, [])] tx [call_remove (tx_id tx)] []) as [k2 Hk2].
  rewrite Hz in Hk1, Hk2. cbn [app] in Hk1, Hk2.
  eexists _, _, _. split.
  - first_moves 0. { rewrite Hc, Hf. reflexivity. }
    second_moves 0. { rewrite Hc, Hf. reflexivity. }
    first_moves 0. { rewrite Hp. reflexivity. }
    second_moves 0. { rewrite Hp. reflexivity. }
    eapply wsteps_trans; [exact Hk1|]. eapply wsteps_trans; [exact Hk2|].
    first_moves t1. { reflexivity. }
    second_moves t2. { reflexivity. }
    first_moves 0. { reflexivity. }
    second_moves 0. { reflexivity. }
    first_moves 0. { reflexivity. }
    second_moves 0. { reflexivity. }
    second_moves 0. { reflexivity. }
    second_moves 0. { rewrite lookup_insert_eq. reflexivity. }
    second_moves 0. { reflexivity. }
    second_moves 0. { unfold count_step. reduce_step. rewrite !lookup_insert_eq, Hs0, lookup_empty. reflexivity. }
    second_moves 0. { reflexivity. }
    apply wsteps_refl.
  - cbn [w_pool w_workers set_txs set_index set_counts pool_txs fee_index sender_counts]. split_and!.
    + done.
    + by rewrite Ht0, insert_insert_eq, delete_insert_id by done.
    + rewrite Hi0, index_insert_2; [done|]. unfold entry_key. cbn. congruence.
    + by rewrite lookup_insert_eq.
Qed.

(** Removing the last transaction of a sender while another of theirs is being added:
    the counter is read as one, raised to two by the other thread, and then deleted.
    The sender has a pending transaction that no counter knows of. *)
Theorem counter_lost_race cfg a b t :
  tx_id a <> tx_id b -> tx_sender a = tx_sender b -> min_fee cfg <= tx_fee b ->
  (1 < max_per_sender cfg)%nat -> (1 < max_size cfg)%nat ->
  let p := pool_insert (mkEntry a t (fee_per_byte a)) (mempool_new cfg) in
  exists k ev w,
    wsteps k ev (mkWorld p [(call_remove (tx_id a), []); (call_add b, [])]) w /\
    w_workers w = [(Returned (RRemove (Some a)), []); (Returned (RAdd (Ok tt)), [])] /\
    pending (tx_sender b) (pool_txs (w_pool w)) = 1%nat /\ sender_counts (w_pool w) !! tx_sender b = None.
Proof.
  intros Hne Hsend Hfee Hs Hm p.
  assert ((tx_fee b <? min_fee (config p)) = false) as Hf by by apply Z.ltb_ge.
  assert (pool_contains (tx_id b) p = false) as Hc.
  { unfold pool_contains, p, pool_insert. cbn. rewrite lookup_insert_ne by done. done. }
  assert ((max_per_sender (config p) <=? default 0 (sender_counts p !! tx_sender b))%nat = false) as Hp.
  { unfold p, pool_insert. cbn. rewrite Hsend, lookup_insert_eq. by apply Nat.leb_gt. }
  assert ((max_size (config p) <=? pool_size p)%nat = false) as Hz.
  { unfold p, pool_insert, pool_size. cbn. rewrite map_size_insert_None by done. by apply Nat.leb_gt. }
  assert (pool_txs p !! tx_id a = Some (mkEntry a t (fee_per_byte a))) as Ha by apply lookup_insert_eq.
  assert (sender_counts p !! tx_sender a = Some 1%nat) as Hca by apply lookup_insert_eq.
  assert (delete (tx_id a) (pool_txs p) = ∅) as Hd by by apply delete_insert_id.
  clearbody p. destruct (wsteps_len p [(call_remove (tx_id a), [])] b [] []) as [k1 Hk1].
  rewrite Hz in Hk1. cbn [app] in Hk1. eexists _, _, _. split.
  - second_moves 0. { rewrite Hc, Hf. reflexivity. }
    second_moves 0. { rewrite Hp. reflexivity. }
    eapply wsteps_trans; [exact Hk1|].
    first_moves 0. { rewrite Ha. reflexivity. }
    first_moves 0. { reflexivity. }
    second_moves t. { reflexivity. }
    second_moves 0. { reflexivity. }
    first_moves 0. { unfold count_step. reduce_step. rewrite Hca. reflexivity. }
    second_moves 0. { reflexivity. }
    first_moves 0. { reflexivity. }
    first_moves 0. { reflexivity. }
    apply wsteps_refl.
  - cbn [w_pool w_workers set_txs set_index set_counts pool_txs fee_index sender_counts]. split_and!.
    + done.
    + rewrite Hd, pending_insert by done. cbn. rewrite decide_True by done. done.
    + rewrite Hsend. apply lookup_delete_eq.
Qed.

(** What a key that leads nowhere does: evicting it makes room that is not there, and a
    full table grows past its capacity. *)
Theorem stale_key_breaks_capacity now tx p k id :
  last (fee_index p) = Some (k, id) -> pool_txs p !! id = None ->
  pool_txs p !! tx_id tx = None -> min_fee (config p) <= tx_fee tx ->
  (default 0 (sender_counts p !! tx_sender tx) < max_per_sender (config p))%nat ->
  pool_size p = max_size (config p) -> U64_MAX - inverted_fee k < fee_per_byte tx ->
  exists p', pool_add now tx p = (Ok tt, p') /\ pool_size p' = S (max_size (config p')).
Proof.
  intros Hl Hid Hnew Hfee Hs Hsz Hout. eexists. unfold pool_add, pool_contains.
  rewrite bool_decide_false by (rewrite Hnew; by intros [? ?]).
  rewrite (proj2 (Z.ltb_ge _ _)), (proj2 (Nat.leb_gt _ _)), (proj2 (Nat.leb_le _ _)) by (done || lia).
  unfold try_evict_lowest. rewrite Hl. rewrite (proj2 (Z.leb_gt _ _)) by lia. cbn [pool_txs]. rewrite Hid.
  split; [reflexivity|]. unfold pool_size, pool_insert in *. cbn. by rewrite map_size_insert_None, Hsz.
Qed.
End Races.

(** ** Witnesses *)

Lemma schedule_wsteps {T : TxCodec} {Sh : Shards} s w : exists k ev, wsteps k ev w (schedule s w).
Proof.
  revert w; induction s as [|[i now] s IH]; intros w; [eexists _, _; apply wsteps_refl|]. cbn [schedule].
  destruct (w_workers w !! i) as [x|] eqn:Hx; [|apply IH].
  destruct (worker_step now x (w_pool w)) as [[x' p']|] eqn:Hs; [|apply IH].
  destruct (IH (mkWorld p' (<[i := x']> (w_workers w)))) as (k & ev & Hk). eexists (S k), _.
  eapply wsteps_cons; [|exact Hk]. destruct w as [p ws]. cbn [w_workers w_pool] in *.
  rewrite <- (take_drop_middle ws i x Hx) at 1.
  rewrite insert_take_drop by by eapply lookup_lt_Some. by eapply wstep_at.
Qed.

Module ConcExamples.
Export PoolExamples.

Definition small : MempoolConfig := mkMempoolConfig 1 5 60 0.

(** Two shards; payments with these fees hash to the first. *)
#[export] Instance two_shards : Shards.
Proof.
  refine {| shard_amount := 2;
    shard_of := fun id => if bool_decide (id ∈ tx_id ∘ tx <$> [2000; 5000; 6000]) then 0%nat else 1%nat;
    sender_shard_of := fun _ => 0%nat |}; intros; [case_bool_decide|]; lia.
Defined.

(** Two threads, one transaction each, room for one: both look before either writes. *)
Definition race_start : world := mkWorld (mempool_new small) (add_workers [[tx 1000]; [tx 2000]]).
Definition both_in : list (nat * Z) :=
  flat_map (fun t => [(0%nat, t); (1%nat, t + 1)]) [1; 2; 3; 4; 5; 6; 7; 8].

Lemma start_fresh t : t ∈ concat [[tx 1000]; [tx 2000]] -> pool_txs (mempool_new small) !! tx_id t = None.
Proof. intros _. apply lookup_empty. Qed.

Lemma start_distinct : NoDup (tx_id <$> concat [[tx 1000]; [tx 2000]]).
Proof. apply (bool_decide_unpack _). vm_compute. exact I. Qed.
End ConcExamples.

Import ConcExamples.

Lemma concurrent_adds_agree_witness :
  quiescent (schedule both_in race_start) /\ pool_size (w_pool (schedule both_in race_start)) = 2%nat /\
  (forall id e, pool_txs (w_pool (schedule both_in race_start)) !! id = Some e ->
     (entry_key e, id) ∈ fee_index (w_pool (schedule both_in race_start))).
Proof.
  destruct (schedule_wsteps both_in race_start) as (k & ev & Hk).
  destruct (concurrent_adds_agree (mempool_new small) [[tx 1000]; [tx 2000]] k ev _ (mempool_new_inv small)
    start_distinct start_fresh Hk) as (_ & _ & Hq & _).
  assert (quiescent (schedule both_in race_start)) as HQ by (vm_compute; repeat constructor; by eexists).
  split; [exact HQ|]. split; [vm_compute; reflexivity|].
  intros id e He. apply (proj1 (proj2 (Hq HQ))). exact (ex_intro _ e (conj He eq_refl)).
Defined.

(** A count that misses what moves: two threads, room for one.  While the second counts the
    first shard, the transactions are in the other one; before it counts that, the first
    thread has evicted them and added new ones to the shard already counted.  Done twice,
    three transactions are in the pool, with all calls returned. *)
Definition count_start : world :=
  mkWorld (pool_insert (mkEntry (tx 1000) 0 (fee_per_byte (tx 1000))) (mempool_new small))
    (add_workers [[tx 2000; tx 4000; tx 5000; tx 6000]; [tx 3000; tx 7000]]).

Definition moves (w n : nat) : list (nat * Z) := replicate n (w, 1).

Definition missed : list (nat * Z) :=
  moves 1 4 ++ moves 0 12 ++ moves 1 4 ++ moves 0 11 ++ moves 1 4 ++ moves 0 22 ++ moves 1 20 ++ moves 0 20.

Example capacity_exceeded :
  let w := schedule missed count_start in
  quiescent w /\ pool_size (w_pool w) = 3%nat /\ max_size (config (w_pool w)) = 1%nat.
Proof.
  vm_compute. split; [|done]. repeat (apply Forall_cons; split; [by eexists|]). by apply Forall_nil.
Qed.

Lemma duplicate_add_race_witness :
  exists k ev w, wsteps k ev (mkWorld (mempool_new small)
      [(call_add (tx 1000), []); (call_add (tx 1000), [call_remove (tx_id (tx 1000))])]) w /\
    pool_txs (w_pool w) = ∅ /\ sender_counts (w_pool w) !! TxExamples.alice_address = Some 1%nat.
Proof.
  destruct (duplicate_add_race small (tx 1000) 1 2) as (k & ev & w & Hs & _ & Ht & _ & Hc);
    [lia|vm_compute; discriminate|vm_compute; lia..|].
  exists k, ev, w. split; [exact Hs|]. split; [exact Ht|exact Hc].
Defined.

Lemma counter_lost_race_witness :
  exists k ev w, wsteps k ev (mkWorld (pool_insert (mkEntry (tx 1000) 1 (fee_per_byte (tx 1000))) (mempool_new cfg))
      [(call_remove (tx_id (tx 1000)), []); (call_add (tx 2000), [])]) w /\
    pending TxExamples.alice_address (pool_txs (w_pool w)) = 1%nat /\
    sender_counts (w_pool w) !! TxExamples.alice_address = None.
Proof.
  destruct (counter_lost_race cfg (tx 1000) (tx 2000) 1) as (k & ev & w & Hs & _ & Hp & Hc);
    [vm_compute; discriminate|reflexivity|vm_compute; discriminate|vm_compute; lia..|].
  exists k, ev, w. split; [exact Hs|]. split; [exact Hp|exact Hc].
Defined.

(** The pool that [duplicate_add_race] leaves, with its one place taken. *)
Definition stale_pool : Mempool :=
  mkPool {[tx_id (tx 2000) := mkEntry (tx 2000) 5 (fee_per_byte (tx 2000))]}
    [(entry_key (mkEntry (tx 2000) 5 (fee_per_byte (tx 2000))), tx_id (tx 2000));
     (entry_key (mkEntry (tx 1000) 1 (fee_per_byte (tx 1000))), tx_id (tx 1000))]
    {[TxExamples.alice_address := 2%nat]} small.

Lemma stale_key_breaks_capacity_witness :
  exists p', pool_add 9 (tx 3000) stale_pool = (Ok tt, p') /\ pool_size p' = S (max_size (config p')).
Proof.
  apply (stale_key_breaks_capacity 9 (tx 3000) stale_pool
    (entry_key (mkEntry (tx 1000) 1 (fee_per_byte (tx 1000)))) (tx_id (tx 1000)));
    try (vm_compute; reflexivity).
  - vm_compute. discriminate.
  - vm_compute. lia.
Defined.
