(* ===== verification/Consensus.v ===== *)
(** * The consensus engine

    [protocol/src/network/consensus.rs]: the validator set, votes, and the engine
    that proposes, validates and finalizes blocks.  The main theorems are that two
    conflicting finalizations need more than a third of the validators to sign
    both blocks, that a proposed block validates, and that a quorum of honest votes
    finalizes.  The JSON encoding of a header is the class [HeaderCodec]; the wall
    clock is an argument. *)

From S2P Require Import Prelude Bytes Crypto Transaction Block.

#[local] Open Scope Z_scope.

Record ConsensusConfig := mkConsensusConfig {
  block_time_ms : Z;
  min_validators : nat;
  max_validators : nat;
  stake_requirement : Z;
  epoch_length : Z;
  max_block_transactions : nat;
  round_timeout_ms : Z
}.

Definition default_consensus_config : ConsensusConfig :=
  mkConsensusConfig 2000 4 100 1000000000 100 1000 5000.

(** ** The validator set *)

Record ValidatorInfo := mkValidator {
  v_address : string;
  stake : Z;
  active : bool;
  blocks_proposed : Z;
  blocks_voted : Z
}.

#[global] Instance ValidatorInfo_eq_dec : EqDecision ValidatorInfo.
Proof. solve_decision. Defined.

Record ValidatorSet := mkValidatorSet { validators : list ValidatorInfo }.

Definition validator_set_new : ValidatorSet := mkValidatorSet [].

(** [sort_by(|a, b| b.stake.cmp(&a.stake))]: the stable sort by descending stake. *)
Fixpoint insert_by_stake (v : ValidatorInfo) (l : list ValidatorInfo) : list ValidatorInfo :=
  match l with
  | [] => [v]
  | w :: l' => if stake w <=? stake v then v :: w :: l' else w :: insert_by_stake v l'
  end.

Definition sort_by_stake (l : list ValidatorInfo) : list ValidatorInfo :=
  fold_right insert_by_stake [] l.

Definition add_validator (address : string) (st : Z) (vs : ValidatorSet) : ValidatorSet :=
  mkValidatorSet (sort_by_stake (validators vs ++ [mkValidator address st true 0 0])).

Definition remove_validator (address : string) (vs : ValidatorSet) : ValidatorSet :=
  mkValidatorSet (filter (fun v => v_address v <> address) (validators vs)).

Definition active_validators (vs : ValidatorSet) : list ValidatorInfo :=
  filter (fun v => active v = true) (validators vs).

Definition proposer_for_round (round : Z) (vs : ValidatorSet) : option ValidatorInfo :=
  let act := active_validators vs in
  if bool_decide (act = []) then None
  else act !! Z.to_nat (round mod Z.of_nat (length act)).

Definition quorum_threshold (vs : ValidatorSet) : nat :=
  let active_count := length (active_validators vs) in
  if (active_count =? 0)%nat then 0%nat else (2 * active_count / 3 + 1)%nat.

(** [.map(|v| v.stake).sum()], which panics past [u64::MAX]. *)
Definition total_stake {E} (vs : ValidatorSet) : res E Z :=
  fold_left (fun acc v => a ← acc; expect (checked_add a (stake v))) (active_validators vs) (Ok 0).

Definition vs_contains (address : string) (vs : ValidatorSet) : bool :=
  existsb (fun v => bool_decide (v_address v = address) && active v) (validators vs).

(** ** Phases and votes *)

Inductive ConsensusRound := Propose | Prevote | Precommit | Commit.

Definition round_next (r : ConsensusRound) : option ConsensusRound :=
  match r with
  | Propose => Some Prevote
  | Prevote => Some Precommit
  | Precommit => Some Commit
  | Commit => None
  end.

Record Vote := mkVote {
  vote_validator : string;
  vote_block_hash : list Z;
  vote_signature : NovaSignature;
  vote_round : Z
}.

Record FinalizedBlock := mkFinalized {
  fb_block : Block;
  fb_votes : list Vote;
  fb_round : Z
}.

Inductive ConsensusError :=
| InsufficientValidators (have need : nat)
| UnauthorizedProposer (address : string)
| UnexpectedHeight (expected got : Z)
| InvalidParentHash
| TooManyTransactions (n : nat)
| InvalidTimestamp (t : Z)
| InsufficientVotes (have need : nat)
| InvalidVote (v : string)
| VoteFromNonValidator (v : string)
| DuplicateVote (v : string).

Class HeaderCodec := { json_header : BlockHeader -> option (list Z) }.

(** ** The engine *)

Record ConsensusEngine := mkEngine {
  ce_config : ConsensusConfig;
  validator_set : ValidatorSet;
  current_round : Z;
  current_phase : ConsensusRound;
  next_height : Z;
  last_block_hash : list Z
}.

Section Engine.
Context {C : Crypto} {HC : HeaderCodec}.

Definition vote_message (block_hash : list Z) (round : Z) : list Z := block_hash ++ le_bytes 8 round.

Definition vote_new (kp : NovaKeypair) (block_hash : list Z) (round : Z) : Vote :=
  mkVote (pk_to_hex (public_key kp)) block_hash (sign kp (vote_message block_hash round)) round.

Definition vote_verify (v : Vote) : bool :=
  match pk_from_hex (vote_validator v) with
  | Ok pk => pk_verify pk (vote_message (vote_block_hash v) (vote_round v)) (vote_signature v)
  | _ => false
  end.

Definition engine_new (cfg : ConsensusConfig) (vs : ValidatorSet) : ConsensusEngine :=
  mkEngine cfg vs 0 Propose 0 zero32.

Definition compute_transactions_root (txs : list Transaction) : list Z :=
  blake3 (concat ((fun tx => str_bytes (tx_id tx)) <$> txs)).

(** The bytes a proposer signs: the header's JSON, or nothing if it fails. *)
Definition header_bytes (h : BlockHeader) : list Z := default [] (json_header h).

Definition with_hash (h : BlockHeader) (x : list Z) : BlockHeader :=
  mkHeader (height h) x (parent_hash h) (timestamp h) (validator h) (state_root h) (tx_root h) (signature h).

Definition propose_block (now_ms : Z) (txs : list Transaction) (kp : NovaKeypair)
    (self : ConsensusEngine) : res ConsensusError Block :=
  let proposer_address := pk_to_hex (public_key kp) in
  expected ← ok_or (proposer_for_round (current_round self) (validator_set self))
    (InsufficientValidators (length (validators (validator_set self))) (min_validators (ce_config self)));
  ensure (bool_decide (v_address expected = proposer_address)) else (UnauthorizedProposer proposer_address);
  ensure (length txs <=? max_block_transactions (ce_config self))%nat else (TooManyTransactions (length txs));
  let tr := compute_transactions_root txs in
  let header := mkHeader (next_height self) zero32 (last_block_hash self) now_ms proposer_address
                  zero32 tr [] in
  let header := with_hash header (compute_hash (mkBlock header txs)) in
  let sig := sign kp (header_bytes header) in
  Ok (mkBlock (with_signature header (sig_bytes sig)) txs).

Definition validate_block (block : Block) (self : ConsensusEngine) : res ConsensusError bool :=
  let h := header block in
  ensure (height h =? next_height self) else (UnexpectedHeight (next_height self) (height h));
  ensure (bool_decide (parent_hash h = last_block_hash self)) else InvalidParentHash;
  ensure (vs_contains (validator h) (validator_set self)) else (UnauthorizedProposer (validator h));
  ensure (length (transactions block) <=? max_block_transactions (ce_config self))%nat
    else (TooManyTransactions (length (transactions block)));
  proposer_pk ← map_err_res (fun _ => UnauthorizedProposer (validator h)) (pk_from_hex (validator h));
  let bytes := header_bytes (with_signature h []) in
  ensure (bool_decide (length (signature h) = 64%nat)) else (UnauthorizedProposer (validator h));
  ensure (pk_verify proposer_pk bytes (mkSig (signature h))) else (UnauthorizedProposer (validator h));
  (* a transactions-root mismatch is only logged *)
  Ok true.

(** The vote loop of [finalize_block]. *)
Fixpoint collect_votes (vs : ValidatorSet) (block_hash : list Z) (votes : list Vote)
    (seen : gset string) (valid : list Vote) : res ConsensusError (list Vote) :=
  match votes with
  | [] => Ok valid
  | v :: votes' =>
      if negb (bool_decide (vote_block_hash v = block_hash)) then
        collect_votes vs block_hash votes' seen valid
      else
        ensure (negb (bool_decide (vote_validator v ∈ seen))) else (DuplicateVote (vote_validator v));
        ensure (vs_contains (vote_validator v) vs) else (VoteFromNonValidator (vote_validator v));
        ensure (vote_verify v) else (InvalidVote (vote_validator v));
        collect_votes vs block_hash votes' ({[vote_validator v]} ∪ seen) (valid ++ [v])
  end.

Definition finalize_block (block : Block) (votes : list Vote)
    : M ConsensusEngine ConsensusError FinalizedBlock :=
  self ← get;
  let block_hash := hash (header block) in
  let quorum := quorum_threshold (validator_set self) in
  valid_votes ← lift (collect_votes (validator_set self) block_hash votes ∅ []);
  require (quorum <=? length valid_votes)%nat else (InsufficientVotes (length valid_votes) quorum);
  _ ← modify (fun s => mkEngine (ce_config s) (validator_set s) (current_round s) (current_phase s)
                         (next_height s) block_hash);
  h ← u64_add (next_height self) 1;
  _ ← modify (fun s => mkEngine (ce_config s) (validator_set s) (current_round s) (current_phase s)
                         h (last_block_hash s));
  r ← u64_add (current_round self) 1;
  _ ← modify (fun s => mkEngine (ce_config s) (validator_set s) r Propose
                         (next_height s) (last_block_hash s));
  mret (mkFinalized block valid_votes (current_round self)).

Definition advance_round {E} : M ConsensusEngine E unit :=
  self ← get;
  r ← u64_add (current_round self) 1;
  modify (fun s => mkEngine (ce_config s) (validator_set s) r Propose (next_height s) (last_block_hash s)).

Definition advance_phase (self : ConsensusEngine) : option ConsensusRound * ConsensusEngine :=
  match round_next (current_phase self) with
  | Some next => (Some next, mkEngine (ce_config self) (validator_set self) (current_round self) next
                   (next_height self) (last_block_hash self))
  | None => (None, self)
  end.

Definition update_validator_set (vs : ValidatorSet) (self : ConsensusEngine) : ConsensusEngine :=
  mkEngine (ce_config self) vs (current_round self) (current_phase self) (next_height self)
    (last_block_hash self).

Definition set_chain_state (h : Z) (last_hash : list Z) (self : ConsensusEngine) : ConsensusEngine :=
  mkEngine (ce_config self) (validator_set self) (current_round self) (current_phase self) h last_hash.
End Engine.

(** ** The validator set: order and rotation *)

Notation by_stake := (StronglySorted (fun a b : ValidatorInfo => stake b <= stake a)).

Lemma insert_by_stake_perm v l : insert_by_stake v l ≡ₚ v :: l.
Proof.
  induction l as [|w l IH]; simpl; [done|]. case_match; [done|]. rewrite IH. by constructor.
Qed.

Lemma sort_by_stake_perm l : sort_by_stake l ≡ₚ l.
Proof. induction l as [|v l IH]; simpl; [done|]. by rewrite insert_by_stake_perm, IH. Qed.

Lemma insert_by_stake_sorted v l : by_stake l -> by_stake (insert_by_stake v l).
Proof.
  induction 1 as [|w l Hs IH Hf]; simpl; [repeat constructor|].
  destruct (Z.leb_spec (stake w) (stake v)).
  - constructor; [by constructor|]. constructor; [done|].
    eapply Forall_impl; [exact Hf|]. simpl. lia.
  - constructor; [done|]. rewrite insert_by_stake_perm. constructor; [lia|done].
Qed.

Lemma sort_by_stake_sorted l : by_stake (sort_by_stake l).
Proof. induction l; simpl; [constructor|]. by apply insert_by_stake_sorted. Qed.

Inductive vs_reachable : ValidatorSet -> Prop :=
| vs_reach_new : vs_reachable validator_set_new
| vs_reach_add a s vs : vs_reachable vs -> vs_reachable (add_validator a s vs)
| vs_reach_remove a vs : vs_reachable vs -> vs_reachable (remove_validator a vs).

Lemma sorted_filter_stake (P : ValidatorInfo -> Prop) `{!forall x, Decision (P x)} l :
  by_stake l -> by_stake (filter P l).
Proof.
  induction 1 as [|x l Hs IH Hf]; [constructor|]. rewrite filter_cons. case_decide; [|done].
  constructor; [done|]. rewrite Forall_forall in *. intros y [_ Hy]%list_elem_of_filter. auto.
Qed.

Lemma vs_reachable_sorted vs : vs_reachable vs -> by_stake (validators vs).
Proof.
  induction 1; simpl; [constructor|apply sort_by_stake_sorted|by apply sorted_filter_stake].
Qed.

Lemma rotate_perm {A} n (l : list A) : rotate n l ≡ₚ l.
Proof. unfold rotate. rewrite Permutation_app_comm. by rewrite take_drop. Qed.

Lemma proposer_window_rotate round vs :
  0 <= round -> active_validators vs <> [] ->
  (fun k => proposer_for_round (round + Z.of_nat k) vs) <$> seq 0 (length (active_validators vs)) =
  Some <$> rotate (Z.to_nat round) (active_validators vs).
Proof.
  intros Hr Hne. set (act := active_validators vs) in *. apply list_eq. intros i.
  rewrite !list_lookup_fmap. destruct (decide (i < length act)%nat) as [Hi|Hi].
  - rewrite lookup_seq_lt by done. simpl. unfold proposer_for_round. fold act.
    rewrite bool_decide_false by done. rewrite lookup_rotate_r by done.
    unfold rotate_nat_add. rewrite Z2Nat.id by done.
    assert (Z.to_nat ((round + Z.of_nat i) mod Z.of_nat (length act)) < length act)%nat as Hb.
    { pose proof (Z.mod_pos_bound (round + Z.of_nat i) (Z.of_nat (length act))). lia. }
    apply lookup_lt_is_Some in Hb as [v Hv]. by rewrite Hv.
  - rewrite lookup_seq_ge, lookup_ge_None_2 by (rewrite ?length_rotate; lia). done.
Qed.

(** Block production is fair: the set stays sorted by stake, the proposer of round
    0 has the highest stake, and in any window of as many rounds as there are active
    validators each of them proposes exactly once. *)
Theorem proposer_rotation_fair round vs :
  vs_reachable vs -> 0 <= round -> active_validators vs <> [] ->
  (fun k => proposer_for_round (round + Z.of_nat k) vs) <$> seq 0 (length (active_validators vs))
    ≡ₚ Some <$> active_validators vs /\
  exists v, proposer_for_round 0 vs = Some v /\
    forall w, w ∈ active_validators vs -> stake w <= stake v.
Proof.
  intros Hreach Hr Hne. split.
  - rewrite proposer_window_rotate by done. by rewrite rotate_perm.
  - pose proof (sorted_filter_stake (fun v => active v = true) _ (vs_reachable_sorted vs Hreach)) as Hs.
    fold (active_validators vs) in Hs. unfold proposer_for_round.
    destruct (active_validators vs) as [|v l]; [done|]. rewrite bool_decide_false by done.
    rewrite Z.mod_0_l by (simpl; lia). exists v. split; [done|].
    inversion_clear Hs as [|?? _ Hf]. intros w [->|Hw]%elem_of_cons; [lia|].
    rewrite Forall_forall in Hf. by apply Hf.
Qed.

(** ** Vote collection *)

Definition voters (votes : list Vote) : gset string := list_to_set (vote_validator <$> votes).

Definition active_addresses (vs : ValidatorSet) : gset string :=
  list_to_set (v_address <$> active_validators vs).

Lemma vs_contains_iff a vs : vs_contains a vs = true <-> a ∈ active_addresses vs.
Proof.
  unfold vs_contains, active_addresses, active_validators.
  rewrite existsb_exists, elem_of_list_to_set, list_elem_of_fmap. split.
  - intros (v & Hv & [Ha%bool_decide_eq_true Hact]%andb_true_iff).
    exists v. split; [done|]. apply list_elem_of_filter. split; [done|]. by apply list_elem_of_In.
  - intros (v & -> & [Hact Hv]%list_elem_of_filter). exists v.
    split; [by apply list_elem_of_In|]. by rewrite bool_decide_true, Hact.
Qed.

Section Votes.
Context {C : Crypto}.

(** What the loop guarantees of the votes it keeps. *)
Definition good_vote (vs : ValidatorSet) (h : list Z) (v : Vote) : Prop :=
  vote_block_hash v = h /\ vs_contains (vote_validator v) vs = true /\ vote_verify v = true.

Lemma collect_votes_sound vs h votes seen valid out :
  collect_votes vs h votes seen valid = Ok out ->
  exists new, out = valid ++ new /\ Forall (good_vote vs h) new /\ new ⊆ votes /\
    NoDup (vote_validator <$> new) /\ (forall v, v ∈ new -> vote_validator v ∉ seen).
Proof.
  revert seen valid; induction votes as [|v votes IH]; intros seen valid Hc; simpl in Hc.
  - injection Hc as <-. exists []. rewrite app_nil_r. split; [done|]. split; [done|].
    split; [done|]. split; [constructor|]. by intros v ?%not_elem_of_nil.
  - destruct (bool_decide (vote_block_hash v = h)) eqn:Eh; simpl in Hc.
    + apply bool_decide_eq_true in Eh.
      destruct (bool_decide (vote_validator v ∈ seen)) eqn:Es; simpl in Hc; [done|].
      apply bool_decide_eq_false in Es.
      destruct (vs_contains (vote_validator v) vs) eqn:Ec; [|done].
      destruct (vote_verify v) eqn:Ev; [|done].
      apply IH in Hc as (new & -> & Hf & Hsub & Hnd & Hseen). exists (v :: new).
      rewrite <- app_assoc. split; [done|]. split; [by constructor|].
      split; [set_solver|]. split.
      * simpl. constructor; [|done]. intros (w & Heq & Hw)%list_elem_of_fmap.
        apply (Hseen w Hw). set_solver.
      * intros w [->|Hw]%elem_of_cons; [done|]. specialize (Hseen w Hw). set_solver.
    + apply IH in Hc as (new & -> & Hf & Hsub & Hnd & Hseen). exists new. split_and!; try done. set_solver.
Qed.

Lemma collect_votes_complete vs h votes seen valid :
  Forall (good_vote vs h) votes -> NoDup (vote_validator <$> votes) ->
  (forall v, v ∈ votes -> vote_validator v ∉ seen) ->
  collect_votes vs h votes seen valid = Ok (valid ++ votes).
Proof.
  intros Hf. revert seen valid; induction Hf as [|v votes (Hh & Hc & Hv) Hf IH];
    intros seen valid Hnd Hseen; simpl; [by rewrite app_nil_r|].
  simpl in Hnd. apply NoDup_cons in Hnd as [Hni Hnd].
  rewrite bool_decide_true, bool_decide_false by (done || (apply Hseen; by left)).
  simpl. rewrite Hc, Hv, IH; [by rewrite <- app_assoc|done|].
  intros w Hw. rewrite elem_of_union, elem_of_singleton. intros [Heq|Hs].
  - apply Hni. rewrite <- Heq. by apply list_elem_of_fmap_2.
  - apply (Hseen w); [by right|done].
Qed.

Lemma voters_size votes : NoDup (vote_validator <$> votes) -> size (voters votes) = length votes.
Proof. intros Hnd. unfold voters. by rewrite size_list_to_set, length_fmap. Qed.

Lemma voters_active vs h votes : Forall (good_vote vs h) votes -> voters votes ⊆ active_addresses vs.
Proof.
  rewrite Forall_forall. intros Hf a. unfold voters. rewrite elem_of_list_to_set, list_elem_of_fmap.
  intros (v & -> & Hv). apply vs_contains_iff. by apply Hf.
Qed.

Lemma active_addresses_size vs : (size (active_addresses vs) <= length (active_validators vs))%nat.
Proof.
  unfold active_addresses. rewrite <- (length_fmap v_address (active_validators vs)).
  generalize (v_address <$> active_validators vs) as l. induction l as [|a l IH]; simpl; [done|].
  rewrite size_union_alt, size_singleton. pose proof (subseteq_size (list_to_set l ∖ {[a]}) (list_to_set l : gset string) ltac:(set_solver)). lia.
Qed.
End Votes.

(** ** Finality *)

Lemma size_inter_union (X Y : gset string) : (size X + size Y = size (X ∪ Y) + size (X ∩ Y))%nat.
Proof.
  rewrite size_union_alt. assert (size Y = size (Y ∖ X) + size (X ∩ Y))%nat; [|lia].
  rewrite <- size_union by set_solver. f_equal. apply set_eq. intros x.
  destruct (decide (x ∈ X)); set_solver.
Qed.

(** Two quorums of one validator set share more than a third of it. *)
Lemma quorum_overlap vs (X Y : gset string) :
  active_validators vs <> [] -> X ⊆ active_addresses vs -> Y ⊆ active_addresses vs ->
  (quorum_threshold vs <= size X)%nat -> (quorum_threshold vs <= size Y)%nat ->
  (length (active_validators vs) < 3 * size (X ∩ Y))%nat.
Proof.
  intros Hne HX HY Hx Hy. unfold quorum_threshold in *.
  set (n := length (active_validators vs)) in *.
  assert (n <> 0)%nat as Hn by (unfold n; by destruct (active_validators vs)).
  rewrite (proj2 (Nat.eqb_neq n 0) Hn) in *.
  pose proof (subseteq_size (X ∪ Y) (active_addresses vs) ltac:(set_solver)) as Hu.
  pose proof (active_addresses_size vs) as Ha. fold n in Ha.
  pose proof (size_inter_union X Y). pose proof (Nat.div_mod (2 * n) 3 ltac:(lia)).
  pose proof (Nat.mod_upper_bound (2 * n) 3 ltac:(lia)). lia.
Qed.

Section Finality.
Context {C : Crypto}.

Lemma finalize_ok block votes self fb self' :
  finalize_block block votes self = (Ok fb, self') ->
  exists valid, collect_votes (validator_set self) (hash (header block)) votes ∅ [] = Ok valid /\
    (quorum_threshold (validator_set self) <= length valid)%nat /\
    fb = mkFinalized block valid (current_round self) /\
    self' = mkEngine (ce_config self) (validator_set self) (current_round self + 1) Propose
              (next_height self + 1) (hash (header block)).
Proof.
  unfold finalize_block. intros Hf. run.
  destruct (collect_votes _ _ _ _ _) as [valid|e|] eqn:Ec; simplify_eq/=.
  destruct (Nat.leb_spec (quorum_threshold (validator_set self)) (length valid)); simplify_eq/=.
  destruct (next_height self + 1 <=? U64_MAX); simplify_eq/=.
  destruct (current_round self + 1 <=? U64_MAX); simplify_eq/=. eauto.
Qed.

(** Agreement: if two engines with the same validators finalize two blocks, more
    than a third of the validators signed votes for both. *)
Theorem finality_overlap b1 b2 votes1 votes2 e1 e2 f1 f2 e1' e2' vs :
  validator_set e1 = vs -> validator_set e2 = vs -> active_validators vs <> [] ->
  finalize_block b1 votes1 e1 = (Ok f1, e1') -> finalize_block b2 votes2 e2 = (Ok f2, e2') ->
  exists D : gset string, (length (active_validators vs) < 3 * size D)%nat /\
    forall a, a ∈ D -> vs_contains a vs = true /\
      (exists v1, v1 ∈ fb_votes f1 /\ vote_validator v1 = a /\ vote_block_hash v1 = hash (header b1) /\
         vote_verify v1 = true) /\
      (exists v2, v2 ∈ fb_votes f2 /\ vote_validator v2 = a /\ vote_block_hash v2 = hash (header b2) /\
         vote_verify v2 = true).
Proof.
  intros <- Hvs Hne (va1 & Hc1 & Hq1 & -> & _)%finalize_ok (va2 & Hc2 & Hq2 & -> & _)%finalize_ok.
  rewrite Hvs in *. set (vs := validator_set e1) in *.
  apply collect_votes_sound in Hc1 as (n1 & -> & Hg1 & _ & Hnd1 & _).
  apply collect_votes_sound in Hc2 as (n2 & -> & Hg2 & _ & Hnd2 & _).
  rewrite !app_nil_l in *. exists (voters n1 ∩ voters n2). split.
  - apply quorum_overlap; [done|by eapply voters_active..| |]; by rewrite voters_size.
  - intros a [Ha1 Ha2]%elem_of_intersection. unfold voters in Ha1, Ha2.
    apply elem_of_list_to_set, list_elem_of_fmap in Ha1 as (v1 & -> & Hv1).
    apply elem_of_list_to_set, list_elem_of_fmap in Ha2 as (v2 & Heq & Hv2).
    rewrite Forall_forall in Hg1, Hg2. destruct (Hg1 _ Hv1) as (? & ? & ?), (Hg2 _ Hv2) as (? & ? & ?).
    split; [done|]. simpl. eauto 10.
Qed.

(** A refused finalization leaves the engine as it was. *)
Theorem finalize_block_error_unchanged block votes self e self' :
  finalize_block block votes self = (Err e, self') -> self' = self.
Proof.
  unfold finalize_block. intros Hf. run.
  destruct (collect_votes _ _ _ _ _) as [valid|e'|] eqn:Ec; simplify_eq/=; [|done].
  destruct (Nat.leb_spec (quorum_threshold (validator_set self)) (length valid)); simplify_eq/=; [|done].
  destruct (next_height self + 1 <=? U64_MAX); simplify_eq/=.
  destruct (current_round self + 1 <=? U64_MAX); simplify_eq/=.
Qed.

(** With no active validator the quorum is zero: any block is final without a vote. *)
Theorem empty_set_finalizes_unsigned block self :
  active_validators (validator_set self) = [] ->
  next_height self < U64_MAX -> current_round self < U64_MAX ->
  exists self', finalize_block block [] self = (Ok (mkFinalized block [] (current_round self)), self').
Proof.
  intros Ha Hh Hr. unfold finalize_block, quorum_threshold. run. rewrite Ha. cbn.
  rewrite (proj2 (Z.leb_le _ _)) by lia. cbn. rewrite (proj2 (Z.leb_le _ _)) by lia. by eexists.
Qed.

(** A validator listed more often than it can vote: as soon as there are fewer
    distinct active addresses than the quorum, no block can be finalized. *)
Theorem duplicate_validators_block_finality block votes self :
  (size (active_addresses (validator_set self)) < quorum_threshold (validator_set self))%nat ->
  forall fb self', finalize_block block votes self <> (Ok fb, self').
Proof.
  intros Hlt fb self' (va & Hc & Hq & _)%finalize_ok.
  apply collect_votes_sound in Hc as (n & -> & Hg & _ & Hnd & _). rewrite app_nil_l in *.
  pose proof (subseteq_size _ _ (voters_active _ _ _ Hg)). rewrite voters_size in * by done. lia.
Qed.
End Finality.

Section Honest.
Context {C : Crypto} {L : CryptoLaws C} {HC : HeaderCodec}.

Lemma vote_new_verifies kp h r : vote_verify (vote_new kp h r) = true.
Proof. unfold vote_verify, vote_new. cbn. rewrite pk_hex_roundtrip. apply sign_then_verify. Qed.

Definition address (kp : NovaKeypair) : string := pk_to_hex (public_key kp).

(** C26. Liveness of finality: votes signed by a quorum of distinct active validators
    finalize the block, and the engine moves to the next height and round.  The
    round written in a vote plays no part: votes signed for any rounds count. *)
Theorem honest_quorum_finalizes block (signers : list (NovaKeypair * Z)) self :
  NoDup (address <$> signers.*1) ->
  Forall (fun kp => vs_contains (address kp) (validator_set self) = true) signers.*1 ->
  (quorum_threshold (validator_set self) <= length signers)%nat ->
  next_height self < U64_MAX -> current_round self < U64_MAX ->
  let votes := (fun s => vote_new s.1 (hash (header block)) s.2) <$> signers in
  finalize_block block votes self =
    (Ok (mkFinalized block votes (current_round self)),
     mkEngine (ce_config self) (validator_set self) (current_round self + 1) Propose
       (next_height self + 1) (hash (header block))).
Proof.
  intros Hnd Hin Hq Hh Hr votes. unfold finalize_block.
  rewrite <- list_fmap_compose in Hnd.
  assert (collect_votes (validator_set self) (hash (header block)) votes ∅ [] = Ok votes) as Hc.
  { rewrite collect_votes_complete; [done|..].
    - unfold votes. apply Forall_fmap, Forall_forall. intros s Hs.
      rewrite Forall_fmap, Forall_forall in Hin. split; [done|].
      split; [apply (Hin s Hs)|apply vote_new_verifies].
    - unfold votes. rewrite <- list_fmap_compose. exact Hnd.
    - intros v _. apply not_elem_of_empty. }
  run. rewrite Hc. unfold votes at 1. rewrite length_fmap, (proj2 (Nat.leb_le _ _)) by done. cbn.
  rewrite (proj2 (Z.leb_le _ _)) by lia. cbn. rewrite (proj2 (Z.leb_le _ _)) by lia. done.
Qed.

Lemma proposer_contains r vs v : proposer_for_round r vs = Some v -> vs_contains (v_address v) vs = true.
Proof.
  unfold proposer_for_round. case_bool_decide; [done|]. intros Hv%list_elem_of_lookup_2.
  apply vs_contains_iff. unfold active_addresses. apply elem_of_list_to_set.
  by apply list_elem_of_fmap_2.
Qed.

Lemma propose_inv now txs kp self block :
  propose_block now txs kp self = Ok block ->
  vs_contains (address kp) (validator_set self) = true /\
  (length txs <= max_block_transactions (ce_config self))%nat /\
  exists hd, signature hd = [] /\ height hd = next_height self /\ parent_hash hd = last_block_hash self /\
    validator hd = address kp /\ tx_root hd = compute_transactions_root txs /\
    block = mkBlock (with_signature hd (sig_bytes (sign kp (header_bytes hd)))) txs.
Proof.
  unfold propose_block. intros Hp.
  destruct (proposer_for_round _ _) as [v|] eqn:Ev; [|done].
  cbn [mbind res_bind ok_or] in Hp.
  destruct (bool_decide (v_address v = _)) eqn:Ea; [|done]. apply bool_decide_eq_true in Ea.
  destruct (Nat.leb_spec (length txs) (max_block_transactions (ce_config self))); [|done].
  injection Hp as <-. apply proposer_contains in Ev. rewrite Ea in Ev.
  split; [done|]. split; [done|]. eexists. split_and!; cycle -1; reflexivity.
Qed.

(** A header for the next height, signed by any active validator, passes validation:
    neither its hash nor its transactions root is compared with anything. *)
Lemma signed_header_validates hd txs kp self :
  signature hd = [] -> height hd = next_height self -> parent_hash hd = last_block_hash self -> validator hd = address kp ->
  vs_contains (address kp) (validator_set self) = true -> (length txs <= max_block_transactions (ce_config self))%nat ->
  validate_block (mkBlock (with_signature hd (sig_bytes (sign kp (header_bytes hd)))) txs) self = Ok true.
Proof.
  intros Hs Hh Hph Hv Hc Hlen. unfold validate_block, with_signature. cbn.
  rewrite Hh, Z.eqb_refl, Hph, bool_decide_true by done.
  rewrite Hv, Hc, (proj2 (Nat.leb_le _ _)) by done.
  unfold address in *. rewrite pk_hex_roundtrip. cbn [map_err_res mbind res_bind].
  rewrite bool_decide_true by apply dalek_sign_length.
  replace (mkHeader (next_height self) _ _ _ _ _ _ []) with hd
    by (destruct hd; simpl in *; congruence).
  fold (sign kp (header_bytes hd)). by rewrite sign_then_verify.
Qed.

(** A block the engine proposes passes the engine's own validation. *)
Theorem proposed_block_validates now txs kp self block :
  propose_block now txs kp self = Ok block -> validate_block block self = Ok true.
Proof.
  intros (Hc & Hlen & hd & Hs & Hh & Hph & Hv & _ & ->)%propose_inv. by apply signed_header_validates.
Qed.
End Honest.

(** ** Proposed blocks and the integrity check of [block.rs] *)

Section ProposedVerify.
Context {C : Crypto} {L : CryptoLaws C} {HC : HeaderCodec} {T : TxCodec}.

(** The root of two or more leaves is a digest of 64 bytes. *)
Lemma merkle_loop_preimage fuel hs r :
  Forall (fun h => length h = 32%nat) hs -> (2 <= length hs)%nat -> merkle_loop fuel hs = Some r ->
  exists m, length m = 64%nat /\ r = blake3 m /\ m ∈ loop_messages fuel hs.
Proof.
  revert hs; induction fuel as [|f IH]; intros hs Hl Hn Hr; destruct hs as [|a [|b hs]]; simpl in Hn; try lia;
    cbn [merkle_loop] in Hr; [done|].
  destruct hs as [|c hs].
  - cbn in Hr. destruct f; cbn in Hr; injection Hr as <-; exists (a ++ b);
      (split; [rewrite length_app; rewrite !Forall_cons in Hl; lia|split; [done|by left]]).
  - apply IH in Hr as (m & Hm & -> & Hin); [|apply merkle_level_widths|].
    { exists m. split_and!; [done..|]. cbn [loop_messages]. apply elem_of_app. by right. }
    assert (merkle_level (c :: hs) <> []) by by apply merkle_level_nonempty.
    change (merkle_level (a :: b :: c :: hs)) with (blake3_hash (a ++ b) :: merkle_level (c :: hs)).
    destruct (merkle_level (c :: hs)); [done|]. simpl. lia.
Qed.

Lemma concat_lengths (f : Transaction -> list Z) n txs :
  Forall (fun tx => length (f tx) = n) txs -> length (concat (f <$> txs)) = (n * length txs)%nat.
Proof.
  induction 1 as [|tx txs Htx _ IH]; [simpl; lia|].
  rewrite fmap_cons. cbn [concat length]. rewrite length_app, IH, Htx. lia.
Qed.

(** What the engine hashes for the transactions root. *)
Definition ids_message (txs : list Transaction) : list Z := concat ((fun tx => str_bytes (tx_id tx)) <$> txs).

(** The engine hashes the concatenated ids where [Block::verify] recomputes a
    binary Merkle root: a block proposed with any number of transactions but one
    fails the integrity check every syncing node runs, unless two of the messages hashed
    by the two collide (or the empty message has the digest zero). *)
Theorem proposed_block_fails_verify now txs kp self block :
  propose_block now txs kp self = Ok block -> length txs <> 1%nat ->
  Forall (fun tx => length (str_bytes (tx_id tx)) = 64%nat) txs ->
  block_verify block <> Ok tt \/ collision (ids_message txs :: root_messages txs) \/ blake3 [] = zero32.
Proof.
  intros (_ & _ & hd & _ & _ & _ & _ & Htr & ->)%propose_inv Hn Hids.
  destruct (block_verify _) as [[]|?|] eqn:Hv; [right|by left..].
  unfold block_verify in Hv. case_bool_decide; [|done]. case_bool_decide as Heq; [|done]. clear Hv.
  cbn [header transactions with_signature tx_root] in Heq. rewrite Htr in Heq.
  unfold compute_transactions_root, compute_merkle_root in Heq.
  destruct txs as [|t1 [|t2 txs]]; [by right|done|left].
  set (hs := tx_leaf <$> t1 :: t2 :: txs) in *.
  assert (Forall (fun h => length h = 32%nat) hs) as Hl
    by (apply Forall_fmap, Forall_forall; intros; apply blake3_length).
  destruct (merkle_loop_total (length hs) hs) as [r Hr]; [done|lia|].
  change (fmap tx_leaf _) with hs in Heq. rewrite Hr in Heq. cbn [default] in Heq.
  apply merkle_loop_preimage in Hr as (m & Hm & -> & Hin); [|done|simpl; lia].
  apply (collides_intro _ (ids_message (t1 :: t2 :: txs)) m); [by left| | |exact Heq].
  - right. unfold root_messages. apply elem_of_app. right. unfold hs in Hin. by rewrite length_fmap in Hin.
  - intros E. apply (f_equal length) in E. unfold ids_message in E.
    rewrite (concat_lengths (fun tx => str_bytes (tx_id tx)) 64), Hm in E by done. simpl in E. lia.
Qed.
End ProposedVerify.

(** ** Witnesses: four validators, three of whom vote *)

Module ConsensusExamples.
#[export] Existing Instance toy_crypto.
#[export] Instance header_codec : HeaderCodec :=
  {| json_header := fun h => Some (le_bytes 8 (height h) ++ hash h ++ signature h) |}.

Definition kp (n : Z) : NovaKeypair := mkKeypair n.

Definition vset : ValidatorSet :=
  fold_left (fun vs n => add_validator (address (kp n)) (100 * n) vs) [1; 2; 3; 4] validator_set_new.

Definition engine : ConsensusEngine := engine_new default_consensus_config vset.

Definition block_a : Block :=
  match propose_block 7 [] (kp 4) engine with Ok b => b | _ => genesis end.

Definition block_b : Block :=
  match propose_block 8 [] (kp 4) engine with Ok b => b | _ => genesis end.

Definition signers (ns : list Z) : list (NovaKeypair * Z) := (fun n => (kp n, n)) <$> ns.

Definition votes_for (b : Block) (ns : list Z) : list Vote :=
  (fun s => vote_new s.1 (hash (header b)) s.2) <$> signers ns.

Definition final (b : Block) (ns : list Z) : FinalizedBlock := mkFinalized b (votes_for b ns) 0.

Definition after (b : Block) : ConsensusEngine :=
  mkEngine default_consensus_config vset 1 Propose 1 (hash (header b)).

Lemma vset_reachable : vs_reachable vset.
Proof. repeat apply vs_reach_add. apply vs_reach_new. Qed.

Lemma finalize_a : finalize_block block_a (votes_for block_a [1; 2; 3]) engine = (Ok (final block_a [1; 2; 3]), after block_a).
Proof. vm_compute. reflexivity. Qed.

Lemma finalize_b : finalize_block block_b (votes_for block_b [2; 3; 4]) engine = (Ok (final block_b [2; 3; 4]), after block_b).
Proof. vm_compute. reflexivity. Qed.
End ConsensusExamples.

Import ConsensusExamples.

Lemma proposer_rotation_fair_witness :
  (fun k => proposer_for_round (5 + Z.of_nat k) vset) <$> seq 0 (length (active_validators vset))
    ≡ₚ Some <$> active_validators vset /\
  exists v, proposer_for_round 0 vset = Some v /\ forall w, w ∈ active_validators vset -> stake w <= stake v.
Proof.
  apply (proposer_rotation_fair 5 vset); [exact vset_reachable|lia|vm_compute; discriminate].
Defined.

Lemma finality_overlap_witness :
  exists D : gset string, (length (active_validators vset) < 3 * size D)%nat.
Proof.
  destruct (finality_overlap block_a block_b (votes_for block_a [1; 2; 3]) (votes_for block_b [2; 3; 4])
    engine engine (final block_a [1; 2; 3]) (final block_b [2; 3; 4]) (after block_a) (after block_b) vset)
    as (D & HD & _).
  - reflexivity.
  - reflexivity.
  - vm_compute. discriminate.
  - exact finalize_a.
  - exact finalize_b.
  - exists D. exact HD.
Defined.

Lemma honest_quorum_finalizes_witness :
  finalize_block block_a (votes_for block_a [1; 2; 3]) engine = (Ok (final block_a [1; 2; 3]), after block_a).
Proof.
  apply (honest_quorum_finalizes block_a (signers [1; 2; 3]) engine).
  - apply (bool_decide_eq_true_1 _). vm_compute. reflexivity.
  - apply (bool_decide_eq_true_1 _). vm_compute. reflexivity.
  - vm_compute. lia.
  - vm_compute. reflexivity.
  - vm_compute. reflexivity.
Defined.

Lemma proposed_block_validates_witness : validate_block block_a engine = Ok true.
Proof. apply (proposed_block_validates 7 [] (kp 4) engine block_a). vm_compute. reflexivity. Defined.

Lemma empty_set_finalizes_unsigned_witness :
  exists self', finalize_block block_a [] (engine_new default_consensus_config validator_set_new) =
    (Ok (mkFinalized block_a [] 0), self').
Proof.
  apply (empty_set_finalizes_unsigned block_a (engine_new default_consensus_config validator_set_new));
    reflexivity.
Defined.

Lemma duplicate_validators_block_finality_witness :
  forall fb self', finalize_block block_a [] (engine_new default_consensus_config
    (add_validator "v" 1 (add_validator "v" 1 validator_set_new))) <> (Ok fb, self').
Proof. apply duplicate_validators_block_finality. vm_compute. lia. Defined.

Lemma proposed_block_fails_verify_witness :
  @block_verify toy_crypto TxExamples.codec block_a <> Ok tt \/
  collision (ids_message [] :: root_messages (T := TxExamples.codec) []) \/ blake3 [] = zero32.
Proof.
  apply (@proposed_block_fails_verify toy_crypto toy_laws header_codec TxExamples.codec
    7 [] (kp 4) engine block_a).
  - vm_compute. reflexivity.
  - discriminate.
  - constructor.
Defined.
