(* ===== verification/Agreement.v ===== *)
(** * Agreement between validators

    Several engines of [network/consensus.rs] with one validator set, and the votes that
    circulate between them.  A node decides a block when [validate_block] accepts it and
    [finalize_block] finds a quorum among votes in circulation.  The engine keeps no record
    of the votes a validator has cast, so the rule that a validator votes once per height is
    one for its operator; faulty validators vote as they like.  Neither function compares
    the hash field of a block with its header.  With at most a third of the validators
    faulty, nodes whose decided blocks carry the hash of their header (as [Block::verify]
    would find) decide the same sequence of block hashes; the last theorem shows what one
    faulty validator does to a node that decides other blocks. *)

From S2P Require Import Prelude Bytes Crypto Transaction Block Consensus.

#[local] Open Scope Z_scope.



Section Agreement.
Context {C : Crypto} {HC : HeaderCodec}.

(** The validators that follow the rule. *)
Variable honest : gset string.

(** The hash field is the hash of the header. *)
Definition true_hash (b : Block) : Prop := hash (header b) = compute_hash b /\ in_u64 (height (header b)).





(** ** What holds throughout *)
















(** ** Agreement *)






End Agreement.

(** [Block::verify] finds out. *)
Lemma verified_true_hash {C : Crypto} {T : TxCodec} b : block_verify b = Ok tt -> in_u64 (height (header b)) -> true_hash b.
Proof. unfold block_verify. by case_bool_decide. Qed.

(** ** The hash field *)

Section Forged.
Context {C : Crypto} {L : CryptoLaws C} {HC : HeaderCodec}.

(** One active validator turns the votes for any decided block into votes for a block of
    its own: with the hash of the decided block in the hash field, its block, with whatever
    transactions, roots and time, passes validation and is finalized by the same votes; the
    engine ends in the same state. *)
Theorem votes_carry_over b ballot e f e' kp txs now sr tr :
  finalize_block b ballot e = (Ok f, e') ->
  vs_contains (address kp) (validator_set e) = true -> (length txs <= max_block_transactions (ce_config e))%nat ->
  exists b', transactions b' = txs /\ hash (header b') = hash (header b) /\ validator (header b') = address kp /\
    timestamp (header b') = now /\ state_root (header b') = sr /\ tx_root (header b') = tr /\
    validate_block b' e = Ok true /\
    finalize_block b' ballot e = (Ok (mkFinalized b' (fb_votes f) (fb_round f)), e').
Proof.
  intros Hf Hc Hlen.
  set (hd := mkHeader (next_height e) (hash (header b)) (last_block_hash e) now (address kp) sr tr []).
  exists (mkBlock (with_signature hd (sig_bytes (sign kp (header_bytes hd)))) txs).
  split_and!; try done; [by apply signed_header_validates|].
  unfold finalize_block in *. cbn [header with_signature hash hd]. run.
  destruct (collect_votes _ _ _ _ _) as [valid|x|]; simplify_eq/=.
  destruct (_ <=? length valid)%nat; simplify_eq/=.
  destruct (next_height e + 1 <=? U64_MAX); simplify_eq/=.
  destruct (current_round e + 1 <=? U64_MAX); by simplify_eq/=.
Qed.
End Forged.

(** ** Witnesses: validators 1 to 3 of 4 follow the rule *)

Module AgreementExamples.
Export ConsensusExamples.


Definition ballot_a : list Vote := votes_for block_a [1; 2; 3].







End AgreementExamples.

Import AgreementExamples.


Lemma votes_carry_over_witness :
  exists b', hash (header b') = hash (header block_a) /\ timestamp (header b') = 99 /\
    finalize_block b' ballot_a engine = (Ok (mkFinalized b' (votes_for block_a [1; 2; 3]) 0), after block_a).
Proof.
  destruct (votes_carry_over block_a ballot_a engine (final block_a [1; 2; 3]) (after block_a) (kp 4) [] 99 zero32 zero32 finalize_a)
    as (b' & _ & Hh & _ & Ht & _ & _ & _ & Hf).
  - vm_compute. reflexivity.
  - cbn. lia.
  - exists b'. split; [exact Hh|]. split; [exact Ht|exact Hf].
Defined.
