(* ===== verification/Producer.v ===== *)
(** * Block production and the consensus loop

    [protocol/src/network/producer.rs] and [protocol/src/network/consensus_loop.rs]:
    select, execute, build, sign, vote, finalize, commit.  The four structures the
    Rust code shares behind [Arc]s are the fields of one [Node], so that what a
    failed round leaves behind is visible.  [run_map] is the execution stage on the
    abstract accounts. *)

From S2P Require Import Prelude Bytes Crypto Transaction Block Sled StateTree StateTreeBits.
From S2P Require Import StateTreeSpec StateTreeProofs StateTransfer Db Mempool Consensus.
From stdpp Require Import pretty.

#[local] Open Scope Z_scope.
#[local] Opaque tree_put tree_get H compute_default_hashes apply_transfer.

Inductive BlockProductionError :=
| EmptyMempool
| NoTransactions
| ProductionState (e : StateError)
| ProductionDb (e : DbError)
| SigningError (msg : string).

Record TxResult := mkTxResult { tr_tx_id : string; tr_success : bool; tr_error : option string }.

Record ProducedBlock := mkProduced {
  pb_block : Block;
  pb_tx_results : list TxResult;
  pb_state_root : list Z
}.

Record ConsensusLoopConfig := mkLoopConfig {
  loop_block_time_ms : Z;
  max_txs_per_block : nat;
  empty_block_delay_ms : Z;
  max_rounds_without_block : Z
}.

Definition default_loop_config : ConsensusLoopConfig := mkLoopConfig 1500 1000 5000 3.

Inductive ConsensusLoopError :=
| NotValidator
| LoopProduction (e : BlockProductionError)
| LoopConsensus (e : ConsensusError)
| LoopDb (e : DbError)
| Shutdown.

(** [e.to_string()] of a state error wrapped in a production error. *)
Definition display_state_error (e : StateError) : string :=
  match e with
  | InsufficientBalance have need =>
      ("insufficient balance: have " +:+ pretty have +:+ ", need " +:+ pretty need)%string
  | AccountFrozen a => ("account is frozen: " +:+ a)%string
  | StateTree.Db m => ("database error: " +:+ m)%string
  | Serialization m => ("serialization error: " +:+ m)%string
  end.

Definition display_db_error (e : DbError) : string :=
  match e with
  | DbSled m => ("sled error: " +:+ m)%string
  | DbSerialization m => ("serialization error: " +:+ m)%string
  | DbNotFound k => ("key not found: " +:+ k)%string
  end.

Definition display_production_error (e : BlockProductionError) : string :=
  match e with
  | EmptyMempool => "mempool is empty, nothing to produce"
  | NoTransactions => "all candidate transactions failed execution"
  | ProductionState e => ("state transition error: " +:+ display_state_error e)%string
  | ProductionDb e => ("database error: " +:+ display_db_error e)%string
  | SigningError m => ("block signing error: " +:+ m)%string
  end.

(** The shared structures of a validator node. *)
Record Node (Tr : Type) := mkNode {
  nd_db : NovaDB Tr;
  nd_tree : StateTree Tr;
  nd_pool : Mempool;
  nd_engine : ConsensusEngine
}.

Arguments mkNode {Tr} _ _ _ _.
Arguments nd_db {Tr} _.
Arguments nd_tree {Tr} _.
Arguments nd_pool {Tr} _.
Arguments nd_engine {Tr} _.

Section Producer.
Context {C : Crypto} {K : AccountCodec} {SC : StorageCodec} {T : TxCodec} {Tr : Type} `{Sd : Sled Tr}.

Definition set_nd_db (d : NovaDB Tr) (n : Node Tr) : Node Tr :=
  mkNode d (nd_tree n) (nd_pool n) (nd_engine n).
Definition set_nd_tree (t : StateTree Tr) (n : Node Tr) : Node Tr :=
  mkNode (nd_db n) t (nd_pool n) (nd_engine n).
Definition set_nd_pool (p : Mempool) (n : Node Tr) : Node Tr :=
  mkNode (nd_db n) (nd_tree n) p (nd_engine n).
Definition set_nd_engine (e : ConsensusEngine) (n : Node Tr) : Node Tr :=
  mkNode (nd_db n) (nd_tree n) (nd_pool n) e.

Definition execute_transaction (tx : Transaction) : M (StateTree Tr) BlockProductionError unit :=
  match tx_type tx with
  | Transfer =>
      map_err ProductionState (apply_transfer (tx_sender tx) (tx_receiver tx) (value (tx_amount tx)))
  | CreditRequest | CreditSettlement | TokenMint | TokenBurn | ConfidentialTransfer => mret tt
  end.

(** Stage 2 of [produce_block]: failures are recorded and dropped. *)
Fixpoint execute_candidates (candidates successful : list Transaction) (results : list TxResult)
    : M (StateTree Tr) BlockProductionError (list Transaction * list TxResult) := fun tree =>
  match candidates with
  | [] => (Ok (successful, results), tree)
  | tx :: rest =>
      match execute_transaction tx tree with
      | (Ok _, tree') =>
          execute_candidates rest (successful ++ [tx]) (results ++ [mkTxResult (tx_id tx) true None]) tree'
      | (Err e, tree') =>
          execute_candidates rest successful
            (results ++ [mkTxResult (tx_id tx) false (Some (display_production_error e))]) tree'
      | (Panic, tree') => (Panic, tree')
      end
  end.

Definition produce_block (now_ms : Z) (kp : NovaKeypair) (parent : Block) (max_txs : nat)
    : M (Node Tr) BlockProductionError ProducedBlock :=
  node ← get;
  let candidates := select_transactions max_txs (nd_pool node) in
  out ← zoom nd_tree set_nd_tree (execute_candidates candidates [] []);
  node ← get;
  let sr := root (nd_tree node) in
  block ← lift (block_new now_ms parent out.1 (pk_to_hex (public_key kp)) sr);
  let sig := sign kp (hash (header block)) in
  let block := mkBlock (with_signature (header block) (sig_bytes sig)) (transactions block) in
  mret (mkProduced block out.2 sr).

Definition commit_block (block : Block) : M (Node Tr) BlockProductionError unit :=
  _ ← zoom nd_db set_nd_db (map_err ProductionDb (put_block block));
  modify (fun n => set_nd_pool (remove_batch (tx_id <$> transactions block) (nd_pool n)) n).

(** ** The loop *)

Definition is_our_turn (kp : NovaKeypair) (e : ConsensusEngine) : bool :=
  match proposer_for_round (current_round e) (validator_set e) with
  | Some p => bool_decide (v_address p = pk_to_hex (public_key kp))
  | None => false
  end.

Definition get_latest_block (d : NovaDB Tr) : res ConsensusLoopError Block :=
  h ← map_err_res LoopDb (get_latest_block_height d);
  match h with
  | Some h =>
      b ← map_err_res LoopDb (get_block h d);
      ok_or b (LoopDb (DbNotFound ("block at height " +:+ pretty h +:+
        " not found despite metadata claiming it exists")%string))
  | None => Ok genesis
  end.

Definition self_vote (kp : NovaKeypair) (block_hash : list Z) (round : Z) : Vote :=
  vote_new kp block_hash round.

Definition run_single_round (now_ms : Z) (kp : NovaKeypair) (cfg : ConsensusLoopConfig)
    : M (Node Tr) ConsensusLoopError (option FinalizedBlock) :=
  node ← get;
  if negb (is_our_turn kp (nd_engine node)) then mret None
  else
    let round := current_round (nd_engine node) in
    parent ← lift (get_latest_block (nd_db node));
    produced ← map_err LoopProduction (produce_block now_ms kp parent (max_txs_per_block cfg));
    let vote := self_vote kp (hash (header (pb_block produced))) round in
    finalized ← zoom nd_engine set_nd_engine
      (map_err LoopConsensus (finalize_block (pb_block produced) [vote]));
    _ ← map_err LoopProduction (commit_block (fb_block finalized));
    mret (Some finalized).

(** The pause after a round. *)
Definition sleep_ms (cfg : ConsensusLoopConfig) (n : Node Tr) : Z :=
  if pool_is_empty (nd_pool n) then loop_block_time_ms cfg + empty_block_delay_ms cfg
  else loop_block_time_ms cfg.

(** [run], driven by what it observes at each iteration: the shutdown flag before
    the round, the clock, and whether shutdown fires during the sleep.  It returns
    [None] while more iterations are to come. *)
Fixpoint run_loop (kp : NovaKeypair) (cfg : ConsensusLoopConfig) (ticks : list (bool * Z * bool))
    (n : Node Tr) : option (res ConsensusLoopError unit) * Node Tr :=
  match ticks with
  | [] => (None, n)
  | (shutdown, now_ms, woken) :: ticks' =>
      if (shutdown : bool) then (Some (Err Shutdown), n)
      else match run_single_round now_ms kp cfg n with
           | (Panic, n') => (Some Panic, n')
           | (_, n') => if (woken : bool) then (Some (Err Shutdown), n') else run_loop kp cfg ticks' n'
           end
  end.
End Producer.

(** ** Execution on the abstract accounts *)

Section RunMap.
Context {C : Crypto}.

Notation key := address_to_key.

Definition exec_map (tx : Transaction) (A : Accounts) : res StateError unit * Accounts :=
  match tx_type tx with
  | Transfer =>
      transfer (tx_sender tx) (key (tx_sender tx)) (key (tx_receiver tx)) (value (tx_amount tx)) A
  | _ => (Ok tt, A)
  end.

(** The transactions that execute, and the accounts after them. *)
Fixpoint run_map (txs : list Transaction) (A : Accounts) : list Transaction * Accounts :=
  match txs with
  | [] => ([], A)
  | tx :: rest =>
      match exec_map tx A with
      | (Ok _, A') => let '(done, A'') := run_map rest A' in (tx :: done, A'')
      | (_, _) => run_map rest A
      end
  end.

(** Strict replay: every transaction must succeed. *)
Fixpoint replay_map (txs : list Transaction) (A : Accounts) : res StateError Accounts :=
  match txs with
  | [] => Ok A
  | tx :: rest =>
      match exec_map tx A with
      | (Ok _, A') => replay_map rest A'
      | (Err e, _) => Err e
      | (Panic, _) => Panic
      end
  end.

(** Enough room for [n] more transactions: a 64-bit supply, nonces that can grow. *)
Record ledger_ok (n : nat) (A : Accounts) : Prop := {
  lo_accounts : accounts_ok A;
  lo_supply : supply A <= U64_MAX;
  lo_nonce : forall k, nonce (account A k) + Z.of_nat n <= U64_MAX
}.

Definition amount_ok (tx : Transaction) : Prop := 0 <= value (tx_amount tx).

Lemma exec_map_ok n tx A :
  ledger_ok (S n) A -> amount_ok tx ->
  match exec_map tx A with
  | (Ok _, A') => ledger_ok n A' /\ supply A' = supply A
  | (Err _, A') => A' = A
  | (Panic, _) => False
  end.
Proof.
  intros [HA Hs Hn] Ham. assert (ledger_ok n A) as Hok by (split; [done..|]; intros k; specialize (Hn k); lia).
  unfold exec_map. destruct (tx_type tx); try done.
  set (sk := key (tx_sender tx)). set (rk := key (tx_receiver tx)). set (v := value (tx_amount tx)).
  assert (nonce (account A sk) < U64_MAX) as Hsk by (specialize (Hn sk); lia).
  pose proof (transfer_ok_iff (tx_sender tx) sk rk v A HA Ham Hs Hsk) as Hr.
  pose proof (transfer_supply (tx_sender tx) sk rk v A HA Ham Hs) as Hsup.
  pose proof (transfer_accounts_ok (tx_sender tx) sk rk v A HA Ham) as Hacc.
  pose proof (fun e => transfer_err_unchanged (tx_sender tx) sk rk v A e) as Herr.
  pose proof (fun k => transfer_account (tx_sender tx) sk rk v A k) as Hk.
  destruct (transfer (tx_sender tx) sk rk v A) as [[[]|e|] A']; simpl in *.
  - split; [|done]. split; [done|lia|]. intros k. rewrite Hk by done. simpl.
    specialize (Hn k). case_decide; lia.
  - by apply (Herr e).
  - destruct (frozen (account A sk)); [done|]. by destruct (balance (account A sk) <? v).
Qed.

Lemma ledger_ok_weaken n m A : (m <= n)%nat -> ledger_ok n A -> ledger_ok m A.
Proof. intros Hm [? ? Hn]. split; [done..|]. intros k. specialize (Hn k). lia. Qed.

Lemma run_map_ok txs A n :
  ledger_ok (length txs + n) A -> Forall amount_ok txs ->
  ledger_ok n (run_map txs A).2 /\ supply (run_map txs A).2 = supply A.
Proof.
  intros HA Hf. revert A HA; induction Hf as [|tx txs Htx Hf IH]; intros A HA; simpl; [done|].
  pose proof (exec_map_ok _ tx A HA Htx) as He. destruct (exec_map tx A) as [[[]|e|] A']; [|subst|done].
  - destruct He as [HA' Hs]. destruct (IH A' HA') as [H1 H2].
    destruct (run_map txs A') as [d A'']. simpl in *. split; [done|lia].
  - apply IH. eapply ledger_ok_weaken; [|exact HA]. simpl. lia.
Qed.

(** Replaying just the transactions that executed succeeds and ends in the same
    accounts: the dropped ones left no trace. *)
Lemma run_map_replay txs A n :
  ledger_ok (length txs + n) A -> Forall amount_ok txs ->
  replay_map (run_map txs A).1 A = Ok (run_map txs A).2.
Proof.
  intros HA Hf. revert A HA; induction Hf as [|tx txs Htx Hf IH]; intros A HA; simpl; [done|].
  pose proof (exec_map_ok _ tx A HA Htx) as He. destruct (exec_map tx A) as [[[]|e|] A'] eqn:Ex; [|subst|done].
  - destruct He as [HA' Hs]. specialize (IH A' HA').
    destruct (run_map txs A') as [d A'']. simpl in *. by rewrite Ex.
  - apply IH. eapply ledger_ok_weaken; [|exact HA]. simpl. lia.
Qed.

(** No transaction gives an account a commitment. *)
Lemma transfer_order_free sender sk rk amount A :
  all_order_free A -> all_order_free (transfer sender sk rk amount A).2.
Proof.
  intros HA. assert (forall B k, all_order_free B -> order_free (account B k)) as Hacc.
  { intros B k HB. unfold account. destruct (B !! k) as [s|] eqn:E; [by eapply HB|by apply no_commitments]. }
  assert (forall B k (f : AccountState -> AccountState), all_order_free B ->
    balance_commitments (f (account B k)) = balance_commitments (account B k) ->
    all_order_free (<[k := f (account B k)]> B)) as Hset.
  { intros B k f HB Hf. apply all_order_free_insert; [|done]. unfold order_free. rewrite Hf. by apply Hacc. }
  unfold transfer. repeat case_match; cbn [snd]; try done; try by apply (Hset _ _ (fun s => debit s amount)).
  apply (Hset _ _ (fun s => credit s amount)); [|done]. by apply (Hset _ _ (fun s => debit s amount)).
Qed.

Lemma run_map_order_free txs A : all_order_free A -> all_order_free (run_map txs A).2.
Proof.
  revert A; induction txs as [|tx txs IH]; intros A HA; [done|]. cbn [run_map].
  assert (all_order_free (exec_map tx A).2) as Hx.
  { unfold exec_map. destruct (tx_type tx); try done. by apply transfer_order_free. }
  destruct (exec_map tx A) as [[u|e|] A']; [|by apply IH..]. specialize (IH A' Hx).
  by destruct (run_map txs A') as [d A''].
Qed.

Lemma run_map_sublist txs A : sublist (run_map txs A).1 txs.
Proof.
  revert A; induction txs as [|tx txs IH]; intros A; simpl; [constructor|].
  destruct (exec_map tx A) as [[[]|e|] A'].
  - specialize (IH A'). destruct (run_map txs A') as [d A'']. by constructor.
  - constructor. apply IH.
  - constructor. apply IH.
Qed.
End RunMap.

(** ** The execution stage simulates [run_map] *)

#[local] Arguments display_production_error : simpl never.

Section ProducerProofs.
Context {C : Crypto} {L : CryptoLaws C} {K : AccountCodec} {KL : AccountCodecLaws K}.
Context {SC : StorageCodec} {SCL : StorageCodecLaws SC} {T : TxCodec}.
Context {Tr : Type} `{Sd : Sled Tr} {SL : SledLaws Tr} {SH : SledHealthy Tr}.

Lemma execute_transaction_sim tx (s : StateTree Tr) A :
  tree_inv s A ->
  exists s', execute_transaction tx s = (map_err_res ProductionState (exec_map tx A).1, s') /\
    tree_inv s' (exec_map tx A).2 /\ (forall e, (exec_map tx A).1 = Err e -> s' = s).
Proof.
  intros Hs. unfold execute_transaction, exec_map. destruct (tx_type tx); try (by exists s).
  pose proof (apply_transfer_sim (tx_sender tx) (tx_receiver tx) (value (tx_amount tx)) s A Hs) as Hsim.
  destruct (transfer _ _ _ _ _) as [r A']. destruct Hsim as (s' & Hr & Hi & He).
  exists s'. unfold map_err. rewrite Hr. done.
Qed.

Lemma execute_candidates_sim cands succ results (s : StateTree Tr) A :
  tree_inv s A -> ledger_ok (length cands) A -> Forall amount_ok cands ->
  exists s' res', execute_candidates cands succ results s =
      (Ok (succ ++ (run_map cands A).1, results ++ res'), s') /\
    tree_inv s' (run_map cands A).2 /\
    tr_tx_id <$> res' = tx_id <$> cands.
Proof.
  intros Hs HA Hf. revert succ results s A Hs HA; induction Hf as [|tx cands Htx Hf IH];
    intros succ results s A Hs HA; simpl.
  { exists s, []. by rewrite !app_nil_r. }
  destruct (execute_transaction_sim tx s A Hs) as (s1 & Hr & Hi & He).
  pose proof (exec_map_ok _ tx A HA Htx) as Hex. rewrite Hr.
  destruct (exec_map tx A) as [[[]|e|] A'] eqn:Ex; simpl in *; [|subst|done].
  - destruct Hex as [HA' _].
    destruct (IH (succ ++ [tx]) (results ++ [mkTxResult (tx_id tx) true None]) s1 A' Hi HA')
      as (s2 & res2 & H1 & H2 & H3). destruct (run_map cands A') as [d A''].
    exists s2, (mkTxResult (tx_id tx) true None :: res2). rewrite H1, <- !app_assoc.
    split; [done|]. split; [done|]. by rewrite !fmap_cons, H3.
  - destruct (IH succ (results ++ [mkTxResult (tx_id tx) false
      (Some (display_production_error (ProductionState e)))]) s1 A Hi
      ltac:(eapply ledger_ok_weaken; [|exact HA]; lia)) as (s2 & res2 & H1 & H2 & H3).
    exists s2. eexists (_ :: res2). rewrite H1, <- app_assoc.
    split; [done|]. split; [done|]. by rewrite !fmap_cons, H3.
Qed.

Lemma select_length n p : (length (select_transactions n p) <= n)%nat.
Proof.
  unfold select_transactions. rewrite select_loop_take. simpl.
  rewrite Nat.sub_0_r, length_take. lia.
Qed.

(** What a block built by this producer looks like. *)
Record produced_ok (kp : NovaKeypair) (parent : Block) (txs : list Transaction) (sr : list Z)
    (b : Block) : Prop := {
  po_verify : block_verify b = Ok tt;
  po_height : height (header b) = height (header parent) + 1;
  po_parent : parent_hash (header b) = hash (header parent);
  po_txs : transactions b = txs;
  po_state_root : state_root (header b) = sr;
  po_validator : validator (header b) = pk_to_hex (public_key kp);
  po_signature : pk_verify (public_key kp) (hash (header b)) (mkSig (signature (header b))) = true
}.

Lemma block_new_signed {E} now_ms kp parent txs sr :
  0 <= height (header parent) < U64_MAX ->
  exists b, block_new (E := E) now_ms parent txs (pk_to_hex (public_key kp)) sr = Ok b /\
    produced_ok kp parent txs sr
      (mkBlock (with_signature (header b) (sig_bytes (sign kp (hash (header b))))) (transactions b)).
Proof.
  intros Hh. unfold block_new, expect, checked_add. rewrite (proj2 (Z.leb_le _ _)) by lia.
  cbn [mbind res_bind]. eexists. split; [reflexivity|].
  split; try done; [|apply sign_then_verify].
  unfold block_verify; simpl. rewrite !bool_decide_true by done.
  rewrite (proj2 (Z.eqb_neq _ _)) by lia. done.
Qed.

Lemma produce_block_spec now_ms kp parent n (node : Node Tr) A :
  tree_inv (nd_tree node) A -> ledger_ok n A ->
  Forall amount_ok (select_transactions n (nd_pool node)) -> 0 <= height (header parent) < U64_MAX ->
  exists tree' results b,
    produce_block now_ms kp parent n node =
      (Ok (mkProduced b results (root tree')), set_nd_tree tree' node) /\
    tree_inv tree' (run_map (select_transactions n (nd_pool node)) A).2 /\
    produced_ok kp parent (run_map (select_transactions n (nd_pool node)) A).1 (root tree') b /\
    tr_tx_id <$> results = tx_id <$> select_transactions n (nd_pool node).
Proof.
  intros Hs HA Hf Hh. set (cands := select_transactions n (nd_pool node)) in *.
  destruct (execute_candidates_sim cands [] [] (nd_tree node) A Hs) as (tree' & results & He & Hi & Hres);
    [eapply ledger_ok_weaken; [apply select_length|done]|done|].
  destruct (block_new_signed (E := BlockProductionError) now_ms kp parent
    (run_map cands A).1 (root tree') Hh) as (b & Hb & Hok).
  eexists tree', results, _. split; [|split; [exact Hi|split; [exact Hok|exact Hres]]].
  unfold produce_block, zoom, lift, get, mbind, M_bind. fold cands. rewrite He.
  cbn [fst snd app set_nd_tree nd_tree]. rewrite Hb. reflexivity.
Qed.

(** With nothing to select, a block of no transactions carries the root as it is. *)
Lemma produce_empty now_ms kp parent n (node : Node Tr) :
  select_transactions n (nd_pool node) = [] -> 0 <= height (header parent) < U64_MAX ->
  exists b, produce_block now_ms kp parent n node =
      (Ok (mkProduced b [] (root (nd_tree node))), set_nd_tree (nd_tree node) node) /\
    produced_ok kp parent [] (root (nd_tree node)) b.
Proof.
  intros Hs Hh.
  destruct (block_new_signed (E := BlockProductionError) now_ms kp parent [] (root (nd_tree node)) Hh)
    as (b & Hb & Hok).
  eexists. split; [|exact Hok].
  unfold produce_block, zoom, lift, get, mbind, M_bind. rewrite Hs.
  cbn [execute_candidates mret M_ret fst snd set_nd_tree nd_tree]. rewrite Hb. reflexivity.
Qed.

(** C4. Block production: from any mempool, the producer executes the chosen
    transactions in order, drops exactly those that fail, conserves the supply, and
    builds a signed block that extends the parent, passes the integrity check and
    commits to the accounts after execution; mempool, database and engine are
    untouched. *)
Theorem produce_block_sound now_ms kp parent n (node : Node Tr) A :
  tree_inv (nd_tree node) A -> ledger_ok n A ->
  Forall amount_ok (select_transactions n (nd_pool node)) -> 0 <= height (header parent) < U64_MAX ->
  exists tree' results b done A',
    produce_block now_ms kp parent n node =
      (Ok (mkProduced b results (root tree')), set_nd_tree tree' node) /\
    run_map (select_transactions n (nd_pool node)) A = (done, A') /\
    sublist done (select_transactions n (nd_pool node)) /\
    tree_inv tree' A' /\ supply A' = supply A /\ produced_ok kp parent done (root tree') b.
Proof.
  intros Hs HA Hf Hh.
  destruct (produce_block_spec now_ms kp parent n node A Hs HA Hf Hh) as (tree' & results & b & Hp & Hi & Hok & _).
  destruct (run_map_ok (select_transactions n (nd_pool node)) A 0) as [_ Hsup]; [|done|].
  { eapply ledger_ok_weaken; [|exact HA]. rewrite Nat.add_0_r. apply select_length. }
  pose proof (run_map_sublist (select_transactions n (nd_pool node)) A) as Hsub.
  destruct (run_map _ _) as [done A']. exists tree', results, b, done, A'. simpl in *. auto 10.
Qed.

(** ** Rounds *)

Lemma self_vote_collected kp e h r :
  is_our_turn kp e = true ->
  collect_votes (validator_set e) h [self_vote kp h r] ∅ [] = Ok [self_vote kp h r].
Proof.
  intros Ht. unfold is_our_turn in Ht. destruct (proposer_for_round _ _) as [p|] eqn:Ep; [|done].
  apply bool_decide_eq_true in Ht. apply proposer_contains in Ep. rewrite Ht in Ep.
  rewrite collect_votes_complete; [done|..].
  - constructor; [|constructor]. split; [done|]. split; [exact Ep|]. apply vote_new_verifies.
  - repeat constructor. by intros ?%not_elem_of_nil.
  - intros v _. apply not_elem_of_empty.
Qed.

Section Round.
Context (now_ms : Z) (kp : NovaKeypair) (cfg : ConsensusLoopConfig) (parent : Block).
Context (node : Node Tr) (A : Accounts) (B : gmap Z Block).
Hypothesis Hturn : is_our_turn kp (nd_engine node) = true.
Hypothesis Hparent : get_latest_block (nd_db node) = Ok parent.
Hypothesis Htree : tree_inv (nd_tree node) A.
Hypothesis HA : ledger_ok (max_txs_per_block cfg) A.
Hypothesis Ham : Forall amount_ok (select_transactions (max_txs_per_block cfg) (nd_pool node)).
Hypothesis Hh : 0 <= height (header parent) < U64_MAX.

Let cands := select_transactions (max_txs_per_block cfg) (nd_pool node).

(** A validator that cannot finalize alone: the round fails for want of votes, and
    the executed transactions stay in the state tree although the block is gone and
    the mempool still holds them, so the next round executes them again. *)
Theorem round_without_quorum_keeps_execution :
  (2 <= quorum_threshold (validator_set (nd_engine node)))%nat ->
  exists tree',
    run_single_round now_ms kp cfg node =
      (Err (LoopConsensus (InsufficientVotes 1 (quorum_threshold (validator_set (nd_engine node))))),
       set_nd_tree tree' node) /\
    tree_inv tree' (run_map cands A).2.
Proof.
  intros Hq.
  destruct (produce_block_spec now_ms kp parent (max_txs_per_block cfg) node A Htree HA Ham Hh)
    as (tree' & results & b & Hp & Hi & _).
  exists tree'. split; [|exact Hi].
  unfold run_single_round, zoom, lift, get, map_err, mbind, M_bind. rewrite Hturn. cbn [negb].
  rewrite Hparent, Hp. cbn [map_err_res pb_block nd_engine set_nd_tree].
  unfold finalize_block, lift, get, mbind, M_bind. rewrite (self_vote_collected kp _ _ _ Hturn).
  cbn [length]. rewrite (proj2 (Nat.leb_gt _ _)) by lia. cbn. by destruct node.
Qed.

(** The round of a validator that is its own quorum, once a block is produced. *)
Lemma round_completes tree' results txs sr b :
  produce_block now_ms kp parent (max_txs_per_block cfg) node =
    (Ok (mkProduced b results sr), set_nd_tree tree' node) ->
  produced_ok kp parent txs sr b ->
  quorum_threshold (validator_set (nd_engine node)) = 1%nat ->
  db_inv (nd_db node) B ->
  next_height (nd_engine node) < U64_MAX -> current_round (nd_engine node) < U64_MAX ->
  exists votes d',
    let e' := mkEngine (ce_config (nd_engine node)) (validator_set (nd_engine node))
      (current_round (nd_engine node) + 1) Propose (next_height (nd_engine node) + 1) (hash (header b)) in
    run_single_round now_ms kp cfg node =
      (Ok (Some (mkFinalized b votes (current_round (nd_engine node)))),
       mkNode d' tree' (remove_batch (tx_id <$> transactions b) (nd_pool node)) e') /\
    db_inv d' (<[height (header b) := b]> B) /\
    get_latest_block_height d' = Ok (Some (height (header b))) /\
    get_block (height (header b)) d' = Ok (Some b).
Proof.
  intros Hp Hok Hq HB Hnh Hcr.
  assert (in_u64 (height (header b))) as Hu by (rewrite (po_height _ _ _ _ _ Hok); unfold in_u64; lia).
  destruct (put_block_tip b (nd_db node) B HB Hu) as (d' & Hput & HB' & Hlat & Hgb).
  set (vote := self_vote kp (hash (header b)) (current_round (nd_engine node))).
  exists [vote], d'. cbv zeta. set (e' := mkEngine _ _ _ _ _ _).
  split; [|done].
  unfold run_single_round, zoom, lift, get, map_err, mbind, M_bind. rewrite Hturn. cbn [negb].
  rewrite Hparent, Hp. cbn [map_err_res pb_block nd_engine set_nd_tree]. fold vote.
  assert (finalize_block b [vote] (nd_engine node) =
    (Ok (mkFinalized b [vote] (current_round (nd_engine node))), e')) as Hf.
  { unfold finalize_block, u64_add, expect, checked_add, modify, lift, get, mret, M_ret, mbind, M_bind.
    unfold vote. rewrite (self_vote_collected kp _ _ _ Hturn), Hq. cbn.
    rewrite (proj2 (Z.leb_le _ _)) by lia. cbn. rewrite (proj2 (Z.leb_le _ _)) by lia. done. }
  rewrite Hf. cbn [map_err_res fb_block]. unfold commit_block, zoom, map_err, modify, mbind, M_bind.
  cbn [nd_db set_nd_engine set_nd_tree]. rewrite Hput. reflexivity.
Qed.

(** A validator that is its own quorum: the round finalizes and commits a block on
    the chain tip, whose transactions leave the mempool. *)
Theorem round_with_quorum_commits :
  quorum_threshold (validator_set (nd_engine node)) = 1%nat ->
  db_inv (nd_db node) B ->
  next_height (nd_engine node) < U64_MAX -> current_round (nd_engine node) < U64_MAX ->
  exists b votes node',
    run_single_round now_ms kp cfg node =
      (Ok (Some (mkFinalized b votes (current_round (nd_engine node)))), node') /\
    produced_ok kp parent (run_map cands A).1 (root (nd_tree node')) b /\
    tree_inv (nd_tree node') (run_map cands A).2 /\
    db_inv (nd_db node') (<[height (header b) := b]> B) /\
    get_latest_block (nd_db node') = Ok b /\
    nd_pool node' = remove_batch (tx_id <$> transactions b) (nd_pool node) /\
    (forall tx, tx ∈ transactions b -> pool_get (tx_id tx) (nd_pool node') = None).
Proof.
  intros Hq HB Hnh Hcr.
  destruct (produce_block_spec now_ms kp parent (max_txs_per_block cfg) node A Htree HA Ham Hh)
    as (tree' & results & b & Hp & Hi & Hok & _).
  destruct (round_completes _ _ _ _ _ Hp Hok Hq HB Hnh Hcr) as (votes & d' & Hr & HB' & Hlat & Hgb).
  eexists b, votes, _. split; [exact Hr|]. cbn [nd_tree nd_db nd_pool].
  split; [exact Hok|]. split; [exact Hi|]. split; [exact HB'|]. split; [|split; [done|]].
  - unfold get_latest_block. rewrite Hlat. cbn. by rewrite Hgb.
  - intros tx Htx. unfold pool_get. rewrite remove_all_lookup, decide_True; [done|].
    by apply list_elem_of_fmap_2.
Qed.
End Round.
End ProducerProofs.

(** ** Witnesses: a node with one pending payment *)

Module NodeExamples.
Export TreeExamples ConsensusExamples.
#[export] Existing Instances ToyCodec.storage_codec TxExamples.codec.

Definition pay30 : Transaction :=
  build 0 (mkBuilder 1 Transfer "alice" "bob" (mkAmount 30 NOVA) 500 1 (Some 5) None).

Definition pool1 : Mempool := (pool_add 10 pay30 (mempool_new default_mempool_config)).2.

Definition node_with (vs : ValidatorSet) : Node (gmap (list Z) (list Z)) :=
  mkNode open_temporary tree pool1 (engine_new default_consensus_config vs).

(** Alone, and with three other validators. *)
Definition solo : Node (gmap (list Z) (list Z)) :=
  node_with (add_validator (Consensus.address (kp 4)) 400 validator_set_new).
Definition quartet : Node (gmap (list Z) (list Z)) := node_with vset.

Lemma pool1_select : select_transactions (max_txs_per_block default_loop_config) pool1 = [pay30].
Proof. vm_compute. reflexivity. Qed.

Lemma pool1_amounts : Forall amount_ok (select_transactions (max_txs_per_block default_loop_config) pool1).
Proof. rewrite pool1_select. repeat constructor. unfold amount_ok. simpl. lia. Qed.

Lemma accounts_ledger : ledger_ok (max_txs_per_block default_loop_config) accounts.
Proof.
  split.
  - exact examples_accounts_ok.
  - rewrite examples_supply. unfold U64_MAX. lia.
  - intros k. unfold accounts, apply_writes, writes. cbn [fold_left fst snd].
    rewrite account_insert. unfold account. rewrite lookup_empty.
    case_decide; vm_compute; discriminate.
Qed.

Lemma genesis_height : 0 <= height (header genesis) < U64_MAX.
Proof. vm_compute. split; [discriminate|reflexivity]. Qed.
End NodeExamples.

Import NodeExamples.

Lemma produce_block_sound_witness :
  exists tree' results b done A',
    produce_block 7 (kp 4) genesis 1000 solo =
      (Ok (mkProduced b results (root tree')), set_nd_tree tree' solo) /\
    run_map (select_transactions 1000 (nd_pool solo)) accounts = (done, A') /\
    sublist done (select_transactions 1000 (nd_pool solo)) /\
    tree_inv tree' A' /\ supply A' = supply accounts /\ produced_ok (kp 4) genesis done (root tree') b.
Proof.
  apply (produce_block_sound 7 (kp 4) genesis 1000 solo accounts).
  - exact tree_ok.
  - exact accounts_ledger.
  - exact pool1_amounts.
  - exact genesis_height.
Defined.

Lemma round_without_quorum_keeps_execution_witness :
  exists tree', run_single_round 7 (kp 4) default_loop_config quartet =
      (Err (LoopConsensus (InsufficientVotes 1 3)), set_nd_tree tree' quartet) /\
    balance (read "alice" tree') = 70 /\ nd_pool (set_nd_tree tree' quartet) = pool1.
Proof.
  destruct (round_without_quorum_keeps_execution 7 (kp 4) default_loop_config genesis quartet accounts)
    as (tree' & Hr & Hi).
  - cbn [nd_engine quartet node_with]. vm_compute. reflexivity.
  - cbn [nd_db quartet node_with]. vm_compute. reflexivity.
  - exact tree_ok.
  - exact accounts_ledger.
  - exact pool1_amounts.
  - exact genesis_height.
  - cbn [nd_engine quartet node_with]. vm_compute. lia.
  - exists tree'. split; [exact Hr|]. split; [|reflexivity].
    unfold read. rewrite (tree_get_spec _ _ _ Hi). unfold quartet, node_with. cbn [nd_pool].
    rewrite pool1_select. vm_compute. reflexivity.
Defined.

Lemma round_with_quorum_commits_witness :
  exists b votes node', run_single_round 7 (kp 4) default_loop_config solo =
      (Ok (Some (mkFinalized b votes 0)), node') /\
    transactions b = [pay30] /\ get_latest_block (nd_db node') = Ok b /\
    pool_get (tx_id pay30) (nd_pool node') = None.
Proof.
  destruct (round_with_quorum_commits 7 (kp 4) default_loop_config genesis solo accounts ∅)
    as (b & votes & node' & Hr & Hok & _ & _ & Hl & _ & Hp).
  - cbn [nd_engine solo node_with]. vm_compute. reflexivity.
  - cbn [nd_db solo node_with]. vm_compute. reflexivity.
  - exact tree_ok.
  - exact accounts_ledger.
  - exact pool1_amounts.
  - exact genesis_height.
  - cbn [nd_engine solo node_with]. vm_compute. reflexivity.
  - exact DbExamples.empty_db_inv.
  - cbn [nd_engine solo node_with]. vm_compute. reflexivity.
  - cbn [nd_engine solo node_with]. vm_compute. reflexivity.
  - exists b, votes, node'.
    assert (transactions b = [pay30]) as Ht.
    { rewrite (po_txs _ _ _ _ _ Hok). unfold solo, node_with. cbn [nd_pool]. rewrite pool1_select.
      vm_compute. reflexivity. }
    split; [exact Hr|]. split; [exact Ht|]. split; [exact Hl|]. apply Hp. rewrite Ht. left.
Defined.
