(* ===== verification/Batch.v ===== *)
(** * A block of many transfers

    What a whole batch of transactions does, from the mempool
    ([protocol/src/network/mempool.rs]) through block production
    ([protocol/src/network/producer.rs]) to the accounts
    ([protocol/src/storage/state.rs]).  The order in which a block executes its
    transactions is that of their fee density; [covered] is the condition under which
    no order matters: every sender can pay everything it sends out of what it has before
    the block. *)

From Stdlib Require Import Sorting.Sorted.
From S2P Require Import Prelude Bytes Crypto Transaction Block Sled StateTree StateTreeBits StateTreeSpec StateTreeProofs.
From S2P Require Import StateTransfer Db Mempool Consensus Producer.

#[local] Open Scope Z_scope.
#[local] Opaque tree_put tree_get H compute_default_hashes.

(** ** What a batch moves *)

Section Batch.
Context {C : Crypto}.

Notation key := address_to_key.

Definition is_transfer (tx : Transaction) : bool := match tx_type tx with Transfer => true | _ => false end.

Definition sends (k : list Z) (tx : Transaction) : bool := is_transfer tx && bool_decide (key (tx_sender tx) = k).
Definition receives (k : list Z) (tx : Transaction) : bool := is_transfer tx && bool_decide (key (tx_receiver tx) = k).

Definition sent (k : list Z) (txs : list Transaction) : Z :=
  sumZ (fun tx => if sends k tx then value (tx_amount tx) else 0) txs.
Definition received (k : list Z) (txs : list Transaction) : Z :=
  sumZ (fun tx => if receives k tx then value (tx_amount tx) else 0) txs.
Definition transfers_of (k : list Z) (txs : list Transaction) : Z :=
  sumZ (fun tx => if sends k tx then 1 else 0) txs.

(** The account [a] at [k] after the batch. *)
Definition settle (k : list Z) (txs : list Transaction) (a : AccountState) : AccountState :=
  mkAccount (nonce a + transfers_of k txs) (balance a - sent k txs + received k txs)
    (balance_commitments a) (credit_lines a) (frozen a).

Definition covered (txs : list Transaction) (A : Accounts) : Prop :=
  forall tx, tx ∈ txs -> is_transfer tx = true ->
    frozen (account A (key (tx_sender tx))) = false /\
    sent (key (tx_sender tx)) txs <= balance (account A (key (tx_sender tx))).

Lemma sent_nonneg k txs : Forall amount_ok txs -> 0 <= sent k txs.
Proof.
  intros Hf. apply sumZ_nonneg. intros tx Htx. rewrite Forall_forall in Hf.
  specialize (Hf tx Htx). unfold amount_ok in Hf. destruct (sends k tx); lia.
Qed.

Lemma received_nonneg k txs : Forall amount_ok txs -> 0 <= received k txs.
Proof.
  intros Hf. apply sumZ_nonneg. intros tx Htx. rewrite Forall_forall in Hf.
  specialize (Hf tx Htx). unfold amount_ok in Hf. destruct (receives k tx); lia.
Qed.

Lemma covered_perm txs txs' A : txs ≡ₚ txs' -> covered txs A -> covered txs' A.
Proof.
  intros Hp Hc tx Htx Ht. rewrite <- Hp in Htx. destruct (Hc tx Htx Ht) as [? ?]. split; [done|].
  unfold sent in *. by rewrite <- (sumZ_perm _ _ _ Hp).
Qed.

Lemma settle_perm k txs txs' a : txs ≡ₚ txs' -> settle k txs a = settle k txs' a.
Proof.
  intros Hp. unfold settle, transfers_of, sent, received. by rewrite !(sumZ_perm _ _ _ Hp).
Qed.

Lemma settle_cons k tx txs a : settle k (tx :: txs) a = settle k txs (settle k [tx] a).
Proof.
  unfold settle, transfers_of, sent, received. cbn [sumZ nonce balance balance_commitments credit_lines frozen].
  f_equal; lia.
Qed.

Lemma settle_other k tx a : is_transfer tx = false -> settle k [tx] a = a.
Proof.
  intros Ht. unfold settle, transfers_of, sent, received, sends, receives. cbn [sumZ]. rewrite Ht. destruct a. cbn. f_equal; lia.
Qed.

Lemma settle_transfer k tx a : is_transfer tx = true ->
  settle k [tx] a = mkAccount (nonce a + (if decide (k = key (tx_sender tx)) then 1 else 0))
    (balance a - (if decide (k = key (tx_sender tx)) then value (tx_amount tx) else 0)
               + (if decide (k = key (tx_receiver tx)) then value (tx_amount tx) else 0))
    (balance_commitments a) (credit_lines a) (frozen a).
Proof.
  intros Ht. unfold settle, transfers_of, sent, received, sends, receives. cbn [sumZ]. rewrite Ht. cbn [andb].
  rewrite (bool_decide_ext (key (tx_sender tx) = k) (k = key (tx_sender tx))) by done.
  rewrite (bool_decide_ext (key (tx_receiver tx) = k) (k = key (tx_receiver tx))) by done.
  unfold bool_decide. repeat case_decide; try congruence; f_equal; lia.
Qed.

(** A successful transfer touches its two accounts and no other. *)
Lemma transfer_domain sender sk rk amount A k :
  (transfer sender sk rk amount A).1 = Ok tt ->
  is_Some ((transfer sender sk rk amount A).2 !! k) <-> is_Some (A !! k) \/ sk = k \/ rk = k.
Proof.
  unfold transfer. repeat case_match; simpl; try done. intros _. rewrite !lookup_insert_is_Some'. tauto.
Qed.

Lemma exec_covered n tx txs A :
  ledger_ok (S n) A -> Forall amount_ok (tx :: txs) -> covered (tx :: txs) A ->
  exists A', exec_map tx A = (Ok tt, A') /\ (forall k, account A' k = settle k [tx] (account A k)) /\
    (forall k, is_Some (A' !! k) <-> is_Some (A !! k) \/ sends k tx || receives k tx = true).
Proof.
  intros [HA Hs Hn] Hf Hc. apply Forall_cons in Hf as [Htx Hf]. unfold sends, receives.
  destruct (is_transfer tx) eqn:Ht; cycle 1.
  { exists A. split; [unfold exec_map; unfold is_transfer in Ht; by destruct (tx_type tx)|].
    split; [intros k; by rewrite settle_other|]. intros k. cbn. split; [by left|]. by intros [|]. }
  destruct (Hc tx ltac:(left) Ht) as [Hfz Hbal].
  set (sk := key (tx_sender tx)) in *. set (rk := key (tx_receiver tx)). set (v := value (tx_amount tx)).
  assert (v <= balance (account A sk)) as Hv.
  { unfold sent in Hbal. cbn [sumZ] in Hbal. pose proof (sent_nonneg sk txs Hf) as H0. unfold sent in H0.
    unfold sends at 1 in Hbal. rewrite Ht, bool_decide_true in Hbal by done. cbn [andb] in Hbal. fold v in Hbal. lia. }
  assert ((transfer (tx_sender tx) sk rk v A).1 = Ok tt) as Hok.
  { rewrite transfer_ok_iff by (try done; specialize (Hn sk); lia). rewrite Hfz. by rewrite (proj2 (Z.ltb_ge _ _) Hv). }
  exists (transfer (tx_sender tx) sk rk v A).2. split; [|split].
  - unfold exec_map. unfold is_transfer in Ht. destruct (tx_type tx); try done. fold sk rk v.
    by rewrite <- Hok, <- surjective_pairing.
  - intros k. by rewrite transfer_account, settle_transfer.
  - intros k. rewrite transfer_domain by done. cbn [andb]. rewrite orb_true_iff, !bool_decide_eq_true. done.
Qed.

(** A covered batch executes as a whole, and settles every account. *)
Lemma covered_run txs A :
  ledger_ok (length txs) A -> Forall amount_ok txs -> covered txs A ->
  (run_map txs A).1 = txs /\ (forall k, account (run_map txs A).2 k = settle k txs (account A k)) /\
  (forall k, is_Some ((run_map txs A).2 !! k) <->
     is_Some (A !! k) \/ existsb (fun tx => sends k tx || receives k tx) txs = true).
Proof.
  revert A; induction txs as [|tx txs IH]; intros A HA Hf Hc; cbn [run_map].
  { split; [done|]. split; [|intros k; cbn; split; [by left|by intros [|]]].
    intros k. unfold settle. cbn. destruct (account A k). cbn. f_equal; lia. }
  destruct (exec_covered (length txs) tx txs A HA Hf Hc) as (A' & He & Hset & Hdom).
  pose proof (exec_map_ok (length txs) tx A HA ltac:(by apply Forall_cons in Hf as [? _])) as Hex.
  rewrite He in *. destruct Hex as [HA' _]. pose proof Hf as [Htx Hf']%Forall_cons.
  assert (covered txs A') as Hc'.
  { intros tx' Hin Ht'. destruct (Hc tx' ltac:(by right) Ht') as [Hfz Hb]. rewrite Hset. split; [done|].
    unfold settle. cbn [balance]. unfold sent, received in Hb |- *. cbn [sumZ] in Hb |- *. unfold amount_ok in Htx.
    destruct (sends (key (tx_sender tx')) tx), (receives (key (tx_sender tx')) tx); lia. }
  destruct (IH A' HA' Hf' Hc') as (H1 & H2 & H3). destruct (run_map txs A') as [d A'']. cbn [fst snd] in *.
  split; [by rewrite H1|]. split.
  - intros k. by rewrite H2, Hset, <- settle_cons.
  - intros k. rewrite H3, Hdom. cbn [existsb]. rewrite !orb_true_iff. tauto.
Qed.

(** The accounts after a covered batch do not depend on the order it is executed in. *)
Lemma covered_run_perm txs txs' A :
  txs ≡ₚ txs' -> ledger_ok (length txs) A -> Forall amount_ok txs -> covered txs A ->
  (run_map txs' A).1 = txs' /\ (run_map txs' A).2 = (run_map txs A).2.
Proof.
  intros Hp HA Hf Hc. destruct (covered_run txs A HA Hf Hc) as (_ & H2 & H3).
  assert (ledger_ok (length txs') A) as HA' by (by rewrite <- Hp).
  assert (Forall amount_ok txs') as Hf' by (by rewrite <- Hp).
  destruct (covered_run txs' A HA' Hf' (covered_perm _ _ _ Hp Hc)) as (H1' & H2' & H3').
  split; [done|]. apply map_eq. intros k.
  assert (account (run_map txs' A).2 k = account (run_map txs A).2 k) as Hk by (by rewrite H2, H2', (settle_perm k txs txs')).
  assert (is_Some ((run_map txs' A).2 !! k) <-> is_Some ((run_map txs A).2 !! k)) as Hd.
  { rewrite H3, H3'. f_equiv. rewrite !existsb_exists. by setoid_rewrite <- list_elem_of_In; setoid_rewrite Hp. }
  unfold account in Hk.
  destruct ((run_map txs' A).2 !! k) eqn:E1, ((run_map txs A).2 !! k) eqn:E2; cbn in *; [congruence|..|done].
  - destruct (proj1 Hd) as [? ?]; [by eexists|done].
  - destruct (proj2 Hd) as [? ?]; [by eexists|done].
Qed.
End Batch.

(** ** A batch in the mempool *)

Section Pool.
Context {T : TxCodec}.

(** [add] of one transaction after the other, each at its time; [unwrap]ped. *)
Fixpoint add_all (arrivals : list (Z * Transaction)) : M Mempool MempoolError unit :=
  match arrivals with
  | [] => mret tt
  | (now, tx) :: rest => _ ← pool_add now tx; add_all rest
  end.

Definition count_from (s : string) (txs : list Transaction) : nat :=
  length (filter (fun tx => tx_sender tx = s) txs).

(** What the limits of a pool allow. *)
Record fits (cfg : MempoolConfig) (txs : list Transaction) : Prop := {
  ft_ids : NoDup (tx_id <$> txs);
  ft_size : (length txs <= max_size cfg)%nat;
  ft_senders : forall s, (count_from s txs <= max_per_sender cfg)%nat;
  ft_fees : Forall (fun tx => min_fee cfg <= tx_fee tx) txs
}.

(** The pool holds these transactions and nothing else. *)
Record pool_holds (cfg : MempoolConfig) (txs : list Transaction) (p : Mempool) : Prop := {
  ph_inv : pool_inv p;
  ph_config : config p = cfg;
  ph_size : pool_size p = length txs;
  ph_get : forall id tx, pool_get id p = Some tx <-> tx ∈ txs /\ tx_id tx = id;
  ph_pending : forall s, pending s (pool_txs p) = count_from s txs
}.

Lemma count_from_app s txs txs' : count_from s (txs ++ txs') = (count_from s txs + count_from s txs')%nat.
Proof. unfold count_from. by rewrite filter_app, length_app. Qed.

Lemma count_from_one s tx : count_from s [tx] = if decide (tx_sender tx = s) then 1%nat else 0%nat.
Proof. unfold count_from. rewrite filter_cons. by case_decide. Qed.

Lemma fits_prefix cfg txs txs' : fits cfg (txs ++ txs') -> fits cfg txs.
Proof.
  intros [Hn Hs Hp Hf]. split.
  - rewrite fmap_app in Hn. by apply NoDup_app in Hn as [? _].
  - rewrite length_app in Hs. lia.
  - intros s. specialize (Hp s). rewrite count_from_app in Hp. lia.
  - by apply Forall_app in Hf as [? _].
Qed.

Lemma pool_holds_empty p : pool_inv p -> pool_txs p = ∅ -> pool_holds (config p) [] p.
Proof.
  intros Hp He. split; try done; unfold pool_size, pool_get, pending; rewrite He.
  - by rewrite map_size_empty.
  - intros id tx. rewrite lookup_empty. split; [done|]. by intros [?%not_elem_of_nil _].
  - intros s. by rewrite map_filter_empty, map_size_empty.
Qed.

(** A transaction that fits is added, and only it. *)
Lemma pool_add_fits cfg now tx txs p :
  pool_holds cfg txs p -> fits cfg (txs ++ [tx]) ->
  exists p', pool_add now tx p = (Ok tt, p') /\ pool_holds cfg (txs ++ [tx]) p'.
Proof.
  intros [Hp Hc Hs Hg Hd] [Fn Fs Fp Ff]. pose proof (pool_add_spec now tx p Hp) as Hspec.
  assert (pool_txs p !! tx_id tx = None) as Hnew.
  { destruct (pool_txs p !! tx_id tx) as [e|] eqn:He; [|done]. exfalso.
    assert (pool_get (tx_id tx) p = Some (transaction e)) as [Hin Hid]%Hg by (unfold pool_get; by rewrite He).
    rewrite fmap_app in Fn. apply NoDup_app in Fn as (_ & Hdis & _).
    apply (Hdis (tx_id tx)); [|by left]. apply list_elem_of_fmap. by exists (transaction e). }
  rewrite length_app in Fs. cbn [length] in Fs. specialize (Fp (tx_sender tx)) as Fpt.
  rewrite count_from_app, count_from_one, decide_True in Fpt by done.
  apply Forall_app in Ff as [_ Ff]. apply Forall_inv in Ff.
  unfold pool_add in *. rewrite (proj2 (pool_contains_false _ _) Hnew) in *. rewrite Hc in *.
  rewrite (proj2 (Z.ltb_ge _ _) Ff) in *. rewrite (pi_counts p Hp), Hd in *.
  rewrite (proj2 (Nat.leb_gt _ _)) in * by lia. rewrite Hs in *. rewrite (proj2 (Nat.leb_gt _ _)) in * by lia.
  eexists. split; [reflexivity|]. set (e := mkEntry tx now (fee_per_byte tx)) in *.
  assert (pool_inv (pool_insert e p)) as Hi by (destruct Hspec as [[? _]|[? _]]; done). split; try done.
  - unfold pool_size in *. cbn. rewrite map_size_insert_None, Hs, length_app by done. cbn. lia.
  - intros id tx'. rewrite pool_insert_get. cbn [transaction e]. rewrite elem_of_app, list_elem_of_singleton.
    case_decide as Hid; [|rewrite Hg; naive_solver].
    split; [intros [= ->]; by split; [right|]|]. intros [[Hin| ->] Hid']; [|done]. exfalso.
    assert (pool_get id p = Some tx') as Hx by (apply Hg; by split).
    unfold pool_get in Hx. by rewrite <- Hid, Hnew in Hx.
  - intros s. cbn. rewrite pending_insert by done. rewrite Hd, count_from_app, count_from_one. cbn. by case_decide.
Qed.

Lemma add_all_holds cfg arrivals txs p :
  pool_holds cfg txs p -> fits cfg (txs ++ arrivals.*2) ->
  exists p', add_all arrivals p = (Ok tt, p') /\ pool_holds cfg (txs ++ arrivals.*2) p'.
Proof.
  revert txs p; induction arrivals as [|[now tx] rest IH]; intros txs p Hp Hf; cbn [add_all fmap list_fmap snd] in *.
  { exists p. by rewrite app_nil_r. }
  rewrite (app_assoc txs [tx] (rest.*2) : txs ++ tx :: rest.*2 = _) in *.
  destruct (pool_add_fits cfg now tx txs p Hp (fits_prefix _ _ _ Hf)) as (p1 & Hadd & H1).
  destruct (IH _ p1 H1 Hf) as (p2 & H2 & Hh). exists p2. split; [|done].
  unfold mbind, M_bind. by rewrite Hadd.
Qed.

(** All of it is selected, from highest to lowest fee density. *)
Lemma select_all cfg txs p n :
  pool_holds cfg txs p -> fits cfg txs -> (length txs <= n)%nat ->
  select_transactions n p ≡ₚ txs /\
  StronglySorted (fun a b => fee_per_byte b <= fee_per_byte a) (select_transactions n p).
Proof.
  intros [Hp Hc Hs Hg _] [Fn _ _ _] Hn. unfold select_transactions. rewrite select_loop_take. cbn [app length].
  fold (ranked p). rewrite Nat.sub_0_r. pose proof (ranked_sorted p Hp) as Hrs.
  rewrite take_ge by (rewrite ranked_length, Hs; done). split.
  - apply NoDup_Permutation; [eapply NoDup_fmap_1, outranks_NoDup, Hrs|by eapply NoDup_fmap_1|].
    intros tx. rewrite (ranked_elem p tx Hp), Hg. tauto.
  - eapply StronglySorted_weaken; [|exact Hrs]. by intros a b [? _].
Qed.
End Pool.

(** ** A batch in a block *)

Section Blocks.
Context {C : Crypto} {L : CryptoLaws C} {K : AccountCodec} {KL : AccountCodecLaws K}.
Context {SC : StorageCodec} {SCL : StorageCodecLaws SC} {T : TxCodec}.
Context {Tr : Type} `{Sd : Sled Tr} {SL : SledLaws Tr} {SH : SledHealthy Tr}.

(** The results report one success for each transaction kept. *)
Lemma execute_candidates_results cands succ results (s s' : StateTree Tr) succ' results' :
  execute_candidates cands succ results s = (Ok (succ', results'), s') ->
  exists d r, succ' = succ ++ d /\ results' = results ++ r /\ length r = length cands /\
    length d = length (filter (fun x => Is_true (tr_success x)) r).
Proof.
  revert succ results s; induction cands as [|tx cands IH]; intros succ results s; cbn [execute_candidates].
  { intros [= <- <- <-]. exists [], []. by rewrite !app_nil_r. }
  destruct (execute_transaction tx s) as [[[]|e|] s1]; [| |done]; intros Hrun.
  - destruct (IH _ _ _ Hrun) as (d & r & -> & -> & Hl & Hc).
    exists (tx :: d), (mkTxResult (tx_id tx) true None :: r). rewrite <- !app_assoc. split_and!; [done..|cbn; lia|].
    rewrite filter_cons_True by done. cbn [length]. lia.
  - destruct (IH _ _ _ Hrun) as (d & r & -> & -> & Hl & Hc).
    eexists d, (_ :: r). rewrite <- app_assoc. split_and!; [done..|cbn; lia|].
    by rewrite filter_cons_False by (by intros []).
Qed.

(** When every candidate is kept, every result is a success. *)
Lemma all_succeed cands (s s' : StateTree Tr) results :
  execute_candidates cands [] [] s = (Ok (cands, results), s') -> Forall (fun r => tr_success r = true) results.
Proof.
  intros (d & r & -> & -> & Hl & Hc)%execute_candidates_results. cbn [app] in *. clear s s'.
  rewrite <- Hl in Hc. clear Hl. induction r as [|x r IH]; [constructor|]. rewrite filter_cons in Hc.
  pose proof (length_filter (fun x => Is_true (tr_success x)) r) as Hle.
  case_decide as Hx; cbn [length] in Hc; [|lia]. constructor; [by destruct (tr_success x)|]. apply IH. lia.
Qed.

Lemma produce_block_covered now_ms kp parent n (node : Node Tr) A :
  let sel := select_transactions n (nd_pool node) in
  tree_inv (nd_tree node) A -> ledger_ok (length sel) A -> Forall amount_ok sel -> covered sel A ->
  0 <= height (header parent) < U64_MAX ->
  exists tree' results b,
    produce_block now_ms kp parent n node = (Ok (mkProduced b results (root tree')), set_nd_tree tree' node) /\
    tree_inv tree' (run_map sel A).2 /\ produced_ok kp parent sel (root tree') b /\
    Forall (fun r => tr_success r = true) results.
Proof.
  intros sel Hs HA Hf Hc Hh. destruct (covered_run sel A HA Hf Hc) as (Hall & _).
  destruct (execute_candidates_sim sel [] [] (nd_tree node) A Hs HA Hf) as (tree' & results & He & Hi & _).
  cbn [app] in He. rewrite Hall in He.
  destruct (block_new_signed (E := BlockProductionError) now_ms kp parent sel (root tree') Hh) as (b & Hb & Hok).
  eexists tree', results, _. split; [|split; [exact Hi|split; [exact Hok|by eapply all_succeed]]].
  unfold produce_block, zoom, lift, get, mbind, M_bind. fold sel. rewrite He.
  cbn [fst snd app set_nd_tree nd_tree]. rewrite Hb. reflexivity.
Qed.

(** C10. Any batch of distinct transactions that fits an empty mempool, whose senders can pay
    all they send and are not frozen, is added, selected, executed and stored as a whole:
    one block carries exactly these transactions, from the highest to the lowest fee
    density, every result is a success, every account is settled by what the batch sends
    and receives, and the mempool is empty again.  The state root is that of the same
    transactions executed in any other order, by a node that may iterate maps in another
    order, while no account has more than one commitment. *)
Theorem batch_reaches_block o arrivals now_ms kp parent n (node : Node Tr) A B :
  let txs := arrivals.*2 in
  tree_inv (nd_tree node) A -> ledger_ok (length txs) A -> db_inv (nd_db node) B ->
  pool_inv (nd_pool node) -> pool_txs (nd_pool node) = ∅ -> fits (config (nd_pool node)) txs ->
  Forall amount_ok txs -> covered txs A -> (length txs <= n)%nat -> 0 <= height (header parent) < U64_MAX ->
  an_order o -> all_order_free A ->
  exists pool produced node1 node2,
    add_all arrivals (nd_pool node) = (Ok tt, pool) /\
    produce_block now_ms kp parent n (set_nd_pool pool node) = (Ok produced, node1) /\
    commit_block (pb_block produced) node1 = (Ok tt, node2) /\
    transactions (pb_block produced) ≡ₚ txs /\
    StronglySorted (fun a b => fee_per_byte b <= fee_per_byte a) (transactions (pb_block produced)) /\
    Forall (fun r => tr_success r = true) (pb_tx_results produced) /\
    produced_ok kp parent (transactions (pb_block produced)) (root (nd_tree node2)) (pb_block produced) /\
    (forall address, read address (nd_tree node2) =
       settle (address_to_key address) txs (read address (nd_tree node))) /\
    (forall order (s : StateTree Tr), order ≡ₚ txs -> tree_inv (K := with_order o K) s (run_map order A).2 ->
       root s = root (nd_tree node2)) /\
    get_block (height (header parent) + 1) (nd_db node2) = Ok (Some (pb_block produced)) /\
    pool_txs (nd_pool node2) = ∅.
Proof.
  intros txs Ht HA HB Hp He Hfit Hf Hc Hn Hh Ho Hfree.
  destruct (add_all_holds (config (nd_pool node)) arrivals [] (nd_pool node)) as (pool & Hadd & Hpool);
    [by apply pool_holds_empty|done|]. cbn [app] in Hpool. fold txs in Hpool.
  destruct (select_all _ txs pool n Hpool Hfit Hn) as [Hperm Hsort].
  set (sel := select_transactions n pool) in *. symmetry in Hperm.
  destruct (produce_block_covered now_ms kp parent n (set_nd_pool pool node) A)
    as (tree' & results & b & Hprod & Hi & Hok & Hres); cbn [set_nd_pool nd_pool nd_tree]; fold sel; try done.
  { by rewrite <- Hperm. } { by rewrite <- Hperm. } { by eapply covered_perm. }
  cbn [set_nd_pool nd_pool] in *. fold sel in Hi, Hok.
  assert (in_u64 (height (header b))) as Hu by (rewrite (po_height _ _ _ _ _ Hok); unfold in_u64; lia).
  destruct (put_block_tip b (nd_db node) B HB Hu) as (d' & Hput & _ & _ & Hget).
  destruct (covered_run txs A HA Hf Hc) as (_ & Hset & _).
  destruct (covered_run_perm txs sel A Hperm HA Hf Hc) as [_ Hmap]. rewrite Hmap in Hi.
  pose proof (po_txs _ _ _ _ _ Hok) as Htxs.
  eexists pool, (mkProduced b results (root tree')), _, _. split; [exact Hadd|]. split; [exact Hprod|].
  split; [unfold commit_block, zoom, map_err, modify, mbind, M_bind; cbn; rewrite Hput; reflexivity|].
  cbn. rewrite Htxs. split_and!; try done.
  - intros address. unfold read. rewrite (tree_get_spec _ _ _ Hi), (tree_get_spec _ _ _ Ht). apply Hset.
  - intros order s Hp2 Hsi. destruct (covered_run_perm txs order A ltac:(by symmetry) HA Hf Hc) as [_ Hm].
    rewrite Hm in Hsi. unfold root. rewrite (inv_root _ _ Hsi), (inv_root _ _ Hi).
    apply H_order; [done|by apply run_map_order_free].
  - by rewrite <- (po_height _ _ _ _ _ Hok).
  - apply map_empty. intros id. rewrite remove_all_lookup. case_decide as Hid; [done|].
    destruct (pool_txs pool !! id) as [e|] eqn:Hl; [|done]. exfalso. apply Hid.
    assert (pool_get id pool = Some (transaction e)) as [Hin <-]%(ph_get _ _ _ Hpool) by (unfold pool_get; by rewrite Hl).
    apply list_elem_of_fmap. exists (transaction e). split; [done|]. by rewrite <- Hperm.
Qed.
End Blocks.

(** ** Witness: two payments of one sender in one block *)

Module BatchExamples.
Export NodeExamples.

Definition pay20 : Transaction :=
  build 0 (mkBuilder 1 Transfer "alice" "carol" (mkAmount 20 NOVA) 900 2 (Some 6) None).

Definition arrivals : list (Z * Transaction) := [(10, pay30); (11, pay20)].

Definition idle : Node (gmap (list Z) (list Z)) :=
  mkNode open_temporary tree (mempool_new default_mempool_config) (nd_engine solo).

Lemma arrivals_fit : fits default_mempool_config (arrivals.*2).
Proof.
  split.
  - apply (bool_decide_unpack _). vm_compute. exact I.
  - cbn. lia.
  - intros s. unfold count_from. cbn [arrivals fmap list_fmap snd]. rewrite !filter_cons, filter_nil.
    repeat case_decide; cbn [length]; vm_compute; lia.
  - repeat constructor; vm_compute; discriminate.
Qed.

Lemma arrivals_covered : covered (arrivals.*2) accounts.
Proof.
  intros tx Hin _. cbn [arrivals fmap list_fmap snd] in Hin. rewrite !elem_of_cons in Hin.
  destruct Hin as [->|[->|Hin]]; [..|by apply not_elem_of_nil in Hin].
  all: split; [vm_compute; reflexivity|vm_compute; discriminate].
Qed.

Lemma arrivals_amounts : Forall amount_ok (arrivals.*2).
Proof. repeat constructor; unfold amount_ok; cbn; lia. Qed.

Lemma arrivals_ledger : ledger_ok (length (arrivals.*2)) accounts.
Proof. eapply ledger_ok_weaken; [|exact accounts_ledger]. vm_compute. lia. Qed.
End BatchExamples.
Import BatchExamples.

Lemma batch_reaches_block_witness :
  exists produced (node2 : Node (gmap (list Z) (list Z))), transactions (pb_block produced) ≡ₚ [pay30; pay20] /\
    read "alice" (nd_tree node2) = settle (address_to_key "alice") [pay30; pay20] (read "alice" tree) /\
    pool_txs (nd_pool node2) = ∅.
Proof.
  destruct (batch_reaches_block backwards arrivals 7 (kp 4) genesis 100 idle accounts ∅)
    as (pool & produced & node1 & node2 & _ & _ & _ & H1 & _ & _ & _ & H2 & _ & _ & H3).
  - exact tree_ok.
  - exact arrivals_ledger.
  - exact DbExamples.empty_db_inv.
  - apply mempool_new_inv.
  - reflexivity.
  - exact arrivals_fit.
  - exact arrivals_amounts.
  - exact arrivals_covered.
  - cbn. lia.
  - exact genesis_height.
  - exact backwards_order.
  - exact accounts_order_free.
  - exists produced, node2. split; [exact H1|]. split; [exact (H2 "alice"%string)|exact H3].
Defined.

(** Fifty of the hundred units are left. *)
Example two_payments :
  balance (settle (address_to_key "alice") (arrivals.*2) (account accounts (address_to_key "alice"))) = 50.
Proof. vm_compute. reflexivity. Qed.
