(* ===== verification/Sync.v ===== *)
(** * Block synchronization

    [protocol/src/network/sync.rs]: serving and applying batches of blocks, the
    dry-run validation, and the download plan.  [linked] is the specification of a
    chain of blocks; the theorems say that a batch is applied exactly when it is
    linked to the local chain and its transactions replay, and that a block made by
    [produce_block] replays on a peer to the state root it carries. *)

From S2P Require Import Prelude Bytes Crypto Transaction Block Sled StateTree StateTreeBits.
From S2P Require Import StateTreeSpec StateTreeProofs StateTransfer Db Mempool Consensus Producer.
From stdpp Require Import pretty.

#[local] Open Scope Z_scope.
#[local] Opaque tree_put tree_get H compute_default_hashes apply_transfer.

Inductive SyncRequest :=
| GetChainTip
| GetBlocks (start end_ : Z)
| GetBlock (height : Z).

Inductive SyncResponse :=
| ChainTip (height : Z) (block_hash : list Z)
| Blocks (blocks : list Block)
| OneBlock (block : option Block)
| ResponseError (msg : string).

Record SyncConfig := mkSyncConfig {
  batch_size : Z;
  max_parallel_requests : nat;
  request_timeout_ms : Z;
  max_retries : Z
}.

Definition default_sync_config : SyncConfig := mkSyncConfig 100 4 10000 3.

Record SyncResult := mkSyncResult {
  blocks_applied : Z;
  transactions_executed : Z;
  final_height : Z;
  final_state_root : list Z
}.

Inductive SyncError :=
| InvalidBlock (height : Z) (reason : string)
| ChainGap (expected got : Z)
| SyncInvalidParentHash (height : Z)
| SyncStateError (e : StateError)
| SyncDbError (e : DbError)
| RequestTimeout
| PeerDisconnected.

Definition display_sync_error (e : SyncError) : string :=
  match e with
  | InvalidBlock h reason => ("invalid block at height " +:+ pretty h +:+ ": " +:+ reason)%string
  | ChainGap expected got =>
      ("chain gap: expected height " +:+ pretty expected +:+ ", got " +:+ pretty got)%string
  | SyncInvalidParentHash h => ("invalid parent hash at height " +:+ pretty h)%string
  | SyncStateError e => ("state error: " +:+ display_state_error e)%string
  | SyncDbError e => ("database error: " +:+ display_db_error e)%string
  | RequestTimeout => "request timed out"
  | PeerDisconnected => "peer disconnected"
  end.

Record SyncEngine (Tr : Type) := mkSync {
  se_db : NovaDB Tr;
  se_tree : StateTree Tr;
  se_config : SyncConfig
}.

Arguments mkSync {Tr} _ _ _.
Arguments se_db {Tr} _.
Arguments se_tree {Tr} _.
Arguments se_config {Tr} _.

(** The [while cursor < end] loop of [compute_sync_plan]; [None] is out of fuel. *)
Fixpoint plan_loop {E} (fuel : nat) (cursor end_ batch : Z) : option (res E (list (Z * Z))) :=
  if negb (cursor <? end_) then Some (Ok [])
  else match fuel with
       | O => None
       | S fuel' =>
           match checked_add cursor batch with
           | None => Some Panic
           | Some next =>
               let batch_end := Z.min next end_ in
               match plan_loop fuel' batch_end end_ batch with
               | Some (Ok plan) => Some (Ok ((cursor, batch_end) :: plan))
               | r => r
               end
           end
       end.

Definition compute_sync_plan {E} (cfg : SyncConfig) (local_height remote_height : Z)
    : option (res E (list (Z * Z))) :=
  if remote_height <=? local_height then Some (Ok [])
  else match checked_add local_height 1, checked_add remote_height 1 with
       | Some start, Some end_ => plan_loop (Z.to_nat (end_ - start)) start end_ (batch_size cfg)
       | _, _ => Some Panic
       end.

Section Sync.
Context {C : Crypto} {K : AccountCodec} {SC : StorageCodec} {T : TxCodec} {Tr : Type} `{Sd : Sled Tr}.

Definition set_se_db (d : NovaDB Tr) (s : SyncEngine Tr) : SyncEngine Tr :=
  mkSync d (se_tree s) (se_config s).
Definition set_se_tree (t : StateTree Tr) (s : SyncEngine Tr) : SyncEngine Tr :=
  mkSync (se_db s) t (se_config s).

Definition local_chain_tip (s : SyncEngine Tr) : res SyncError (Z * list Z) :=
  h ← map_err_res SyncDbError (get_latest_block_height (se_db s));
  match h with
  | Some h =>
      b ← map_err_res SyncDbError (get_block h (se_db s));
      block ← ok_or b (SyncDbError (DbNotFound ("block at height " +:+ pretty h)%string));
      Ok (h, hash (header block))
  | None => Ok (0, hash (header genesis))
  end.

(** A panic of the database layer would unwind through the handler. *)
Definition process_sync_request {E} (request : SyncRequest) (s : SyncEngine Tr) : res E SyncResponse :=
  match request with
  | GetChainTip =>
      match local_chain_tip s with
      | Ok (h, x) => Ok (ChainTip h x)
      | Err e => Ok (ResponseError ("failed to read chain tip: " +:+ display_sync_error e)%string)
      | Panic => Panic
      end
  | GetBlocks start end_ =>
      if end_ <=? start then Ok (Blocks [])
      else match get_block_range start (end_ - 1) (se_db s) with
           | Ok blocks => Ok (Blocks blocks)
           | Err e => Ok (ResponseError ("failed to read blocks [" +:+ pretty start +:+ ", " +:+
               pretty end_ +:+ "): " +:+ display_db_error e)%string)
           | Panic => Panic
           end
  | GetBlock h =>
      match get_block h (se_db s) with
      | Ok b => Ok (OneBlock b)
      | Err e => Ok (ResponseError ("failed to read block at height " +:+ pretty h +:+ ": " +:+
          display_db_error e)%string)
      | Panic => Panic
      end
  end.

(** The replay loop over the transactions of one block. *)
Definition replay_transaction (tx : Transaction) : M (StateTree Tr) SyncError unit :=
  match tx_type tx with
  | Transfer =>
      map_err SyncStateError (apply_transfer (tx_sender tx) (tx_receiver tx) (value (tx_amount tx)))
  | CreditRequest | CreditSettlement | TokenMint | TokenBurn | ConfidentialTransfer => mret tt
  end.

Definition replay_transactions (txs : list Transaction) : M (SyncEngine Tr) SyncError unit :=
  zoom se_tree set_se_tree (for_each txs replay_transaction).

(** The parent-hash check; [first] is [i == 0]. *)
Definition parent_matches (first : bool) (h : BlockHeader) (prev_hash : list Z) : bool :=
  if first
  then if height h =? 0 then bool_decide (parent_hash h = zero32)
       else bool_decide (parent_hash h = prev_hash)
  else bool_decide (parent_hash h = prev_hash).

(** The body of the block loop. *)
Definition apply_block (first : bool) (first_height : Z) (prev_hash : list Z) (prev_height : Z)
    (block : Block) : M (SyncEngine Tr) SyncError unit :=
  let h := header block in
  _ ← lift (map_err_res (fun reason => InvalidBlock (height h) reason) (block_verify block));
  expected_height ← (if first then mret first_height else u64_add prev_height 1);
  require (height h =? expected_height) else (ChainGap expected_height (height h));
  require (parent_matches first h prev_hash) else (SyncInvalidParentHash (height h));
  _ ← replay_transactions (transactions block);
  zoom se_db set_se_db (map_err SyncDbError (put_block block)).

Fixpoint apply_loop (first : bool) (first_height : Z) (prev_hash : list Z) (prev_height : Z)
    (applied executed : Z) (blocks : list Block) : M (SyncEngine Tr) SyncError (Z * Z * Z) :=
  match blocks with
  | [] => mret (applied, executed, prev_height)
  | b :: rest =>
      _ ← apply_block first first_height prev_hash prev_height b;
      apply_loop false first_height (hash (header b)) (height (header b)) (applied + 1)
        (executed + Z.of_nat (length (transactions b))) rest
  end.

Definition apply_blocks (blocks : list Block) : M (SyncEngine Tr) SyncError SyncResult :=
  s ← get;
  match blocks with
  | [] =>
      tip ← lift (local_chain_tip s);
      mret (mkSyncResult 0 0 tip.1 (root (se_tree s)))
  | b0 :: _ =>
      let first_height := height (header b0) in
      prev_hash ← (if first_height =? 0 then mret zero32
        else
          b ← lift (map_err_res SyncDbError (get_block (first_height - 1) (se_db s)));
          prev ← lift (ok_or b (ChainGap (first_height - 1) first_height));
          mret (hash (header prev)));
      let prev_height := if first_height =? 0 then 0 else first_height - 1 in
      out ← apply_loop true first_height prev_hash prev_height 0 0 blocks;
      s' ← get;
      mret (mkSyncResult out.1.1 out.1.2 out.2 (root (se_tree s')))
  end.

(** The dry run over a batch, [prev] being the block before in the batch. *)
Fixpoint validate_chain (prev : option Block) (expected : Z) (blocks : list Block) : res SyncError unit :=
  match blocks with
  | [] => Ok tt
  | b :: rest =>
      let h := header b in
      _ ← map_err_res (fun reason => InvalidBlock (height h) reason) (block_verify b);
      expected_height ← expect (if expected <=? U64_MAX then Some expected else None);
      ensure (height h =? expected_height) else (ChainGap expected_height (height h));
      ensure (match prev with
              | Some p => bool_decide (parent_hash h = hash (header p))
              | None => true
              end) else (SyncInvalidParentHash (height h));
      validate_chain (Some b) (expected + 1) rest
  end.

Definition validate_block_chain (blocks : list Block) (expected_start : Z) : res SyncError unit :=
  validate_chain None expected_start blocks.

Definition needs_sync (remote_height : Z) (s : SyncEngine Tr) : bool :=
  let local_height := match get_latest_block_height (se_db s) with Ok (Some h) => h | _ => 0 end in
  local_height <? remote_height.
End Sync.

(** ** The download plan *)

(** Each batch is non-empty and no longer than the batch size; end to end they
    cover [cursor, end). *)
Fixpoint covers (cursor end_ batch : Z) (plan : list (Z * Z)) : Prop :=
  match plan with
  | [] => cursor = end_
  | (s, e) :: rest => s = cursor /\ s < e <= end_ /\ e - s <= batch /\ covers e end_ batch rest
  end.

Lemma plan_loop_covers {E} fuel cursor end_ batch :
  0 <= cursor <= end_ -> 0 < batch -> end_ + batch <= U64_MAX + 1 -> (Z.to_nat (end_ - cursor) <= fuel)%nat ->
  exists plan, plan_loop (E := E) fuel cursor end_ batch = Some (Ok plan) /\ covers cursor end_ batch plan.
Proof.
  revert cursor; induction fuel as [|fuel IH]; intros cursor Hc Hb Ho Hf; cbn [plan_loop];
    destruct (Z.ltb_spec cursor end_); cbn [negb]; try (exists []; split; [done|simpl; lia]); [lia|].
  unfold checked_add. rewrite (proj2 (Z.leb_le _ _)) by lia.
  destruct (IH (Z.min (cursor + batch) end_)) as (plan & -> & Hp); [lia..|].
  exists ((cursor, Z.min (cursor + batch) end_) :: plan). split; [done|]. simpl. split; [done|].
  split; [lia|]. split; [lia|done].
Qed.

(** The plan partitions the missing heights into consecutive non-empty batches of
    at most the configured size, and the loop that builds it terminates. *)
Theorem sync_plan_covers {E} cfg local remote :
  0 <= local < remote -> 0 < batch_size cfg -> remote + batch_size cfg <= U64_MAX ->
  exists plan, compute_sync_plan (E := E) cfg local remote = Some (Ok plan) /\
    covers (local + 1) (remote + 1) (batch_size cfg) plan.
Proof.
  intros Hl Hb Ho. unfold compute_sync_plan, checked_add.
  rewrite (proj2 (Z.leb_gt _ _)), !(proj2 (Z.leb_le _ _)) by lia. apply plan_loop_covers; lia.
Qed.

(** With a batch size of zero the loop makes no progress: no amount of iterations
    completes it. *)
Theorem zero_batch_never_ends {E} fuel cursor end_ :
  cursor < end_ -> 0 <= end_ <= U64_MAX -> plan_loop (E := E) fuel cursor end_ 0 = None.
Proof.
  intros Hlt He. induction fuel as [|fuel IH]; cbn [plan_loop];
    rewrite (proj2 (Z.ltb_lt _ _)) by done; cbn [negb]; [done|].
  unfold checked_add. rewrite (proj2 (Z.leb_le _ _)) by lia.
  replace (Z.min (cursor + 0) end_) with cursor by lia. by rewrite IH.
Qed.

(** ** Applying blocks *)

Section SyncProofs.
Context {C : Crypto} {L : CryptoLaws C} {K : AccountCodec} {KL : AccountCodecLaws K}.
Context {SC : StorageCodec} {SCL : StorageCodecLaws SC} {T : TxCodec}.
Context {Tr : Type} `{Sd : Sled Tr} {SL : SledLaws Tr} {SH : SledHealthy Tr}.

(** [blocks] is a chain whose first block has height [h] and parent [ph]. *)
Fixpoint linked (ph : list Z) (h : Z) (blocks : list Block) : Prop :=
  match blocks with
  | [] => True
  | b :: rest =>
      block_verify b = Ok tt /\ height (header b) = h /\ parent_hash (header b) = ph /\
      linked (hash (header b)) (h + 1) rest
  end.

Definition all_txs (blocks : list Block) : list Transaction := concat (transactions <$> blocks).

Definition store_all (blocks : list Block) (B : gmap Z Block) : gmap Z Block :=
  fold_left (fun B b => <[height (header b) := b]> B) blocks B.

(** The invariant of a sync engine: its tree represents [A], its database [B]. *)
Definition sync_inv (s : SyncEngine Tr) (A : Accounts) (B : gmap Z Block) : Prop :=
  tree_inv (se_tree s) A /\ db_inv (se_db s) B.

Lemma replay_transaction_sim tx (t : StateTree Tr) A :
  tree_inv t A ->
  exists t', replay_transaction tx t = (map_err_res SyncStateError (exec_map tx A).1, t') /\
    tree_inv t' (exec_map tx A).2 /\ (forall e, (exec_map tx A).1 = Err e -> t' = t).
Proof.
  intros Hs. unfold replay_transaction, exec_map. destruct (tx_type tx); try (by exists t).
  pose proof (apply_transfer_sim (tx_sender tx) (tx_receiver tx) (value (tx_amount tx)) t A Hs) as Hsim.
  destruct (transfer _ _ _ _ _) as [r A']. destruct Hsim as (t' & Hr & Hi & He).
  exists t'. unfold map_err. rewrite Hr. done.
Qed.

(** Replaying a list: all of it when every transaction executes, else the part
    before the first failure. *)
Lemma replay_sim txs (t : StateTree Tr) A :
  tree_inv t A ->
  exists t', (for_each txs replay_transaction t).2 = t' /\
    match replay_map txs A with
    | Ok A' => (for_each txs replay_transaction t).1 = Ok tt /\ tree_inv t' A'
    | Err e => (for_each txs replay_transaction t).1 = Err (SyncStateError e)
    | Panic => (for_each txs replay_transaction t).1 = Panic
    end.
Proof.
  revert t A; induction txs as [|tx txs IH]; intros t A Ht; cbn [for_each replay_map]; [by exists t|].
  destruct (replay_transaction_sim tx t A Ht) as (t1 & Hr & Hi & _).
  unfold mbind, M_bind. rewrite Hr. destruct (exec_map tx A) as [[[]|e|] A']; simpl in *;
    [by apply IH|by exists t1..].
Qed.

Lemma replay_prefix_sim txs tx rest (t : StateTree Tr) A A1 e A2 :
  tree_inv t A -> replay_map txs A = Ok A1 -> exec_map tx A1 = (Err e, A2) ->
  exists t', for_each (txs ++ tx :: rest) replay_transaction t = (Err (SyncStateError e), t') /\
    tree_inv t' A1.
Proof.
  revert t A; induction txs as [|tx0 txs IH]; intros t A Ht Hr He; cbn [app for_each]; simpl in Hr.
  - injection Hr as ->. destruct (replay_transaction_sim tx t A1 Ht) as (t1 & Hr1 & Hi & Hu).
    unfold mbind, M_bind. rewrite Hr1, He. rewrite He in Hu. simpl in *.
    exists t1. split; [done|]. by rewrite (Hu e).
  - destruct (replay_transaction_sim tx0 t A Ht) as (t1 & Hr1 & Hi & _).
    unfold mbind, M_bind. rewrite Hr1. destruct (exec_map tx0 A) as [[[]|e'|] A']; simpl in *; [|done..].
    by apply (IH t1 A').
Qed.

Lemma replay_map_app txs1 txs2 A :
  replay_map (txs1 ++ txs2) A =
  match replay_map txs1 A with Ok A' => replay_map txs2 A' | Err e => Err e | Panic => Panic end.
Proof.
  revert A; induction txs1 as [|tx txs IH]; intros A; [done|]. cbn [app replay_map].
  destruct (exec_map tx A) as [[[]|e|] A']; [apply IH|done..].
Qed.

Lemma parent_matches_iff (first : bool) fh ph h :
  (first = true -> height h = fh) -> (first = true -> fh = 0 -> ph = zero32) ->
  parent_matches first h ph = true <-> parent_hash h = ph.
Proof.
  intros Hh Hz. unfold parent_matches. destruct first; [|by rewrite bool_decide_eq_true].
  destruct (Z.eqb_spec (height h) 0); rewrite bool_decide_eq_true; [|done].
  rewrite Hz; [done..|]. rewrite <- Hh; done.
Qed.

(** A block that fits: it is applied, replayed and stored. *)
Lemma apply_block_ok (first : bool) fh ph prev b (s : SyncEngine Tr) A B A' :
  sync_inv s A B -> block_verify b = Ok tt -> in_u64 (height (header b)) ->
  height (header b) = (if first then fh else prev + 1) -> parent_hash (header b) = ph ->
  (first = true -> fh = 0 -> ph = zero32) ->
  replay_map (transactions b) A = Ok A' ->
  exists s', apply_block first fh ph prev b s = (Ok tt, s') /\
    sync_inv s' A' (<[height (header b) := b]> B) /\ se_config s' = se_config s /\
    get_latest_block_height (se_db s') = Ok (Some (height (header b))).
Proof.
  intros [Ht Hd] Hv Hu Hh Hp Hz Hr.
  destruct (replay_sim (transactions b) (se_tree s) A Ht) as (t' & Ht' & Hm). rewrite Hr in Hm.
  destruct Hm as [Hok Hinv].
  destruct (put_block_tip b (se_db s) B Hd Hu) as (d' & Hput & Hd' & Hlat & _).
  exists (mkSync d' t' (se_config s)). split; [|done].
  unfold apply_block, lift, mbind, M_bind. rewrite Hv. cbn [map_err_res].
  assert ((if first then mret (M := M (SyncEngine Tr) SyncError) fh else u64_add prev 1) s =
    (Ok (height (header b)), s)) as Hexp.
  { rewrite Hh. destruct first; [done|]. unfold u64_add, lift, expect, checked_add.
    rewrite (proj2 (Z.leb_le _ _)); [done|]. unfold in_u64 in Hu. lia. }
  unfold M_bind in Hexp. rewrite Hexp, Z.eqb_refl.
  rewrite (proj2 (parent_matches_iff first fh ph (header b) ltac:(by destruct first) Hz)) by done.
  unfold replay_transactions, zoom. destruct (for_each _ _ (se_tree s)) as [r t'']. simpl in *. subst.
  unfold map_err. cbn [se_db]. rewrite Hput. reflexivity.
Qed.

Lemma apply_loop_ok (first : bool) fh ph prev n m blocks (s : SyncEngine Tr) A B A' :
  sync_inv s A B -> linked ph (if first then fh else prev + 1) blocks ->
  Forall (fun b => in_u64 (height (header b))) blocks ->
  (first = true -> fh = 0 -> ph = zero32) ->
  replay_map (all_txs blocks) A = Ok A' ->
  exists s', apply_loop first fh ph prev n m blocks s =
      (Ok (n + Z.of_nat (length blocks), m + Z.of_nat (length (all_txs blocks)),
           default prev (last ((fun b => height (header b)) <$> blocks))), s') /\
    sync_inv s' A' (store_all blocks B) /\ se_config s' = se_config s /\
    get_latest_block_height (se_db s') =
      match last blocks with
      | Some b => Ok (Some (height (header b)))
      | None => get_latest_block_height (se_db s)
      end.
Proof.
  revert first ph prev n m s A B; induction blocks as [|b blocks IH];
    intros first ph prev n m s A B Hs Hl Hu Hz Hr.
  - injection Hr as <-. exists s. cbn. rewrite !Z.add_0_r. done.
  - destruct Hl as (Hv & Hh & Hp & Hl). apply Forall_cons in Hu as [Hub Hu].
    unfold all_txs in Hr. rewrite fmap_cons in Hr. cbn [concat] in Hr. rewrite replay_map_app in Hr.
    destruct (replay_map (transactions b) A) as [A1|e|] eqn:E1; [|done..].
    destruct (apply_block_ok first fh ph prev b s A B A1 Hs Hv Hub Hh Hp Hz E1) as (s1 & Hb & Hs1 & Hc1 & Hl1).
    destruct (IH false (hash (header b)) (height (header b)) (n + 1)
      (m + Z.of_nat (length (transactions b))) s1 A1 _ Hs1) as (s2 & Hrun & Hs2 & Hc2 & Hl2);
      [by rewrite Hh|done|done|done|].
    exists s2. split; [|split; [exact Hs2|split; [by rewrite Hc2|]]]; [|rewrite Hl2, last_cons; by destruct (last blocks)].
    cbn [apply_loop]. unfold mbind, M_bind. rewrite Hb, Hrun.
    unfold all_txs. rewrite !fmap_cons. cbn [concat length]. rewrite length_app, last_cons.
    do 3 f_equal; [f_equal; lia|]. by destruct (last _).
Qed.

(** A block that was applied fitted. *)
Lemma apply_block_inv (first : bool) fh ph prev b (s s' : SyncEngine Tr) A B :
  sync_inv s A B -> in_u64 (height (header b)) -> (first = true -> fh = 0 -> ph = zero32) ->
  apply_block first fh ph prev b s = (Ok tt, s') ->
  block_verify b = Ok tt /\ height (header b) = (if first then fh else prev + 1) /\
  parent_hash (header b) = ph /\ exists A', replay_map (transactions b) A = Ok A'.
Proof.
  intros [Ht Hd] Hu Hz Ha. unfold apply_block, lift, mbind, M_bind in Ha.
  destruct (block_verify b) as [[]|e|] eqn:Hv; [|done..]. cbn [map_err_res] in Ha. split; [done|].
  assert (height (header b) = (if first then fh else prev + 1)) as Hh.
  { destruct first; unfold u64_add, lift, expect, checked_add, mret, M_ret in Ha.
    - destruct (Z.eqb_spec (height (header b)) fh); done.
    - destruct (prev + 1 <=? U64_MAX); [|done]. destruct (Z.eqb_spec (height (header b)) (prev + 1)); done. }
  assert ((if first then mret (M := M (SyncEngine Tr) SyncError) fh else u64_add prev 1) s =
    (Ok (height (header b)), s)) as Hexp.
  { rewrite Hh. destruct first; [done|]. unfold u64_add, lift, expect, checked_add.
    rewrite (proj2 (Z.leb_le _ _)); [done|]. unfold in_u64 in Hu. lia. }
  rewrite Hexp, Z.eqb_refl in Ha. split; [done|].
  destruct (parent_matches first (header b) ph) eqn:Hpar; [|done]. split.
  - by apply (parent_matches_iff first fh ph (header b) ltac:(by destruct first) Hz).
  - destruct (replay_sim (transactions b) (se_tree s) A Ht) as (t' & Ht' & Hm).
    unfold replay_transactions, zoom in Ha.
    destruct (for_each _ _ (se_tree s)) as [r t'']. simpl in *.
    destruct (replay_map (transactions b) A) as [A'|e|]; [eauto| |]; by subst r.
Qed.

Lemma apply_loop_inv (first : bool) fh ph prev n m blocks (s s' : SyncEngine Tr) A B out :
  sync_inv s A B -> Forall (fun b => in_u64 (height (header b))) blocks ->
  (first = true -> fh = 0 -> ph = zero32) ->
  apply_loop first fh ph prev n m blocks s = (Ok out, s') ->
  linked ph (if first then fh else prev + 1) blocks /\ exists A', replay_map (all_txs blocks) A = Ok A'.
Proof.
  revert first ph prev n m s A B; induction blocks as [|b blocks IH];
    intros first ph prev n m s A B Hs Hu Hz Ha; [split; [done|by exists A]|].
  apply Forall_cons in Hu as [Hub Hu]. cbn [apply_loop] in Ha. unfold mbind, M_bind in Ha.
  destruct (apply_block first fh ph prev b s) as [[[]|e|] s1] eqn:Eb; [|done..].
  destruct (apply_block_inv _ _ _ _ _ _ _ _ _ Hs Hub Hz Eb) as (Hv & Hh & Hp & A1 & Hr).
  destruct (apply_block_ok first fh ph prev b s A B A1 Hs Hv Hub Hh Hp Hz Hr) as (s2 & Hb & Hs2 & _).
  rewrite Eb in Hb. injection Hb as <-.
  destruct (IH false (hash (header b)) (height (header b)) _ _ s1 A1 _ Hs2 Hu ltac:(done) Ha) as (Hl & A' & Hr'). cbn [linked].
  rewrite <- Hh. split; [done|]. exists A'. unfold all_txs. rewrite fmap_cons. cbn [concat].
  by rewrite replay_map_app, Hr.
Qed.

(** The hash the first block of a batch has to name as its parent. *)
Definition anchor (B : gmap Z Block) (first_height : Z) : option (list Z) :=
  if first_height =? 0 then Some zero32 else (fun b => hash (header b)) <$> B !! (first_height - 1).

(** What applying a batch amounts to on the abstract state. *)
Definition applies (blocks : list Block) (fh : Z) (A A' : Accounts) (B : gmap Z Block) : Prop :=
  exists ph, anchor B fh = Some ph /\ linked ph fh blocks /\ replay_map (all_txs blocks) A = Ok A'.

Lemma apply_blocks_prefix b0 rest (s : SyncEngine Tr) A B :
  sync_inv s A B -> in_u64 (height (header b0)) ->
  apply_blocks (b0 :: rest) s =
  match anchor B (height (header b0)) with
  | Some ph =>
      (out ← apply_loop true (height (header b0)) ph
               (if height (header b0) =? 0 then 0 else height (header b0) - 1) 0 0 (b0 :: rest);
       s' ← get;
       mret (mkSyncResult out.1.1 out.1.2 out.2 (root (se_tree s')))) s
  | None => (Err (ChainGap (height (header b0) - 1) (height (header b0))), s)
  end.
Proof.
  intros [Ht Hd] Hu. unfold apply_blocks, anchor.
  destruct (Z.eqb_spec (height (header b0)) 0); [done|].
  assert (in_u64 (height (header b0) - 1)) by (unfold in_u64 in *; lia).
  unfold mbind at 1 2 3 4, M_bind at 1 2 3 4, get at 1, lift.
  rewrite (get_block_inv _ _ _ Hd) by done.
  by destruct (B !! (height (header b0) - 1)).
Qed.

(** C5. Synchronization is exact: a batch is accepted if and only if it is a chain of
    well-formed blocks attached to a block the node has and all its transactions
    replay; then all its blocks are stored and the accounts are those of the replay. *)
Theorem apply_blocks_iff b0 rest (s : SyncEngine Tr) A B :
  sync_inv s A B -> Forall (fun b => in_u64 (height (header b))) (b0 :: rest) ->
  ((exists A', applies (b0 :: rest) (height (header b0)) A A' B) <->
   exists r s', apply_blocks (b0 :: rest) s = (Ok r, s')) /\
  (forall r s', apply_blocks (b0 :: rest) s = (Ok r, s') ->
     exists A', applies (b0 :: rest) (height (header b0)) A A' B /\
       sync_inv s' A' (store_all (b0 :: rest) B) /\
       blocks_applied r = Z.of_nat (length (b0 :: rest)) /\
       transactions_executed r = Z.of_nat (length (all_txs (b0 :: rest))) /\
       final_state_root r = root (se_tree s')).
Proof.
  intros Hs Hu. pose proof Hu as Hu0. apply Forall_cons in Hu0 as [Hub _].
  rewrite (apply_blocks_prefix b0 rest s A B Hs Hub). unfold applies.
  assert (forall ph, anchor B (height (header b0)) = Some ph ->
    (true = true -> height (header b0) = 0 -> ph = zero32)) as Hz.
  { intros ph. unfold anchor. intros Ha _ E. rewrite E in Ha. simpl in Ha. congruence. }
  destruct (anchor B (height (header b0))) as [ph|] eqn:Ea.
  2:{ split; [|done]. split; [by intros (A' & ph & ? & _)|by intros (r & s' & ?)]. }
  specialize (Hz ph eq_refl).
  set (prev := if height (header b0) =? 0 then 0 else height (header b0) - 1).
  assert (forall A', linked ph (height (header b0)) (b0 :: rest) -> replay_map (all_txs (b0 :: rest)) A = Ok A' ->
    exists s' out, apply_loop true (height (header b0)) ph prev 0 0 (b0 :: rest) s = (Ok out, s') /\
      out.1 = (Z.of_nat (length (b0 :: rest)), Z.of_nat (length (all_txs (b0 :: rest)))) /\
      sync_inv s' A' (store_all (b0 :: rest) B)) as Hfw.
  { intros A' Hl Hr.
    destruct (apply_loop_ok true (height (header b0)) ph prev 0 0 (b0 :: rest) s A B A' Hs Hl Hu Hz Hr)
      as (s' & Hrun & Hs' & _). eexists s', _. split; [exact Hrun|]. split; [done|done]. }
  unfold mbind, M_bind. split.
  - split.
    + intros (A' & ph' & [= <-] & Hl & Hr). destruct (Hfw A' Hl Hr) as (s' & out & -> & _).
      by eexists _, _.
    + intros (r & s' & Hrun). destruct (apply_loop _ _ _ _ _ _ _ s) as [[out|e|] s1] eqn:El; [|done..].
      destruct (apply_loop_inv _ _ _ _ _ _ _ _ _ _ _ _ Hs Hu Hz El) as (Hl & A' & Hr). eauto.
  - intros r s' Hrun. destruct (apply_loop _ _ _ _ _ _ _ s) as [[out|e|] s1] eqn:El; [|done..].
    destruct (apply_loop_inv _ _ _ _ _ _ _ _ _ _ _ _ Hs Hu Hz El) as (Hl & A' & Hr).
    destruct (Hfw A' Hl Hr) as (s2 & out2 & E2 & Hout & Hs2). injection E2 as <- <-.
    cbn in Hrun. injection Hrun as <- <-. exists A'. cbn. rewrite Hout. split; [by exists ph|]. done.
Qed.

(** One linked block on a stored parent. *)
Lemma apply_single parent b (s : SyncEngine Tr) A B A' :
  sync_inv s A B -> 0 <= height (header parent) < U64_MAX -> B !! height (header parent) = Some parent ->
  block_verify b = Ok tt -> height (header b) = height (header parent) + 1 ->
  parent_hash (header b) = hash (header parent) -> replay_map (transactions b) A = Ok A' ->
  exists s', apply_blocks [b] s = (Ok (mkSyncResult 1 (Z.of_nat (length (transactions b)))
      (height (header b)) (root (se_tree s'))), s') /\ sync_inv s' A' (<[height (header b) := b]> B).
Proof.
  intros Hs Hh HB Hv Hhb Hph Hr.
  assert (in_u64 (height (header b))) as Hu by (unfold in_u64; lia).
  rewrite (apply_blocks_prefix b [] s A B Hs Hu). unfold anchor.
  rewrite (proj2 (Z.eqb_neq _ _)) by lia.
  replace (height (header b) - 1) with (height (header parent)) by lia. rewrite HB. cbn [fmap option_fmap option_map].
  destruct (apply_loop_ok true (height (header b)) (hash (header parent)) (height (header parent)) 0 0 [b]
    s A B A' Hs) as (s' & Hrun & Hs' & _).
  - cbn. done.
  - by constructor.
  - lia.
  - unfold all_txs. cbn. by rewrite app_nil_r.
  - exists s'. unfold mbind, M_bind. rewrite Hrun. cbn. unfold all_txs. cbn. rewrite app_nil_r. done.
Qed.

Lemma tree_inv_same_root (s s' : StateTree Tr) A : tree_inv s A -> tree_inv s' A -> root s = root s'.
Proof. intros [_ Hr] [_ Hr']. unfold root. rewrite Hr, Hr'. reflexivity. Qed.

End SyncProofs.

Section TwoNodes.
Context {C : Crypto} {L : CryptoLaws C} {K : AccountCodec} {KL : AccountCodecLaws K}.
Context {SC : StorageCodec} {SCL : StorageCodecLaws SC} {T : TxCodec}.
Context {Tr : Type} `{Sd : Sled Tr} {SL : SledLaws Tr} {SH : SledHealthy Tr}.

(** C20. Producer and peers agree: a block made by [produce_block] is accepted by every
    peer that holds the parent and the same accounts, and the peer's replay ends in
    exactly the state root the producer wrote in the header.  The peer may iterate maps in
    another order; the accounts have at most one commitment each, and so have those after
    the block. *)
Theorem produced_block_syncs o now_ms kp parent n (node node' : Node Tr) pb (s : SyncEngine Tr) A B :
  an_order o -> all_order_free A ->
  tree_inv (nd_tree node) A -> ledger_ok n A ->
  Forall amount_ok (select_transactions n (nd_pool node)) -> 0 <= height (header parent) < U64_MAX ->
  produce_block now_ms kp parent n node = (Ok pb, node') ->
  sync_inv (K := with_order o K) s A B -> B !! height (header parent) = Some parent ->
  exists r s', apply_blocks (K := with_order o K) [pb_block pb] s = (Ok r, s') /\
    final_state_root r = state_root (header (pb_block pb)) /\
    final_height r = height (header parent) + 1 /\
    root (se_tree s') = root (nd_tree node') /\
    get_block (height (header parent) + 1) (se_db s') = Ok (Some (pb_block pb)).
Proof.
  intros Ho Hfree Ht HA Ham Hh Hp Hs HB. pose proof (with_order_laws o K KL Ho) as KL'.
  destruct (produce_block_spec now_ms kp parent n node A Ht HA Ham Hh) as (t' & results & b & Hp' & Hi & Hok & _).
  rewrite Hp in Hp'. injection Hp' as -> ->. cbn [pb_block]. destruct Hok as [Hv Hhb Hph Htx Hsr _ _].
  destruct (apply_single (K := with_order o K) parent b s A B (run_map (select_transactions n (nd_pool node)) A).2 Hs Hh HB Hv Hhb Hph)
    as (s' & Hrun & Hs').
  { rewrite Htx. apply (run_map_replay _ _ 0); [|done].
    eapply ledger_ok_weaken; [|exact HA]. rewrite Nat.add_0_r. apply select_length. }
  eexists _, s'. split; [exact Hrun|]. cbn [final_state_root final_height]. rewrite Hsr.
  destruct Hs' as [Ht' Hd'].
  assert (root (se_tree s') = root t') as Hroot.
  { unfold root. rewrite (inv_root _ _ Ht'), (inv_root _ _ Hi). apply H_order; [done|by apply run_map_order_free]. }
  split; [exact Hroot|]. split; [done|]. split; [exact Hroot|].
  rewrite (get_block_inv _ _ _ Hd') by (unfold in_u64; lia). by rewrite <- Hhb, lookup_insert_eq.
Qed.
End TwoNodes.

Section Unchecked.
Context {C : Crypto} {L : CryptoLaws C} {K : AccountCodec} {KL : AccountCodecLaws K}.
Context {SC : StorageCodec} {SCL : StorageCodecLaws SC} {T : TxCodec}.
Context {Tr : Type} `{Sd : Sled Tr} {SL : SledLaws Tr} {SH : SledHealthy Tr}.

(** Sync checks hashes and linkage only: a block naming any validator, carrying no
    signature and claiming any state root is accepted, provided its transfers are
    covered by balances. *)
Theorem sync_accepts_forged_block {E} now_ms parent txs v sr b (s : SyncEngine Tr) A A' B :
  sync_inv s A B -> 0 <= height (header parent) < U64_MAX -> B !! height (header parent) = Some parent ->
  replay_map txs A = Ok A' -> block_new (E := E) now_ms parent txs v sr = Ok b ->
  exists r s', apply_blocks [b] s = (Ok r, s') /\
    validator (header b) = v /\ signature (header b) = [] /\ state_root (header b) = sr /\
    tree_inv (se_tree s') A' /\ final_state_root r = root (se_tree s').
Proof.
  intros Hs Hh HB Hr Hb. destruct (block_new_spec (E := E) now_ms parent txs v sr b) as (Hv & Hhb & Hph & Htx & Hsr);
    [lia|done|].
  destruct (apply_single parent b s A B A' Hs Hh HB Hv Hhb Hph) as (s' & Hrun & Ht' & _); [by rewrite Htx|].
  eexists _, s'. split; [exact Hrun|]. unfold block_new in Hb.
  destruct (expect _) as [h|e|]; [|done..]. injection Hb as <-. done.
Qed.

(** A block that fails in the middle of its transactions is rejected after the
    earlier ones were executed: the database does not have the block, but the
    accounts have moved, and a retry executes them again. *)
Theorem rejected_block_half_applied parent b txs tx rest e (s : SyncEngine Tr) A A1 A2 B :
  sync_inv s A B -> 0 <= height (header parent) < U64_MAX -> B !! height (header parent) = Some parent ->
  block_verify b = Ok tt -> height (header b) = height (header parent) + 1 ->
  parent_hash (header b) = hash (header parent) ->
  transactions b = txs ++ tx :: rest -> replay_map txs A = Ok A1 -> exec_map tx A1 = (Err e, A2) ->
  exists t', apply_blocks [b] s = (Err (SyncStateError e), set_se_tree t' s) /\ tree_inv t' A1.
Proof.
  intros Hs Hh HB Hv Hhb Hph Htx Hr He.
  assert (in_u64 (height (header b))) as Hu by (unfold in_u64; lia). pose proof Hs as [Ht Hd].
  destruct (replay_prefix_sim txs tx rest (se_tree s) A A1 e A2 Ht Hr He) as (t' & Hrun & Hi).
  exists t'. split; [|exact Hi].
  rewrite (apply_blocks_prefix b [] s A B Hs Hu). unfold anchor.
  rewrite (proj2 (Z.eqb_neq _ _)) by lia.
  replace (height (header b) - 1) with (height (header parent)) by lia. rewrite HB.
  cbn [fmap option_fmap option_map apply_loop]. unfold apply_block, lift, mret, M_ret, mbind, M_bind.
  rewrite Hv. cbn [map_err_res]. rewrite Z.eqb_refl.
  rewrite (proj2 (parent_matches_iff true (height (header b)) (hash (header parent)) (header b)
    ltac:(done) ltac:(lia))) by done.
  unfold replay_transactions, zoom. rewrite Htx, Hrun. reflexivity.
Qed.
End Unchecked.

(** ** Witnesses: a peer that holds the genesis block and the same accounts *)

Module SyncExamples.
Export NodeExamples.

Definition peer_db : NovaDB (gmap (list Z) (list Z)) := (put_block genesis open_temporary).2.

Definition peer : SyncEngine (gmap (list Z) (list Z)) := mkSync peer_db tree default_sync_config.

Definition stored : gmap Z Block := <[height (header genesis) := genesis]> ∅.

Lemma peer_db_inv : db_inv peer_db stored.
Proof.
  unfold peer_db. destruct (put_block_inv genesis open_temporary ∅ DbExamples.empty_db_inv) as (d & Hd & Hi).
  - unfold in_u64, U64_MAX. cbn. lia.
  - rewrite Hd. exact Hi.
Qed.

Lemma peer_inv : sync_inv peer accounts stored.
Proof. split; [exact tree_ok|exact peer_db_inv]. Qed.

(** The same node with another order of its maps. *)
Definition other_peer : SyncEngine (gmap (list Z) (list Z)) := mkSync peer_db other_tree default_sync_config.

Lemma other_peer_inv : sync_inv (K := other) other_peer accounts stored.
Proof. split; [exact other_tree_ok|exact peer_db_inv]. Qed.

Lemma stored_genesis : stored !! height (header genesis) = Some genesis.
Proof. unfold stored. apply lookup_insert_eq. Qed.

Definition solo_run := produce_block 7 (kp 4) genesis 1000 solo.
Definition solo_block : ProducedBlock :=
  match solo_run.1 with Ok pb => pb | _ => mkProduced genesis [] [] end.

Lemma solo_run_ok : solo_run = (Ok solo_block, solo_run.2).
Proof.
  unfold solo_block, solo_run.
  destruct (produce_block_spec 7 (kp 4) genesis 1000 solo accounts tree_ok accounts_ledger
    pool1_amounts genesis_height) as (t & results & b & Hp & _). rewrite Hp. reflexivity.
Qed.

Definition paid : Accounts := (run_map [pay30] accounts).2.

Lemma replay_paid : replay_map [pay30] accounts = Ok paid.
Proof. vm_cast_no_check (eq_refl (Ok (E := StateError) paid)). Qed.

Definition forge (txs : list Transaction) : Block :=
  match block_new (E := unit) 7 genesis txs "mallory" (replicate 32 9) with Ok b => b | _ => genesis end.

(** A second payment alice cannot cover after the first. *)
Definition pay100 : Transaction :=
  build 0 (mkBuilder 1 Transfer "alice" "bob" (mkAmount 100 NOVA) 500 2 (Some 5) None).
End SyncExamples.

Import SyncExamples.

Lemma sync_plan_covers_witness :
  exists plan, compute_sync_plan (E := unit) default_sync_config 7 250 = Some (Ok plan) /\
    covers 8 251 100 plan.
Proof. apply (sync_plan_covers default_sync_config 7 250); [lia|reflexivity|vm_compute; discriminate]. Defined.

Lemma zero_batch_never_ends_witness : plan_loop (E := unit) 1000 8 251 0 = None.
Proof. apply (zero_batch_never_ends 1000 8 251); [lia|unfold U64_MAX; lia]. Defined.

Lemma produced_block_syncs_witness :
  exists r s', apply_blocks (K := other) [pb_block solo_block] other_peer = (Ok r, s') /\
    final_state_root r = state_root (header (pb_block solo_block)).
Proof.
  destruct (produced_block_syncs backwards 7 (kp 4) genesis 1000 solo solo_run.2 solo_block other_peer accounts stored)
    as (r & s' & H1 & H2 & _).
  - exact backwards_order.
  - exact accounts_order_free.
  - exact tree_ok.
  - exact accounts_ledger.
  - exact pool1_amounts.
  - exact genesis_height.
  - exact solo_run_ok.
  - exact other_peer_inv.
  - exact stored_genesis.
  - exists r, s'. split; [exact H1|exact H2].
Defined.

Lemma apply_blocks_iff_witness :
  exists r s', apply_blocks [forge [pay30]] peer = (Ok r, s').
Proof.
  apply (apply_blocks_iff (forge [pay30]) [] peer accounts stored).
  - exact peer_inv.
  - repeat constructor; vm_compute; discriminate.
  - exists paid, (hash (header genesis)). split; [vm_compute; reflexivity|]. split.
    + split_and!; [vm_compute; reflexivity..|exact I].
    + exact replay_paid.
Defined.

Lemma sync_accepts_forged_block_witness :
  exists r s', apply_blocks [forge [pay30]] peer = (Ok r, s') /\
    validator (header (forge [pay30])) = "mallory"%string /\ signature (header (forge [pay30])) = [] /\
    state_root (header (forge [pay30])) = replicate 32 9 /\
    tree_inv (se_tree s') paid /\ final_state_root r = root (se_tree s').
Proof.
  apply (sync_accepts_forged_block (E := unit) 7 genesis [pay30] "mallory" (replicate 32 9)
    (forge [pay30]) peer accounts paid stored).
  - exact peer_inv.
  - exact genesis_height.
  - exact stored_genesis.
  - exact replay_paid.
  - vm_cast_no_check (eq_refl (Ok (E := unit) (forge [pay30]))).
Defined.

Lemma rejected_block_half_applied_witness :
  exists t', apply_blocks [forge [pay30; pay100]] peer =
      (Err (SyncStateError (InsufficientBalance 70 100)), set_se_tree t' peer) /\ tree_inv t' paid.
Proof.
  apply (rejected_block_half_applied genesis (forge [pay30; pay100]) [pay30] pay100 []
    (InsufficientBalance 70 100) peer accounts paid paid stored).
  - exact peer_inv.
  - exact genesis_height.
  - exact stored_genesis.
  - vm_compute. reflexivity.
  - vm_compute. reflexivity.
  - vm_compute. reflexivity.
  - vm_compute. reflexivity.
  - exact replay_paid.
  - vm_cast_no_check (eq_refl (Err (A := unit) (InsufficientBalance 70 100), paid)).
Defined.
