(* ===== verification/Credit.v ===== *)
(** * Credit lines

    [protocol/src/vault/credit.rs]: a credit line with its life cycle, and the
    manager that picks and draws on the cheapest line.  Instants are milliseconds;
    [max_utc] is the latest instant the date library represents (adding a duration
    past it panics), a parameter of the constructor.  Identifiers are numbers. *)

From S2P Require Import Prelude.

#[local] Open Scope Z_scope.

Definition MS_PER_DAY : Z := 86400000.

Inductive CreditLineStatus := Active | Frozen | Closed | Defaulted.

#[global] Instance CreditLineStatus_eq_dec : EqDecision CreditLineStatus.
Proof. solve_decision. Defined.

Definition allows_draws (s : CreditLineStatus) : bool :=
  match s with Active => true | _ => false end.

Definition allows_repayments (s : CreditLineStatus) : bool :=
  match s with Active | Frozen | Defaulted => true | Closed => false end.

Definition is_terminal (s : CreditLineStatus) : bool :=
  match s with Closed | Defaulted => true | _ => false end.

Inductive CreditError :=
| LimitExceeded (line_id available requested : Z)
| NotActive (line_id : Z) (status : CreditLineStatus)
| Expired (line_id expired_at : Z)
| OverRepayment (line_id outstanding repayment : Z)
| NoEligibleLine (amount : Z)
| AlreadyClosed (line_id : Z).

Record CreditLine := mkLine {
  line_id : Z;
  provider : string;
  borrower : string;
  limit : Z;
  used : Z;
  interest_rate_bps : Z;
  term_days : Z;
  created_at : Z;
  expires_at : Z;
  status : CreditLineStatus
}.

#[global] Instance CreditLine_eq_dec : EqDecision CreditLine.
Proof. solve_decision. Defined.

Definition credit_line_new {E} (max_utc id now : Z) (prov borr : string) (lim bps days : Z)
    : res E CreditLine :=
  if max_utc <? now + days * MS_PER_DAY then Panic
  else Ok (mkLine id prov borr lim 0 bps days now (now + days * MS_PER_DAY) Active).

Definition available (l : CreditLine) : Z :=
  if negb (allows_draws (status l)) then 0 else saturating_sub (limit l) (used l).

Definition is_expired (now : Z) (l : CreditLine) : bool := expires_at l <? now.

Definition set_used (u : Z) (l : CreditLine) : CreditLine :=
  mkLine (line_id l) (provider l) (borrower l) (limit l) u (interest_rate_bps l) (term_days l)
    (created_at l) (expires_at l) (status l).

Definition set_status (s : CreditLineStatus) (l : CreditLine) : CreditLine :=
  mkLine (line_id l) (provider l) (borrower l) (limit l) (used l) (interest_rate_bps l) (term_days l)
    (created_at l) (expires_at l) s.

Definition draw (now amount : Z) : M CreditLine CreditError Z :=
  self ← get;
  require (allows_draws (status self)) else (NotActive (line_id self) (status self));
  require (negb (is_expired now self)) else (Expired (line_id self) (expires_at self));
  let avail := available self in
  require (amount <=? avail) else (LimitExceeded (line_id self) avail amount);
  u ← u64_add (used self) amount;
  _ ← put (set_used u self);
  mret (available (set_used u self)).

Definition repay (amount : Z) : M CreditLine CreditError Z :=
  self ← get;
  require (negb (bool_decide (status self = Closed))) else (AlreadyClosed (line_id self));
  require (amount <=? used self) else (OverRepayment (line_id self) (used self) amount);
  u ← u64_sub (used self) amount;
  _ ← put (set_used u self);
  mret u.

Definition freeze : M CreditLine CreditError unit :=
  self ← get;
  require (negb (is_terminal (status self))) else (AlreadyClosed (line_id self));
  put (set_status Frozen self).

Definition unfreeze : M CreditLine CreditError unit :=
  self ← get;
  require (bool_decide (status self = Frozen)) else (NotActive (line_id self) (status self));
  put (set_status Active self).

Definition close : M CreditLine CreditError unit :=
  self ← get;
  require (negb (bool_decide (status self = Closed))) else (AlreadyClosed (line_id self));
  put (set_status Closed self).

Definition default_line : M CreditLine CreditError unit :=
  self ← get;
  require (negb (is_terminal (status self))) else (AlreadyClosed (line_id self));
  put (set_status Defaulted self).

(** ** The manager *)

Record CreditLineManager := mkManager { lines : list CreditLine }.

Definition manager_new : CreditLineManager := mkManager [].

Definition add_line (l : CreditLine) (m : CreditLineManager) : CreditLineManager :=
  mkManager (lines m ++ [l]).

(** [position] and [Vec::remove] of the first closed line with the id. *)
Fixpoint remove_first_closed (id : Z) (ls : list CreditLine) : option CreditLine * list CreditLine :=
  match ls with
  | [] => (None, [])
  | l :: rest =>
      if bool_decide (line_id l = id) && bool_decide (status l = Closed) then (Some l, rest)
      else let '(o, rest') := remove_first_closed id rest in (o, l :: rest')
  end.

Definition remove_closed_line (id : Z) (m : CreditLineManager) : option CreditLine * CreditLineManager :=
  let '(o, ls) := remove_first_closed id (lines m) in (o, mkManager ls).

Definition get_line (id : Z) (m : CreditLineManager) : option CreditLine :=
  List.find (fun l => bool_decide (line_id l = id)) (lines m).

(** [u64] iterator sum, which panics past [u64::MAX]. *)
Definition sum_u64 {E A} (f : A -> Z) (l : list A) : res E Z :=
  fold_left (fun acc x => a ← acc; expect (checked_add a (f x))) l (Ok 0).

Definition drawable (now : Z) (l : CreditLine) : bool :=
  allows_draws (status l) && negb (is_expired now l).

Definition total_available {E} (now : Z) (m : CreditLineManager) : res E Z :=
  sum_u64 available (List.filter (drawable now) (lines m)).

Definition total_outstanding {E} (m : CreditLineManager) : res E Z := sum_u64 used (lines m).

Definition active_line_count (now : Z) (m : CreditLineManager) : nat :=
  length (List.filter (fun l => bool_decide (status l = Active) && negb (is_expired now l)) (lines m)).

(** [a] strictly precedes [b] in the comparison of [best_available_line]. *)
Definition cheaper (a b : CreditLine) : bool :=
  (interest_rate_bps a <? interest_rate_bps b) ||
  ((interest_rate_bps a =? interest_rate_bps b) && (available b <? available a)).

(** [Iterator::min_by]: the first of the least elements. *)
Definition min_line (ls : list CreditLine) : option CreditLine :=
  fold_left (fun best l => match best with
                           | None => Some l
                           | Some b => if cheaper l b then Some l else Some b
                           end) ls None.

Definition eligible (now amount : Z) (l : CreditLine) : bool :=
  allows_draws (status l) && negb (is_expired now l) && (amount <=? available l).

Definition best_available_line (now amount : Z) (m : CreditLineManager) : option CreditLine :=
  min_line (List.filter (eligible now amount) (lines m)).

(** [get_line_mut(id)] followed by a method on the line found. *)
Fixpoint update_first {E A} (id : Z) (f : M CreditLine E A) (ls : list CreditLine)
    : option (res E A) * list CreditLine :=
  match ls with
  | [] => (None, [])
  | l :: rest =>
      if bool_decide (line_id l = id) then let '(r, l') := f l in (Some r, l' :: rest)
      else let '(o, rest') := update_first id f rest in (o, l :: rest')
  end.

(** The clock is read once for the selection and again by [draw]. *)
Definition draw_best_available (now now' amount : Z) : M CreditLineManager CreditError (Z * Z) :=
  self ← get;
  best ← lift (ok_or (best_available_line now amount self) (NoEligibleLine amount));
  let id := line_id best in
  let '(o, ls) := update_first id (draw now' amount) (lines self) in
  _ ← put (mkManager ls);
  r ← lift (expect o);
  remaining ← lift r;
  mret (id, remaining).

Definition lines_from_provider (p : string) (m : CreditLineManager) : list CreditLine :=
  List.filter (fun l => bool_decide (provider l = p)) (lines m).

Definition checked_mul (a b : Z) : option Z := if a * b <=? U64_MAX then Some (a * b) else None.

(** Weighted sum with checked products, then the truncating cast to [u32]. *)
Definition weighted_avg_rate_bps {E} (m : CreditLineManager) : res E (option Z) :=
  let act := List.filter (fun l => bool_decide (status l = Active)) (lines m) in
  if bool_decide (act = []) then Ok None
  else
    total_limit ← sum_u64 limit act;
    if total_limit =? 0 then Ok None
    else
      weighted ← fold_left (fun acc l =>
          a ← acc; p ← expect (checked_mul (limit l) (interest_rate_bps l)); expect (checked_add a p))
        act (Ok 0);
      Ok (Some ((weighted / total_limit) mod 2 ^ 32)).

(** ** One line *)

Definition line_ok (l : CreditLine) : Prop := in_u64 (limit l) /\ 0 <= used l <= limit l.

(** Every operation on a line, whatever its outcome. *)
Inductive line_step : CreditLine -> CreditLine -> Prop :=
| step_draw now amount l : 0 <= amount -> line_step l (draw now amount l).2
| step_repay amount l : 0 <= amount -> line_step l (repay amount l).2
| step_freeze l : line_step l (freeze l).2
| step_unfreeze l : line_step l (unfreeze l).2
| step_close l : line_step l (close l).2
| step_default l : line_step l (default_line l).2.

Lemma draw_spec now amount l :
  line_ok l -> 0 <= amount ->
  draw now amount l =
    if negb (allows_draws (status l)) then (Err (NotActive (line_id l) (status l)), l)
    else if is_expired now l then (Err (Expired (line_id l) (expires_at l)), l)
    else if limit l - used l <? amount
    then (Err (LimitExceeded (line_id l) (limit l - used l) amount), l)
    else (Ok (limit l - used l - amount), set_used (used l + amount) l).
Proof.
  intros [Hl Hu] Ha. unfold in_u64 in Hl. unfold draw. run. unfold available. simpl.
  destruct (allows_draws (status l)) eqn:Es; simpl; [|done].
  destruct (is_expired now l); simpl; [done|].
  rewrite !(saturating_sub_ge _ (used l)) by lia.
  destruct (Z.leb_spec amount (limit l - used l)), (Z.ltb_spec (limit l - used l) amount); try lia; [|done].
  rewrite (proj2 (Z.leb_le _ _)), saturating_sub_ge by lia. do 2 f_equal. lia.
Qed.

Lemma repay_spec amount l :
  line_ok l -> 0 <= amount ->
  repay amount l =
    if bool_decide (status l = Closed) then (Err (AlreadyClosed (line_id l)), l)
    else if used l <? amount then (Err (OverRepayment (line_id l) (used l) amount), l)
    else (Ok (used l - amount), set_used (used l - amount) l).
Proof.
  intros [Hl Hu] Ha. unfold repay. run. case_bool_decide; simpl; [done|].
  destruct (Z.leb_spec amount (used l)), (Z.ltb_spec (used l) amount); try lia; done.
Qed.

Lemma line_step_ok l l' : line_step l l' -> line_ok l -> line_ok l'.
Proof.
  intros Hs Hok. pose proof Hok as [Hl Hu]. unfold in_u64 in *. destruct Hs.
  - rewrite draw_spec by done. repeat case_match; reflect_bools; simpl; try done.
    split; unfold in_u64; simpl; lia.
  - rewrite repay_spec by done. repeat case_match; reflect_bools; simpl; try done.
    split; unfold in_u64; simpl; lia.
  - unfold freeze. run. by case_match.
  - unfold unfreeze. run. by case_match.
  - unfold close. run. by case_match.
  - unfold default_line. run. by case_match.
Qed.

(** C33. The life cycle of a credit line: no operation lets it owe more than its limit, a
    closed line never changes again, a terminal line never becomes drawable, and the
    agreed terms are fixed. *)
Theorem credit_line_lifecycle l l' :
  line_step l l' -> line_ok l ->
  line_ok l' /\ (status l = Closed -> l' = l) /\
  (is_terminal (status l) = true -> is_terminal (status l') = true) /\
  (allows_draws (status l) = false -> used l' <= used l) /\
  (line_id l', limit l', interest_rate_bps l', expires_at l') =
  (line_id l, limit l, interest_rate_bps l, expires_at l).
Proof.
  intros Hs Hok. split; [by eapply line_step_ok|]. destruct Hs.
  - rewrite draw_spec by done. destruct (status l) eqn:Es; simpl; repeat case_match; simpl;
      rewrite ?Es; simpl; split_and!; try done; try lia.
  - rewrite repay_spec by done. destruct (status l) eqn:Es; repeat case_match; reflect_bools; simpl;
      rewrite ?Es; simpl; split_and!; try done; intros; lia.
  - unfold freeze. run. destruct (status l) eqn:Es; simpl; rewrite ?Es; split_and!; done || lia.
  - unfold unfreeze. run. destruct (status l) eqn:Es; simpl; rewrite ?Es; split_and!; done || lia.
  - unfold close. run. destruct (status l) eqn:Es; simpl; rewrite ?Es; split_and!; done || lia.
  - unfold default_line. run. destruct (status l) eqn:Es; simpl; rewrite ?Es; split_and!; done || lia.
Qed.

(** Any number of operations. *)
Inductive line_steps : CreditLine -> CreditLine -> Prop :=
| steps_refl l : line_steps l l
| steps_cons l l' l'' : line_step l l' -> line_steps l' l'' -> line_steps l l''.

Lemma closed_stays l l' : line_step l l' -> line_ok l -> status l = Closed -> l' = l.
Proof.
  intros Hs Hok Hc. destruct Hs.
  - rewrite draw_spec by done. by rewrite Hc.
  - rewrite repay_spec by done. by rewrite bool_decide_true.
  - unfold freeze. run. by rewrite Hc.
  - unfold unfreeze. run. by rewrite Hc.
  - unfold close. run. by rewrite Hc.
  - unfold default_line. run. by rewrite Hc.
Qed.

(** Closing does not look at the outstanding amount: a line that owes something, a
    defaulted one included, can be closed, and then no sequence of operations ever
    pays the debt. *)
Theorem closed_debt_is_stuck l :
  line_ok l -> 0 < used l -> status l <> Closed ->
  exists l', close l = (Ok tt, l') /\ status l' = Closed /\ used l' = used l /\
    (forall amount, 0 <= amount -> (repay amount l').1 = Err (AlreadyClosed (line_id l))) /\
    (forall l'', line_steps l' l'' -> used l'' = used l).
Proof.
  intros Hok Hu Hn. exists (set_status Closed l). unfold close. run.
  rewrite bool_decide_false by done. simpl. split; [done|]. split; [done|]. split; [done|].
  split; [done|]. intros l'' Hs. assert (line_ok (set_status Closed l)) as Hok' by done.
  assert (status (set_status Closed l) = Closed) as Hc by done.
  change (used l) with (used (set_status Closed l)). clear Hok Hu Hn.
  induction Hs as [|a b c Hab Hbc IH]; [done|].
  pose proof (closed_stays _ _ Hab Hok' Hc) as ->. by apply IH.
Qed.

(** ** Choosing a line *)

Lemma cheaper_trans a b c : cheaper a b = false -> cheaper b c = false -> cheaper a c = false.
Proof.
  unfold cheaper. rewrite !orb_false_iff, !andb_false_iff, !Z.ltb_ge, !Z.eqb_neq. lia.
Qed.

Lemma cheaper_asym a b : cheaper a b = true -> cheaper b a = false.
Proof.
  unfold cheaper. rewrite orb_true_iff, andb_true_iff, orb_false_iff, andb_false_iff,
    !Z.ltb_lt, !Z.ltb_ge, Z.eqb_eq, Z.eqb_neq. lia.
Qed.

Lemma cheaper_irrefl a : cheaper a a = false.
Proof. destruct (cheaper a a) eqn:E; [|done]. pose proof (cheaper_asym _ _ E). congruence. Qed.

Lemma min_line_spec ls best :
  min_line ls = Some best -> best ∈ ls /\ forall l, l ∈ ls -> cheaper l best = false.
Proof.
  unfold min_line. revert best; induction ls as [|l ls IH] using rev_ind; intros best Hm; [done|].
  rewrite fold_left_app in Hm. simpl in Hm. destruct (fold_left _ ls None) as [b|] eqn:Eb.
  - destruct (IH b eq_refl) as [Hin Hmin]. destruct (cheaper l b) eqn:Ec; injection Hm as <-.
    + split; [set_solver|]. intros x [Hx|Hx%list_elem_of_singleton]%elem_of_app; [|subst].
      * eapply cheaper_trans; [by apply Hmin|]. by apply cheaper_asym.
      * apply cheaper_irrefl.
    + split; [set_solver|]. intros x [Hx|Hx%list_elem_of_singleton]%elem_of_app; [by apply Hmin|by subst].
  - injection Hm as <-. split; [set_solver|].
    intros x [Hx|Hx%list_elem_of_singleton]%elem_of_app; [|subst; apply cheaper_irrefl].
    destruct ls as [|y ls]; [by apply not_elem_of_nil in Hx|]. exfalso. clear -Eb.
    simpl in Eb. revert y Eb; induction ls as [|z ls IH]; intros y Eb; [done|]. simpl in Eb.
    destruct (cheaper z y); by apply IH in Eb.
Qed.

Lemma min_line_none ls : min_line ls = None -> ls = [].
Proof.
  unfold min_line. destruct ls as [|l ls] using rev_ind; [done|]. rewrite fold_left_app. simpl.
  destruct (fold_left _ ls None) as [b|]; [|done]. by destruct (cheaper l b).
Qed.

Lemma update_first_spec {E A} (f : M CreditLine E A) l ls :
  NoDup (line_id <$> ls) -> l ∈ ls ->
  update_first (line_id l) f ls =
    (Some (f l).1, (fun x => if decide (x = l) then (f l).2 else x) <$> ls).
Proof.
  induction ls as [|x ls IH]; intros Hnd Hin; [by apply not_elem_of_nil in Hin|].
  simpl in Hnd. apply NoDup_cons in Hnd as [Hni Hnd]. cbn [update_first]. rewrite fmap_cons.
  apply elem_of_cons in Hin as [->|Hin].
  - rewrite bool_decide_true, decide_True by done. destruct (f x) as [r l'] eqn:Ef. simpl. f_equal. f_equal.
    symmetry. etrans; [|apply list_fmap_id]. apply list_fmap_ext. intros i y Hy.
    rewrite decide_False; [done|]. intros ->. apply Hni.
    apply list_elem_of_fmap_2. by eapply list_elem_of_lookup_2.
  - assert (line_id x <> line_id l) as Hne.
    { intros Heq. apply Hni. rewrite Heq. by apply list_elem_of_fmap_2. }
    rewrite bool_decide_false, decide_False by congruence. by rewrite IH.
Qed.

Lemma eligible_draw now amount l :
  line_ok l -> 0 <= amount -> eligible now amount l = true ->
  draw now amount l = (Ok (available l - amount), set_used (used l + amount) l).
Proof.
  intros Hok Ha He. unfold eligible in He. apply andb_true_iff in He as [He Hle].
  apply andb_true_iff in He as [Hs Hx]. apply Z.leb_le in Hle. unfold available in *.
  rewrite Hs in *. simpl in *. apply negb_true_iff in Hx. rewrite draw_spec, Hs, Hx by done. simpl.
  destruct Hok as [_ Hu]. rewrite saturating_sub_ge in * by lia.
  by rewrite (proj2 (Z.ltb_ge _ _)) by lia.
Qed.

(** Drawing on the best line: with the clock unchanged between choice and draw, the
    call fails only if no line can pay; otherwise it draws on an eligible line no
    eligible line beats (lowest rate, then most credit left) and touches no other. *)
Theorem draw_best_available_spec now amount m :
  NoDup (line_id <$> lines m) -> Forall line_ok (lines m) -> 0 <= amount ->
  (draw_best_available now now amount m = (Err (NoEligibleLine amount), m) /\
   forall l, l ∈ lines m -> eligible now amount l = false) \/
  exists best, best ∈ lines m /\ eligible now amount best = true /\
    (forall l, l ∈ lines m -> eligible now amount l = true -> cheaper l best = false) /\
    draw_best_available now now amount m =
      (Ok (line_id best, available best - amount),
       mkManager ((fun x => if decide (x = best) then set_used (used best + amount) best else x)
                    <$> lines m)).
Proof.
  intros Hnd Hok Ha. unfold draw_best_available, get, lift, put, mbind, M_bind, mret, M_ret.
  unfold best_available_line. destruct (min_line _) as [best|] eqn:Em; simpl.
  - right. apply min_line_spec in Em as [Hin Hmin].
    apply list_elem_of_In, filter_In in Hin as [Hin%list_elem_of_In He]. exists best. split_and!; [done..| |].
    + intros l Hl Hel. apply Hmin. apply list_elem_of_In, filter_In. split; [by apply list_elem_of_In|done].
    + rewrite update_first_spec by done. rewrite Forall_forall in Hok.
      rewrite (eligible_draw now amount best (Hok _ Hin) Ha He). done.
  - left. split; [by destruct m|]. apply min_line_none in Em. intros l Hl.
    destruct (eligible now amount l) eqn:E; [|done].
    assert (l ∈ List.filter (eligible now amount) (lines m)) as Hc.
    { apply list_elem_of_In, filter_In. split; [by apply list_elem_of_In|done]. }
    rewrite Em in Hc. by apply not_elem_of_nil in Hc.
Qed.

(** ** Witnesses *)

Module CreditExamples.
Definition line (id bps u : Z) : CreditLine := mkLine id "lender" "bob" 1000 u bps 30 0 (30 * MS_PER_DAY) Active.

Definition manager : CreditLineManager := mkManager [line 1 700 0; line 2 500 400; line 3 500 100].

Lemma line_is_ok id bps u : 0 <= u <= 1000 -> line_ok (line id bps u).
Proof. intros Hu. unfold line_ok, in_u64, U64_MAX. simpl. lia. Qed.
End CreditExamples.

Import CreditExamples.

Lemma credit_line_lifecycle_witness : line_ok (draw 5 300 (line 1 700 0)).2 /\ used (draw 5 300 (line 1 700 0)).2 = 300.
Proof.
  split; [|reflexivity].
  apply (credit_line_lifecycle (line 1 700 0)); [apply step_draw; lia|apply line_is_ok; lia].
Defined.

Lemma closed_debt_is_stuck_witness :
  exists l', close (line 1 700 250) = (Ok tt, l') /\ used l' = 250.
Proof.
  destruct (closed_debt_is_stuck (line 1 700 250)) as (l' & Hc & _ & Hu & _);
    [apply line_is_ok; lia|reflexivity|discriminate|].
  exists l'. split; [exact Hc|exact Hu].
Defined.

Lemma draw_best_available_spec_witness :
  (draw_best_available 5 5 300 manager = (Err (NoEligibleLine 300), manager) /\
   forall l, l ∈ lines manager -> eligible 5 300 l = false) \/
  exists best, best ∈ lines manager /\ eligible 5 300 best = true /\
    (forall l, l ∈ lines manager -> eligible 5 300 l = true -> cheaper l best = false) /\
    draw_best_available 5 5 300 manager =
      (Ok (line_id best, available best - 300),
       mkManager ((fun x => if decide (x = best) then set_used (used best + 300) best else x)
                    <$> lines manager)).
Proof.
  apply (draw_best_available_spec 5 300 manager).
  - apply (bool_decide_eq_true_1 _). vm_compute. reflexivity.
  - repeat constructor; apply line_is_ok; lia.
  - lia.
Defined.

(** The draw lands on line 3: the lowest rate, and more credit left than line 2. *)
Example draw_best_picks_third : (draw_best_available 5 5 300 manager).1 = Ok (3, 600).
Proof. reflexivity. Qed.
