(* ===== verification/Wallet.v ===== *)
(** * Tokens, balances and wallets

    [protocol/src/vault/token.rs] (token identifiers), [vault/balance.rs] (the
    balance sheet) and [vault/wallet.rs] (the wallet: deposits, withdrawals, nonce,
    freezing).  Instants are arguments; the RFC 3339 text of an instant is the
    parameter [rfc3339] of [freeze]. *)

From S2P Require Import Prelude Bytes Crypto Transaction.

#[local] Open Scope Z_scope.

(** ** Token identifiers *)

Notation TokenId := (list Z).

Inductive TokenType :=
| FiatBacked (c : Currency)
| CryptoToken (c : Currency)
| Stablecoin (c : Currency)
| Native
| LoyaltyPoints
| Asset (class : string).

Definition discriminant (t : TokenType) : Z :=
  match t with
  | FiatBacked _ => 1 | CryptoToken _ => 2 | Stablecoin _ => 3 | Native => 4 | LoyaltyPoints => 5
  | Asset _ => 6
  end.

Record TokenInfo := mkToken {
  token_id : TokenId;
  token_name : string;
  symbol : string;
  token_decimals : Z;
  total_supply : Z;
  issuer : string;
  token_type : TokenType
}.

Section Token.
Context {C : Crypto}.

Definition token_preimage (name symbol : string) (t : TokenType) (issuer : string) : list Z :=
  str_bytes name ++ [0] ++ str_bytes symbol ++ [0] ++ [discriminant t] ++ [0] ++ str_bytes issuer.

Definition derive (name symbol : string) (t : TokenType) (issuer : string) : TokenId :=
  blake3_hash (token_preimage name symbol t issuer).

Definition token_create (name symbol : string) (dec : Z) (t : TokenType) (issuer : string) : TokenInfo :=
  mkToken (derive name symbol t issuer) name symbol dec 0 issuer t.

Definition new_with_supply (name symbol : string) (dec : Z) (t : TokenType) (issuer : string)
    (supply : Z) : TokenInfo :=
  let info := token_create name symbol dec t issuer in
  mkToken (token_id info) (token_name info) symbol (token_decimals info) supply
    issuer (token_type info).

(** The pre-defined tokens. *)
Definition SYSTEM_ISSUER : string :=
  "nova:0000000000000000000000000000000000000000000000000000000000000000".

Definition nova_brl : TokenInfo := token_create "NOVA Brazilian Real" "nBRL" 2 (FiatBacked BRL) SYSTEM_ISSUER.
Definition nova_usd : TokenInfo := token_create "NOVA US Dollar" "nUSD" 2 (FiatBacked USD) SYSTEM_ISSUER.
Definition nova_eur : TokenInfo := token_create "NOVA Euro" "nEUR" 2 (FiatBacked EUR) SYSTEM_ISSUER.
Definition nova_btc : TokenInfo := token_create "NOVA Bitcoin" "nBTC" 8 (CryptoToken BTC) SYSTEM_ISSUER.
Definition nova_eth : TokenInfo := token_create "NOVA Ether" "nETH" 18 (CryptoToken ETH) SYSTEM_ISSUER.
Definition nova_usdc : TokenInfo := token_create "NOVA USDC" "nUSDC" 6 (Stablecoin USDC) SYSTEM_ISSUER.
Definition nova_usdt : TokenInfo := token_create "NOVA USDT" "nUSDT" 6 (Stablecoin (Custom "USDT")) SYSTEM_ISSUER.
Definition nova_native : TokenInfo :=
  new_with_supply "NOVA" "NOVA" 8 Native SYSTEM_ISSUER 100000000000000000.

Definition native_token_id : TokenId := token_id nova_native.
Definition brl_token_id : TokenId := token_id nova_brl.
Definition usd_token_id : TokenId := token_id nova_usd.
End Token.

(** ** Balances *)

Inductive BalanceError :=
| BalInsufficient (t : TokenId) (available requested : Z)
| BalOverflow (t : TokenId) (current credit : Z)
| TokenNotFound (t : TokenId).

Record Balance := mkBalance {
  bal_token : TokenId;
  amount : Z;
  committed_amount : list Z;
  last_updated : Z
}.

Definition balance_new (now : Z) (t : TokenId) : Balance := mkBalance t 0 [] now.

Definition with_amount (now : Z) (t : TokenId) (amt : Z) (commitment : list Z) : Balance :=
  mkBalance t amt commitment now.

Definition is_zero (b : Balance) : bool := amount b =? 0.

Record BalanceSheet := mkSheet { balances : gmap TokenId Balance }.

Definition sheet_new : BalanceSheet := mkSheet ∅.

(** [entry(t).or_insert_with(..)] leaves the new entry behind even if the credit fails. *)
Definition sheet_credit (now : Z) (t : TokenId) (amt : Z) (commitment : list Z)
    : M BalanceSheet BalanceError Z := fun s =>
  let balance := default (balance_new now t) (balances s !! t) in
  match checked_add (amount balance) amt with
  | None => (Err (BalOverflow t (amount balance) amt), mkSheet (<[t := balance]> (balances s)))
  | Some new_amount =>
      (Ok new_amount, mkSheet (<[t := mkBalance (bal_token balance) new_amount commitment now]> (balances s)))
  end.

Definition sheet_debit (now : Z) (t : TokenId) (amt : Z) (commitment : list Z)
    : M BalanceSheet BalanceError Z := fun s =>
  match balances s !! t with
  | None => (Err (TokenNotFound t), s)
  | Some balance =>
      if amount balance <? amt then (Err (BalInsufficient t (amount balance) amt), s)
      else
        let new_amount := amount balance - amt in
        (Ok new_amount, mkSheet (<[t := mkBalance (bal_token balance) new_amount commitment now]> (balances s)))
  end.

Definition get_balance (t : TokenId) (s : BalanceSheet) : option Z := amount <$> balances s !! t.

Definition get_balance_record (t : TokenId) (s : BalanceSheet) : option Balance := balances s !! t.

(** The order of the pairs is that of the map; nothing below depends on it. *)
Definition all_balances (s : BalanceSheet) : list (TokenId * Z) :=
  (fun kv => (kv.1, amount kv.2)) <$> filter (fun kv => Is_true (negb (is_zero kv.2))) (map_to_list (balances s)).

Definition token_count (s : BalanceSheet) : nat := size (balances s).

Definition sheet_is_empty (s : BalanceSheet) : bool := (token_count s =? 0)%nat.

(** There is no price feed: a total in one currency is never computed. *)
Definition total_value_in (target_currency : Currency) (s : BalanceSheet) : option Z := None.

Definition remove_token (t : TokenId) (s : BalanceSheet) : option Balance * BalanceSheet :=
  (balances s !! t, mkSheet (delete t (balances s))).

(** ** Wallets *)

Inductive WalletError :=
| WalBalance (e : BalanceError)
| ZeroAmount
| WalFrozen (reason : string).

Record Wallet := mkWallet {
  owner : string;
  wal_balances : BalanceSheet;
  wal_nonce : Z;
  wal_created_at : Z;
  metadata : gmap string string;
  wal_frozen : bool
}.

Record TransferReceipt := mkReceipt {
  rc_token_id : TokenId;
  rc_amount : Z;
  remaining_balance : Z;
  rc_nonce : Z;
  rc_timestamp : Z
}.

Definition wallet_new (now : Z) (owner_address : string) : Wallet :=
  mkWallet owner_address sheet_new 0 now ∅ false.

Definition set_wal_balances (b : BalanceSheet) (w : Wallet) : Wallet :=
  mkWallet (owner w) b (wal_nonce w) (wal_created_at w) (metadata w) (wal_frozen w).

Definition set_wal_nonce (n : Z) (w : Wallet) : Wallet :=
  mkWallet (owner w) (wal_balances w) n (wal_created_at w) (metadata w) (wal_frozen w).

(** [metadata_mut] lends the table to its caller, who leaves it as [edit] makes it. *)
Definition metadata_mut (edit : gmap string string -> gmap string string) (w : Wallet) : Wallet :=
  mkWallet (owner w) (wal_balances w) (wal_nonce w) (wal_created_at w) (edit (metadata w)) (wal_frozen w).

Definition next_nonce {E} : M Wallet E Z :=
  w ← get;
  n ← u64_add (wal_nonce w) 1;
  _ ← modify (set_wal_nonce n);
  mret n.

Definition check_outgoing : M Wallet WalletError unit :=
  w ← get;
  require (negb (wal_frozen w)) else
    (WalFrozen (default "no reason provided"%string (metadata w !! "freeze_reason"%string)));
  mret tt.

Definition wallet_freeze (rfc3339 : Z -> string) (now : Z) (reason : string) (w : Wallet) : Wallet :=
  mkWallet (owner w) (wal_balances w) (wal_nonce w) (wal_created_at w)
    (<["frozen_at"%string := rfc3339 now]> (<["freeze_reason"%string := reason]> (metadata w))) true.

Definition wallet_unfreeze (w : Wallet) : Wallet :=
  mkWallet (owner w) (wal_balances w) (wal_nonce w) (wal_created_at w)
    (delete "frozen_at"%string (delete "freeze_reason"%string (metadata w))) false.

Section WalletOps.
Context {C : Crypto}.

Definition placeholder_commitment (t : TokenId) (amt : Z) : list Z := blake3_hash (t ++ le_bytes 8 amt).

Definition deposit (now : Z) (t : TokenId) (amt : Z) : M Wallet WalletError Z :=
  require (negb (amt =? 0)) else ZeroAmount;
  zoom wal_balances set_wal_balances
    (map_err WalBalance (sheet_credit now t amt (placeholder_commitment t amt))).

Definition withdraw (now : Z) (t : TokenId) (amt : Z) : M Wallet WalletError (Z * Z) :=
  _ ← check_outgoing;
  require (negb (amt =? 0)) else ZeroAmount;
  remaining ← zoom wal_balances set_wal_balances
    (map_err WalBalance (sheet_debit now t amt (placeholder_commitment t amt)));
  nonce ← next_nonce;
  mret (remaining, nonce).

Definition transfer_out (now : Z) (t : TokenId) (amt : Z) : M Wallet WalletError TransferReceipt :=
  _ ← check_outgoing;
  require (negb (amt =? 0)) else ZeroAmount;
  remaining ← zoom wal_balances set_wal_balances
    (map_err WalBalance (sheet_debit now t amt (placeholder_commitment t amt)));
  nonce ← next_nonce;
  mret (mkReceipt t amt remaining nonce now).
End WalletOps.

(** ** Token identifiers are content addresses *)

Section TokenProofs.
Context {C : Crypto}.

(** Two registrations share an identifier exactly when name, symbol, issuer and the
    type's one-byte tag agree, or the two hashed messages collide.  The tag leaves out what the type
    carries: tokens backed by different currencies share an identifier. *)
Theorem token_id_iff n s t i n' s' t' i' :
  no_nul n -> no_nul n' -> no_nul s -> no_nul s' ->
  (derive n s t i = derive n' s' t' i' <->
   (n, s, discriminant t, i) = (n', s', discriminant t', i') \/
   collision [token_preimage n s t i; token_preimage n' s' t' i']).
Proof.
  intros Hn Hn' Hs Hs'. split.
  - intros Heq. destruct (decide (token_preimage n s t i = token_preimage n' s' t' i')) as [E|E].
    + left. unfold token_preimage in E. simpl in E.
      apply app_zero_inj in E as [E1 E]; [|done..]. apply app_zero_inj in E as [E2 E]; [|done..].
      injection E as E3 E4. apply str_bytes_inj in E1, E2, E4. congruence.
    + right. by apply collides_pair.
  - intros [Heq|[_ Heq]%collides_pair]; [|exact Heq]. injection Heq as -> -> Hd ->.
    unfold derive, token_preimage. by rewrite Hd.
Qed.

Definition system_tokens : list TokenInfo :=
  [nova_brl; nova_usd; nova_eur; nova_btc; nova_eth; nova_usdc; nova_usdt; nova_native].

(** What is hashed for them. *)
Definition system_preimages : list (list Z) :=
  (fun i => token_preimage (token_name i) (symbol i) (token_type i) (issuer i)) <$> system_tokens.

(** The pre-defined tokens have distinct identifiers, or two of these messages collide. *)
Lemma system_tokens_distinct : NoDup (token_id <$> system_tokens) \/ collision system_preimages.
Proof.
  apply (digests_distinct blake3 system_preimages). apply (bool_decide_unpack _). vm_compute. exact I.
Qed.
End TokenProofs.

(** ** A wallet's history *)

Inductive wal_op :=
| OpDeposit (now : Z) (t : TokenId) (amt : Z)
| OpWithdraw (now : Z) (t : TokenId) (amt : Z)
| OpTransferOut (now : Z) (t : TokenId) (amt : Z)
| OpFreeze (now : Z) (reason : string)
| OpUnfreeze
| OpMetadata (edit : gmap string string -> gmap string string)
| OpNextNonce.

Section History.
Context {C : Crypto} (rfc3339 : Z -> string).

(** An operation, whether it succeeded, and the wallet after it. *)
Definition wal_exec (op : wal_op) (w : Wallet) : res WalletError unit * Wallet :=
  match op with
  | OpDeposit now t a => let '(r, w') := deposit now t a w in (r ≫= fun _ => Ok tt, w')
  | OpWithdraw now t a => let '(r, w') := withdraw now t a w in (r ≫= fun _ => Ok tt, w')
  | OpTransferOut now t a => let '(r, w') := transfer_out now t a w in (r ≫= fun _ => Ok tt, w')
  | OpFreeze now reason => (Ok tt, wallet_freeze rfc3339 now reason w)
  | OpUnfreeze => (Ok tt, wallet_unfreeze w)
  | OpMetadata edit => (Ok tt, metadata_mut edit w)
  | OpNextNonce => let '(r, w') := next_nonce w in (r ≫= fun _ => Ok tt, w')
  end.

Definition is_ok {E A} (r : res E A) : bool := match r with Ok _ => true | _ => false end.

Fixpoint wal_run (ops : list wal_op) (w : Wallet) : list (wal_op * bool) * Wallet :=
  match ops with
  | [] => ([], w)
  | op :: ops' =>
      let '(r, w') := wal_exec op w in
      let '(log, w'') := wal_run ops' w' in ((op, is_ok r) :: log, w'')
  end.

(** What an operation adds to a token's balance when it succeeds. *)
Definition op_net (t : TokenId) (op : wal_op) : Z :=
  match op with
  | OpDeposit _ t' a => if decide (t' = t) then a else 0
  | OpWithdraw _ t' a | OpTransferOut _ t' a => if decide (t' = t) then - a else 0
  | _ => 0
  end.

Definition op_out (op : wal_op) : Z :=
  match op with OpWithdraw _ _ _ | OpTransferOut _ _ _ => 1 | _ => 0 end.

(** What it adds to the nonce: an outgoing operation takes one, and so does a caller that
    asks for the next. *)
Definition op_nonce (op : wal_op) : Z :=
  match op with OpNextNonce => 1 | _ => op_out op end.

(** Whether a wallet is frozen after an operation, [b] telling whether it was before. *)
Definition op_frozen (op : wal_op) (b : bool) : bool :=
  match op with OpFreeze _ _ => true | OpUnfreeze => false | _ => b end.

Definition op_amount_ok (op : wal_op) : Prop :=
  match op with OpDeposit _ _ a | OpWithdraw _ _ a | OpTransferOut _ _ a => in_u64 a | _ => True end.

Definition bal (t : TokenId) (w : Wallet) : Z := default 0 (get_balance t (wal_balances w)).

Definition wallet_ok (w : Wallet) : Prop :=
  (forall t b, balances (wal_balances w) !! t = Some b -> in_u64 (amount b)) /\ 0 <= wal_nonce w.

Lemma bal_insert t b w t' :
  bal t' (set_wal_balances (mkSheet (<[t := b]> (balances (wal_balances w)))) w) =
  if decide (t = t') then amount b else bal t' w.
Proof.
  unfold bal, get_balance. simpl. case_decide; [subst; by rewrite lookup_insert_eq|by rewrite lookup_insert_ne].
Qed.

Lemma wallet_ok_insert t b w :
  wallet_ok w -> in_u64 (amount b) -> wallet_ok (set_wal_balances (mkSheet (<[t := b]> (balances (wal_balances w)))) w).
Proof.
  intros [Hw Hn] Hb. split; [|done]. simpl. intros t' b' [[_ <-]|[_ Hb']]%lookup_insert_Some; [done|by apply (Hw t')].
Qed.

Lemma bal_u64 t w : wallet_ok w -> in_u64 (bal t w).
Proof.
  intros [Hw _]. unfold bal, get_balance. destruct (balances (wal_balances w) !! t) eqn:E; simpl;
    [by apply (Hw t)|unfold in_u64, U64_MAX; lia].
Qed.

(** The effect of one operation: its net amount on success, nothing at all on error. *)
Definition effect_ok (op : wal_op) (r : res WalletError unit) (w w' : Wallet) : Prop :=
  match r with
  | Ok _ => wallet_ok w' /\ (forall t, bal t w' = bal t w + op_net t op) /\
            wal_nonce w' = wal_nonce w + op_nonce op /\ wal_frozen w' = op_frozen op (wal_frozen w) /\
            (op_out op = 1 -> wal_frozen w = false)
  | Err _ => w' = w /\ forall b, op_frozen op b = b
  | Panic => False
  end.

Lemma deposit_effect now t a w :
  wallet_ok w -> in_u64 a -> effect_ok (OpDeposit now t a) (wal_exec (OpDeposit now t a) w).1 w (wal_exec (OpDeposit now t a) w).2.
Proof.
  intros Hw Ha. pose proof (bal_u64 t w Hw) as Hb. unfold wal_exec, deposit.
  destruct (Z.eqb_spec a 0); simpl; [done|]. unfold zoom, map_err, sheet_credit.
  set (b := default (balance_new now t) (balances (wal_balances w) !! t)).
  assert (amount b = bal t w) as Hab.
  { unfold b, bal, get_balance. by destruct (balances (wal_balances w) !! t). }
  unfold checked_add. rewrite Hab. unfold in_u64 in *.
  destruct (Z.leb_spec (bal t w + a) U64_MAX); simpl.
  - split; [|split; [|by repeat split; simpl; lia]].
    + apply wallet_ok_insert; [done|]. unfold in_u64. simpl. lia.
    + intros t'. rewrite bal_insert. simpl. case_decide; subst; lia.
  - destruct (balances (wal_balances w) !! t) as [b'|] eqn:E.
    + unfold b. simpl. rewrite insert_id by done. by destruct w as [? [?] ? ? ? ?].
    + unfold bal, get_balance in *. rewrite E in *. simpl in *. lia.
Qed.

Lemma debit_effect now t a commit (w : Wallet) :
  wallet_ok w -> in_u64 a -> a <> 0 ->
  match zoom wal_balances set_wal_balances (map_err WalBalance (sheet_debit now t a commit)) w with
  | (Ok r, w') => r = bal t w - a /\ wallet_ok w' /\ wal_nonce w' = wal_nonce w /\
      wal_frozen w' = wal_frozen w /\
      forall t', bal t' w' = bal t' w - if decide (t = t') then a else 0
  | (Err _, w') => w' = w
  | (Panic, _) => False
  end.
Proof.
  intros Hw Ha Hne. unfold zoom, map_err, sheet_debit.
  destruct (balances (wal_balances w) !! t) as [b|] eqn:E; [|by destruct w as [? [?] ? ? ? ?]].
  assert (bal t w = amount b) as Hb by (unfold bal, get_balance; by rewrite E).
  pose proof (proj1 Hw t b E) as Hu. unfold in_u64 in *.
  destruct (Z.ltb_spec (amount b) a); simpl; [by destruct w as [? [?] ? ? ? ?]|].
  split; [lia|]. split; [apply wallet_ok_insert; [done|]; unfold in_u64; simpl; lia|]. split; [done|]. split; [done|].
  intros t'. rewrite bal_insert. simpl. case_decide; subst; lia.
Qed.

Lemma next_nonce_spec w :
  wallet_ok w -> wal_nonce w < U64_MAX ->
  next_nonce (E := WalletError) w = (Ok (wal_nonce w + 1), set_wal_nonce (wal_nonce w + 1) w).
Proof. intros [_ Hn] Hlt. unfold next_nonce. run. by rewrite (proj2 (Z.leb_le _ _)) by lia. Qed.

Lemma outgoing_effect (out : bool) now t a w :
  wallet_ok w -> in_u64 a -> wal_nonce w < U64_MAX ->
  let op := if out then OpTransferOut now t a else OpWithdraw now t a in
  effect_ok op (wal_exec op w).1 w (wal_exec op w).2.
Proof.
  intros Hw Ha Hn op.
  assert (forall w', wallet_ok w' -> wal_nonce w' = wal_nonce w ->
    next_nonce (E := WalletError) w' = (Ok (wal_nonce w + 1), set_wal_nonce (wal_nonce w + 1) w')) as Hnn.
  { intros w' Hw' He. rewrite <- He. apply next_nonce_spec; [done|lia]. }
  destruct out; subst op; unfold wal_exec, withdraw, transfer_out, check_outgoing;
    unfold get, throw, mret, M_ret, mbind, M_bind;
    destruct (wal_frozen w) eqn:Hfz; simpl; try done; destruct (Z.eqb_spec a 0); simpl; try done;
    pose proof (debit_effect now t a (placeholder_commitment t a) w Hw Ha ltac:(done)) as Hd;
    destruct (zoom _ _ _ w) as [[r|e|] w1]; try done;
    destruct Hd as (-> & Hw1 & Hn1 & Hf1 & Hbal); rewrite (Hnn w1 Hw1 Hn1); simpl.
  all: split; [|split; [|split; [simpl; lia|split; [by rewrite <- Hf1|done]]]]; [destruct Hw1 as [Hw1 ?], Hw; split; [exact Hw1|simpl; lia]|].
  all: intros t'; change (bal t' (set_wal_nonce (wal_nonce w + 1) w1)) with (bal t' w1);
    rewrite Hbal; simpl; case_decide; lia.
Qed.

Lemma wal_exec_effect op w :
  wallet_ok w -> op_amount_ok op -> wal_nonce w < U64_MAX ->
  effect_ok op (wal_exec op w).1 w (wal_exec op w).2.
Proof.
  intros Hw Ha Hn.
  destruct op; cbn [op_amount_ok] in Ha;
    [by apply deposit_effect|by apply (outgoing_effect false)|by apply (outgoing_effect true)|..];
    unfold wal_exec; try (rewrite next_nonce_spec by done; destruct Hw as [Hw Hn0]; split; [split; [exact Hw|simpl; lia]|];
      split; [intros t'; unfold bal; simpl; lia|by repeat split; simpl; lia]);
    (split; [done|]; split; [intros t'; unfold bal; simpl; lia|by repeat split; simpl; lia]).
Qed.

Definition log_sum (f : wal_op -> Z) (log : list (wal_op * bool)) : Z :=
  sumZ (fun e => if (e.2 : bool) then f e.1 else 0) log.

(** No outgoing operation of the log succeeded while the wallet was frozen. *)
Fixpoint frozen_respected (b : bool) (log : list (wal_op * bool)) : bool :=
  match log with
  | [] => true
  | (op, ok) :: log' => negb (ok && b && (op_out op =? 1)) && frozen_respected (op_frozen op b) log'
  end.

Lemma wal_run_effect ops w :
  wallet_ok w -> Forall op_amount_ok ops -> wal_nonce w + Z.of_nat (length ops) <= U64_MAX ->
  wallet_ok (wal_run ops w).2 /\
  (forall t, bal t (wal_run ops w).2 = bal t w + log_sum (op_net t) (wal_run ops w).1) /\
  wal_nonce (wal_run ops w).2 = wal_nonce w + log_sum op_nonce (wal_run ops w).1 /\
  frozen_respected (wal_frozen w) (wal_run ops w).1 = true.
Proof.
  intros Hw Hf. revert w Hw; induction Hf as [|op ops Ha Hf IH]; intros w Hw Hn; cbn [wal_run length] in *.
  { unfold log_sum. simpl. split; [done|]. split; [|split; [|done]]; intros; lia. }
  pose proof (wal_exec_effect op w Hw Ha ltac:(lia)) as He.
  destruct (wal_exec op w) as [r w1]. simpl in He.
  assert (wallet_ok w1 /\ wal_nonce w1 <= wal_nonce w + 1) as [Hw1 Hn1].
  { destruct r; simpl in He; [|by destruct He as [-> _]; split; [|lia]|done].
    destruct He as (? & _ & -> & _). split; [done|]. destruct op; simpl; lia. }
  specialize (IH w1 Hw1 ltac:(lia)). destruct (wal_run ops w1) as [log w2]. simpl in *.
  destruct IH as (Hw2 & Hb & Hn2 & Hf2). unfold log_sum in *. cbn [sumZ fst snd frozen_respected].
  split; [done|]. destruct r as [[]|e|]; simpl in *; [|destruct He as [-> Hop]|done].
  - destruct He as (_ & Hb1 & Hnn & Hfz & Hout). split; [intros t; rewrite Hb, Hb1; lia|split; [lia|]].
    rewrite Hfz in Hf2. rewrite Hf2, andb_true_r. destruct (Z.eqb_spec (op_out op) 1); [|by rewrite andb_false_r].
    by rewrite Hout.
  - split; [intros t; rewrite Hb; lia|split; [lia|by rewrite Hop]].
Qed.

Lemma all_balances_spec t a (w : Wallet) :
  (t, a) ∈ all_balances (wal_balances w) <-> bal t w = a /\ a <> 0.
Proof.
  unfold all_balances, bal, get_balance, is_zero. rewrite list_elem_of_fmap. split.
  - intros ([t' b] & [= -> ->] & [Hz Hin]%list_elem_of_filter). apply elem_of_map_to_list in Hin. simpl in *.
    rewrite Hin. simpl. destruct (Z.eqb_spec (amount b) 0); [done|]. done.
  - destruct (balances (wal_balances w) !! t) as [b|] eqn:E; simpl; [|by intros [<- ?]].
    intros [<- Hz]. exists (t, b). split; [done|]. apply list_elem_of_filter. simpl.
    rewrite (proj2 (Z.eqb_neq _ _) Hz). split; [done|]. by apply elem_of_map_to_list.
Qed.

(** C34. A wallet's books: after any history, every balance is the sum of the successful
    deposits minus the successful withdrawals and transfers, never negative and
    never past 64 bits, the listing of balances names exactly the tokens whose balance
    is not zero, the nonce counts exactly the successful outgoing operations and the
    calls for the next nonce, and no outgoing operation succeeded while the wallet was
    frozen, whatever the metadata, which holds the reason of the freeze, was edited to. *)
Theorem wallet_books_balance ops now own t :
  Forall op_amount_ok ops -> Z.of_nat (length ops) <= U64_MAX ->
  let '(log, w) := wal_run ops (wallet_new now own) in
  bal t w = log_sum (op_net t) log /\ in_u64 (bal t w) /\
  (forall a, (t, a) ∈ all_balances (wal_balances w) <-> bal t w = a /\ a <> 0) /\
  wal_nonce w = log_sum op_nonce log /\ frozen_respected false log = true.
Proof.
  intros Hf Hn. assert (wallet_ok (wallet_new now own)) as Hw by (split; [done|simpl; lia]).
  pose proof (wal_run_effect ops (wallet_new now own) Hw Hf Hn) as Hr.
  destruct (wal_run ops (wallet_new now own)) as [log w]. simpl in Hr. destruct Hr as (Hok & Hb & Hnn & Hfz).
  split; [by rewrite Hb|]. split; [by apply bal_u64|]. split; [intros a; apply all_balances_spec|done].
Qed.
End History.

(** What it hashes. *)
Definition commitment_preimage (t : TokenId) (amt : Z) : list Z := t ++ le_bytes 8 amt.

(** The commitment stored with a balance is that of the last amount moved, not of
    the balance: after two deposits it commits to the second one. *)
Theorem commitment_not_of_balance {C : Crypto} now t a b w w1 w2 x y :
  in_u64 a -> in_u64 b -> 0 < a -> in_u64 (a + b) ->
  deposit now t a w = (Ok x, w1) -> deposit now t b w1 = (Ok y, w2) ->
  committed_amount <$> balances (wal_balances w2) !! t = Some (placeholder_commitment t b) /\
  (placeholder_commitment t b <> placeholder_commitment t (a + b) \/
   collision [commitment_preimage t b; commitment_preimage t (a + b)]).
Proof.
  intros Ha Hb Hpos Hab _ Hd. split.
  - unfold deposit in Hd. destruct (b =? 0); [done|]. cbn [negb] in Hd.
    unfold zoom, map_err, sheet_credit in Hd. destruct (checked_add _ b); [|done].
    injection Hd as <- <-. simpl. by rewrite lookup_insert_eq.
  - destruct (decide (placeholder_commitment t b = placeholder_commitment t (a + b))) as [E|]; [|by left].
    right. apply collides_pair. split; [|exact E]. intros Heq. apply (app_inv_head t) in Heq.
    apply le_bytes_inj in Heq; [lia|..]; unfold in_u64, U64_MAX in *; lia.
Qed.

(** ** Witnesses *)

Module WalletExamples.
#[export] Existing Instance toy_crypto.

Definition brl : TokenId := derive "Real" "nBRL" (FiatBacked BRL) "nova".

Definition history : list wal_op :=
  [OpDeposit 1 brl 100; OpWithdraw 2 brl 30; OpTransferOut 3 brl 500; OpFreeze 4 "audit";
   OpMetadata (fun _ => ∅); OpNextNonce; OpWithdraw 5 brl 1].

Definition w0 : Wallet := wallet_new 0 "nova".
Definition w1 : Wallet := (deposit 1 brl 10 w0).2.
Definition w2 : Wallet := (deposit 1 brl 5 w1).2.
End WalletExamples.

Import WalletExamples.

Lemma token_id_iff_witness :
  derive "Real" "nBRL" (FiatBacked BRL) "nova" = derive "Real" "nBRL" (FiatBacked USD) "nova".
Proof.
  apply (token_id_iff "Real" "nBRL" (FiatBacked BRL) "nova" "Real" "nBRL" (FiatBacked USD) "nova");
    try (unfold no_nul; intros Hin%list_elem_of_In; vm_compute in Hin; intuition discriminate).
  left. reflexivity.
Defined.

Lemma wallet_books_balance_witness :
  let '(log, w) := wal_run (fun _ => ""%string) history (wallet_new 0 "nova") in
  bal brl w = log_sum (op_net brl) log /\ in_u64 (bal brl w) /\
  (forall a, (brl, a) ∈ all_balances (wal_balances w) <-> bal brl w = a /\ a <> 0) /\
  wal_nonce w = log_sum op_nonce log /\ frozen_respected false log = true.
Proof.
  apply (wallet_books_balance (fun _ => ""%string) history 0 "nova" brl).
  - repeat constructor; vm_compute; discriminate.
  - vm_compute. discriminate.
Defined.

(** 70 units left and two nonces taken: the overdraft and the withdrawal from the frozen wallet failed. *)
Example history_result :
  let '(_, w) := wal_run (fun _ => ""%string) history (wallet_new 0 "nova") in (bal brl w, wal_nonce w) = (70, 2).
Proof. vm_compute. reflexivity. Qed.

Lemma commitment_not_of_balance_witness :
  committed_amount <$> balances (wal_balances w2) !! brl = Some (placeholder_commitment brl 5) /\
  (placeholder_commitment brl 5 <> placeholder_commitment brl 15 \/
   collision [commitment_preimage brl 5; commitment_preimage brl 15]).
Proof.
  apply (commitment_not_of_balance 1 brl 10 5 w0 w1 w2 10 15);
    try (unfold in_u64, U64_MAX; lia); try lia; vm_compute; reflexivity.
Defined.
