(* ===== verification/Escrow.v ===== *)
(** * Credit escrow and disputes

    [contracts/src/credit_escrow.rs] and [contracts/src/dispute_resolution.rs].
    Instants are milliseconds and arguments; [min_utc] and [max_utc] bound what the
    date library represents (an addition past them panics).  Identifiers the code
    draws at random are arguments. *)

From S2P Require Import Prelude.

#[local] Open Scope Z_scope.

Module Escrow.

Inductive EscrowStatus := Pending | Funded | Active | Completed | Disputed | Defaulted.

#[global] Instance EscrowStatus_eq_dec : EqDecision EscrowStatus.
Proof. solve_decision. Defined.

Definition display_escrow_status (s : EscrowStatus) : string :=
  match s with
  | Pending => "Pending" | Funded => "Funded" | Active => "Active"
  | Completed => "Completed" | Disputed => "Disputed" | Defaulted => "Defaulted"
  end.

Inductive EscrowError :=
| InvalidState (current expected : string)
| AmountOverflow
| Overfunded (attempted remaining : Z)
| InsufficientEscrowed (requested available : Z)
| Overpayment (attempted outstanding : Z)
| AlreadyDisputed.

Record CreditTerms := mkTerms {
  terms_principal : Z;
  terms_interest_rate_bps : Z;
  total_owed : Z;
  repayment_deadline : Z;
  grace_period_secs : Z
}.

Record CreditEscrow := mkEscrow {
  escrow_id : string;
  lender : string;
  borrower : string;
  principal : Z;
  funded_amount : Z;
  released_amount : Z;
  repaid_amount : Z;
  terms : CreditTerms;
  escrow_status : EscrowStatus;
  escrow_created_at : Z;
  escrow_updated_at : Z
}.

Definition set_amounts (funded released repaid : Z) (s : EscrowStatus) (now : Z) (e : CreditEscrow)
    : CreditEscrow :=
  mkEscrow (escrow_id e) (lender e) (borrower e) (principal e) funded released repaid (terms e) s
    (escrow_created_at e) now.

Definition escrow_create (id : string) (now : Z) (lender borrower : string) (t : CreditTerms)
    : CreditEscrow :=
  mkEscrow id lender borrower (terms_principal t) 0 0 0 t Pending now now.

Definition fund (now amount : Z) : M CreditEscrow EscrowError unit :=
  self ← get;
  require (bool_decide (escrow_status self = Pending))
    else (InvalidState (display_escrow_status (escrow_status self)) "Pending");
  remaining ← lift (ok_or (checked_sub (principal self) (funded_amount self)) AmountOverflow);
  require (amount <=? remaining) else (Overfunded amount remaining);
  funded ← lift (ok_or (checked_add (funded_amount self) amount) AmountOverflow);
  put (set_amounts funded (released_amount self) (repaid_amount self)
         (if funded =? principal self then Funded else escrow_status self) now self).

Definition release_to_borrower (now amount : Z) : M CreditEscrow EscrowError unit :=
  self ← get;
  require (bool_decide (escrow_status self = Funded) || bool_decide (escrow_status self = Active))
    else (InvalidState (display_escrow_status (escrow_status self)) "Funded or Active");
  available ← lift (ok_or (checked_sub (funded_amount self) (released_amount self)) AmountOverflow);
  require (amount <=? available) else (InsufficientEscrowed amount available);
  released ← lift (ok_or (checked_add (released_amount self) amount) AmountOverflow);
  put (set_amounts (funded_amount self) released (repaid_amount self) Active now self).

Definition escrow_repay (now amount : Z) : M CreditEscrow EscrowError unit :=
  self ← get;
  require (bool_decide (escrow_status self = Active))
    else (InvalidState (display_escrow_status (escrow_status self)) "Active");
  outstanding ← lift (ok_or (checked_sub (total_owed (terms self)) (repaid_amount self)) AmountOverflow);
  require (amount <=? outstanding) else (Overpayment amount outstanding);
  repaid ← lift (ok_or (checked_add (repaid_amount self) amount) AmountOverflow);
  put (set_amounts (funded_amount self) (released_amount self) repaid
         (if total_owed (terms self) <=? repaid then Completed else escrow_status self) now self).

(** [grace_period_secs as i64] *)
Definition as_i64 (z : Z) : Z := if z <? 2 ^ 63 then z else z - 2 ^ 64.

(** [deadline + Duration::seconds(secs)]: the duration panics when its milliseconds do
    not fit 64 bits, the sum when it is not a representable instant. *)
Definition plus_seconds {E} (min_utc max_utc deadline secs : Z) : res E Z :=
  if (- ((2 ^ 63 - 1) / 1000) <=? secs) && (secs <=? (2 ^ 63 - 1) / 1000)
     && (min_utc <=? deadline + 1000 * secs) && (deadline + 1000 * secs <=? max_utc)
  then Ok (deadline + 1000 * secs) else Panic.

Definition check_default {E} (min_utc max_utc now : Z) : M CreditEscrow E bool :=
  self ← get;
  if negb (bool_decide (escrow_status self = Active)) then mret false
  else
    effective_deadline ← lift (plus_seconds min_utc max_utc (repayment_deadline (terms self))
                                 (as_i64 (grace_period_secs (terms self))));
    if (effective_deadline <? now) && (repaid_amount self <? total_owed (terms self))
    then _ ← put (set_amounts (funded_amount self) (released_amount self) (repaid_amount self)
                    Defaulted now self);
         mret true
    else mret false.

Definition dispute (now : Z) (reason : string) : M CreditEscrow EscrowError unit :=
  self ← get;
  match escrow_status self with
  | Completed | Defaulted =>
      throw (InvalidState (display_escrow_status (escrow_status self)) "Pending, Funded, or Active")
  | Disputed => throw AlreadyDisputed
  | Pending | Funded | Active =>
      put (set_amounts (funded_amount self) (released_amount self) (repaid_amount self)
             Disputed now self)
  end.

(** ** The life cycle *)

(** One call, with its outcome forgotten except that it did not panic. *)
Inductive escrow_step (min_utc max_utc : Z) : CreditEscrow -> CreditEscrow -> Prop :=
| step_fund now amount e : 0 <= amount -> escrow_step min_utc max_utc e (fund now amount e).2
| step_release now amount e :
    0 <= amount -> escrow_step min_utc max_utc e (release_to_borrower now amount e).2
| step_escrow_repay now amount e :
    0 <= amount -> escrow_step min_utc max_utc e (escrow_repay now amount e).2
| step_check now e : escrow_step min_utc max_utc e (check_default (E := unit) min_utc max_utc now e).2
| step_dispute now reason e : escrow_step min_utc max_utc e (dispute now reason e).2.

Inductive escrow_steps (min_utc max_utc : Z) : CreditEscrow -> CreditEscrow -> Prop :=
| esteps_refl e : escrow_steps min_utc max_utc e e
| esteps_cons e e' e'' : escrow_step min_utc max_utc e e' -> escrow_steps min_utc max_utc e' e'' ->
    escrow_steps min_utc max_utc e e''.

Definition terms_ok (t : CreditTerms) : Prop := in_u64 (terms_principal t) /\ in_u64 (total_owed t).

(** What the amounts are in each status. *)
Definition status_amounts (e : CreditEscrow) : Prop :=
  match escrow_status e with
  | Pending => released_amount e = 0 /\ repaid_amount e = 0
  | Funded => funded_amount e = principal e /\ released_amount e = 0 /\ repaid_amount e = 0
  | Active => funded_amount e = principal e
  | Completed => funded_amount e = principal e /\ repaid_amount e = total_owed (terms e)
  | Defaulted => funded_amount e = principal e /\ repaid_amount e < total_owed (terms e)
  | Disputed => True
  end.

Record escrow_inv (e : CreditEscrow) : Prop := {
  ei_terms : terms_ok (terms e);
  ei_principal : principal e = terms_principal (terms e);
  ei_released : 0 <= released_amount e <= funded_amount e;
  ei_funded : funded_amount e <= principal e;
  ei_repaid : 0 <= repaid_amount e <= total_owed (terms e);
  ei_status : status_amounts e
}.

(** The parties and the terms never change. *)
Definition agreement (e : CreditEscrow) : string * string * string * Z * CreditTerms :=
  (escrow_id e, lender e, borrower e, principal e, terms e).

(** A status from which no operation leads anywhere. *)
Definition final (s : EscrowStatus) : bool :=
  match s with Completed | Disputed | Defaulted => true | _ => false end.

(** ** Outcomes of the operations that move money *)

Definition fund_outcome (now amount : Z) (e : CreditEscrow) : res EscrowError unit * CreditEscrow :=
  if bool_decide (escrow_status e = Pending) then
    if amount <=? principal e - funded_amount e then
      (Ok tt, set_amounts (funded_amount e + amount) (released_amount e) (repaid_amount e)
                (if funded_amount e + amount =? principal e then Funded else Pending) now e)
    else (Err (Overfunded amount (principal e - funded_amount e)), e)
  else (Err (InvalidState (display_escrow_status (escrow_status e)) "Pending"), e).

Definition release_outcome (now amount : Z) (e : CreditEscrow) : res EscrowError unit * CreditEscrow :=
  if bool_decide (escrow_status e = Funded) || bool_decide (escrow_status e = Active) then
    if amount <=? funded_amount e - released_amount e then
      (Ok tt, set_amounts (funded_amount e) (released_amount e + amount) (repaid_amount e) Active now e)
    else (Err (InsufficientEscrowed amount (funded_amount e - released_amount e)), e)
  else (Err (InvalidState (display_escrow_status (escrow_status e)) "Funded or Active"), e).

Definition repay_outcome (now amount : Z) (e : CreditEscrow) : res EscrowError unit * CreditEscrow :=
  if bool_decide (escrow_status e = Active) then
    if amount <=? total_owed (terms e) - repaid_amount e then
      (Ok tt, set_amounts (funded_amount e) (released_amount e) (repaid_amount e + amount)
                (if repaid_amount e + amount =? total_owed (terms e) then Completed else Active) now e)
    else (Err (Overpayment amount (total_owed (terms e) - repaid_amount e)), e)
  else (Err (InvalidState (display_escrow_status (escrow_status e)) "Active"), e).

Ltac unpack_inv He := destruct He as [[Hp Ho] Hpr Hrel Hfun Hrep Hst]; unfold in_u64 in *.

Lemma fund_spec now amount e : escrow_inv e -> 0 <= amount -> fund now amount e = fund_outcome now amount e.
Proof.
  intros He Ha. unpack_inv He. unfold fund, fund_outcome. run.
  case_bool_decide as Hs; [|done]. rewrite Hs, (proj2 (Z.leb_le _ _)) by lia. simpl.
  destruct (Z.leb_spec amount (principal e - funded_amount e)); [|done].
  rewrite (proj2 (Z.leb_le _ _)) by lia. done.
Qed.

Lemma release_spec now amount e :
  escrow_inv e -> 0 <= amount -> release_to_borrower now amount e = release_outcome now amount e.
Proof.
  intros He Ha. unpack_inv He. unfold release_to_borrower, release_outcome. run.
  case_match; [|done]. rewrite (proj2 (Z.leb_le _ _)) by lia. simpl.
  destruct (Z.leb_spec amount (funded_amount e - released_amount e)); [|done].
  rewrite (proj2 (Z.leb_le _ _)) by lia. done.
Qed.

Lemma escrow_repay_spec now amount e :
  escrow_inv e -> 0 <= amount -> escrow_repay now amount e = repay_outcome now amount e.
Proof.
  intros He Ha. unpack_inv He. unfold escrow_repay, repay_outcome. run.
  case_bool_decide as Hs; [|done]. rewrite Hs, (proj2 (Z.leb_le _ _)) by lia. simpl.
  destruct (Z.leb_spec amount (total_owed (terms e) - repaid_amount e)); [|done].
  rewrite (proj2 (Z.leb_le _ _)) by lia. simpl.
  destruct (Z.leb_spec (total_owed (terms e)) (repaid_amount e + amount)),
    (Z.eqb_spec (repaid_amount e + amount) (total_owed (terms e))); try lia; done.
Qed.

(** Closes the invariant after an operation that ran under known guards. *)
Ltac settle :=
  split; [|done]; constructor; simpl in *; unfold status_amounts, terms_ok, in_u64 in *; simpl in *;
  repeat match goal with H : escrow_status _ = _ |- _ => rewrite H in *; clear H end;
  try done; repeat case_match; lia.

Lemma escrow_step_inv min_utc max_utc e e' :
  escrow_step min_utc max_utc e e' -> escrow_inv e -> escrow_inv e' /\ agreement e' = agreement e.
Proof.
  intros Hstep He. destruct Hstep as [now amount e Ha|now amount e Ha|now amount e Ha|now e|now r e].
  - rewrite fund_spec by done. unfold fund_outcome. case_bool_decide; [|done].
    case_match; reflect_bools; [|done]. unpack_inv He. case_match; reflect_bools; settle.
  - rewrite release_spec by done. unfold release_outcome.
    destruct (bool_decide _ || bool_decide _) eqn:Hs; [|done]. apply orb_true_iff in Hs.
    destruct (Z.leb_spec amount (funded_amount e - released_amount e)); [|done]. unpack_inv He. destruct Hs as [Hs|Hs]; reflect_bools; settle.
  - rewrite escrow_repay_spec by done. unfold repay_outcome. case_bool_decide; [|done].
    case_match; reflect_bools; [|done]. unpack_inv He. case_match; reflect_bools; settle.
  - unfold check_default. run. case_bool_decide; simpl; [|done]. unfold plus_seconds.
    repeat case_match; simplify_eq/=; try done; unpack_inv He; reflect_bools; settle.
  - unfold dispute. run. unpack_inv He. destruct (escrow_status e) eqn:Hs; simpl; try settle; split; try done;
      constructor; unfold status_amounts; rewrite ?Hs; done.
Qed.

Lemma escrow_steps_inv min_utc max_utc e e' :
  escrow_steps min_utc max_utc e e' -> escrow_inv e -> escrow_inv e' /\ agreement e' = agreement e.
Proof.
  induction 1 as [e|e e' e'' Hstep _ IH]; intros He; [done|].
  apply escrow_step_inv in Hstep as [He' Ha]; [|done]. apply IH in He' as [He'' Ha']. split; [done|congruence].
Qed.

Lemma escrow_create_inv id now l b t : terms_ok t -> escrow_inv (escrow_create id now l b t).
Proof. intros [Hp Ho]. constructor; simpl; unfold terms_ok, in_u64 in *; simpl; try done; lia. Qed.

Lemma final_step min_utc max_utc e e' :
  escrow_step min_utc max_utc e e' -> final (escrow_status e) = true -> e' = e.
Proof.
  intros Hstep Hf. destruct Hstep as [now amount e Ha|now amount e Ha|now amount e Ha|now e|now r e];
    [unfold fund|unfold release_to_borrower|unfold escrow_repay|unfold check_default|unfold dispute];
    run; destruct (escrow_status e); done.
Qed.

Lemma final_steps min_utc max_utc e e' :
  escrow_steps min_utc max_utc e e' -> final (escrow_status e) = true -> e' = e.
Proof.
  induction 1 as [e|e e' e'' Hstep _ IH]; intros Hf; [done|].
  rewrite (final_step _ _ _ _ Hstep Hf) in IH. auto.
Qed.

End Escrow.

Module Dispute.

Inductive DisputeStatus := Open | UnderReview | ResolvedForInitiator | ResolvedForRespondent | Cancelled.

#[global] Instance DisputeStatus_eq_dec : EqDecision DisputeStatus.
Proof. solve_decision. Defined.

Definition display_dispute_status (s : DisputeStatus) : string :=
  match s with
  | Open => "Open" | UnderReview => "UnderReview"
  | ResolvedForInitiator => "ResolvedForInitiator"
  | ResolvedForRespondent => "ResolvedForRespondent"
  | Cancelled => "Cancelled"
  end.

Inductive Resolution := ForInitiator | ForRespondent.

Inductive DisputeError :=
| DisputeInvalidState (current expected : string)
| Unauthorized (party : string)
| InvalidArbiterSignature
| InvalidResolution (msg : string)
| AlreadyResolved.

Record Evidence := mkEvidence {
  submitted_by : string;
  description : string;
  data_hash : string;
  evidence_timestamp : Z
}.

Record Dispute := mkDispute {
  dispute_id : string;
  dispute_escrow_id : string;
  initiator : string;
  respondent : string;
  reason : string;
  evidence : list Evidence;
  dispute_status : DisputeStatus;
  dispute_created_at : Z;
  resolved_at : option Z
}.

Definition set_progress (ev : list Evidence) (s : DisputeStatus) (r : option Z) (d : Dispute) : Dispute :=
  mkDispute (dispute_id d) (dispute_escrow_id d) (initiator d) (respondent d) (reason d) ev s
    (dispute_created_at d) r.

Definition dispute_create (id : string) (now : Z) (escrow_id initiator respondent reason : string)
    : Dispute :=
  mkDispute id escrow_id initiator respondent reason [] Open now None.

Definition in_progress (s : DisputeStatus) : bool :=
  match s with Open | UnderReview => true | _ => false end.

Definition submit_evidence (now : Z) (party description data_hash : string)
    : M Dispute DisputeError unit :=
  self ← get;
  require (bool_decide (party = initiator self) || bool_decide (party = respondent self))
    else (Unauthorized party);
  require (in_progress (dispute_status self))
    else (DisputeInvalidState (display_dispute_status (dispute_status self)) "Open or UnderReview");
  put (set_progress (evidence self ++ [mkEvidence party description data_hash now])
         (if bool_decide (dispute_status self = Open) then UnderReview else dispute_status self)
         (resolved_at self) self).

Definition resolve (now : Z) (resolution : Resolution) (arbiter_signature : string)
    : M Dispute DisputeError unit :=
  self ← get;
  match dispute_status self with
  | ResolvedForInitiator | ResolvedForRespondent => throw AlreadyResolved
  | Cancelled =>
      throw (DisputeInvalidState (display_dispute_status (dispute_status self)) "Open or UnderReview")
  | Open | UnderReview =>
      require (negb (bool_decide (arbiter_signature = ""))) else InvalidArbiterSignature;
      put (set_progress (evidence self)
             match resolution with
             | ForInitiator => ResolvedForInitiator
             | ForRespondent => ResolvedForRespondent
             end (Some now) self)
  end.

Definition cancel (now : Z) (caller : string) : M Dispute DisputeError unit :=
  self ← get;
  require (bool_decide (caller = initiator self)) else (Unauthorized caller);
  require (in_progress (dispute_status self))
    else (DisputeInvalidState (display_dispute_status (dispute_status self)) "Open or UnderReview");
  put (set_progress (evidence self) Cancelled (Some now) self).

Inductive dispute_step : Dispute -> Dispute -> Prop :=
| step_submit now p desc h d : dispute_step d (submit_evidence now p desc h d).2
| step_resolve now r sig d : dispute_step d (resolve now r sig d).2
| step_cancel now c d : dispute_step d (cancel now c d).2.

Inductive dispute_steps : Dispute -> Dispute -> Prop :=
| dsteps_refl d : dispute_steps d d
| dsteps_cons d d' d'' : dispute_step d d' -> dispute_steps d' d'' -> dispute_steps d d''.

(** Evidence comes from the parties, and a dispute is dated exactly when it is over. *)
Record dispute_inv (d : Dispute) : Prop := {
  di_evidence : Forall (fun ev => submitted_by ev = initiator d \/ submitted_by ev = respondent d) (evidence d);
  di_open : dispute_status d = Open -> evidence d = [];
  di_dated : is_Some (resolved_at d) <-> in_progress (dispute_status d) = false
}.

Lemma dispute_step_inv d d' : dispute_step d d' -> dispute_inv d ->
  dispute_inv d' /\ evidence d `prefix_of` evidence d'
  /\ (in_progress (dispute_status d) = false -> d' = d)
  /\ (initiator d', respondent d') = (initiator d, respondent d).
Proof.
  intros Hstep Hd. pose proof Hd as [Hev Hop Hdt]. destruct Hstep as [now p desc h d|now r sig d|now c d].
  - unfold submit_evidence. run. destruct (bool_decide _ || bool_decide _) eqn:Hp; [|done].
    rewrite orb_true_iff, !bool_decide_eq_true in Hp.
    destruct (in_progress (dispute_status d)) eqn:Hs; simpl; [|done].
    split; [constructor; simpl|split; [by apply prefix_app_r|done]].
    + apply Forall_app. split; [done|]. by apply Forall_singleton.
    + intros Ho. case_bool_decide; congruence.
    + rewrite Hdt. case_bool_decide as Ho; [|by rewrite Hs]. by split.
  - unfold resolve. run. destruct (dispute_status d) eqn:Hs; simpl; try done;
      (case_bool_decide; simpl; [done|]); (split; [|done]); constructor; simpl; destruct r; done.
  - unfold cancel. run. case_bool_decide; simpl; [|done].
    destruct (in_progress (dispute_status d)) eqn:Hs; simpl; [|done].
    split; [|done]. constructor; simpl; done.
Qed.
End Dispute.
Import Escrow Dispute.

(** C31. An escrow from creation on, under any sequence of calls: what is released never
    exceeds what was funded, nor that the principal, nor the repayments the debt; the
    status says how far each amount is; parties and terms are fixed; and funding,
    releasing and repaying have exactly the documented outcomes, overflow not being
    among them. *)
Theorem escrow_lifecycle min_utc max_utc id now l b t e :
  terms_ok t -> escrow_steps min_utc max_utc (escrow_create id now l b t) e ->
  escrow_inv e /\ agreement e = (id, l, b, terms_principal t, t) /\
  forall now amount, 0 <= amount ->
    fund now amount e = fund_outcome now amount e /\
    release_to_borrower now amount e = release_outcome now amount e /\
    escrow_repay now amount e = repay_outcome now amount e.
Proof.
  intros Ht Hsteps. apply escrow_steps_inv in Hsteps as [He Ha]; [|by apply escrow_create_inv].
  split; [done|]. split; [by rewrite Ha|]. intros now' amount Hamt.
  auto using fund_spec, release_spec, escrow_repay_spec.
Qed.

(** Money can be locked for good.  Once an escrow is completed, disputed or defaulted
    no call changes it, whatever the dispute decides; and an escrow completes as soon
    as the debt is repaid, even if the principal was never released. *)
Theorem escrow_locks_principal min_utc max_utc id now l b t :
  terms_ok t -> 0 < terms_principal t ->
  (forall e e', final (escrow_status e) = true -> escrow_steps min_utc max_utc e e' -> e' = e) /\
  exists e, escrow_steps min_utc max_utc (escrow_create id now l b t) e /\
    escrow_status e = Completed /\ funded_amount e = terms_principal t /\ released_amount e = 0.
Proof.
  intros Ht Hpos. split; [intros e e' Hf Hs; by eapply final_steps|].
  set (e0 := escrow_create id now l b t). set (e1 := (fund now (terms_principal t) e0).2).
  set (e2 := (release_to_borrower now 0 e1).2). set (e3 := (escrow_repay now (total_owed t) e2).2).
  pose proof Ht as [Hp Ho]. unfold in_u64 in *.
  assert (He0 : escrow_inv e0) by (by apply escrow_create_inv).
  assert (S1 : escrow_step min_utc max_utc e0 e1) by (apply step_fund; lia).
  assert (S2 : escrow_step min_utc max_utc e1 e2) by (apply step_release; lia).
  assert (S3 : escrow_step min_utc max_utc e2 e3) by (apply step_escrow_repay; lia).
  destruct (escrow_step_inv _ _ _ _ S1 He0) as [He1 _], (escrow_step_inv _ _ _ _ S2) as [He2 _]; [done|].
  exists e3. split; [by repeat (eapply esteps_cons; [eassumption|]); constructor|].
  assert (E1 : e1 = set_amounts (terms_principal t) 0 0 Funded now e0).
  { unfold e1. rewrite fund_spec by (done || lia). unfold fund_outcome. simpl.
    rewrite (proj2 (Z.leb_le _ _)), Z.eqb_refl by lia. done. }
  assert (E2 : e2 = set_amounts (terms_principal t) 0 0 Active now e1).
  { unfold e2. rewrite release_spec by (done || lia). unfold release_outcome. rewrite E1. simpl.
    rewrite (proj2 (Z.leb_le _ _)) by lia. done. }
  assert (E3 : e3 = set_amounts (terms_principal t) 0 (total_owed t) Completed now e2).
  { unfold e3. rewrite escrow_repay_spec by (done || lia). unfold repay_outcome. rewrite E2, E1. simpl.
    rewrite (proj2 (Z.leb_le _ _)), Z.eqb_refl by lia. done. }
  rewrite E3. done.
Qed.

(** A dispute from its opening on: evidence is only ever added, by the two parties and
    before the decision; a decision or a cancellation is final and dated. *)
Theorem dispute_lifecycle id now eid i r why d d' :
  dispute_steps (dispute_create id now eid i r why) d -> dispute_steps d d' ->
  dispute_inv d /\ evidence d `prefix_of` evidence d' /\
  (in_progress (dispute_status d) = false -> d' = d).
Proof.
  assert (Hinv : forall d d', dispute_steps d d' -> dispute_inv d ->
    dispute_inv d' /\ evidence d `prefix_of` evidence d'
    /\ (in_progress (dispute_status d) = false -> d' = d)).
  { clear. induction 1 as [d|d d' d'' Hstep _ IH]; intros Hd; [done|].
    destruct (dispute_step_inv _ _ Hstep Hd) as (Hd' & Hpre & Hfin & _).
    destruct (IH Hd') as (Hd'' & Hpre' & Hfin'). split; [done|]. split; [by etransitivity|].
    intros Hf. rewrite (Hfin Hf) in Hfin'. auto. }
  intros H1 H2. destruct (Hinv _ _ H1) as (Hd & _).
  { constructor; simpl; [constructor | done |]. split; [by intros [? ?] | done]. }
  destruct (Hinv _ _ H2 Hd) as (_ & Hpre & Hfin). done.
Qed.

(** ** Examples *)

Module EscrowExamples.
Definition deal : CreditTerms := mkTerms 1000 500 1050 1700000000000 86400.
Definition opened : CreditEscrow := escrow_create "e1" 0 "lender" "borrower" deal.
Definition funded : CreditEscrow := (fund 1 400 opened).2.
Definition quarrel : Dispute := dispute_create "d1" 0 "e1" "alice" "bob" "late".
Definition heard : Dispute := (submit_evidence 1 "bob" "receipt" "00" quarrel).2.
Definition closed : Dispute := (resolve 2 ForRespondent "sig" heard).2.
End EscrowExamples.
Import EscrowExamples.

Lemma escrow_lifecycle_witness :
  escrow_inv funded /\ agreement funded = ("e1", "lender", "borrower", 1000, deal)%string /\
  forall now amount, 0 <= amount ->
    fund now amount funded = fund_outcome now amount funded /\
    release_to_borrower now amount funded = release_outcome now amount funded /\
    escrow_repay now amount funded = repay_outcome now amount funded.
Proof.
  apply (escrow_lifecycle 0 10 "e1" 0 "lender" "borrower" deal).
  - unfold terms_ok, in_u64, U64_MAX. simpl. lia.
  - apply (esteps_cons _ _ _ funded); [apply step_fund; lia | constructor].
Defined.

Lemma escrow_locks_principal_witness :
  exists e, escrow_steps 0 10 opened e /\ escrow_status e = Completed
    /\ funded_amount e = 1000 /\ released_amount e = 0.
Proof.
  apply (escrow_locks_principal 0 10 "e1" 0 "lender" "borrower" deal).
  - unfold terms_ok, in_u64, U64_MAX. simpl. lia.
  - simpl. lia.
Defined.

Lemma dispute_lifecycle_witness :
  dispute_inv heard /\ evidence heard `prefix_of` evidence closed /\
  (in_progress (dispute_status heard) = false -> closed = heard).
Proof.
  apply (dispute_lifecycle "d1" 0 "e1" "alice" "bob" "late").
  - apply (dsteps_cons _ heard); [apply step_submit | constructor].
  - apply (dsteps_cons _ closed); [apply step_resolve | constructor].
Defined.
