(* ===== verification/TokenFactory.v ===== *)
(** * Token factory

    [contracts/src/token_factory.rs]: registration, minting and burning of custom
    tokens.  The identifier drawn at random by [create_token] and the clock are
    arguments; [to_uppercase] (Unicode upper-casing) is a parameter. *)

From S2P Require Import Prelude.

#[local] Open Scope Z_scope.

Inductive TokenError :=
| TokenNotFound (id : string)
| UnauthorizedMint
| InvalidSignature
| SupplyOverflow (amount : Z)
| InsufficientBalance (balance amount : Z)
| DuplicateSymbol (symbol : string).

Inductive TokenType := Utility | Stablecoin | Governance | Reward.

Record TokenInfo := mkInfo {
  token_id : string;
  token_name : string;
  symbol : string;
  decimals : Z;
  token_type : TokenType;
  issuer : string;
  info_supply : Z;
  token_created_at : Z
}.

Record TokenFactory := mkFactory {
  tokens : gmap string TokenInfo;
  balances : gmap string (gmap string Z);
  symbol_index : gmap string string
}.

Definition factory_new : TokenFactory := mkFactory ∅ ∅ ∅.

Definition set_info_supply (z : Z) (i : TokenInfo) : TokenInfo :=
  mkInfo (token_id i) (token_name i) (symbol i) (decimals i) (token_type i) (issuer i) z
    (token_created_at i).

Section Factory.
Context (to_uppercase : string -> string).

Definition create_token (uuid : string) (now : Z) (name sym : string) (dec : Z) (ty : TokenType)
    (iss : string) : M TokenFactory TokenError string :=
  self ← get;
  let symbol_upper := to_uppercase sym in
  require (negb (bool_decide (is_Some (symbol_index self !! symbol_upper)))) else (DuplicateSymbol sym);
  let info := mkInfo uuid name symbol_upper dec ty iss 0 now in
  _ ← put (mkFactory (<[uuid := info]> (tokens self)) (<[uuid := ∅]> (balances self))
             (<[symbol_upper := uuid]> (symbol_index self)));
  mret uuid.

(** The supply is written before the balance is added up. *)
Definition mint (id to : string) (amount : Z) (issuer_signature : string)
    : M TokenFactory TokenError unit :=
  self ← get;
  require (negb (bool_decide (issuer_signature = ""))) else InvalidSignature;
  info ← lift (ok_or (tokens self !! id) (TokenNotFound id));
  new_supply ← lift (ok_or (checked_add (info_supply info) amount) (SupplyOverflow amount));
  _ ← put (mkFactory (<[id := set_info_supply new_supply info]> (tokens self)) (balances self)
             (symbol_index self));
  self ← get;
  table ← lift (expect (balances self !! id));
  let balance := default 0 (table !! to) in
  _ ← put (mkFactory (tokens self) (<[id := <[to := balance]> table]> (balances self))
             (symbol_index self));
  sum ← lift (ok_or (checked_add balance amount) (SupplyOverflow amount));
  put (mkFactory (tokens self) (<[id := <[to := sum]> table]> (balances self)) (symbol_index self)).

Definition burn (id from : string) (amount : Z) (owner_signature : string)
    : M TokenFactory TokenError unit :=
  self ← get;
  require (negb (bool_decide (owner_signature = ""))) else InvalidSignature;
  info ← lift (ok_or (tokens self !! id) (TokenNotFound id));
  table ← lift (ok_or (balances self !! id) (TokenNotFound id));
  balance ← lift (ok_or (table !! from) (InsufficientBalance 0 amount));
  require (negb (balance <? amount)) else (InsufficientBalance balance amount);
  put (mkFactory (<[id := set_info_supply (saturating_sub (info_supply info) amount) info]> (tokens self))
         (<[id := <[from := balance - amount]> table]> (balances self)) (symbol_index self)).

Definition get_token_info (id : string) (f : TokenFactory) : option TokenInfo := tokens f !! id.
Definition total_supply (id : string) (f : TokenFactory) : Z :=
  default 0 (info_supply <$> tokens f !! id).
Definition balance_of (id address : string) (f : TokenFactory) : Z :=
  default 0 (balances f !! id ≫= fun b => b !! address).
Definition factory_token_count (f : TokenFactory) : nat := size (tokens f).

(** ** The books *)

(** The tokens, the balance tables and the symbol index describe the same tokens, and
    the supply of each is the sum of its balances. *)
Record factory_inv (f : TokenFactory) : Prop := {
  fi_tables : forall id, is_Some (tokens f !! id) <-> is_Some (balances f !! id);
  fi_supply : forall id i b, tokens f !! id = Some i -> balances f !! id = Some b ->
    info_supply i = map_sumZ (fun z => z) b /\ in_u64 (info_supply i);
  fi_nonneg : forall id b a z, balances f !! id = Some b -> b !! a = Some z -> 0 <= z;
  fi_symbols : forall sym id, symbol_index f !! sym = Some id <->
    exists i, tokens f !! id = Some i /\ symbol i = sym
}.

(** Calls of the contract; a random identifier is new. *)
Inductive factory_step : TokenFactory -> TokenFactory -> Prop :=
| step_create uuid now name sym dec ty iss f :
    tokens f !! uuid = None -> factory_step f (create_token uuid now name sym dec ty iss f).2
| step_mint id to amount sig f : in_u64 amount -> factory_step f (mint id to amount sig f).2
| step_burn id from amount sig f : in_u64 amount -> factory_step f (burn id from amount sig f).2.

Inductive factory_reachable : TokenFactory -> Prop :=
| reach_new : factory_reachable factory_new
| reach_step f f' : factory_reachable f -> factory_step f f' -> factory_reachable f'.

(** The factory after [who]'s balance of token [id] becomes [z] and the supply [supply]. *)
Definition book (id who : string) (z supply : Z) (f : TokenFactory) : TokenFactory :=
  mkFactory (alter (set_info_supply supply) id (tokens f))
    (alter (fun b => <[who := z]> b) id (balances f)) (symbol_index f).

(** What the code does on each branch.  The signature need only be there: the documentation
    asks for that of the issuer, and of the owner to burn. *)
Definition mint_outcome (id to : string) (amount : Z) (sig : string) (f : TokenFactory)
    : res TokenError unit * TokenFactory :=
  if bool_decide (sig = "") then (Err InvalidSignature, f)
  else match tokens f !! id with
  | None => (Err (TokenNotFound id), f)
  | Some _ =>
      if total_supply id f + amount <=? U64_MAX
      then (Ok tt, book id to (balance_of id to f + amount) (total_supply id f + amount) f)
      else (Err (SupplyOverflow amount), f)
  end.

Definition burn_outcome (id from : string) (amount : Z) (sig : string) (f : TokenFactory)
    : res TokenError unit * TokenFactory :=
  if bool_decide (sig = "") then (Err InvalidSignature, f)
  else match tokens f !! id with
  | None => (Err (TokenNotFound id), f)
  | Some _ =>
      match balances f !! id ≫= fun b => b !! from with
      | None => (Err (InsufficientBalance 0 amount), f)
      | Some have =>
          if amount <=? have then (Ok tt, book id from (have - amount) (total_supply id f - amount) f)
          else (Err (InsufficientBalance have amount), f)
      end
  end.

(** A token's table, supply and a bound on each balance. *)
Lemma factory_token f id i : factory_inv f -> tokens f !! id = Some i ->
  exists b, balances f !! id = Some b /\ info_supply i = map_sumZ (fun z => z) b
    /\ in_u64 (info_supply i)
    /\ forall a, 0 <= default 0 (b !! a) <= info_supply i.
Proof.
  intros [Ht Hs Hn _] Hi. destruct (proj1 (Ht id) (mk_is_Some _ _ Hi)) as [b Hb].
  destruct (Hs _ _ _ Hi Hb) as [Hsum Hu]. exists b. split_and!; [done..|]. intros a.
  pose proof (fun a z => Hn id b a z Hb) as Hnb.
  destruct (b !! a) as [z|] eqn:Ha; simpl; [|unfold in_u64 in Hu; lia].
  rewrite Hsum. split; [by eapply Hnb|]. by apply (map_sumZ_lookup_le (fun z => z) b a z).
Qed.

Lemma mint_spec id to amount sig f : factory_inv f -> in_u64 amount ->
  mint id to amount sig f = mint_outcome id to amount sig f.
Proof.
  intros Hf Ha. unfold mint, mint_outcome, total_supply, balance_of. run.
  case_bool_decide; simpl; [done|]. destruct (tokens f !! id) as [i|] eqn:Hi; simpl; [|done].
  destruct (factory_token f id i Hf Hi) as (b & Hb & _ & Hu & Hbal).
  destruct (Z.leb_spec (info_supply i + amount) U64_MAX); simpl; [|done].
  rewrite Hb. simpl. specialize (Hbal to). rewrite (proj2 (Z.leb_le _ _)) by lia.
  unfold book. rewrite !alter_alt, Hi, Hb. done.
Qed.

Lemma burn_spec id from amount sig f : factory_inv f -> in_u64 amount ->
  burn id from amount sig f = burn_outcome id from amount sig f.
Proof.
  intros Hf Ha. unfold burn, burn_outcome, total_supply. run.
  case_bool_decide; simpl; [done|]. destruct (tokens f !! id) as [i|] eqn:Hi; simpl; [|done].
  destruct (factory_token f id i Hf Hi) as (b & Hb & _ & Hu & Hbal). specialize (Hbal from).
  rewrite Hb. simpl. destruct (b !! from) as [z|] eqn:Hz; simpl in *; [|done].
  destruct (Z.ltb_spec z amount), (Z.leb_spec amount z); try lia; simpl; [done|].
  rewrite saturating_sub_ge by lia. unfold book. rewrite !alter_alt, Hi, Hb. done.
Qed.

(** Booking a change of one balance and the same change of the supply keeps the books. *)
Lemma book_inv f id who z i b :
  factory_inv f -> tokens f !! id = Some i -> balances f !! id = Some b -> 0 <= z ->
  in_u64 (info_supply i + z - default 0 (b !! who)) ->
  factory_inv (book id who z (info_supply i + z - default 0 (b !! who)) f).
Proof.
  intros [Ht Hs Hn Hsym] Hi Hb Hz Hu. unfold book.
  rewrite !alter_alt, Hi, Hb. constructor; simpl.
  - intros id'. destruct (decide (id = id')) as [<-|Hne]; [by rewrite !lookup_insert_eq|].
    rewrite !lookup_insert_ne by done. apply Ht.
  - intros id' i' b'. destruct (decide (id = id')) as [<-|Hne].
    + rewrite !lookup_insert_eq. intros [= <-] [= <-]. simpl. split; [|done].
      rewrite map_sumZ_insert. destruct (Hs _ _ _ Hi Hb) as [-> _]. destruct (b !! who); simpl; lia.
    + rewrite !lookup_insert_ne by done. apply Hs.
  - intros id' b' a' z'. destruct (decide (id = id')) as [<-|Hne].
    + rewrite lookup_insert_eq. intros [= <-]. rewrite lookup_insert_Some.
      intros [[_ <-]|[_ Hb']]; [done | by eapply Hn].
    + rewrite lookup_insert_ne by done. apply Hn.
  - intros sym id'. rewrite Hsym. destruct (decide (id = id')) as [<-|Hne].
    + rewrite lookup_insert_eq, Hi. split; intros (j & [= <-] & <-); by eexists.
    + by rewrite lookup_insert_ne.
Qed.

Lemma create_token_inv uuid now name sym dec ty iss f :
  factory_inv f -> tokens f !! uuid = None ->
  factory_inv (create_token uuid now name sym dec ty iss f).2.
Proof.
  intros Hf Hfresh. pose proof Hf as [Ht Hs Hn Hsym]. unfold create_token. run.
  case_bool_decide as Hd; simpl; [done|]. apply eq_None_not_Some in Hd.
  constructor; simpl.
  - intros id'. destruct (decide (uuid = id')) as [<-|Hne]; [by rewrite !lookup_insert_eq|].
    rewrite !lookup_insert_ne by done. apply Ht.
  - intros id' i' b'. destruct (decide (uuid = id')) as [<-|Hne].
    + rewrite !lookup_insert_eq. intros [= <-] [= <-]. simpl. rewrite map_sumZ_empty.
      unfold in_u64, U64_MAX. lia.
    + rewrite !lookup_insert_ne by done. apply Hs.
  - intros id' b' a' z'. destruct (decide (uuid = id')) as [<-|Hne].
    + rewrite lookup_insert_eq. intros [= <-]. by rewrite lookup_empty.
    + rewrite lookup_insert_ne by done. apply Hn.
  - intros sym' id'. rewrite lookup_insert_Some, Hsym.
    destruct (decide (uuid = id')) as [<-|Hne].
    + rewrite lookup_insert_eq. split; [|intros (i & [= <-] & <-); by left].
      intros [[<- _]|(_ & i & Hi & _)]; [by eexists | congruence].
    + rewrite lookup_insert_ne by done. split; [naive_solver|]. intros (i & Hi & <-). right.
      split; [|by eexists]. intros Heq. assert (symbol_index f !! symbol i = Some id') by (apply Hsym; by eexists).
      congruence.
Qed.

Lemma factory_step_inv f f' : factory_step f f' -> factory_inv f -> factory_inv f'.
Proof.
  intros Hstep Hf. destruct Hstep as [uuid now name sym dec ty iss f Hn|id to amount sig f Ha|id from amount sig f Ha].
  - by apply create_token_inv.
  - rewrite mint_spec by done. unfold mint_outcome, total_supply, balance_of.
    case_bool_decide; [done|]. destruct (tokens f !! id) as [i|] eqn:Hi; simpl; [|done].
    destruct (Z.leb_spec (info_supply i + amount) U64_MAX); simpl; [|done].
    destruct (factory_token f id i Hf Hi) as (b & Hb & _ & Hu & Hbal). rewrite Hb. simpl.
    specialize (Hbal to). unfold in_u64 in *.
    replace (info_supply i + amount) with (info_supply i + (default 0 (b !! to) + amount) - default 0 (b !! to)) by lia.
    apply book_inv; try done; unfold in_u64; lia.
  - rewrite burn_spec by done. unfold burn_outcome, total_supply.
    case_bool_decide; [done|]. destruct (tokens f !! id) as [i|] eqn:Hi; simpl; [|done].
    destruct (factory_token f id i Hf Hi) as (b & Hb & _ & Hu & Hbal). rewrite Hb. simpl.
    specialize (Hbal from). destruct (b !! from) as [z|] eqn:Hz; simpl in *; [|done].
    destruct (Z.leb_spec amount z); simpl; [|done]. unfold in_u64 in *.
    replace (info_supply i - amount) with (info_supply i + (z - amount) - default 0 (b !! from))
      by (rewrite Hz; simpl; lia).
    apply book_inv; try done; rewrite ?Hz; unfold in_u64; simpl; lia.
Qed.

Lemma factory_new_inv : factory_inv factory_new.
Proof.
  constructor; simpl; intros *; rewrite ?lookup_empty; try done.
  split; [done|]. intros (i & Hi & _). done.
Qed.

Lemma factory_reachable_inv f : factory_reachable f -> factory_inv f.
Proof.
  induction 1 as [|f f' _ IH Hstep]; [apply factory_new_inv | by eapply factory_step_inv].
Qed.

End Factory.

(** C32. The token books: in every reachable factory the supply of each token is the sum of
    its balances and fits 64 bits, symbols name at most one token, and minting and
    burning have exactly these outcomes: a refused call changes nothing, and no call
    panics.  Contrary to the documentation nobody is authorized: any two signatures
    that are not empty have the same outcome, whoever the issuer and the owner are. *)
Theorem token_books_balance to_uppercase f :
  factory_reachable to_uppercase f ->
  factory_inv f /\
  (forall id id' i i', tokens f !! id = Some i -> tokens f !! id' = Some i' ->
     symbol i = symbol i' -> id = id') /\
  (forall id who amount sig, in_u64 amount ->
    mint id who amount sig f = mint_outcome id who amount sig f /\
    burn id who amount sig f = burn_outcome id who amount sig f) /\
  (forall id who amount sig sig', in_u64 amount -> sig <> ""%string -> sig' <> ""%string ->
    mint id who amount sig f = mint id who amount sig' f /\ burn id who amount sig f = burn id who amount sig' f).
Proof.
  intros Hr. pose proof (factory_reachable_inv _ f Hr) as Hf. split; [done|]. split_and!.
  - intros id id' i i' Hi Hi' Heq. destruct Hf as [_ _ _ Hsym].
    assert (H1 : symbol_index f !! symbol i = Some id) by (apply Hsym; by eexists).
    assert (H2 : symbol_index f !! symbol i = Some id') by (apply Hsym; exists i'; by rewrite Heq).
    congruence.
  - intros. split; [by apply mint_spec | by apply burn_spec].
  - intros id who amount sig sig' Ha Hs Hs'. rewrite !mint_spec, !burn_spec by done.
    unfold mint_outcome, burn_outcome. by rewrite !(bool_decide_false (_ = ""%string)).
Qed.

Module FactoryExamples.
Definition up (s : string) : string := s.
Definition f1 : TokenFactory := (create_token up "t1" 0 "Dollar" "NUSD" 8 Stablecoin "issuer" factory_new).2.
Definition f2 : TokenFactory := (mint "t1" "alice" 50 "sig" f1).2.
End FactoryExamples.
Import FactoryExamples.

Lemma token_books_balance_witness :
  factory_inv f2 /\
  (forall id id' i i', tokens f2 !! id = Some i -> tokens f2 !! id' = Some i' ->
     symbol i = symbol i' -> id = id') /\
  (forall id who amount sig, in_u64 amount ->
    mint id who amount sig f2 = mint_outcome id who amount sig f2 /\
    burn id who amount sig f2 = burn_outcome id who amount sig f2) /\
  (forall id who amount sig sig', in_u64 amount -> sig <> ""%string -> sig' <> ""%string ->
    mint id who amount sig f2 = mint id who amount sig' f2 /\ burn id who amount sig f2 = burn id who amount sig' f2).
Proof.
  apply (token_books_balance up).
  apply (reach_step _ f1); [apply (reach_step _ factory_new); [constructor|]|].
  - by apply step_create.
  - apply step_mint. unfold in_u64, U64_MAX. lia.
Defined.

(** Any non-empty signature mints: the refusal [UnauthorizedMint] is never returned. *)
Example anyone_mints :
  total_supply "t1" (mint "t1" "mallory" 1000 "not a signature" f2).2 = 1050
  /\ balance_of "t1" "mallory" (mint "t1" "mallory" 1000 "not a signature" f2).2 = 1000.
Proof. vm_compute. done. Qed.
