(* ===== verification/Identity.v ===== *)
(** * Identities and decentralized identifiers

    The identity half of [protocol/src/identity/nova_id.rs] (attaching keys, checking
    signatures, identity documents) and [protocol/src/identity/did.rs] (the [did:nova:]
    identifier, its parser and its W3C document).  Base58 is third-party: the class
    [Base58].  The JSON forms go through [serde_json] and are not modelled. *)

From S2P Require Import Prelude Bytes Crypto Transaction.
From stdpp Require Import pretty.
From Stdlib Require Import Ascii.

#[local] Open Scope Z_scope.

Class Base58 := { bs58_encode : list Z -> string; bs58_decode : string -> option (list Z) }.

Class Base58Laws (B : Base58) : Prop := {
  bs58_roundtrip : forall l, Forall byte_ok l -> bs58_decode (bs58_encode l) = Some l
}.

(** ** [nova_id.rs] *)

Section NovaId.
Context {C : Crypto}.

Definition verify_signature (self : NovaId) (message : list Z) (s : NovaSignature) : res NovaIdError unit :=
  pk ← ok_or (nova_public_key self) NoPublicKey;
  ensure (pk_verify pk message s) else SignatureVerificationFailed;
  Ok tt.

Definition attach_public_key (pk : NovaPublicKey) : M NovaId NovaIdError unit :=
  self ← get;
  let expected_hash := blake3 (pk_bytes pk) in
  require (bool_decide (expected_hash = key_hash self)) else PublicKeyMismatch;
  put (mkNovaId (key_hash self) (Some pk)).

(** [PartialEq]: the address decides, not the attached key. *)
Definition nova_id_eqb (a b : NovaId) : bool := bool_decide (key_hash a = key_hash b).

Definition DOCUMENT_VERSION : Z := 1.

Record NovaIdDocument := mkIdDocument {
  idd_id : string;
  idd_nova_id : NovaId;
  idd_public_key : NovaPublicKey;
  created_at : Z;
  updated_at : Z;
  idd_version : Z;
  label : option string;
  metadata : gmap string string
}.

(** [new], with the UUID and the clock it reads. *)
Definition document_new (uuid : string) (now : Z) (pk : NovaPublicKey) : NovaIdDocument :=
  mkIdDocument uuid (from_public_key pk) pk now now DOCUMENT_VERSION None ∅.

Definition with_label (uuid : string) (now : Z) (pk : NovaPublicKey) (l : string) : NovaIdDocument :=
  let doc := document_new uuid now pk in
  mkIdDocument (idd_id doc) (idd_nova_id doc) (idd_public_key doc) (created_at doc) (updated_at doc)
    (idd_version doc) (Some l) (metadata doc).

Definition document_address (doc : NovaIdDocument) : string := to_address (idd_nova_id doc).

Definition document_verify_signature (doc : NovaIdDocument) (message : list Z) (s : NovaSignature)
    : res NovaIdError unit := verify_signature (idd_nova_id doc) message s.
End NovaId.

Definition display_nova_id_error (e : NovaIdError) : string :=
  match e with
  | Bech32Decode m => "bech32 decode error: " +:+ m
  | InvalidHrp expected got => "invalid HRP: expected '" +:+ expected +:+ "', got '" +:+ got +:+ "'"
  | InvalidDataLength expected got =>
      "invalid address data length: expected " +:+ pretty expected +:+ " bytes, got " +:+ pretty got
  | SignatureVerificationFailed => "signature verification failed"
  | NoPublicKey => "no public key attached to this NovaId (address-only mode)"
  | PublicKeyMismatch => "public key hash does not match the stored address hash"
  end.

(** ** [did.rs] *)

Definition DID_METHOD : string := "nova".
Definition DID_CONTEXT : string := "https://www.w3.org/ns/did/v1".
Definition ED25519_CONTEXT : string := "https://w3id.org/security/suites/ed25519-2020/v1".
Definition VERIFICATION_KEY_TYPE : string := "Ed25519VerificationKey2020".

Inductive DidError :=
| InvalidFormat (msg : string)
| UnsupportedMethod (got : string)
| InvalidAddress (msg : string)
| DidSerialization (msg : string).

Record VerificationMethod := mkMethod {
  vm_id : string;
  vm_type : string;
  vm_controller : string;
  public_key_multibase : string
}.

Record DidDocument := mkDidDocument {
  context : list string;
  dd_id : string;
  verification_method : list VerificationMethod;
  authentication : list string;
  assertion_method : list string;
  dd_created : Z
}.

(** [str::split_once] and [str::splitn] on a one-character separator. *)
Fixpoint split_once (c : ascii) (s : string) : option (string * string) :=
  match s with
  | EmptyString => None
  | String a s' =>
      if bool_decide (a = c) then Some (EmptyString, s')
      else match split_once c s' with
           | Some (l, r) => Some (String a l, r)
           | None => None
           end
  end.

Fixpoint splitn (n : nat) (c : ascii) (s : string) : list string :=
  match n with
  | O => []
  | S O => [s]
  | S n' => match split_once c s with
            | Some (l, r) => l :: splitn n' c r
            | None => [s]
            end
  end.

Section Did.
Context {C : Crypto} {B : Base58}.

Record NovaDid := mkDid { did_nova_id : NovaId; did_public_key : NovaPublicKey }.

Definition from_nova_id (id : NovaId) (pk : NovaPublicKey) : NovaDid := mkDid id pk.

Definition did_from_public_key (pk : NovaPublicKey) : NovaDid := mkDid (from_public_key pk) pk.

Definition to_did_string (self : NovaDid) : string :=
  "did:" +:+ DID_METHOD +:+ ":" +:+ to_address (did_nova_id self).

Definition from_did_string (did : string) (pk : NovaPublicKey) : res DidError NovaDid :=
  match splitn 3 ":" did with
  | [p0; p1; p2] =>
      ensure (bool_decide (p0 = "did"))
        else (InvalidFormat ("expected 'did' prefix, got '" +:+ p0 +:+ "'"));
      ensure (bool_decide (p1 = DID_METHOD)) else (UnsupportedMethod p1);
      nova_id ← map_err_res (fun e => InvalidAddress (display_nova_id_error e)) (from_address p2);
      Ok (mkDid nova_id pk)
  | _ => Err (InvalidFormat "DID must have format 'did:<method>:<identifier>'")
  end.

(** The derived [PartialEq]. *)
Definition did_eqb (a b : NovaDid) : bool :=
  nova_id_eqb (did_nova_id a) (did_nova_id b) &&
  bool_decide (pk_bytes (did_public_key a) = pk_bytes (did_public_key b)).

Definition to_did_document (now : Z) (self : NovaDid) : DidDocument :=
  let did_string := to_did_string self in
  let key_id := did_string +:+ "#key-1" in
  let multicodec_bytes := [237; 1] ++ pk_bytes (did_public_key self) in
  let multibase := "z" +:+ bs58_encode multicodec_bytes in
  mkDidDocument [DID_CONTEXT; ED25519_CONTEXT] did_string
    [mkMethod key_id VERIFICATION_KEY_TYPE did_string multibase] [key_id] [key_id] now.

Definition validate (doc : DidDocument) : res DidError unit :=
  ensure (String.prefix "did:nova:" (dd_id doc))
    else (InvalidFormat "document ID must start with 'did:nova:'");
  ensure (negb (bool_decide (verification_method doc = [])))
    else (InvalidFormat "document must have at least one verification method");
  ensure (negb (bool_decide (authentication doc = [])))
    else (InvalidFormat "document must have at least one authentication method");
  ensure (bool_decide (DID_CONTEXT ∈ context doc))
    else (InvalidFormat "document must include DID Core context");
  Ok tt.
End Did.

(** ** Identities *)

Section Identity.
Context {C : Crypto} {L : CryptoLaws C}.

(** An attached key hashes to the address. *)
Definition id_wf (id : NovaId) : Prop :=
  forall pk, nova_public_key id = Some pk -> blake3 (pk_bytes pk) = key_hash id.

Lemma from_public_key_wf pk : id_wf (from_public_key pk).
Proof. intros pk' [= <-]. done. Qed.

Lemma from_address_wf addr id : from_address addr = Ok id -> id_wf id /\ nova_public_key id = None.
Proof.
  unfold from_address. intros H. repeat case_match; simplify_eq. split; [|done]. intros pk Hpk. done.
Qed.

Lemma attach_public_key_cases pk id :
  attach_public_key pk id =
  if bool_decide (blake3 (pk_bytes pk) = key_hash id)
  then (Ok tt, mkNovaId (key_hash id) (Some pk)) else (Err PublicKeyMismatch, id).
Proof. unfold attach_public_key, get, put, throw, mbind, M_bind. by case_match. Qed.

(** An identity never accepts a signature made with somebody else's key: whatever
    sequence of constructions and attachments produced it, a signature it verifies was
    checked under a key whose hash is its address; attaching a key fails exactly when
    its hash differs and never changes the address; an identity read from an address
    verifies nothing until its key is attached. *)
Theorem identity_binds_key id pk :
  id_wf id ->
  (forall m s, verify_signature id m s = Ok tt ->
     exists pk', blake3 (pk_bytes pk') = key_hash id /\ pk_verify pk' m s = true) /\
  (nova_public_key id = None -> forall m s, verify_signature id m s = Err NoPublicKey) /\
  (let '(r, id') := attach_public_key pk id in
   id_wf id' /\ key_hash id' = key_hash id /\
   (r = Ok tt <-> blake3 (pk_bytes pk) = key_hash id) /\
   (r = Ok tt -> nova_public_key id' = Some pk) /\ (r <> Ok tt -> r = Err PublicKeyMismatch /\ id' = id)).
Proof.
  intros Hid. split; [|split].
  - intros m s. unfold verify_signature. destruct (nova_public_key id) as [pk'|] eqn:E; [|done]. simpl.
    intros [Hv _]%ensure_ok. exists pk'. by rewrite (Hid pk' E).
  - intros Hn m s. unfold verify_signature. by rewrite Hn.
  - rewrite attach_public_key_cases. case_bool_decide; split_and!; try done.
    intros pk' [= <-]. done.
Qed.

(** The owner of an address, on the other side: read the address, attach the key, and
    every signature of that key is accepted. *)
Lemma attached_identity_verifies kp m :
  exists id, from_address (to_address (from_public_key (public_key kp))) = Ok id /\
    verify_signature (attach_public_key (public_key kp) id).2 m (sign kp m) = Ok tt.
Proof.
  eexists. split; [apply address_roundtrip|]. rewrite attach_public_key_cases, bool_decide_true by done.
  unfold verify_signature. simpl. by rewrite sign_then_verify.
Qed.
End Identity.

(** ** Parsing and printing identifiers *)

Lemma split_once_spec c s l r : split_once c s = Some (l, r) -> s = l +:+ String c r.
Proof.
  revert l; induction s as [|a s IH]; intros l; simpl; [done|]. case_bool_decide as E.
  - intros [= <- <-]. by rewrite E.
  - destruct (split_once c s) as [[l' r']|]; [|done]. intros [= <- <-]. simpl. by rewrite (IH l' eq_refl).
Qed.

Lemma prefix_app p s : String.prefix p (p +:+ s) = true.
Proof.
  induction p as [|a p IH]; simpl; [by destruct s|]. by destruct (ascii_dec a a).
Qed.

Section DidProofs.
Context {C : Crypto} {L : CryptoLaws C} {B : Base58} {BL : Base58Laws B}.

Lemma splitn_did did p0 p1 p2 :
  splitn 3 ":" did = [p0; p1; p2] -> did = p0 +:+ ":" +:+ p1 +:+ ":" +:+ p2.
Proof.
  simpl. destruct (split_once ":" did) as [[l r]|] eqn:E1; [|done].
  destruct (split_once ":" r) as [[l' r']|] eqn:E2; [|done]. intros [= <- <- <-].
  by rewrite (split_once_spec _ _ _ _ E1), (split_once_spec _ _ _ _ E2).
Qed.

Lemma from_did_string_ok did pk d :
  from_did_string did pk = Ok d <->
  exists addr id, did = "did:nova:" +:+ addr /\ from_address addr = Ok id /\ d = mkDid id pk.
Proof.
  split.
  - unfold from_did_string. destruct (splitn 3 ":" did) as [|p0 [|p1 [|p2 [|]]]] eqn:E; try done.
    intros [H0%bool_decide_eq_true [H1%bool_decide_eq_true H]%ensure_ok]%ensure_ok.
    apply res_bind_ok in H as (id & Hid%map_err_res_ok & [= <-]).
    apply splitn_did in E. subst. by exists p2, id.
  - intros (addr & id & -> & Hid & ->). unfold from_did_string.
    assert (splitn 3 ":" ("did:nova:" +:+ addr) = ["did"; "nova"; addr]) as -> by reflexivity.
    rewrite Hid. done.
Qed.

(** The identifier of a key parses back, with the key, to an identity that the code's
    equality identifies with the original and that prints the same identifier; and
    parsing accepts exactly [did:nova:] followed by a valid address. *)
Theorem did_roundtrip pk :
  (exists d, from_did_string (to_did_string (did_from_public_key pk)) pk = Ok d /\
     did_eqb d (did_from_public_key pk) = true /\ to_did_string d = to_did_string (did_from_public_key pk)) /\
  (forall did d, from_did_string did pk = Ok d <->
     exists addr id, did = "did:nova:" +:+ addr /\ from_address addr = Ok id /\ d = mkDid id pk).
Proof.
  split; [|intros; apply from_did_string_ok].
  eexists. split; [|split].
  - apply from_did_string_ok. eexists _, _. split; [done|]. split; [apply address_roundtrip|done].
  - unfold did_eqb, nova_id_eqb. simpl. by rewrite !bool_decide_true.
  - done.
Qed.

(** A resolver's view of a document: the key its first method encodes. *)
Definition document_key (doc : DidDocument) : option (list Z) :=
  match verification_method doc with
  | m :: _ =>
      match public_key_multibase m with
      | String prefix b58 =>
          match bs58_decode b58 with
          | Some (a :: b :: key) =>
              if bool_decide (prefix = "z"%char) && (a =? 237) && (b =? 1) then Some key else None
          | _ => None
          end
      | _ => None
      end
  | [] => None
  end.

Lemma to_did_document_valid now self : validate (to_did_document now self) = Ok tt.
Proof.
  assert (DID_CONTEXT ∈ context (to_did_document now self)) as Hc by left.
  unfold validate. rewrite (bool_decide_true _ Hc).
  change (dd_id (to_did_document now self)) with ("did:nova:" +:+ to_address (did_nova_id self)).
  by rewrite prefix_app.
Qed.

Lemma to_did_document_key now self :
  Forall byte_ok (pk_bytes (did_public_key self)) ->
  document_key (to_did_document now self) = Some (pk_bytes (did_public_key self)).
Proof.
  intros Hpk. unfold document_key, to_did_document. cbn [verification_method public_key_multibase].
  change ("z" +:+ bs58_encode _) with (String "z" (bs58_encode ([237; 1] ++ pk_bytes (did_public_key self)))).
  cbv beta iota. rewrite bs58_roundtrip; [done|]. by repeat constructor.
Qed.

(** The document of an identity is valid, describes its identifier, encodes its public
    key recoverably, and authenticates with that method only. *)
Theorem did_document_resolves now self :
  Forall byte_ok (pk_bytes (did_public_key self)) ->
  validate (to_did_document now self) = Ok tt /\
  dd_id (to_did_document now self) = to_did_string self /\
  document_key (to_did_document now self) = Some (pk_bytes (did_public_key self)) /\
  (vm_id <$> verification_method (to_did_document now self)) = authentication (to_did_document now self) /\
  Forall (fun m => vm_controller m = to_did_string self) (verification_method (to_did_document now self)).
Proof.
  intros Hpk. split_and!.
  - apply to_did_document_valid.
  - done.
  - by apply to_did_document_key.
  - done.
  - by repeat constructor.
Qed.

(** Parsing takes the public key on trust: the identifier of one key parses with any
    other, and the document of the result is valid, bears the first key's identifier
    and authenticates with the second key. *)
Theorem did_key_not_checked owner other now :
  Forall byte_ok (pk_bytes other) ->
  exists d, from_did_string (to_did_string (did_from_public_key owner)) other = Ok d /\
    validate (to_did_document now d) = Ok tt /\
    dd_id (to_did_document now d) = to_did_string (did_from_public_key owner) /\
    document_key (to_did_document now d) = Some (pk_bytes other).
Proof.
  intros Ho. eexists. split.
  - apply from_did_string_ok. eexists _, _. split; [done|]. split; [apply address_roundtrip|done].
  - split; [apply to_did_document_valid|]. split; [done|]. by apply to_did_document_key.
Qed.
End DidProofs.

(** ** Witnesses *)

Module IdentityExamples.
#[export] Existing Instance toy_crypto.

#[export] Instance toy_base58 : Base58 := {|
  bs58_encode := Toy.hex;
  bs58_decode := fun s => match Toy.unhex s with Ok l => Some l | _ => None end
|}.

#[export] Instance toy_base58_laws : Base58Laws toy_base58.
Proof. constructor. intros l Hl. simpl. by rewrite toy_hex_roundtrip. Qed.

Definition alice : NovaPublicKey := public_key (mkKeypair 1).
Definition mallory : NovaPublicKey := public_key (mkKeypair 2).

Lemma key_bytes k : Forall byte_ok (pk_bytes (public_key (mkKeypair k))).
Proof. apply verifying_key_bytes. Qed.
End IdentityExamples.

Import IdentityExamples.

Lemma identity_binds_key_witness :
  attach_public_key mallory (mkNovaId (blake3 (pk_bytes alice)) None) =
  (Err PublicKeyMismatch, mkNovaId (blake3 (pk_bytes alice)) None).
Proof.
  destruct (identity_binds_key (mkNovaId (blake3 (pk_bytes alice)) None) mallory) as (_ & _ & H).
  - intros pk Hpk. discriminate Hpk.
  - destruct (attach_public_key _ _) as [r id']. destruct H as (_ & _ & Hr & _ & He).
    destruct He as [-> ->]; [|reflexivity]. intros E. apply Hr in E. vm_compute in E. discriminate E.
Defined.

Lemma did_roundtrip_witness :
  exists d, from_did_string (to_did_string (did_from_public_key alice)) alice = Ok d /\
    did_eqb d (did_from_public_key alice) = true.
Proof.
  destruct (proj1 (did_roundtrip alice)) as (d & Hd & He & _). exists d. split; [exact Hd|exact He].
Defined.

Lemma did_document_resolves_witness :
  document_key (to_did_document 0 (did_from_public_key alice)) = Some (pk_bytes alice).
Proof.
  destruct (did_document_resolves 0 (did_from_public_key alice)) as (_ & _ & H & _); [exact (key_bytes 1)|exact H].
Defined.

Lemma did_key_not_checked_witness :
  exists d, from_did_string (to_did_string (did_from_public_key alice)) mallory = Ok d /\
    validate (to_did_document 0 d) = Ok tt /\
    document_key (to_did_document 0 d) = Some (pk_bytes mallory).
Proof.
  destruct (did_key_not_checked alice mallory 0 (key_bytes 2)) as (d & Hd & Hv & _ & Hk).
  exists d. split; [exact Hd|]. split; [exact Hv|exact Hk].
Defined.
