(* ===== verification/Receipt.v ===== *)
(** * Transaction receipts

    [protocol/src/transaction/receipt.rs]: the record of a transaction's inclusion in a
    block, with a BLAKE3 digest of its other fields.  [bincode] is third-party, the class
    [ReceiptCodec]: an injective encoding of the hashed fields. *)

From S2P Require Import Prelude Bytes Crypto Transaction Db.

#[local] Open Scope Z_scope.

Record BlockInfo := mkBlockInfo { bi_height : Z; bi_hash : string; bi_timestamp : Z }.

Record TransactionReceipt := mkReceipt {
  rt_tx_id : string;
  rt_block_height : Z;
  rt_block_hash : string;
  rt_timestamp : Z;
  rt_sender : string;
  rt_receiver : string;
  rt_amount : Amount;
  rt_status : TransactionStatus;
  confirmations : Z;
  receipt_hash : string
}.

(** Every field but the hash. *)
Record ReceiptHashData := mkHashData {
  hd_tx_id : string;
  hd_block_height : Z;
  hd_block_hash : string;
  hd_timestamp : Z;
  hd_sender : string;
  hd_receiver : string;
  hd_amount : Amount;
  hd_status : TransactionStatus;
  hd_confirmations : Z
}.

Class ReceiptCodec := {
  hash_data_ser : ReceiptHashData -> list Z;
  receipt_ser : TransactionReceipt -> list Z;
  receipt_de : list Z -> res string TransactionReceipt
}.

Class ReceiptCodecLaws (R : ReceiptCodec) : Prop := {
  hash_data_inj : forall x y, hash_data_ser x = hash_data_ser y -> x = y;
  receipt_de_ser : forall r, receipt_de (receipt_ser r) = Ok r
}.

Section Receipt.
Context {C : Crypto} {R : ReceiptCodec}.

Definition hash_data (self : TransactionReceipt) : ReceiptHashData :=
  mkHashData (rt_tx_id self) (rt_block_height self) (rt_block_hash self) (rt_timestamp self)
    (rt_sender self) (rt_receiver self) (rt_amount self) (rt_status self) (confirmations self).

Definition receipt_compute_hash (self : TransactionReceipt) : string :=
  hex_encode (blake3_hash (hash_data_ser (hash_data self))).

Definition with_receipt_hash (h : string) (r : TransactionReceipt) : TransactionReceipt :=
  mkReceipt (rt_tx_id r) (rt_block_height r) (rt_block_hash r) (rt_timestamp r) (rt_sender r)
    (rt_receiver r) (rt_amount r) (rt_status r) (confirmations r) h.

Definition from_transaction (tx : Transaction) (b : BlockInfo) (status : TransactionStatus) : TransactionReceipt :=
  let receipt := mkReceipt (tx_id tx) (bi_height b) (bi_hash b) (bi_timestamp b) (tx_sender tx)
    (tx_receiver tx) (tx_amount tx) status 1 EmptyString in
  with_receipt_hash (receipt_compute_hash receipt) receipt.

Definition verify_integrity (self : TransactionReceipt) : bool :=
  bool_decide (receipt_hash self = receipt_compute_hash self).

Definition to_binary (self : TransactionReceipt) : list Z := receipt_ser self.
Definition from_binary (data : list Z) : res string TransactionReceipt := receipt_de data.

Definition with_confirmations (n : Z) (r : TransactionReceipt) : TransactionReceipt :=
  mkReceipt (rt_tx_id r) (rt_block_height r) (rt_block_hash r) (rt_timestamp r) (rt_sender r)
    (rt_receiver r) (rt_amount r) (rt_status r) n (receipt_hash r).
End Receipt.

Section ReceiptProofs.
Context {C : Crypto} {L : CryptoLaws C} {R : ReceiptCodec} {RL : ReceiptCodecLaws R}.

(** The two messages hashed for two receipts. *)
Definition receipt_messages (r s : TransactionReceipt) : list (list Z) :=
  [hash_data_ser (hash_data r); hash_data_ser (hash_data s)].

Lemma receipt_hash_binds r s :
  receipt_compute_hash r = receipt_compute_hash s -> hash_data r = hash_data s \/ collision (receipt_messages r s).
Proof.
  intros Heq%hex_encode_inj; [|apply blake3_bytes..]. unfold blake3_hash in Heq.
  apply (digest_inj blake3 _ _ (receipt_messages r s)) in Heq as [E|]; [left; by apply hash_data_inj|by right|..];
    unfold receipt_messages; set_solver.
Qed.

(** A receipt verifies when it is made, survives storage, and is fixed by its hash: a
    second receipt with the same hash that also verifies is the same receipt, or the two
    hashed messages collide; in particular no confirmation can be added to a receipt. *)
Theorem receipt_integrity tx b status :
  let r := from_transaction tx b status in
  verify_integrity r = true /\ confirmations r = 1 /\ from_binary (to_binary r) = Ok r /\
  (forall s, verify_integrity s = true -> receipt_hash s = receipt_hash r -> s = r \/ collision (receipt_messages s r)) /\
  (forall n, n <> 1 -> verify_integrity (with_confirmations n r) = false \/ collision (receipt_messages (with_confirmations n r) r)).
Proof.
  cbv zeta. set (r := from_transaction tx b status).
  assert (receipt_hash r = receipt_compute_hash r) as Hr by done. split_and!.
  - by apply bool_decide_eq_true.
  - done.
  - apply receipt_de_ser.
  - intros s Hs%bool_decide_eq_true He.
    destruct (receipt_hash_binds s r) as [Hd|]; [congruence| |by right].
    left. destruct s, r. unfold hash_data in Hd. simpl in *. congruence.
  - intros n Hn. unfold verify_integrity. case_bool_decide as Hv; [right|by left].
    destruct (receipt_hash_binds (with_confirmations n r) r) as [Hd|]; [|by injection Hd as Hd|done].
    rewrite <- Hv. exact Hr.
Qed.

(** The hash authenticates nothing: whatever the fields, claiming any transaction in any
    block, the receipt with the hash anybody can compute over them verifies. *)
Lemma receipt_forgeable r : verify_integrity (with_receipt_hash (receipt_compute_hash r) r) = true.
Proof. by apply bool_decide_eq_true. Qed.
End ReceiptProofs.

(** ** Witnesses *)

Module ReceiptExamples.
#[export] Existing Instance toy_crypto.
#[export] Existing Instance TxExamples.codec.

#[local] Existing Instances ToyCodec.currency_countable ToyCodec.amount_countable.

Definition status_nat (s : TransactionStatus) : nat :=
  match s with TxPending => 0 | TxConfirmed => 1 | TxFailed => 2 | TxExpired => 3 end.
Definition nat_status (n : nat) : TransactionStatus :=
  match n with 0 => TxPending | 1 => TxConfirmed | 2 => TxFailed | _ => TxExpired end%nat.

#[export] Instance status_countable : Countable TransactionStatus.
Proof. refine (inj_countable' status_nat nat_status _). by intros []. Defined.

Definition data_tuple (d : ReceiptHashData) :=
  (hd_tx_id d, hd_block_height d, hd_block_hash d, hd_timestamp d,
   (hd_sender d, hd_receiver d, hd_amount d, hd_status d, hd_confirmations d)).

Definition receipt_tuple (r : TransactionReceipt) := (data_tuple (hash_data r), receipt_hash r).

#[export] Instance toy_receipt_codec : ReceiptCodec := {|
  hash_data_ser := fun d => [Zpos (encode (data_tuple d))];
  receipt_ser := fun r => [Zpos (encode (receipt_tuple r))];
  receipt_de := fun l =>
    match l with
    | [Zpos p] =>
        match decode p with
        | Some ((a, b, c, d, (e, f, g, h, i)), x) => Ok (mkReceipt a b c d e f g h i x)
        | None => Err "bad"%string
        end
    | _ => Err "bad"%string
    end
|}.

#[export] Instance toy_receipt_laws : ReceiptCodecLaws toy_receipt_codec.
Proof.
  split.
  - intros x y [= H%(inj encode)]. destruct x, y. injection H as -> -> -> -> -> -> -> -> ->. done.
  - intros r. simpl. rewrite decode_encode. by destruct r.
Qed.

Definition included : TransactionReceipt :=
  from_transaction TxExamples.pay_nova (mkBlockInfo 7 "bb" 9) TxConfirmed.
End ReceiptExamples.

Import ReceiptExamples.

Lemma receipt_integrity_witness : verify_integrity included = true /\ from_binary (to_binary included) = Ok included.
Proof.
  destruct (receipt_integrity TxExamples.pay_nova (mkBlockInfo 7 "bb" 9) TxConfirmed) as (H1 & _ & H2 & _).
  split; [exact H1|exact H2].
Defined.
