(* ===== verification/Ntp.v ===== *)
(** * The payment protocol

    [protocol/src/ntp/]: the handshake between payer and payee, the transaction the
    payer broadcasts, the settlement tracker and the receipt both sign.  Ephemeral
    secrets, nonces, identifiers and clocks are arguments; the Diffie-Hellman
    function is the class [X25519].  The proof of funds ([proof_request.rs]) calls
    the proof system and is not modelled. *)

From S2P Require Import Prelude Bytes Crypto Transaction.
From stdpp Require Import pretty.

#[local] Open Scope Z_scope.

Inductive NtpError :=
| HandshakeFailed (msg : string)
| SessionMismatch (expected got : string)
| UnsupportedVersion (v : string)
| UnsupportedCurrency (c : string)
| ProofVerificationFailed (msg : string)
| InsufficientFunds (required proven : Z)
| NtpTransactionError (msg : string)
| SettlementRejected (reason : string)
| SettlementTimeout (elapsed_ms timeout_ms : Z)
| InvalidReceiptSignature (msg : string)
| CryptoError (msg : string)
| SerializationError (msg : string)
| NtpInvalidState (current_state message_type : string).

(** [config.rs] *)
Definition PROTOCOL_VERSION : string := "0.1.0".
Definition PROTOCOL_VERSION_MAJOR : Z := 0.
Definition MIN_TX_FEE_PHOTONS : Z := 100.
Definition GOSSIP_FANOUT : nat := 8.
Definition FINALITY_TIMEOUT_MS : Z := 30000.

(** X25519 (the [x25519_dalek] crate): both sides of an exchange compute the same
    point. *)
Class X25519 := {
  EphemeralSecret : Type;
  dh_public : EphemeralSecret -> list Z;
  diffie_hellman : EphemeralSecret -> list Z -> list Z
}.

Class X25519Laws (X : X25519) : Prop := {
  dh_agree : forall a b, diffie_hellman a (dh_public b) = diffie_hellman b (dh_public a)
}.

(** ** Handshake *)

Record PaymentParams := mkParams { pp_amount : Z; pp_currency : Currency; pp_description : string }.

Section Handshake.
Context {C : Crypto} {X : X25519}.

Record HandshakeRequest := mkRequest {
  sender_pubkey : NovaPublicKey;
  sender_nova_id : string;
  protocol_version : string;
  supported_currencies : list Currency;
  req_timestamp : Z;
  req_nonce : list Z;
  req_ephemeral_pubkey : list Z
}.

Record HandshakeResponse := mkResponse {
  receiver_pubkey : NovaPublicKey;
  receiver_nova_id : string;
  resp_session_id : string;
  payment_request : PaymentParams;
  resp_timestamp : Z;
  resp_ephemeral_pubkey : list Z
}.

Record EstablishedSession := mkSession {
  session_id : string;
  shared_secret : list Z;
  peer_nova_id : string;
  peer_pubkey : NovaPublicKey;
  payment_params : PaymentParams;
  our_nova_id : string;
  our_pubkey : NovaPublicKey
}.

Record HandshakeSession := mkHandshake {
  hs_keypair_pubkey : NovaPublicKey;
  hs_our_nova_id : string;
  ephemeral_secret : option EphemeralSecret;
  ephemeral_public : list Z;
  pending_request : option HandshakeRequest
}.

Definition initiate (eph : EphemeralSecret) (now : Z) (nonce : list Z) (kp : NovaKeypair)
    (currencies : list Currency) : HandshakeSession * HandshakeRequest :=
  let pubkey := public_key kp in
  let nova_id := from_public_key pubkey in
  let request := mkRequest pubkey (to_address nova_id) PROTOCOL_VERSION currencies now nonce
    (dh_public eph) in
  (mkHandshake pubkey (to_address nova_id) (Some eph) (dh_public eph) (Some request), request).

Definition respond (eph : EphemeralSecret) (uuid : string) (now : Z) (request : HandshakeRequest)
    (kp : NovaKeypair) (params : PaymentParams)
    : res NtpError (HandshakeResponse * EstablishedSession) :=
  ensure (String.prefix (pretty PROTOCOL_VERSION_MAJOR +:+ ".") (protocol_version request))
    else (UnsupportedVersion (protocol_version request));
  ensure (bool_decide (pp_currency params ∈ supported_currencies request))
    else (UnsupportedCurrency (display_currency (pp_currency params)));
  let pubkey := public_key kp in
  let nova_id := from_public_key pubkey in
  let raw_shared := diffie_hellman eph (req_ephemeral_pubkey request) in
  let secret := blake3 raw_shared in
  Ok (mkResponse pubkey (to_address nova_id) uuid params now (dh_public eph),
      mkSession uuid secret (sender_nova_id request) (sender_pubkey request) params
        (to_address nova_id) pubkey).

Definition complete (self : HandshakeSession) (response : HandshakeResponse)
    : res NtpError EstablishedSession :=
  eph ← ok_or (ephemeral_secret self)
    (HandshakeFailed "ephemeral secret already consumed — complete() called twice");
  let raw_shared := diffie_hellman eph (resp_ephemeral_pubkey response) in
  Ok (mkSession (resp_session_id response) (blake3 raw_shared) (receiver_nova_id response)
        (receiver_pubkey response) (payment_request response) (hs_our_nova_id self)
        (hs_keypair_pubkey self)).

(** ** Broadcast *)

Record SignedTransaction := mkSigned {
  signed_transaction : Transaction;
  signed_tx_hash : string;
  signed_session_id : string
}.

Record BroadcastMessage := mkBroadcast {
  signed_tx : SignedTransaction;
  bm_protocol_version : string;
  network_id : Z;
  bm_ttl : Z;
  broadcast_timestamp : Z;
  priority : Z
}.

Definition prepare_transaction (now_ms : Z) (session : EstablishedSession) (sender_address : string)
    (nonce : Z) : res NtpError Transaction :=
  let params := payment_params session in
  Ok (build now_ms
       (with_payload (str_bytes ("NTP:" +:+ session_id session +:+ " | " +:+ pp_description params))
       (with_nonce nonce
       (with_fee MIN_TX_FEE_PHOTONS
       (with_amount (mkAmount (pp_amount params) (pp_currency params))
       (with_receiver (peer_nova_id session)
       (with_sender sender_address (builder_new Transfer)))))))).

Definition sign_and_prepare (tx : Transaction) (kp : NovaKeypair) (sid : string) : SignedTransaction :=
  let tx := sign_transaction kp tx in mkSigned tx (tx_id tx) sid.

Definition create_broadcast_message (now_ms : Z) (s : SignedTransaction) (network : Z) : BroadcastMessage :=
  mkBroadcast s PROTOCOL_VERSION network (Z.of_nat GOSSIP_FANOUT mod 256) now_ms 0.

(** ** Settlement *)

Inductive ValidationStage := Structural | Signature | ZkpVerification | StateTransition.

Inductive SettlementResult :=
| Confirmed (block_height : Z) (tx_hash block_hash : string) (tx_index block_timestamp : Z)
| Rejected (reason : string) (stage : ValidationStage)
| TimedOut (elapsed_ms timeout_ms : Z).

Record ValidationRequest := mkValidation {
  vr_transaction : Transaction;
  vr_session_id : option string;
  received_at : Z;
  priority_score : Z
}.

Context {T : TxCodec}.

Definition validation_request_new (now_ms : Z) (tx : Transaction) (sid : option string)
    : ValidationRequest :=
  mkValidation tx sid now_ms (fee_per_byte tx).

(** [format!("{}", e)], the [thiserror] text of each variant. *)
Definition display_transaction_error (e : TransactionError) : string :=
  match e with
  | IdMismatch expected actual =>
      "transaction ID mismatch: expected " +:+ expected +:+ ", got " +:+ actual
  | MissingSignature => "transaction is unsigned"
  | MalformedSignature reason => "malformed signature: " +:+ reason
  | InvalidSignature sender => "invalid signature: does not verify against sender " +:+ sender
  | InvalidSenderAddress address => "invalid sender address: " +:+ address
  | InvalidNonce nonce => "invalid nonce: must be > 0, got " +:+ pretty nonce
  | ZeroAmount => "amount must be > 0"
  | SelfTransfer address => "sender and receiver must differ: both are " +:+ address
  | TimestampTooFarInFuture ts delta max =>
      "timestamp " +:+ pretty ts +:+ " is " +:+ pretty delta +:+ "s in the future (max allowed: "
        +:+ pretty max +:+ "s)"
  | MissingProof => "confidential transfer requires a Groth16 proof"
  | MissingCommitment => "confidential transfer requires an amount commitment"
  | InvalidProof reason => "invalid ZKP proof: " +:+ reason
  end.

Definition stage_of (e : TransactionError) : ValidationStage :=
  match e with InvalidSignature _ => Signature | _ => Structural end.

Definition validate_transaction (now_ms : Z) (tx : Transaction) : res SettlementResult unit :=
  _ ← map_err_res (fun e => Rejected (display_transaction_error e) (stage_of e))
        (verify_transaction now_ms tx);
  ensure (bool_decide (is_Some (tx_signature tx)))
    else (Rejected "missing transaction signature" Signature);
  Ok tt.
(** The tracker of one transaction; instants are milliseconds of a monotonic clock. *)
Inductive SettlementState :=
| SPending
| SValidating
| SConfirmed (r : SettlementResult)
| SRejected (r : SettlementResult)
| STimedOut.

Record SettlementStateMachine := mkMachine {
  sm_state : SettlementState;
  sm_tx_hash : string;
  sm_session_id : string;
  started_at : Z;
  sm_timeout_ms : Z
}.

Definition set_state (st : SettlementState) (m : SettlementStateMachine) : SettlementStateMachine :=
  mkMachine st (sm_tx_hash m) (sm_session_id m) (started_at m) (sm_timeout_ms m).

Definition with_timeout (now : Z) (tx_hash sid : string) (timeout_ms : Z) : SettlementStateMachine :=
  mkMachine SPending tx_hash sid now timeout_ms.

Definition machine_new (now : Z) (tx_hash sid : string) : SettlementStateMachine :=
  mkMachine SPending tx_hash sid now FINALITY_TIMEOUT_MS.

Definition mark_validating (m : SettlementStateMachine) : SettlementStateMachine :=
  match sm_state m with SPending => set_state SValidating m | _ => m end.

Definition mark_confirmed (r : SettlementResult) (m : SettlementStateMachine) : SettlementStateMachine :=
  match sm_state m with SPending | SValidating => set_state (SConfirmed r) m | _ => m end.

Definition mark_rejected (r : SettlementResult) (m : SettlementStateMachine) : SettlementStateMachine :=
  match sm_state m with SPending | SValidating => set_state (SRejected r) m | _ => m end.

(** [Instant::elapsed] saturates at zero. *)
Definition elapsed_ms (now : Z) (m : SettlementStateMachine) : Z := Z.max 0 (now - started_at m).

Definition check_timeout (now : Z) (m : SettlementStateMachine)
    : option SettlementResult * SettlementStateMachine :=
  let elapsed := elapsed_ms now m in
  match sm_state m with
  | SPending | SValidating =>
      if sm_timeout_ms m <=? elapsed
      then (Some (TimedOut elapsed (sm_timeout_ms m)), set_state STimedOut m)
      else (None, m)
  | _ => (None, m)
  end.

Definition machine_result (m : SettlementStateMachine) : option SettlementResult :=
  match sm_state m with SConfirmed r | SRejected r => Some r | _ => None end.

Definition machine_is_terminal (m : SettlementStateMachine) : bool :=
  match sm_state m with SConfirmed _ | SRejected _ | STimedOut => true | _ => false end.

(** ** Receipts *)

Record PaymentReceipt := mkPaymentReceipt {
  receipt_id : string;
  rc_session_id : string;
  transaction_hash : string;
  rc_block_height : Z;
  rc_sender : string;
  rc_sender_pubkey : NovaPublicKey;
  rc_receiver : string;
  rc_receiver_pubkey : NovaPublicKey;
  rc_amount : Z;
  rc_currency : Currency;
  rc_timestamp : Z;
  sender_signature : option NovaSignature;
  receiver_signature : option NovaSignature
}.

Definition with_signatures (rpk : NovaPublicKey) (s r : option NovaSignature) (x : PaymentReceipt)
    : PaymentReceipt :=
  mkPaymentReceipt (receipt_id x) (rc_session_id x) (transaction_hash x) (rc_block_height x)
    (rc_sender x) (rc_sender_pubkey x) (rc_receiver x) rpk (rc_amount x) (rc_currency x)
    (rc_timestamp x) s r.

Definition canonical (x : PaymentReceipt) : string :=
  receipt_id x +:+ ":" +:+ rc_session_id x +:+ ":" +:+ transaction_hash x +:+ ":" +:+
  pretty (rc_block_height x) +:+ ":" +:+ rc_sender x +:+ ":" +:+ rc_receiver x +:+ ":" +:+
  pretty (rc_amount x) +:+ ":" +:+ display_currency (rc_currency x) +:+ ":" +:+
  pretty (rc_timestamp x) +:+ ":" +:+ hex_encode (pk_bytes (rc_sender_pubkey x)).

Definition signing_payload (x : PaymentReceipt) : list Z := str_bytes (canonical x).

Definition is_fully_signed (x : PaymentReceipt) : bool :=
  bool_decide (is_Some (sender_signature x)) && bool_decide (is_Some (receiver_signature x)).

Definition generate_receipt (uuid : string) (settlement : SettlementResult) (session : EstablishedSession)
    : res NtpError PaymentReceipt :=
  match settlement with
  | Confirmed height hash _ _ ts =>
      Ok (mkPaymentReceipt uuid (session_id session) hash height (our_nova_id session)
            (our_pubkey session) (peer_nova_id session) (peer_pubkey session)
            (pp_amount (payment_params session)) (pp_currency (payment_params session)) ts None None)
  | Rejected reason _ => Err (SettlementRejected reason)
  | TimedOut elapsed timeout => Err (SettlementTimeout elapsed timeout)
  end.

Definition sign_receipt_as_sender (kp : NovaKeypair) (x : PaymentReceipt) : PaymentReceipt :=
  with_signatures (rc_receiver_pubkey x) (Some (sign kp (signing_payload x))) (receiver_signature x) x.

Definition countersign_receipt (kp : NovaKeypair) : M PaymentReceipt NtpError unit :=
  x ← get;
  sender_sig ← lift (ok_or (sender_signature x) (InvalidReceiptSignature "sender signature missing"));
  let payload := signing_payload x in
  require (pk_verify (rc_sender_pubkey x) payload sender_sig)
    else (InvalidReceiptSignature "sender signature verification failed");
  put (with_signatures (rc_receiver_pubkey x) (sender_signature x) (Some (sign kp payload)) x).

Definition verify_receipt (x : PaymentReceipt) : res NtpError bool :=
  sender_sig ← ok_or (sender_signature x) (InvalidReceiptSignature "sender signature missing");
  receiver_sig ← ok_or (receiver_signature x) (InvalidReceiptSignature "receiver signature missing");
  let payload := signing_payload x in
  ensure (pk_verify (rc_sender_pubkey x) payload sender_sig)
    else (InvalidReceiptSignature "sender signature invalid");
  ensure (pk_verify (rc_receiver_pubkey x) payload receiver_sig)
    else (InvalidReceiptSignature "receiver signature invalid");
  Ok true.
End Handshake.

(** ** Handshake and payment *)

Section Flow.
Context {C : Crypto} {L : CryptoLaws C} {X : X25519} {XL : X25519Laws X} {T : TxCodec}.

(** The two ends of a session: same identifier, key and invoice, each naming the other. *)
Definition mirrored (s r : EstablishedSession) : Prop :=
  session_id s = session_id r /\ shared_secret s = shared_secret r /\
  payment_params s = payment_params r /\
  (peer_nova_id s, peer_pubkey s) = (our_nova_id r, our_pubkey r) /\
  (peer_nova_id r, peer_pubkey r) = (our_nova_id s, our_pubkey s).

Lemma respond_initiate eph eph' uuid now now' nonce kp kp' currencies params :
  pp_currency params ∈ currencies ->
  exists resp r s,
    respond eph' uuid now' (initiate eph now nonce kp currencies).2 kp' params = Ok (resp, r) /\
    complete (initiate eph now nonce kp currencies).1 resp = Ok s /\ mirrored s r /\
    payment_params s = params /\ session_id s = uuid /\
    our_pubkey s = public_key kp /\ our_pubkey r = public_key kp' /\
    our_nova_id s = to_address (from_public_key (public_key kp)) /\
    our_nova_id r = to_address (from_public_key (public_key kp')).
Proof.
  intros Hc. unfold respond, initiate, complete. simpl. rewrite bool_decide_eq_true_2 by done.
  eexists _, _, _. split; [done|]. split; [done|].
  split; [|done]. unfold mirrored. simpl. rewrite dh_agree. done.
Qed.

(** Handshake: the payee accepts a payer's request exactly when the payer can pay in
    the currency of the invoice; then both ends hold the same session identifier, key
    and invoice, and each holds the other's identity. *)
Theorem handshake_agrees eph eph' uuid now now' nonce kp kp' currencies params :
  let '(hs, request) := initiate eph now nonce kp currencies in
  match respond eph' uuid now' request kp' params with
  | Ok (resp, r) => pp_currency params ∈ currencies /\
      exists s, complete hs resp = Ok s /\ mirrored s r /\ payment_params s = params
  | Err e => pp_currency params ∉ currencies /\
      e = UnsupportedCurrency (display_currency (pp_currency params))
  | Panic => False
  end.
Proof.
  destruct (initiate eph now nonce kp currencies) as [hs request] eqn:Hi.
  destruct (decide (pp_currency params ∈ currencies)) as [Hc|Hc].
  - destruct (respond_initiate eph eph' uuid now now' nonce kp kp' currencies params Hc)
      as (resp & r & s & Hr & Hs & Hm & Hp & _).
    rewrite Hi in Hr, Hs. simpl in Hr, Hs. rewrite Hr. split; [done|]. exists s. done.
  - unfold initiate in Hi. injection Hi as <- <-. unfold respond. simpl.
    rewrite bool_decide_eq_false_2 by done. done.
Qed.

Lemma validate_transaction_iff now tx :
  validate_transaction now tx = Ok tt <-> verify_transaction now tx = Ok tt.
Proof.
  unfold validate_transaction. rewrite res_bind_ok. setoid_rewrite map_err_res_ok. split.
  - by intros ([] & -> & _).
  - intros Hv. exists tt. split; [done|]. apply ensure_ok. split; [|done].
    apply verify_transaction_iff in Hv as [_ _ _ _ _ _ _ (sh & _ & _ & _ & Hs & _) _ _].
    apply bool_decide_eq_true. by rewrite Hs.
Qed.

(** The stage the second check of [validate_transaction] reports is never reached: what
    is rejected is rejected by [verify_transaction], with its reason. *)
Lemma validate_transaction_err now tx r :
  validate_transaction now tx = Err r <->
  exists e, verify_transaction now tx = Err e /\ r = Rejected (display_transaction_error e) (stage_of e).
Proof.
  unfold validate_transaction. destruct (verify_transaction now tx) as [[]|e|] eqn:Hv; simpl.
  - assert (Hok : validate_transaction now tx = Ok tt) by (by apply validate_transaction_iff).
    unfold validate_transaction in Hok. rewrite Hv in Hok. simpl in Hok. split; [congruence|].
    by intros (e & He & _).
  - split; [intros [= <-]; by eexists|]. intros (e' & [= <-] & ->). done.
  - split; [done|]. by intros (e & He & _).
Qed.

Lemma receipt_signed_verifies kp kp' x :
  rc_sender_pubkey x = public_key kp -> rc_receiver_pubkey x = public_key kp' ->
  exists x', countersign_receipt kp' (sign_receipt_as_sender kp x) = (Ok tt, x') /\
    verify_receipt x' = Ok true /\ is_fully_signed x' = true /\
    x' = with_signatures (rc_receiver_pubkey x) (sender_signature x') (receiver_signature x') x.
Proof.
  intros Hs Hr. set (y := sign_receipt_as_sender kp x).
  assert (Hp : signing_payload y = signing_payload x) by done.
  assert (Hv : pk_verify (rc_sender_pubkey y) (signing_payload y) (sign kp (signing_payload x)) = true)
    by (rewrite Hp; simpl; rewrite Hs; apply sign_then_verify).
  unfold countersign_receipt. run. rewrite Hv. eexists. split; [done|].
  unfold verify_receipt. run. set (z := with_signatures _ _ _ y).
  assert (Hz : signing_payload z = signing_payload x) by done. rewrite Hz. simpl.
  rewrite Hs, Hr, Hp, !sign_then_verify. split_and!; [done|done|]. by rewrite <- Hr.
Qed.

(** C29. The whole payment: with an agreed currency, a positive amount, distinct parties and
    sane clocks, the handshake succeeds, the transaction the payer builds from it pays
    the invoice to the payee and is accepted by validators, and once confirmed the
    receipt signed by the payer and countersigned by the payee verifies and names the
    payment. *)
Theorem payment_flow_succeeds eph eph' uuid rid now nonce kp kp' currencies params
    n built seen height bhash idx ts :
  pp_currency params ∈ currencies -> pp_amount params <> 0 -> n <> 0 ->
  to_address (from_public_key (public_key kp)) <> to_address (from_public_key (public_key kp')) ->
  seen + 300000 <= U64_MAX -> built <= seen + 300000 ->
  exists resp r s tx receipt receipt',
    let signed := sign_and_prepare tx kp (session_id s) in
    respond eph' uuid now (initiate eph now nonce kp currencies).2 kp' params = Ok (resp, r) /\
    complete (initiate eph now nonce kp currencies).1 resp = Ok s /\ mirrored s r /\
    prepare_transaction built s (our_nova_id s) n = Ok tx /\
    tx_receiver tx = our_nova_id r /\ tx_amount tx = mkAmount (pp_amount params) (pp_currency params) /\
    validate_transaction seen (signed_transaction signed) = Ok tt /\
    generate_receipt rid (Confirmed height (signed_tx_hash signed) bhash idx ts) s = Ok receipt /\
    countersign_receipt kp' (sign_receipt_as_sender kp receipt) = (Ok tt, receipt') /\
    verify_receipt receipt' = Ok true /\ transaction_hash receipt' = tx_id tx /\
    rc_amount receipt' = pp_amount params /\ rc_receiver receipt' = our_nova_id r.
Proof.
  intros Hc Ha Hn Hne Hck Ht.
  destruct (respond_initiate eph eph' uuid now now nonce kp kp' currencies params Hc)
    as (resp & r & s & Hr & Hs & Hm & Hp & Hu & Hks & Hkr & Has & Har).
  pose proof Hm as (_ & _ & _ & [= Hpid Hppk] & _).
  destruct (prepare_transaction built s (our_nova_id s) n) as [tx| |] eqn:Htx; [|done..].
  set (signed := sign_and_prepare tx kp (session_id s)).
  destruct (generate_receipt rid (Confirmed height (signed_tx_hash signed) bhash idx ts) s)
    as [receipt| |] eqn:Hrec; [|done..].
  pose proof Htx as [= Htx']. pose proof Hrec as [= Hrec'].
  destruct (receipt_signed_verifies kp kp' receipt) as (receipt' & Hcs & Hv & _ & Heq);
    [rewrite <- Hrec'; simpl; congruence..|].
  exists resp, r, s, tx, receipt, receipt'. cbv zeta. fold signed.
  split_and!; try done.
  - rewrite <- Htx'. simpl. congruence.
  - rewrite <- Htx'. simpl. by rewrite Hp.
  - apply validate_transaction_iff. unfold signed, sign_and_prepare. simpl. rewrite <- Htx'.
    apply (signed_build_ok built seen); simpl; congruence || done || lia.
  - rewrite Heq, <- Hrec'. done.
  - rewrite Heq, <- Hrec'. simpl. by rewrite Hp.
  - rewrite Heq, <- Hrec'. simpl. congruence.
Qed.
End Flow.

(** ** What a receipt's signatures cover *)

Definition no_colon (s : string) : Prop := 58 ∉ str_bytes s.

Lemma pretty_N_go_no_colon n s : no_colon s -> no_colon (pretty_N_go n s).
Proof.
  revert s. induction (N.lt_wf_0 n) as [n _ IH]; intros s Hs.
  destruct (decide (n = 0)%N) as [->|Hn]; [done|].
  rewrite pretty_N_go_step by lia. apply IH; [apply N.div_lt; lia|].
  unfold no_colon. simpl. rewrite not_elem_of_cons. split; [|done].
  unfold pretty_N_char. by repeat case_match.
Qed.

Lemma pretty_no_colon z : 0 <= z -> no_colon (pretty z).
Proof.
  intros Hz. destruct z as [|p|p]; [|apply pretty_N_go_no_colon|lia];
    unfold no_colon; simpl; set_solver.
Qed.

Section ReceiptBinding.
Context {C : Crypto} {L : CryptoLaws C}.

(** Widths of the Rust fields, colon-free text. *)
Record receipt_wf (x : PaymentReceipt) : Prop := {
  rw_id : no_colon (receipt_id x);
  rw_session : no_colon (rc_session_id x);
  rw_hash : no_colon (transaction_hash x);
  rw_sender : no_colon (rc_sender x);
  rw_receiver : no_colon (rc_receiver x);
  rw_currency : no_colon (display_currency (rc_currency x));
  rw_height : 0 <= rc_block_height x;
  rw_amount : 0 <= rc_amount x;
  rw_timestamp : 0 <= rc_timestamp x;
  rw_key : Forall byte_ok (pk_bytes (rc_sender_pubkey x))
}.

Definition receipt_fields (x : PaymentReceipt) :=
  (receipt_id x, rc_session_id x, transaction_hash x, rc_block_height x, rc_sender x, rc_receiver x,
   rc_amount x, display_currency (rc_currency x), rc_timestamp x, pk_bytes (rc_sender_pubkey x)).

Lemma field_inj s t a b : no_colon s -> no_colon t ->
  str_bytes (s +:+ ":" +:+ a) = str_bytes (t +:+ ":" +:+ b) -> s = t /\ str_bytes a = str_bytes b.
Proof.
  intros Hs Ht Heq. rewrite !(str_bytes_app _ (":" +:+ _)) in Heq.
  destruct (app_sep_inj 58 (str_bytes s) (str_bytes t) (str_bytes a) (str_bytes b) Hs Ht Heq) as [H1 H2].
  split; [by apply str_bytes_inj | done].
Qed.

Lemma decimal_inj x y a b : 0 <= x -> 0 <= y ->
  str_bytes (pretty x +:+ ":" +:+ a) = str_bytes (pretty y +:+ ":" +:+ b) ->
  x = y /\ str_bytes a = str_bytes b.
Proof.
  intros Hx Hy [Heq Hr]%field_inj; [|by apply pretty_no_colon..].
  split; [by apply (inj pretty) | done].
Qed.

(** The signed text of a receipt determines every field it prints, for fields without
    colons; the receiver's key is not among them. *)
Theorem receipt_payload_binds x y :
  receipt_wf x -> receipt_wf y ->
  signing_payload x = signing_payload y <-> receipt_fields x = receipt_fields y.
Proof.
  intros [A1 A2 A3 A4 A5 A6 A7 A8 A9 A10] [B1 B2 B3 B4 B5 B6 B7 B8 B9 B10].
  unfold signing_payload, canonical, receipt_fields. split; [|by intros [= -> -> -> -> -> -> -> -> -> ->]].
  intros Heq. apply field_inj in Heq as [-> Heq]; [|done..].
  apply field_inj in Heq as [-> Heq]; [|done..]. apply field_inj in Heq as [-> Heq]; [|done..].
  apply decimal_inj in Heq as [-> Heq]; [|done..].
  apply field_inj in Heq as [-> Heq]; [|done..]. apply field_inj in Heq as [-> Heq]; [|done..].
  apply decimal_inj in Heq as [-> Heq]; [|done..]. apply field_inj in Heq as [-> Heq]; [|done..].
  apply decimal_inj in Heq as [-> Heq]; [|done..].
  apply str_bytes_inj, hex_encode_inj in Heq as ->; done.
Qed.

Lemma verify_receipt_ok x : verify_receipt x = Ok true <->
  exists ss rs, sender_signature x = Some ss /\ receiver_signature x = Some rs /\
    pk_verify (rc_sender_pubkey x) (signing_payload x) ss = true /\
    pk_verify (rc_receiver_pubkey x) (signing_payload x) rs = true.
Proof.
  unfold verify_receipt. destruct (sender_signature x) as [ss|], (receiver_signature x) as [rs|];
    unfold mbind, res_bind, ok_or; try (split; [done | naive_solver]).
  rewrite !ensure_ok. naive_solver.
Qed.

(** A receipt can be taken over: whoever holds one that the payer signed can put in
    any key as the receiver's, sign with it, and the result verifies, the receiver's
    address in it being unchanged. *)
Theorem receipt_receiver_replaceable x kp :
  verify_receipt x = Ok true ->
  let x' := with_signatures (public_key kp) (sender_signature x)
              (Some (sign kp (signing_payload x))) x in
  verify_receipt x' = Ok true /\ rc_receiver x' = rc_receiver x /\
  rc_receiver_pubkey x' = public_key kp.
Proof.
  intros (ss & rs & Hs & _ & Hv & _)%verify_receipt_ok. cbv zeta. split; [|done].
  apply verify_receipt_ok. exists ss, (sign kp (signing_payload x)). split; [done|]. split; [done|]. split; [done|].
  apply sign_then_verify.
Qed.
End ReceiptBinding.

(** ** The settlement tracker *)

(** The calls the tracker can receive. *)
Inductive machine_step : SettlementStateMachine -> SettlementStateMachine -> Prop :=
| step_validating m : machine_step m (mark_validating m)
| step_confirmed r m : machine_step m (mark_confirmed r m)
| step_rejected r m : machine_step m (mark_rejected r m)
| step_timeout now m : machine_step m (check_timeout now m).2.

Inductive machine_steps : SettlementStateMachine -> SettlementStateMachine -> Prop :=
| msteps_refl m : machine_steps m m
| msteps_cons m m' m'' : machine_step m m' -> machine_steps m' m'' -> machine_steps m m''.

(** C30. Settlement decides once: a terminal state is never left, the tracked transaction,
    session and timeout never change, and once the timeout has passed one check ends an
    undecided settlement and reports it. *)
Theorem settlement_decides_once m m' :
  machine_steps m m' ->
  (machine_is_terminal m = true -> m' = m) /\
  (sm_tx_hash m', sm_session_id m', started_at m', sm_timeout_ms m')
    = (sm_tx_hash m, sm_session_id m, started_at m, sm_timeout_ms m) /\
  forall now, started_at m + sm_timeout_ms m <= now -> 0 <= sm_timeout_ms m ->
    machine_is_terminal (check_timeout now m').2 = true /\
    (machine_is_terminal m' = false ->
     check_timeout now m' = (Some (TimedOut (now - started_at m) (sm_timeout_ms m)), set_state STimedOut m')).
Proof.
  intros Hsteps. assert (Hpre : (machine_is_terminal m = true -> m' = m) /\
    (sm_tx_hash m', sm_session_id m', started_at m', sm_timeout_ms m')
      = (sm_tx_hash m, sm_session_id m, started_at m, sm_timeout_ms m)).
  { induction Hsteps as [m|m m1 m2 Hstep _ IH]; [done|]. destruct IH as [IH1 IH2].
    assert (H1 : (machine_is_terminal m = true -> m1 = m) /\
      (sm_tx_hash m1, sm_session_id m1, started_at m1, sm_timeout_ms m1)
        = (sm_tx_hash m, sm_session_id m, started_at m, sm_timeout_ms m)).
    { destruct Hstep as [m|r m|r m|now m]; destruct m as [[] h sid st t];
        unfold mark_validating, mark_confirmed, mark_rejected, check_timeout; simpl; try done;
        destruct (t <=? _); done. }
    destruct H1 as [H1 H2]. split; [|congruence].
    intros Ht. rewrite (H1 Ht) in IH1. auto. }
  destruct Hpre as [H1 H2]. split_and!; [done..|]. intros now Hnow Ht. injection H2 as _ _ Hst Hto.
  assert (He : elapsed_ms now m' = now - started_at m) by (unfold elapsed_ms; rewrite Hst; lia).
  unfold check_timeout. rewrite He, Hto, (proj2 (Z.leb_le _ _)) by lia.
  unfold machine_is_terminal. destruct (sm_state m') eqn:Hs; simpl; rewrite ?Hs; done.
Qed.

(** ** Witnesses *)

Module NtpExamples.
#[local] Existing Instance toy_crypto.

(** Addition modulo a number, written as one byte. *)
Definition toy_dh : X25519 := {|
  EphemeralSecret := Z;
  dh_public := fun a => [a mod 251];
  diffie_hellman := fun a p => [(a mod 251 + nth 0 p 0) mod 251]
|}.
Lemma toy_dh_laws : X25519Laws toy_dh.
Proof. constructor. intros a b. simpl. by rewrite Z.add_comm. Qed.

Definition payer : NovaKeypair := mkKeypair 1.
Definition payee : NovaKeypair := mkKeypair 2.
Definition invoice : PaymentParams := mkParams 50 BRL "coffee".
Definition unsigned : PaymentReceipt :=
  mkPaymentReceipt "r1" "s1" "00" 7 "payer" (public_key payer) "payee" (public_key payee) 50 BRL 9 None None.
Definition receipt : PaymentReceipt := (countersign_receipt payee (sign_receipt_as_sender payer unsigned)).2.
Definition tracker : SettlementStateMachine := with_timeout 100 "00" "s1" 30000.
End NtpExamples.
Import NtpExamples.
#[local] Existing Instance toy_crypto.
#[local] Existing Instance toy_dh.
#[local] Existing Instance TxExamples.codec.

Lemma handshake_agrees_witness :
  let '(hs, request) := @initiate toy_crypto toy_dh 5 0 [] payer [BRL; NOVA] in
  match @respond toy_crypto toy_dh 9 "s1" 1 request payee invoice with
  | Ok (resp, r) => pp_currency invoice ∈ [BRL; NOVA] /\
      exists s, complete hs resp = Ok s /\ mirrored s r /\ payment_params s = invoice
  | Err e => pp_currency invoice ∉ [BRL; NOVA] /\
      e = UnsupportedCurrency (display_currency (pp_currency invoice))
  | Panic => False
  end.
Proof. exact (@handshake_agrees toy_crypto toy_dh toy_dh_laws 5 9 "s1"%string 0 1 [] payer payee [BRL; NOVA] invoice). Defined.

Lemma payment_flow_succeeds_witness :
  exists resp r s tx receipt receipt',
    let signed := @sign_and_prepare toy_crypto tx payer (session_id s) in
    @respond toy_crypto toy_dh 9 "s1" 0 (@initiate toy_crypto toy_dh 5 0 [] payer [BRL]).2 payee invoice = Ok (resp, r) /\
    complete (@initiate toy_crypto toy_dh 5 0 [] payer [BRL]).1 resp = Ok s /\ mirrored s r /\
    prepare_transaction 1000 s (our_nova_id s) 1 = Ok tx /\
    tx_receiver tx = our_nova_id r /\ tx_amount tx = mkAmount 50 BRL /\
    @validate_transaction toy_crypto TxExamples.codec 1000 (signed_transaction signed) = Ok tt /\
    generate_receipt "r1" (Confirmed 7 (signed_tx_hash signed) "bb" 0 9) s = Ok receipt /\
    countersign_receipt payee (sign_receipt_as_sender payer receipt) = (Ok tt, receipt') /\
    verify_receipt receipt' = Ok true /\ transaction_hash receipt' = tx_id tx /\
    rc_amount receipt' = 50 /\ rc_receiver receipt' = our_nova_id r.
Proof.
  apply (@payment_flow_succeeds toy_crypto toy_laws toy_dh toy_dh_laws TxExamples.codec 5 9 "s1" "r1"
    0 [] payer payee [BRL] invoice 1 1000 1000 7 "bb" 0 9); try (vm_compute; congruence).
  apply list_elem_of_singleton. reflexivity.
Defined.

Lemma receipt_payload_binds_witness :
  @signing_payload toy_crypto unsigned = @signing_payload toy_crypto receipt
  <-> receipt_fields unsigned = receipt_fields receipt.
Proof.
  assert (Hwf : receipt_wf unsigned).
  { constructor; unfold no_colon; simpl; try lia; try (intros H%list_elem_of_In; vm_compute in H; intuition discriminate).
    apply (@verifying_key_bytes toy_crypto toy_laws). }
  apply (@receipt_payload_binds toy_crypto toy_laws unsigned receipt Hwf).
  destruct Hwf. constructor; assumption.
Defined.

Lemma receipt_receiver_replaceable_witness :
  @verify_receipt toy_crypto (with_signatures (public_key payer) (sender_signature receipt)
     (Some (sign payer (signing_payload receipt))) receipt) = Ok true.
Proof.
  apply (@receipt_receiver_replaceable toy_crypto toy_laws receipt payer). vm_compute. reflexivity.
Defined.

Lemma settlement_decides_once_witness :
  machine_is_terminal (check_timeout 30200 (mark_validating tracker)).2 = true.
Proof.
  apply (settlement_decides_once tracker (mark_validating tracker)).
  - apply (msteps_cons _ (mark_validating tracker)); [apply step_validating | constructor].
  - vm_compute. congruence.
  - vm_compute. congruence.
Defined.
