(* ===== verification/Keys.v ===== *)
(** * Key pairs, signatures and hash helpers

    The rest of [protocol/src/crypto/keys.rs] (construction, storage and comparison of
    key pairs, checked public keys, textual signatures), [protocol/src/crypto/signatures.rs]
    and the derived hashes of [protocol/src/crypto/hash.rs].  The conversion of an
    Ed25519 secret key from and to its 32 seed bytes is the class [SecretKeys]; a
    reconstructed key is only assumed to have the same public key and to sign alike. *)

From S2P Require Import Prelude Bytes Crypto Prime Identity.

Class SecretKeys (C : Crypto) := {
  signing_key_from_bytes : list Z -> SigningKey;
  signing_key_to_bytes : SigningKey -> list Z
}.

Class SecretKeysLaws {C : Crypto} (S : SecretKeys C) : Prop := {
  seed_length : forall k, length (signing_key_to_bytes k) = 32%nat;
  seed_bytes : forall k, Forall byte_ok (signing_key_to_bytes k);
  seed_roundtrip : forall s, length s = 32%nat -> Forall byte_ok s ->
    signing_key_to_bytes (signing_key_from_bytes s) = s;
  seed_verifying_key : forall k,
    verifying_key (signing_key_from_bytes (signing_key_to_bytes k)) = verifying_key k;
  seed_sign : forall k m,
    dalek_sign (signing_key_from_bytes (signing_key_to_bytes k)) m = dalek_sign k m
}.

(** ** [keys.rs] *)

Inductive KeyError :=
| InvalidSecretKey
| KeyInvalidPublicKey
| KeypairMismatch.

Definition SECRET_KEY_LENGTH : nat := 32.

Section Keys.
Context {C : Crypto} {S : SecretKeys C} {B : Base58}.

Definition from_seed (seed : list Z) : NovaKeypair := mkKeypair (signing_key_from_bytes seed).

(** [SigningKey::generate] fills 32 bytes from the system generator. *)
Definition generate (random : list Z) : NovaKeypair := mkKeypair (signing_key_from_bytes random).

Definition kp_from_bytes (secret_key_bytes : list Z) : res KeyError NovaKeypair :=
  Ok (from_seed secret_key_bytes).

Definition kp_from_hex (hex_str : string) : res KeyError NovaKeypair :=
  bytes ← map_err_res (fun _ => InvalidSecretKey) (hex_decode hex_str);
  ensure (bool_decide (length bytes = SECRET_KEY_LENGTH)) else InvalidSecretKey;
  kp_from_bytes bytes.

Definition public_key_bytes (self : NovaKeypair) : list Z := verifying_key (kp_signing_key self).

Definition kp_verify (self : NovaKeypair) (message : list Z) (signature : NovaSignature) : bool :=
  pk_verify (public_key self) message signature.

Definition secret_key_bytes (self : NovaKeypair) : list Z := signing_key_to_bytes (kp_signing_key self).

Definition kp_to_bytes (self : NovaKeypair) : list Z := secret_key_bytes self.

Definition from_secret_key_bytes (bytes : list Z) : NovaKeypair := from_seed bytes.

Definition public_key_hex (self : NovaKeypair) : string := hex_encode (public_key_bytes self).

Definition public_key_base58 (self : NovaKeypair) : string := bs58_encode (public_key_bytes self).

Definition kp_clone (self : NovaKeypair) : NovaKeypair :=
  mkKeypair (signing_key_from_bytes (signing_key_to_bytes (kp_signing_key self))).

Definition signing_key (self : NovaKeypair) : SigningKey := kp_signing_key self.

Definition kp_verifying_key (self : NovaKeypair) : list Z := verifying_key (kp_signing_key self).

(** [Debug]: the public key only. *)
Definition kp_debug (self : NovaKeypair) : string :=
  "NovaKeypair(pub=" +:+ pk_to_hex (public_key self) +:+ ")".

Definition keypair_eqb (self other : NovaKeypair) : bool :=
  bool_decide (public_key_bytes self = public_key_bytes other).

(** The argument is a [u8; 32]; that it is a point of the curve is not looked at. *)
Definition pk_from_bytes (bytes : list Z) : NovaPublicKey := mkPk bytes.

Definition pk_as_bytes (self : NovaPublicKey) : list Z := pk_bytes self.

(** What [Hash] feeds to the hasher. *)
Definition pk_hash_input (self : NovaPublicKey) : list Z := pk_bytes self.

Definition display_pk (self : NovaPublicKey) : string := pk_to_hex self.

(** [&s[a..b]], [s] being ASCII: a bound past the end panics. *)
Definition str_slice {E} (a b : nat) (s : string) : res E string :=
  if ((a <=? b) && (b <=? String.length s))%nat then Ok (String.substring a (b - a) s) else Panic.

Definition debug_pk {E} (self : NovaPublicKey) : res E string :=
  short ← str_slice 0 16 (pk_to_hex self);
  Ok ("NovaPublicKey(" +:+ short +:+ ")").

Definition try_from_slice (slice : list Z) : res KeyError NovaPublicKey :=
  ensure (bool_decide (length slice = 32%nat)) else KeyInvalidPublicKey;
  ensure (valid_point slice) else KeyInvalidPublicKey;
  Ok (mkPk slice).

Definition to_verifying_key (self : NovaPublicKey) : res KeyError (list Z) :=
  ensure (valid_point (pk_bytes self)) else KeyInvalidPublicKey;
  Ok (pk_bytes self).

Definition pk_to_base58 (self : NovaPublicKey) : string := bs58_encode (pk_bytes self).

Definition to_dalek_signature (self : NovaSignature) : option (list Z) :=
  if bool_decide (length (sig_bytes self) = 64%nat) then Some (sig_bytes self) else None.

(** The argument is a [u8; 64]. *)
Definition sig_from_bytes (bytes : list Z) : NovaSignature := mkSig bytes.

Definition sig_as_bytes (self : NovaSignature) : list Z := sig_bytes self.

Definition display_sig (self : NovaSignature) : string := sig_to_hex self.

Definition debug_sig {E} (self : NovaSignature) : res E string :=
  let hex_str := sig_to_hex self in
  if (128 <=? String.length hex_str)%nat then
    front ← str_slice 0 8 hex_str;
    back ← str_slice 120 (String.length hex_str) hex_str;
    Ok ("NovaSignature(" +:+ front +:+ "..." +:+ back +:+ ")")
  else Ok ("NovaSignature(" +:+ hex_str +:+ ")").

Definition sig_from_hex (s : string) : res string NovaSignature :=
  bytes ← hex_decode s;
  ensure (bool_decide (length bytes = 64%nat)) else "Odd number of digits"%string;
  Ok (mkSig bytes).

(** [NovaId]: its accessors, what [Hash] feeds to the hasher, its texts. *)
Definition id_key_hash (self : NovaId) : list Z := key_hash self.

Definition id_public_key (self : NovaId) : option NovaPublicKey := nova_public_key self.

Definition id_hash_input (self : NovaId) : list Z := key_hash self.

Definition display_id (self : NovaId) : string := to_address self.

Definition debug_id (self : NovaId) : string := "NovaId(" +:+ to_address self +:+ ")".

(** ** [signatures.rs] *)

Inductive SignatureError :=
| VerificationFailed
| InvalidSignatureBytes
| SigInvalidPublicKey.

Definition sign_message (keypair : NovaKeypair) (message : list Z) : NovaSignature := sign keypair message.

Definition verify_message (pk : NovaPublicKey) (message : list Z) (signature : NovaSignature) : bool :=
  pk_verify pk message signature.

(** The arguments are [&[u8; 32]] and [&[u8; 64]]. *)
Definition verify_raw (public_key_bytes message signature_bytes : list Z) : res SignatureError unit :=
  ensure (valid_point public_key_bytes) else SigInvalidPublicKey;
  ensure (dalek_verify public_key_bytes message signature_bytes) else VerificationFailed;
  Ok tt.

Definition sign_to_bytes (keypair : NovaKeypair) (message : list Z) : list Z :=
  sig_bytes (sign_message keypair message).

Fixpoint batch_verify (items : list (NovaPublicKey * list Z * NovaSignature)) : res SignatureError unit :=
  match items with
  | [] => Ok tt
  | (pubkey, message, signature) :: rest =>
      if negb (verify_message pubkey message signature) then Err VerificationFailed else batch_verify rest
  end.

(** ** [hash.rs] *)

Definition sha256_array (data : list Z) : list Z := sha2_256 data.

Definition blake3_hash_vec (data : list Z) : list Z := blake3 data.

(** [Fr::from_le_bytes_mod_order]. *)
Definition hash_to_field (data : list Z) : Z := le_decode (blake3_hash data) mod FR_MODULUS.
End Keys.

(** ** Theorems *)

Section DebugTexts.
Context {C : Crypto} {L : CryptoLaws C}.
(** Two digits a byte. *)
Context (hex_length : forall l, String.length (hex_encode l) = (2 * length l)%nat).

Lemma str_slice_ok {E} a b s : (a <= b <= String.length s)%nat ->
  str_slice (E := E) a b s = Ok (String.substring a (b - a) s).
Proof. intros [Ha Hb]. unfold str_slice. by rewrite (proj2 (Nat.leb_le _ _) Ha), (proj2 (Nat.leb_le _ _) Hb). Qed.

(** Debug output never panics: not for a key of 32 bytes, whatever they are, and not for a
    signature of any length, such as a peer can send; keys that hash alike in a table are equal,
    and so are identities, with or without their public key. *)
Theorem debug_texts_total {E} pk s (a b : NovaId) :
  length (pk_bytes pk) = 32%nat ->
  debug_pk (E := E) pk = Ok ("NovaPublicKey(" +:+ String.substring 0 16 (display_pk pk) +:+ ")") /\
  debug_sig (E := E) s <> Panic /\
  (nova_id_eqb a b = true <-> id_hash_input a = id_hash_input b) /\
  (nova_id_eqb a b = true -> display_id a = display_id b /\ debug_id a = debug_id b).
Proof.
  intros Hl. split_and!.
  - unfold debug_pk. unfold pk_to_hex at 1. rewrite str_slice_ok by (rewrite hex_length, Hl; lia). done.
  - unfold debug_sig. destruct (Nat.leb_spec 128 (String.length (sig_to_hex s))); [|done].
    rewrite !str_slice_ok by lia. done.
  - unfold nova_id_eqb. apply bool_decide_eq_true.
  - unfold nova_id_eqb, debug_id, display_id, to_address. by intros ->%bool_decide_eq_true.
Qed.
End DebugTexts.

Section KeyTheorems.
Context {C : Crypto} {L : CryptoLaws C} {S : SecretKeys C} {SL : SecretKeysLaws S}.

Lemma kp_from_hex_iff s kp :
  kp_from_hex s = Ok kp <->
  exists seed, hex_decode s = Ok seed /\ length seed = SECRET_KEY_LENGTH /\ kp = from_seed seed.
Proof.
  unfold kp_from_hex. destruct (hex_decode s) as [seed|e|]; cbn [map_err_res mbind res_bind].
  - case_bool_decide as Hl.
    + split; [intros [= <-]; by exists seed|]. by intros (? & [= <-] & _ & ->).
    + split; [discriminate|]. by intros (? & [= <-] & ? & _).
  - split; [discriminate|]. by intros (? & ? & _).
  - split; [discriminate|]. by intros (? & ? & _).
Qed.

Lemma reconstructed_key kp :
  keypair_eqb (kp_clone kp) kp = true /\ public_key (kp_clone kp) = public_key kp /\
  forall m, sign (kp_clone kp) m = sign kp m.
Proof.
  split_and!.
  - apply bool_decide_eq_true. apply seed_verifying_key.
  - unfold public_key. cbn. by rewrite seed_verifying_key.
  - intros m. unfold sign. cbn. by rewrite seed_sign.
Qed.

(** A key pair written to a file as hexadecimal text and read back is equal to the
    original (by the code's equality), exports the same secret, has the same address
    and signs alike; and reading a text succeeds exactly when it decodes to 32 bytes,
    any other text being an invalid secret key. *)
Theorem keypair_storage_roundtrip kp text :
  (exists kp', kp_from_hex (hex_encode (secret_key_bytes kp)) = Ok kp' /\ keypair_eqb kp' kp = true /\
     secret_key_bytes kp' = secret_key_bytes kp /\
     to_address (from_public_key (public_key kp')) = to_address (from_public_key (public_key kp)) /\
     forall m, sign kp' m = sign kp m) /\
  ((exists kp', kp_from_hex text = Ok kp') <-> exists seed, hex_decode text = Ok seed /\ length seed = SECRET_KEY_LENGTH) /\
  (forall e, kp_from_hex text = Err e -> e = InvalidSecretKey).
Proof.
  split_and!.
  - exists (kp_clone kp). destruct (reconstructed_key kp) as (He & Hp & Hs). split_and!; try done.
    + apply kp_from_hex_iff. exists (secret_key_bytes kp). split; [apply hex_roundtrip, seed_bytes|].
      split; [apply seed_length|done].
    + unfold secret_key_bytes. cbn. apply seed_roundtrip; [apply seed_length|apply seed_bytes].
    + by rewrite Hp.
  - split.
    + intros [kp' (seed & ? & ? & _)%kp_from_hex_iff]. by exists seed.
    + intros (seed & ? & ?). exists (from_seed seed). apply kp_from_hex_iff. by exists seed.
  - intros e. unfold kp_from_hex. destruct (hex_decode text); cbn [map_err_res mbind res_bind]; [|congruence..].
    case_match; [discriminate|congruence].
Qed.

Lemma verify_raw_iff pk m s : verify_raw pk m s = Ok tt <-> valid_point pk = true /\ dalek_verify pk m s = true.
Proof. unfold verify_raw. destruct (valid_point pk), (dalek_verify pk m s); naive_solver. Qed.

Lemma verify_raw_pk pk m s :
  length (sig_bytes s) = 64%nat ->
  verify_raw (pk_bytes pk) m (sig_bytes s) = Ok tt <-> pk_verify pk m s = true.
Proof.
  intros Hs. rewrite verify_raw_iff. unfold pk_verify. rewrite bool_decide_true by done. cbn.
  destruct (valid_point _); naive_solver.
Qed.

(** Signatures off the wire: the raw check and the typed check agree on signatures of 64
    bytes; what [sign_to_bytes] returns passes it under the signer's key; and a batch
    passes exactly when every signature in it does, with one error for all failures. *)
Theorem batch_verify_iff items kp m :
  (batch_verify items = Ok tt <->
   Forall (fun '(pk, msg, s) => length (sig_bytes s) = 64%nat /\
             verify_raw (pk_bytes pk) msg (sig_bytes s) = Ok tt) items) /\
  (batch_verify items <> Ok tt -> batch_verify items = Err VerificationFailed) /\
  verify_raw (public_key_bytes kp) m (sign_to_bytes kp m) = Ok tt.
Proof.
  split_and!.
  - induction items as [|[[pk msg] s] items IH]; cbn [batch_verify]; [by split|].
    rewrite Forall_cons, <- IH. unfold verify_message.
    assert (pk_verify pk msg s = true <->
            length (sig_bytes s) = 64%nat /\ verify_raw (pk_bytes pk) msg (sig_bytes s) = Ok tt) as Hv.
    { destruct (decide (length (sig_bytes s) = 64%nat)) as [Hs|Hs]; [rewrite verify_raw_pk by done; tauto|].
      unfold pk_verify. rewrite (bool_decide_false (length _ = _)) by done. destruct (valid_point _); naive_solver. }
    rewrite <- Hv. destruct (pk_verify pk msg s); cbn [negb]; [tauto|]. split; [discriminate|by intros []].
  - induction items as [|[[pk msg] s] items IH]; cbn [batch_verify]; [done|].
    by destruct (verify_message pk msg s).
  - apply verify_raw_iff. split; [apply verifying_key_valid|apply dalek_sign_verify].
Qed.

(** How many 256-bit numbers reduce to a field element. *)
Definition preimages (x : Z) : Z := if x <? 2 ^ 256 - 5 * FR_MODULUS then 6 else 5.

Lemma fr_between : 0 < FR_MODULUS /\ 5 * FR_MODULUS < 2 ^ 256 < 6 * FR_MODULUS.
Proof. unfold FR_MODULUS. lia. Qed.

Lemma preimages_fit x k :
  0 <= x < FR_MODULUS -> 0 <= k < preimages x -> 0 <= x + k * FR_MODULUS < 2 ^ 256.
Proof.
  pose proof fr_between as Hr. unfold preimages. generalize dependent FR_MODULUS. intros r Hr Hx Hk.
  destruct (Z.ltb_spec x (2 ^ 256 - 5 * r)); nia.
Qed.

Lemma reduces_to n x :
  0 <= n < 2 ^ 256 -> 0 <= x < FR_MODULUS ->
  n mod FR_MODULUS = x <-> exists k, 0 <= k < preimages x /\ n = x + k * FR_MODULUS.
Proof.
  pose proof fr_between as Hr. unfold preimages. generalize dependent FR_MODULUS. intros r Hr Hn Hx. split.
  - intros E. exists (n / r). pose proof (Z.div_mod n r ltac:(lia)).
    split; [|lia]. destruct (Z.ltb_spec x (2 ^ 256 - 5 * r)); nia.
  - intros (k & Hk & ->). rewrite Z.mod_add by lia. by apply Z.mod_small.
Qed.

(** Hashing to the field is far from uniform: a digest reduces to [x] exactly when it is
    one of the [preimages x] numbers [x], [x + r], [x + 2 r], ...; there are six of them
    for the small elements and five for the large ones, so the former are a fifth more
    likely than the latter. *)
Theorem hash_to_field_biased data :
  0 <= hash_to_field data < FR_MODULUS /\
  (forall x, 0 <= x < FR_MODULUS ->
     hash_to_field data = x <->
     exists k, 0 <= k < preimages x /\ le_decode (blake3 data) = x + k * FR_MODULUS) /\
  (forall x k, 0 <= x < FR_MODULUS -> 0 <= k < preimages x -> 0 <= x + k * FR_MODULUS < 2 ^ 256) /\
  preimages 0 = 6 /\ preimages (FR_MODULUS - 1) = 5.
Proof.
  assert (0 <= le_decode (blake3 data) < 2 ^ 256) as Hd.
  { pose proof (le_decode_bound (blake3 data) (blake3_bytes data)) as Hb. rewrite blake3_length in Hb. exact Hb. }
  split; [apply Z.mod_pos_bound; apply fr_between|]. split; [intros x Hx; by apply reduces_to|].
  split; [|split; reflexivity]. intros x k. apply preimages_fit.
Qed.
End KeyTheorems.

(** ** Witnesses *)

Module KeyExamples.
#[export] Existing Instance toy_crypto.

#[export] Instance toy_keys : SecretKeys toy_crypto := {|
  signing_key_from_bytes := be_decode;
  signing_key_to_bytes := be_bytes 32
|}.

Lemma be_bytes_decode k : be_bytes 32 (be_decode (be_bytes 32 k)) = be_bytes 32 k.
Proof. apply be_bytes_be_decode; [apply length_be_bytes|apply be_bytes_ok]. Qed.

#[export] Instance toy_keys_laws : SecretKeysLaws toy_keys.
Proof.
  split.
  - intros k. apply length_be_bytes.
  - intros k. apply be_bytes_ok.
  - intros s Hl Hs. by apply be_bytes_be_decode.
  - intros k. apply be_bytes_decode.
  - intros k m. cbn [dalek_sign toy_crypto signing_key_from_bytes signing_key_to_bytes toy_keys].
    unfold Toy.toy_sign, Toy.vk. by rewrite be_bytes_decode.
Qed.

Definition k7 : NovaKeypair (C := toy_crypto) := mkKeypair (C := toy_crypto) 7.
End KeyExamples.

Import KeyExamples.

Lemma keypair_storage_roundtrip_witness :
  exists kp', kp_from_hex (hex_encode (secret_key_bytes k7)) = Ok kp' /\
    keypair_eqb kp' k7 = true.
Proof.
  destruct (proj1 (keypair_storage_roundtrip k7 "")) as (kp' & Hk & He & _).
  exists kp'. split; [exact Hk|exact He].
Defined.

Lemma batch_verify_iff_witness : verify_raw (public_key_bytes k7) [1; 2] (sign_to_bytes k7 [1; 2]) = Ok tt.
Proof. apply (batch_verify_iff [] k7 [1; 2]). Defined.

Lemma hash_to_field_biased_witness : 0 <= hash_to_field [1; 2] < FR_MODULUS.
Proof. apply (hash_to_field_biased [1; 2]). Defined.
