(* ===== verification/Documents.v ===== *)
(** * Documents and views

    The JSON forms of DID documents ([protocol/src/identity/did.rs]) and of receipts
    ([protocol/src/transaction/receipt.rs]), over the class [JsonDoc] of a serializer that
    reads back what it wrote; and the read-only views of transactions, blocks, credit
    lines and token types. *)

From Stdlib Require Import Ascii.
From stdpp Require Import pretty.
From S2P Require Import Prelude Bytes Crypto Transaction Block Db Credit Identity Receipt.
From S2P Require TokenFactory Wallet.

#[local] Open Scope Z_scope.

(** [serde_json::to_string_pretty] and [serde_json::from_str] at a type. *)
Class JsonDoc (A : Type) := {
  to_string_pretty : A -> string + string;
  from_json_str : string -> string + A
}.

Class JsonDocLaws {A} (J : JsonDoc A) : Prop := {
  pretty_ok : forall a, exists s, to_string_pretty a = inr s;
  from_pretty : forall a s, to_string_pretty a = inr s -> from_json_str s = inr a
}.

Section DidJson.
Context {C : Crypto} {B : Base58} {J : JsonDoc DidDocument}.

(** [map_err(|e| DidError::Serialization(..))] *)
Definition did_serialization {A} (r : string + A) : res DidError A :=
  match r with inr a => Ok a | inl e => Err (DidSerialization e) end.

Definition did_doc_to_json (self : DidDocument) : res DidError string := did_serialization (to_string_pretty self).

Definition did_doc_from_json (json : string) : res DidError DidDocument := did_serialization (from_json_str json).

Definition to_did_document_json (now : Z) (self : NovaDid) : res DidError string :=
  let doc := to_did_document now self in
  did_serialization (to_string_pretty doc).

Definition display_did (self : NovaDid) : string := to_did_string self.

Definition did_nova_id_ref (self : NovaDid) : NovaId := did_nova_id self.

Definition did_public_key_ref (self : NovaDid) : NovaPublicKey := did_public_key self.

(** The text published for an identity is read back as its document, which is valid and
    gives the public key; writing the document read gives the same text. *)
Theorem did_json_roundtrip {JL : JsonDocLaws J} {BL : Base58Laws B} now self :
  Forall byte_ok (pk_bytes (did_public_key self)) ->
  exists json doc, to_did_document_json now self = Ok json /\ did_doc_from_json json = Ok doc /\
    validate doc = Ok tt /\ dd_id doc = display_did self /\
    document_key doc = Some (pk_bytes (did_public_key_ref self)) /\ did_doc_to_json doc = Ok json.
Proof.
  intros Hk. destruct (pretty_ok (to_did_document now self)) as [json Hj].
  exists json, (to_did_document now self). unfold to_did_document_json, did_doc_from_json, did_doc_to_json.
  rewrite Hj, (from_pretty _ _ Hj). split_and!; [done|done|apply to_did_document_valid|done|by apply to_did_document_key|done].
Qed.

(** Text from elsewhere is never trusted further than it parses: no document is made of text
    that does not, and the only error is one of serialization. *)
Lemma did_doc_from_json_cases json :
  (exists doc, from_json_str json = inr doc /\ did_doc_from_json json = Ok doc) \/
  (exists e, from_json_str json = inl e /\ did_doc_from_json json = Err (DidSerialization e)).
Proof. unfold did_doc_from_json. destruct (from_json_str json); [right|left]; by eexists. Qed.
End DidJson.

Section ReceiptJson.
Context {C : Crypto} {R : ReceiptCodec} {J : JsonDoc TransactionReceipt}.

Definition receipt_to_json {E} (self : TransactionReceipt) : res E string :=
  match to_string_pretty self with inr s => Ok s | inl _ => Panic end.

Definition receipt_from_json (json : string) : res string TransactionReceipt :=
  match from_json_str json with inr r => Ok r | inl e => Err e end.

(** The text of a receipt is always written, and a receipt that was intact is intact when it is
    read back, through either of its forms. *)
Theorem receipt_json_roundtrip {JL : JsonDocLaws J} {RL : ReceiptCodecLaws R} {E} tx b status :
  let r := from_transaction tx b status in
  exists json, receipt_to_json (E := E) r = Ok json /\ receipt_from_json json = Ok r /\
    from_binary (to_binary r) = receipt_from_json json /\
    forall s, receipt_from_json json = Ok s -> verify_integrity s = true.
Proof.
  intros r. destruct (pretty_ok r) as [json Hj]. exists json. unfold receipt_to_json, receipt_from_json.
  rewrite Hj, (from_pretty _ _ Hj). split_and!; [done|done|apply receipt_de_ser|].
  intros s [= <-]. by apply bool_decide_eq_true.
Qed.
End ReceiptJson.

(** ** Views *)

Section Views.
Context {C : Crypto}.

Definition id_hex (tx : Transaction) : string := tx_id tx.

Definition header_hash_hex (h : BlockHeader) : string := hex_encode (hash h).

Definition parent_hash_hex (h : BlockHeader) : string := hex_encode (parent_hash h).

Definition block_height (b : Block) : Z := height (header b).

Definition tx_count (b : Block) : nat := length (transactions b).

Definition block_hash_hex (b : Block) : string := hex_encode (hash (header b)).
End Views.

Definition line_count (m : CreditLineManager) : nat := length (lines m).

Definition all_lines (m : CreditLineManager) : list CreditLine := lines m.

Definition display_token_type (t : TokenFactory.TokenType) : string :=
  match t with
  | TokenFactory.Utility => "Utility"
  | TokenFactory.Stablecoin => "Stablecoin"
  | TokenFactory.Governance => "Governance"
  | TokenFactory.Reward => "Reward"
  end.

Definition display_vault_token_type (t : Wallet.TokenType) : string :=
  match t with
  | Wallet.FiatBacked c => "FiatBacked(" +:+ display_currency c +:+ ")"
  | Wallet.CryptoToken c => "Crypto(" +:+ display_currency c +:+ ")"
  | Wallet.Stablecoin c => "Stablecoin(" +:+ display_currency c +:+ ")"
  | Wallet.Native => "Native"
  | Wallet.LoyaltyPoints => "LoyaltyPoints"
  | Wallet.Asset class => "Asset(" +:+ class +:+ ")"
  end.

Section VaultErrors.
Context {C : Crypto}.

Definition display_balance_error (e : Wallet.BalanceError) : string :=
  match e with
  | Wallet.BalInsufficient t available requested =>
      "insufficient balance: available " +:+ pretty available +:+ ", requested " +:+ pretty requested
      +:+ " (token " +:+ hex_encode t +:+ ")"
  | Wallet.BalOverflow t current credit =>
      "balance overflow: current " +:+ pretty current +:+ ", credit " +:+ pretty credit
      +:+ " (token " +:+ hex_encode t +:+ ")"
  | Wallet.TokenNotFound t => "no balance entry for token " +:+ hex_encode t
  end.

Definition display_wallet_error (e : Wallet.WalletError) : string :=
  match e with
  | Wallet.WalBalance b => "balance error: " +:+ display_balance_error b
  | Wallet.ZeroAmount => "zero-amount operations are not permitted"
  | Wallet.WalFrozen reason => "wallet is frozen: " +:+ reason
  end.
End VaultErrors.

(** Removing a closed line removes one line at most, and adding one adds exactly one. *)
Lemma line_count_steps id l m :
  line_count (add_line l m) = S (line_count m) /\
  (line_count (remove_closed_line id m).2 = line_count m /\ (remove_closed_line id m).1 = None \/
   S (line_count (remove_closed_line id m).2) = line_count m /\ is_Some (remove_closed_line id m).1).
Proof.
  split; [unfold line_count, add_line; cbn; rewrite length_app; cbn; lia|].
  unfold line_count, remove_closed_line. destruct m as [ls]. cbn [lines].
  induction ls as [|l' ls IH]; [by left|]. cbn [remove_first_closed]. destruct (_ && _); [by right|].
  destruct (remove_first_closed id ls) as [o ls']. cbn [fst snd lines length] in *.
  destruct IH as [[-> ->]|[<- Ho]]; [by left|by right].
Qed.

(** ** Witnesses: the text of a value is the binary notation of its code *)

Module DocumentExamples.
Export IdentityExamples ReceiptExamples.
#[export] Existing Instance toy_crypto.
#[export] Existing Instance toy_base58.
#[export] Existing Instance toy_receipt_codec.
#[local] Existing Instances ToyCodec.currency_countable ToyCodec.amount_countable.

Fixpoint pos_text (p : positive) : string :=
  match p with
  | xH => EmptyString
  | xO q => String "0"%char (pos_text q)
  | xI q => String "1"%char (pos_text q)
  end.

Fixpoint text_pos (s : string) : positive :=
  match s with
  | EmptyString => xH
  | String a s' => if Ascii.eqb a "0"%char then xO (text_pos s') else xI (text_pos s')
  end.

Lemma text_pos_text p : text_pos (pos_text p) = p.
Proof. by induction p; cbn; f_equal. Qed.

Definition coded_json (A : Type) `{Countable A} : JsonDoc A := {|
  to_string_pretty a := inr (pos_text (encode a));
  from_json_str s := match decode (text_pos s) with Some a => inr a | None => inl "bad"%string end
|}.

Lemma coded_json_laws (A : Type) `{Countable A} : JsonDocLaws (coded_json A).
Proof.
  split; [intros a; by eexists|]. intros a s [= <-]. cbn. by rewrite text_pos_text, decode_encode.
Qed.

#[export] Instance method_eq_dec : EqDecision VerificationMethod.
Proof. solve_decision. Defined.
#[export] Instance doc_eq_dec : EqDecision DidDocument.
Proof. solve_decision. Defined.
#[export] Instance receipt_eq_dec : EqDecision TransactionReceipt.
Proof. solve_decision. Defined.

#[export] Instance method_countable : Countable VerificationMethod.
Proof.
  refine (inj_countable' (fun m => (vm_id m, vm_type m, vm_controller m, public_key_multibase m))
    (fun '(a, b, c, d) => mkMethod a b c d) _). by intros [].
Defined.

#[export] Instance doc_countable : Countable DidDocument.
Proof.
  refine (inj_countable' (fun d => (context d, dd_id d, verification_method d, authentication d, assertion_method d, dd_created d))
    (fun '(a, b, c, d, e, f) => mkDidDocument a b c d e f) _). by intros [].
Defined.

#[export] Instance receipt_countable : Countable TransactionReceipt.
Proof.
  refine (inj_countable' receipt_tuple
    (fun '((a, b, c, d, (e, f, g, h, i)), x) => mkReceipt a b c d e f g h i x) _). by intros [].
Defined.

#[export] Instance did_json : JsonDoc DidDocument := coded_json DidDocument.
#[export] Instance did_json_laws : JsonDocLaws did_json.
Proof. apply coded_json_laws. Qed.
#[export] Instance receipt_json : JsonDoc TransactionReceipt := coded_json TransactionReceipt.
#[export] Instance receipt_json_laws : JsonDocLaws receipt_json.
Proof. apply coded_json_laws. Qed.
End DocumentExamples.
Import DocumentExamples.

Lemma did_json_roundtrip_witness :
  exists json doc, to_did_document_json 0 (did_from_public_key alice) = Ok json /\ did_doc_from_json json = Ok doc /\
    validate doc = Ok tt.
Proof.
  destruct (did_json_roundtrip 0 (did_from_public_key alice)) as (json & doc & H1 & H2 & H3 & _); [exact (key_bytes 1)|].
  exists json, doc. split; [exact H1|]. split; [exact H2|exact H3].
Defined.

Lemma receipt_json_roundtrip_witness :
  exists json, receipt_to_json (E := unit) included = Ok json /\ receipt_from_json json = Ok included.
Proof.
  destruct (receipt_json_roundtrip (E := unit) TxExamples.pay_nova (mkBlockInfo 7 "bb" 9) TxConfirmed) as (json & H1 & H2 & _).
  exists json. split; [exact H1|exact H2].
Defined.
