(* ===== verification/Secrecy.v ===== *)
(** * Authenticated encryption and forward secrecy

    [protocol/src/crypto/encryption.rs] (AES-256-GCM with a random nonce in front of the
    ciphertext) and [protocol/src/crypto/pfs.rs] (one ephemeral X25519 exchange per
    session, the key derived with BLAKE3).  The cipher and the key-derivation mode are
    third-party: the class [Aead] and the function [blake3_derive_key], with the laws
    the two modules rely on. *)

From S2P Require Import Prelude Bytes Crypto Transaction Sled Ntp.

#[local] Open Scope Z_scope.

Definition AES_KEY_LENGTH : nat := 32.
Definition AES_NONCE_LENGTH : nat := 12.

(** The longest message and associated data [aes-gcm] takes. *)
Definition GCM_MAX : Z := 2 ^ 36.

Class Aead := {
  gcm_encrypt : list Z -> list Z -> list Z -> list Z -> option (list Z);
  gcm_decrypt : list Z -> list Z -> list Z -> list Z -> option (list Z);
  blake3_derive_key : string -> list Z -> list Z
}.

(** Arguments: key, nonce, associated data, text.  A ciphertext is accepted exactly
    when it is the encryption of the text it decrypts to. *)
Class AeadLaws (A : Aead) : Prop := {
  gcm_encrypt_ok : forall k n ad m, length k = AES_KEY_LENGTH -> length n = AES_NONCE_LENGTH ->
    Z.of_nat (length m) <= GCM_MAX -> Z.of_nat (length ad) <= GCM_MAX -> is_Some (gcm_encrypt k n ad m);
  gcm_decrypt_iff : forall k n ad c m, gcm_decrypt k n ad c = Some m <-> gcm_encrypt k n ad m = Some c;
  derive_key_length : forall ctx input, length (blake3_derive_key ctx input) = 32%nat
}.

(** ** [encryption.rs] *)

Inductive EncryptionError :=
| EncryptFailed
| DecryptFailed
| InvalidKeyLength
| InvalidNonceLength
| CiphertextTooShort.

Section Encryption.
Context {A : Aead}.

(** [nonce] is what the random generator fills in. *)
Definition encrypt (nonce key plaintext : list Z) : res EncryptionError (list Z) :=
  ciphertext ← ok_or (gcm_encrypt key nonce [] plaintext) EncryptFailed;
  Ok (nonce ++ ciphertext).

Definition decrypt (key data : list Z) : res EncryptionError (list Z) :=
  ensure (negb (length data <? AES_NONCE_LENGTH)%nat) else CiphertextTooShort;
  let nonce_bytes := take AES_NONCE_LENGTH data in
  let ciphertext := drop AES_NONCE_LENGTH data in
  ok_or (gcm_decrypt key nonce_bytes [] ciphertext) DecryptFailed.

Definition encrypt_with_aad (nonce key plaintext aad : list Z)
    : res EncryptionError (list Z * list Z) :=
  ciphertext ← ok_or (gcm_encrypt key nonce aad plaintext) EncryptFailed;
  Ok (nonce, ciphertext).

Definition decrypt_with_aad (key nonce ciphertext aad : list Z) : res EncryptionError (list Z) :=
  ok_or (gcm_decrypt key nonce aad ciphertext) DecryptFailed.

Definition encrypt_checked (nonce key plaintext : list Z) : res EncryptionError (list Z) :=
  ensure (bool_decide (length key = AES_KEY_LENGTH)) else InvalidKeyLength;
  encrypt nonce key plaintext.

Definition decrypt_checked (key data : list Z) : res EncryptionError (list Z) :=
  ensure (bool_decide (length key = AES_KEY_LENGTH)) else InvalidKeyLength;
  decrypt key data.
End Encryption.

(** ** [pfs.rs] *)

Inductive PfsError := InvalidPublicKey | KeyDerivationFailed | SessionAlreadyCompleted.

Section Pfs.
Context {X : X25519} {A : Aead}.

(** The secret is taken by the first derivation. *)
Record PfsSession := mkPfs { pfs_secret : option EphemeralSecret; pfs_public_key : list Z }.

Record CompletedPfsSession := mkCompleted {
  cs_session_key : list Z;
  cs_our_public_key : list Z;
  cs_peer_public_key : list Z
}.

(** [PfsSession::new] with the secret the generator draws. *)
Definition pfs_new (secret : EphemeralSecret) : PfsSession := mkPfs (Some secret) (dh_public secret).

Definition pfs_context : string := "nova-protocol v1 pfs session key".

Definition kdf_input (shared_secret our_public peer_public : list Z) : list Z :=
  let '(first, second) :=
    if negb (bytes_ltb peer_public our_public) then (our_public, peer_public)
    else (peer_public, our_public) in
  shared_secret ++ first ++ second.

(** [domain_separated_hash] of [crypto/hash.rs]. *)
Definition domain_separated_hash (context : string) (data : list Z) : list Z := blake3_derive_key context data.

Definition derive_session_key (shared_secret our_public peer_public : list Z) : list Z :=
  blake3_derive_key pfs_context (kdf_input shared_secret our_public peer_public).

Definition derive_shared_secret {E} (peer_public : list Z) : M PfsSession E (list Z) := fun self =>
  match pfs_secret self with
  | None => (Panic, self)
  | Some secret =>
      let raw := diffie_hellman secret peer_public in
      (Ok (derive_session_key raw (pfs_public_key self) peer_public), mkPfs None (pfs_public_key self))
  end.

Definition try_derive_shared_secret (peer_public : list Z) : M PfsSession PfsError (list Z) := fun self =>
  match pfs_secret self with
  | None => (Err SessionAlreadyCompleted, self)
  | Some secret =>
      let raw := diffie_hellman secret peer_public in
      (Ok (derive_session_key raw (pfs_public_key self) peer_public), mkPfs None (pfs_public_key self))
  end.

(** [complete] consumes the session. *)
Definition pfs_complete (self : PfsSession) (peer_public : list Z) : res PfsError CompletedPfsSession :=
  session_key ← (try_derive_shared_secret peer_public self).1;
  Ok (mkCompleted session_key (pfs_public_key self) peer_public).
End Pfs.

(** ** Sealing *)

Section Sealing.
Context {A : Aead} {AL : AeadLaws A}.

Lemma encrypt_ok nonce key m :
  length key = AES_KEY_LENGTH -> length nonce = AES_NONCE_LENGTH -> Z.of_nat (length m) <= GCM_MAX ->
  exists c, encrypt nonce key m = Ok (nonce ++ c) /\ gcm_encrypt key nonce [] m = Some c.
Proof.
  intros Hk Hn Hm. destruct (gcm_encrypt_ok key nonce [] m Hk Hn Hm ltac:(unfold GCM_MAX; simpl; lia)) as [c Hc].
  exists c. unfold encrypt. by rewrite Hc.
Qed.

Lemma decrypt_framed key nonce c :
  length nonce = AES_NONCE_LENGTH ->
  decrypt key (nonce ++ c) = ok_or (gcm_decrypt key nonce [] c) DecryptFailed.
Proof.
  intros Hn. unfold decrypt. rewrite length_app, (proj2 (Nat.ltb_ge _ _)) by lia. cbn [negb].
  by rewrite <- Hn, take_app_length, drop_app_length.
Qed.

Lemma decrypt_ok_iff key data m :
  decrypt key data = Ok m <->
  exists nonce, length nonce = AES_NONCE_LENGTH /\ encrypt nonce key m = Ok data.
Proof.
  split.
  - unfold decrypt. rewrite ensure_ok, negb_true_iff, Nat.ltb_ge. intros [Hl Hd].
    apply ok_or_ok, gcm_decrypt_iff in Hd. exists (take AES_NONCE_LENGTH data).
    split; [by rewrite length_take_le|]. unfold encrypt. rewrite Hd. simpl. by rewrite take_drop.
  - intros (nonce & Hn & He). unfold encrypt in He.
    destruct (gcm_encrypt key nonce [] m) as [c|] eqn:Hc; [|done]. injection He as <-.
    rewrite decrypt_framed by done. apply gcm_decrypt_iff in Hc. by rewrite Hc.
Qed.

(** Decryption accepts exactly the sealed messages: data opens to [m] when and only
    when it is what [encrypt] returns for [m] under some nonce; anything else is
    refused as too short (fewer bytes than a nonce) or as undecryptable, and nothing
    panics. *)
Theorem decrypt_inverts_encrypt key data :
  (forall m, decrypt key data = Ok m <->
     exists nonce, length nonce = AES_NONCE_LENGTH /\ encrypt nonce key m = Ok data) /\
  (decrypt key data = Err CiphertextTooShort <-> (length data < AES_NONCE_LENGTH)%nat) /\
  ((exists m, decrypt key data = Ok m) \/ decrypt key data = Err CiphertextTooShort \/
   decrypt key data = Err DecryptFailed).
Proof.
  split; [intros m; apply decrypt_ok_iff|]. unfold decrypt.
  destruct (Nat.ltb_spec (length data) AES_NONCE_LENGTH); cbn [negb]; [by split; [|auto]|].
  destruct (gcm_decrypt _ _ _ _); cbn [ok_or]; (split; [split; [done|lia]|eauto]).
Qed.
End Sealing.

(** ** The exchange *)

Section Exchange.
Context {X : X25519} {XL : X25519Laws X} {A : Aead} {AL : AeadLaws A}.

Lemma kdf_input_sym s p q : kdf_input s p q = kdf_input s q p.
Proof.
  unfold kdf_input. destruct (bytes_ltb q p) eqn:E1, (bytes_ltb p q) eqn:E2; cbn [negb]; try done.
  - apply bytes_ltb_asym in E1. congruence.
  - by rewrite (bytes_ltb_total _ _ E1 E2).
Qed.

Lemma pfs_complete_new a p :
  pfs_complete (pfs_new a) p =
  Ok (mkCompleted (derive_session_key (diffie_hellman a p) (dh_public a) p) (dh_public a) p).
Proof. done. Qed.

(** A secure channel: two fresh sessions that exchange public keys complete with the
    same 32-byte key, each naming the other, and what one side seals with it the other
    opens, in both directions and for every message the cipher takes. *)
Theorem secure_channel (a b : EphemeralSecret) :
  exists ka kb, pfs_complete (pfs_new a) (dh_public b) = Ok ka /\
    pfs_complete (pfs_new b) (dh_public a) = Ok kb /\
    cs_session_key ka = cs_session_key kb /\ length (cs_session_key ka) = AES_KEY_LENGTH /\
    cs_peer_public_key ka = cs_our_public_key kb /\ cs_peer_public_key kb = cs_our_public_key ka /\
    forall nonce m, length nonce = AES_NONCE_LENGTH -> Z.of_nat (length m) <= GCM_MAX ->
      exists sealed, encrypt nonce (cs_session_key ka) m = Ok sealed /\
        decrypt (cs_session_key kb) sealed = Ok m /\
        encrypt nonce (cs_session_key kb) m = Ok sealed /\ decrypt (cs_session_key ka) sealed = Ok m.
Proof.
  eexists _, _. rewrite !pfs_complete_new. split; [done|]. split; [done|]. cbn.
  assert (derive_session_key (diffie_hellman a (dh_public b)) (dh_public a) (dh_public b) =
          derive_session_key (diffie_hellman b (dh_public a)) (dh_public b) (dh_public a)) as Hk.
  { unfold derive_session_key. by rewrite dh_agree, kdf_input_sym. }
  split; [done|]. split; [apply derive_key_length|]. split; [done|]. split; [done|].
  intros nonce m Hn Hm. rewrite <- Hk.
  destruct (encrypt_ok nonce (derive_session_key (diffie_hellman a (dh_public b)) (dh_public a) (dh_public b)) m)
    as (c & He & Hc); [apply derive_key_length|done..|].
  exists (nonce ++ c). rewrite decrypt_framed by done. apply gcm_decrypt_iff in Hc. rewrite Hc. done.
Qed.

(** The input of the key derivation determines the session: two derivations hash the
    same bytes only for the same shared secret and the same two public keys, up to
    which of them is ours. *)
Theorem session_key_input_binds s p q s' p' q' :
  length s = 32%nat -> length p = 32%nat -> length q = 32%nat ->
  length s' = 32%nat -> length p' = 32%nat -> length q' = 32%nat ->
  kdf_input s p q = kdf_input s' p' q' <-> s = s' /\ (p = p' /\ q = q' \/ p = q' /\ q = p').
Proof.
  intros Hs Hp Hq Hs' Hp' Hq'. split.
  - unfold kdf_input. destruct (bytes_ltb q p), (bytes_ltb q' p'); cbn [negb];
      (intros [-> Heq]%app_inj_1; [|lia]); apply app_inj_1 in Heq as [-> ->]; try lia; tauto.
  - intros [-> [[-> ->]|[-> ->]]]; [done|]. apply kdf_input_sym.
Qed.

(** An ephemeral secret is used once: after a derivation, by either function, the
    checked one refuses and the other panics, whatever the peer key. *)
Lemma pfs_single_use (self self' : PfsSession) p key :
  try_derive_shared_secret p self = (Ok key, self') ->
  derive_shared_secret (E := PfsError) p self = (Ok key, self') /\
  forall p', try_derive_shared_secret p' self' = (Err SessionAlreadyCompleted, self') /\
    derive_shared_secret (E := PfsError) p' self' = (Panic, self').
Proof.
  unfold try_derive_shared_secret, derive_shared_secret. destruct (pfs_secret self); [|done].
  intros [= <- <-]. done.
Qed.
End Exchange.

(** ** Witnesses: a transparent cipher *)

Module SecrecyExamples.
(** The text in clear behind a tag that spells out the key, the nonce and the associated
    data: not secure, but it satisfies the laws. *)
Definition tag (k n ad : list Z) : list Z :=
  Z.of_nat (length k) :: Z.of_nat (length n) :: Z.of_nat (length ad) :: k ++ n ++ ad.

Definition seal (k n ad m : list Z) : option (list Z) := Some (tag k n ad ++ m).

Definition open (k n ad c : list Z) : option (list Z) :=
  let m := drop (length (tag k n ad)) c in
  if bool_decide (tag k n ad ++ m = c) then Some m else None.

Definition toy_aead : Aead := {|
  gcm_encrypt := seal;
  gcm_decrypt := open;
  blake3_derive_key := fun ctx input => le_bytes 32 (le_decode input)
|}.

Lemma toy_aead_laws : AeadLaws toy_aead.
Proof.
  split; simpl.
  - intros. by eexists.
  - intros k n ad c m. unfold open, seal. case_bool_decide as E; split.
    + intros [= <-]. by f_equal.
    + intros <-%(inj Some). by rewrite drop_app_length.
    + done.
    + intros <-%(inj Some). contradict E. by rewrite drop_app_length.
  - done.
Qed.
End SecrecyExamples.

Import SecrecyExamples.

Lemma decrypt_inverts_encrypt_witness :
  @decrypt toy_aead (replicate 32 7) [1; 2; 3] = Err CiphertextTooShort.
Proof.
  apply (proj1 (proj2 (@decrypt_inverts_encrypt toy_aead toy_aead_laws (replicate 32 7) [1; 2; 3]))).
  unfold AES_NONCE_LENGTH. simpl. lia.
Defined.

Lemma secure_channel_witness :
  exists ka kb, @pfs_complete NtpExamples.toy_dh toy_aead (@pfs_new NtpExamples.toy_dh 5) [9] = Ok ka /\
    @pfs_complete NtpExamples.toy_dh toy_aead (@pfs_new NtpExamples.toy_dh 9) [5] = Ok kb /\
    cs_session_key ka = cs_session_key kb.
Proof.
  destruct (@secure_channel NtpExamples.toy_dh NtpExamples.toy_dh_laws toy_aead toy_aead_laws 5 9)
    as (ka & kb & Ha & Hb & Hk & _).
  exists ka, kb. split; [exact Ha|]. split; [exact Hb|exact Hk].
Defined.

Lemma session_key_input_binds_witness :
  kdf_input (replicate 32 1) (replicate 32 2) (replicate 32 3) =
  kdf_input (replicate 32 1) (replicate 32 3) (replicate 32 2).
Proof. apply session_key_input_binds; try reflexivity. split; [reflexivity|]. right. split; reflexivity. Defined.
