(* ===== verification/Gossip.v ===== *)
(** * Gossip

    [protocol/src/network/gossip.rs]: the epidemic layer (deduplication, hop limits,
    choice of peers, the cache of seen messages).  JSON is the class [GossipCodec];
    [iter], the order in which the concurrent map lists its entries, and the clock are
    arguments.  [Flood] runs the epidemic layer on a network of nodes.  The queue in
    front of libp2p is in P2p.v. *)

From S2P Require Import Prelude Bytes Crypto Transaction Block Db Consensus.

#[local] Open Scope Z_scope.

Record GossipConfig := mkGossipConfig {
  max_peers : nat;
  heartbeat_interval_ms : Z;
  message_ttl : Z;
  fanout : nat;
  seen_cache_size : nat
}.

Definition default_gossip_config : GossipConfig := mkGossipConfig 50 15000 10 8 (Z.to_nat 100000).

Record PeerInfo := mkPeer {
  peer_id : string;
  peer_address : string;
  connected_at : Z;
  last_seen : Z
}.

#[global] Instance PeerInfo_eq_dec : EqDecision PeerInfo.
Proof. solve_decision. Defined.

Inductive GossipMessage :=
| NewTransaction (transaction : Transaction) (ttl : Z)
| NewBlock (block : Block) (ttl : Z)
| PeerDiscovery (peer : PeerInfo) (known_peers : list PeerInfo) (ttl : Z).

Definition ttl (m : GossipMessage) : Z :=
  match m with NewTransaction _ t | NewBlock _ t | PeerDiscovery _ _ t => t end.

Definition set_ttl (t : Z) (m : GossipMessage) : GossipMessage :=
  match m with
  | NewTransaction tx _ => NewTransaction tx t
  | NewBlock b _ => NewBlock b t
  | PeerDiscovery p ps _ => PeerDiscovery p ps t
  end.

Definition decrement_ttl (m : GossipMessage) : option GossipMessage :=
  match m with
  | NewTransaction tx t => if 1 <? t then Some (NewTransaction tx (t - 1)) else None
  | NewBlock b t => if 1 <? t then Some (NewBlock b (t - 1)) else None
  | PeerDiscovery p ps t => if 1 <? t then Some (PeerDiscovery p ps (t - 1)) else None
  end.

Inductive GossipAction :=
| Forward (message : GossipMessage) (target_peers : list string)
| AddToMempool (tx : Transaction)
| ProcessBlock (b : Block)
| AddPeers (ps : list PeerInfo)
| Drop.

Class GossipCodec := { json_gossip : GossipMessage -> option (list Z) }.

(** [serde_json] writes different messages differently. *)
Class GossipCodecLaws (G : GossipCodec) : Prop := {
  json_gossip_total : forall m, is_Some (json_gossip m);
  json_gossip_inj : forall m m', json_gossip m = json_gossip m' -> m = m'
}.

Record GossipProtocol := mkGossip {
  gp_config : GossipConfig;
  seen_messages : gmap (list Z) Z;
  peers : list PeerInfo
}.

Definition gossip_new (cfg : GossipConfig) : GossipProtocol := mkGossip cfg ∅ [].

Section Gossip.
Context {C : Crypto} {G : GossipCodec}.
Context (iter : gmap (list Z) Z -> list (list Z * Z)).

Definition content_hash (m : GossipMessage) : list Z := blake3 (default [] (json_gossip m)).

Definition set_seen (s : gmap (list Z) Z) (g : GossipProtocol) : GossipProtocol :=
  mkGossip (gp_config g) s (peers g).
Definition set_peers (ps : list PeerInfo) (g : GossipProtocol) : GossipProtocol :=
  mkGossip (gp_config g) (seen_messages g) ps.

Definition maybe_evict_seen_cache (g : GossipProtocol) : GossipProtocol :=
  let seen := seen_messages g in
  if (size seen <=? seen_cache_size (gp_config g))%nat then g
  else
    let target := (seen_cache_size (gp_config g) * 3 / 4)%nat in
    let entries := sort_by_key snd (iter seen) in
    let to_remove := (length entries - target)%nat in
    set_seen (fold_left (fun m e => delete e.1 m) (take to_remove entries) seen) g.

Definition broadcast (now : Z) (message : GossipMessage) (g : GossipProtocol)
    : list GossipAction * GossipProtocol :=
  let hash := content_hash message in
  let g' := set_seen (<[hash := now]> (seen_messages g)) g in
  let target_peers := peer_id <$> take (fanout (gp_config g)) (peers g) in
  if bool_decide (target_peers = []) then ([], g') else ([Forward message target_peers], g').

(** What the receiving node does with the payload. *)
Definition deliver (m : GossipMessage) : GossipAction :=
  match m with
  | NewTransaction tx _ => AddToMempool tx
  | NewBlock b _ => ProcessBlock b
  | PeerDiscovery _ known _ => AddPeers known
  end.

Definition forward_targets (from : string) (g : GossipProtocol) : list string :=
  peer_id <$> take (fanout (gp_config g)) (filter (fun p => peer_id p <> from) (peers g)).

Definition handle_message (now : Z) (from : string) (message : GossipMessage) (g : GossipProtocol)
    : list GossipAction * GossipProtocol :=
  let hash := content_hash message in
  if bool_decide (is_Some (seen_messages g !! hash)) then ([Drop], g)
  else if ttl message =? 0 then ([Drop], g)
  else
    let g := set_seen (<[hash := now]> (seen_messages g)) g in
    let g := maybe_evict_seen_cache g in
    let actions := [deliver message] in
    match decrement_ttl message with
    | Some forwarded =>
        let target_peers := forward_targets from g in
        if bool_decide (target_peers = []) then (actions, g)
        else (actions ++ [Forward forwarded target_peers], g)
    | None => (actions, g)
    end.

Definition add_peer (p : PeerInfo) (g : GossipProtocol) : GossipProtocol :=
  if (length (peers g) <? max_peers (gp_config g))%nat
     && negb (existsb (fun q => bool_decide (peer_id q = peer_id p)) (peers g))
  then set_peers (peers g ++ [p]) g else g.

Definition remove_peer (id : string) (g : GossipProtocol) : GossipProtocol :=
  set_peers (filter (fun p => peer_id p <> id) (peers g)) g.

Definition peer_count (g : GossipProtocol) : nat := length (peers g).
Definition seen_count (g : GossipProtocol) : nat := size (seen_messages g).
End Gossip.

(** ** The peer set and the cache *)

Section GossipProofs.
Context {C : Crypto} {G : GossipCodec}.
Context (iter : gmap (list Z) Z -> list (list Z * Z)).
(** The map lists each entry once, in some order. *)
Context (iter_perm : forall m, iter m ≡ₚ map_to_list m).

Notation handle_message := (handle_message iter).
Notation maybe_evict_seen_cache := (maybe_evict_seen_cache iter).

Inductive gossip_step : GossipProtocol -> GossipProtocol -> Prop :=
| step_broadcast now m g : gossip_step g (broadcast now m g).2
| step_handle now from m g : gossip_step g (handle_message now from m g).2
| step_add_peer p g : gossip_step g (add_peer p g)
| step_remove_peer id g : gossip_step g (remove_peer id g).

Inductive gossip_reachable (cfg : GossipConfig) : GossipProtocol -> Prop :=
| gossip_start : gossip_reachable cfg (gossip_new cfg)
| gossip_next g g' : gossip_reachable cfg g -> gossip_step g g' -> gossip_reachable cfg g'.

Record gossip_inv (cfg : GossipConfig) (g : GossipProtocol) : Prop := {
  gi_config : gp_config g = cfg;
  gi_peers : NoDup (peer_id <$> peers g);
  gi_max : (length (peers g) <= max_peers cfg)%nat
}.

Lemma set_ttl_ttl t m : ttl (set_ttl t m) = t.
Proof. by destruct m. Qed.

Lemma decrement_ttl_spec m :
  decrement_ttl m = if 1 <? ttl m then Some (set_ttl (ttl m - 1) m) else None.
Proof. by destruct m. Qed.

(** Deleting listed entries one by one. *)
Lemma fold_delete_lookup (l : list (list Z * Z)) (m : gmap (list Z) Z) h :
  fold_left (fun m e => delete e.1 m) l m !! h = if decide (h ∈ l.*1) then None else m !! h.
Proof.
  revert m. induction l as [|e l IH]; intros m; cbn [fold_left].
  - by rewrite decide_False by set_solver.
  - rewrite IH. destruct (decide (h ∈ l.*1)) as [Hin|Hin].
    + rewrite decide_True by set_solver. done.
    + destruct (decide (e.1 = h)) as [<-|Hne].
      * rewrite lookup_delete_eq, decide_True by set_solver. done.
      * rewrite lookup_delete_ne by done. rewrite decide_False by set_solver. done.
Qed.

(** Eviction keeps the newest three quarters of the capacity. *)
Lemma evict_spec g :
  let cap := seen_cache_size (gp_config g) in
  let g' := maybe_evict_seen_cache g in
  (gp_config g', peers g') = (gp_config g, peers g) /\
  seen_messages g' ⊆ seen_messages g /\
  size (seen_messages g') =
    (if (size (seen_messages g) <=? cap)%nat then size (seen_messages g) else cap * 3 / 4)%nat /\
  forall h t h' t', seen_messages g !! h = Some t -> seen_messages g' !! h = None ->
    seen_messages g' !! h' = Some t' -> t <= t'.
Proof.
  cbv zeta. unfold Gossip.maybe_evict_seen_cache. set (seen := seen_messages g).
  set (cap := seen_cache_size (gp_config g)).
  destruct (Nat.leb_spec (size seen) cap) as [Hle|Hgt]; [split_and!; [done..|intros; unfold seen in *; congruence]|].
  set (entries := sort_by_key snd (iter seen)). set (k := (length entries - cap * 3 / 4)%nat).
  assert (Hperm : entries ≡ₚ map_to_list seen).
  { unfold entries. by rewrite sort_by_key_perm, iter_perm. }
  assert (Hnd : NoDup entries.*1) by (rewrite Hperm; apply NoDup_fst_map_to_list).
  assert (Hlen : length entries = size seen) by (by rewrite Hperm, length_map_to_list).
  assert (Hin : forall h t, seen !! h = Some t <-> (h, t) ∈ entries)
    by (intros; by rewrite Hperm, elem_of_map_to_list).
  assert (Hsort : StronglySorted (fun a b => a.2 <= b.2) (take k entries ++ drop k entries))
    by (rewrite take_drop; apply sort_by_key_sorted).
  cbn [seen_messages set_seen gp_config peers]. set (m := fold_left _ (take k entries) seen).
  assert (Hm : forall h t, m !! h = Some t <-> (h, t) ∈ drop k entries).
  { intros h t. unfold m. rewrite fold_delete_lookup.
    rewrite <- (take_drop k entries) in Hnd. rewrite fmap_app, NoDup_app in Hnd.
    destruct Hnd as (_ & Hdis & _).
    assert (Hsplit : (h, t) ∈ entries <-> (h, t) ∈ take k entries \/ (h, t) ∈ drop k entries)
      by (rewrite <- (take_drop k entries) at 1; apply elem_of_app).
    case_decide as Hd.
    - split; [done|]. intros Hx. exfalso. apply (Hdis h Hd). apply list_elem_of_fmap. by exists (h, t).
    - rewrite Hin, Hsplit. split; [|by right]. intros [Hx|Hx]; [|done]. exfalso. apply Hd.
      apply list_elem_of_fmap. by exists (h, t). }
  split_and!; [done| | |].
  - apply map_subseteq_spec. intros h t Ht. apply Hin. apply Hm in Ht.
    rewrite <- (take_drop k entries). apply elem_of_app. by right.
  - assert (Hperm' : map_to_list m ≡ₚ drop k entries).
    { apply NoDup_Permutation; [apply NoDup_map_to_list| |].
      - rewrite <- (take_drop k entries), fmap_app in Hnd. apply NoDup_app in Hnd as (_ & _ & Hnd).
        by apply NoDup_fmap_1 in Hnd.
      - intros [h t]. by rewrite elem_of_map_to_list. }
    rewrite <- length_map_to_list, Hperm', length_drop. unfold k. rewrite Hlen.
    assert (cap * 3 / 4 <= cap)%nat by (apply Nat.Div0.div_le_upper_bound; lia). lia.
  - intros h t h' t' Ht Hnone Ht'. apply Hm in Ht'. apply Hin in Ht.
    assert (Htake : (h, t) ∈ take k entries).
    { rewrite <- (take_drop k entries) in Ht. apply elem_of_app in Ht as [|Hd]; [done|].
      apply Hm in Hd. congruence. }
    exact (StronglySorted_app_le _ _ _ Hsort _ _ Htake Ht').
Qed.

(** The state after a message was taken in. *)
Lemma handle_new now from m g :
  seen_messages g !! content_hash m = None -> ttl m <> 0 ->
  exists g', handle_message now from m g
    = (deliver m :: (if (1 <? ttl m) && negb (bool_decide (forward_targets from g = []))
                     then [Forward (set_ttl (ttl m - 1) m) (forward_targets from g)] else []), g') /\
    (gp_config g', peers g') = (gp_config g, peers g) /\
    seen_messages g' ⊆ <[content_hash m := now]> (seen_messages g) /\
    (seen_count g' <= seen_cache_size (gp_config g))%nat.
Proof.
  intros Hnew Ht. unfold Gossip.handle_message. rewrite Hnew.
  rewrite bool_decide_eq_false_2 by (by intros [? ?]). rewrite (proj2 (Z.eqb_neq _ _) Ht).
  set (g1 := set_seen _ g). destruct (evict_spec g1) as ([= Hcfg Hpeers] & Hsub & Hsize & _).
  set (g2 := maybe_evict_seen_cache g1) in *.
  assert (Htg : forward_targets from g2 = forward_targets from g)
    by (unfold forward_targets; by rewrite Hcfg, Hpeers).
  exists g2. rewrite decrement_ttl_spec, Htg. split; [|split; [|split; [done|]]].
  - destruct (1 <? ttl m); simpl; [|done]. by case_bool_decide.
  - by rewrite Hcfg, Hpeers.
  - unfold seen_count. rewrite Hsize. simpl gp_config.
    destruct (Nat.leb_spec (size (seen_messages g1)) (seen_cache_size (gp_config g))); [done|].
    apply Nat.Div0.div_le_upper_bound. lia.
Qed.

Lemma handle_old now from m g :
  is_Some (seen_messages g !! content_hash m) \/ ttl m = 0 ->
  handle_message now from m g = ([Drop], g).
Proof.
  intros H. unfold Gossip.handle_message. case_bool_decide as Hb; [done|].
  destruct H as [H|H]; [done|]. by rewrite H.
Qed.

Lemma handle_frame now from m g :
  let g' := (handle_message now from m g).2 in
  (gp_config g', peers g') = (gp_config g, peers g).
Proof.
  cbv zeta. destruct (decide (is_Some (seen_messages g !! content_hash m) \/ ttl m = 0)) as [H|H].
  - by rewrite handle_old.
  - destruct (handle_new now from m g) as (g' & -> & Hf & _); [|tauto|done].
    apply eq_None_not_Some. tauto.
Qed.

Lemma gossip_step_inv cfg g g' : gossip_step g g' -> gossip_inv cfg g -> gossip_inv cfg g'.
Proof.
  intros Hstep [Hc Hnd Hmax]. destruct Hstep as [now m g|now from m g|p g|id g].
  - unfold broadcast. case_bool_decide; by constructor.
  - pose proof (handle_frame now from m g) as [= Hc' Hp']. constructor; congruence.
  - unfold add_peer. destruct (_ && _) eqn:Hg; [|by constructor].
    apply andb_true_iff in Hg as [Hlen Hex]. apply Nat.ltb_lt in Hlen.
    apply negb_true_iff, not_true_iff_false in Hex.
    constructor; simpl; [done| |rewrite length_app; simpl; rewrite Hc in Hlen; lia].
    rewrite fmap_app. apply NoDup_app. split; [done|]. split; [|apply NoDup_singleton].
    intros x Hx Hp%list_elem_of_singleton. apply Hex. apply existsb_exists.
    apply list_elem_of_fmap in Hx as (q & -> & Hq). exists q. split; [by apply list_elem_of_In|].
    by apply bool_decide_eq_true.
  - constructor; simpl; [done| |].
    + eapply sublist_NoDup; [exact Hnd|]. apply fmap_sublist, sublist_filter.
    + pose proof (length_filter (fun p => peer_id p <> id) (peers g)). lia.
Qed.

Lemma gossip_reachable_inv cfg g : gossip_reachable cfg g -> gossip_inv cfg g.
Proof.
  induction 1 as [|g g' _ IH Hstep]; [|by eapply gossip_step_inv].
  constructor; simpl; [done|constructor|lia].
Qed.

Lemma forward_targets_ok cfg from g : gossip_inv cfg g ->
  NoDup (forward_targets from g) /\ from ∉ forward_targets from g /\
  (length (forward_targets from g) <= fanout cfg)%nat /\
  forward_targets from g ⊆ peer_id <$> peers g.
Proof.
  intros [Hc Hnd _]. unfold forward_targets. rewrite Hc.
  set (l := filter (fun p => peer_id p <> from) (peers g)).
  assert (Hsub : sublist (peer_id <$> take (fanout cfg) l) (peer_id <$> peers g)).
  { apply fmap_sublist. etransitivity; [apply sublist_take|]. apply sublist_filter. }
  split_and!.
  - by eapply sublist_NoDup.
  - intros (p & -> & Hp)%list_elem_of_fmap. apply elem_of_take in Hp as (i & Hp & _).
    apply list_elem_of_lookup_2, list_elem_of_filter in Hp as [Hp _]. done.
  - rewrite length_fmap, length_take. lia.
  - intros x Hx. by eapply elem_of_sublist.
Qed.
End GossipProofs.

Section GossipClaims.
Context {C : Crypto} {G : GossipCodec}.
Context (iter : gmap (list Z) Z -> list (list Z * Z)).
Context (iter_perm : forall m, iter m ≡ₚ map_to_list m).

(** C28. What a node that followed the protocol does with a message: a duplicate or an
    expired one is dropped and changes nothing; any other is delivered once and, with
    hops left, forwarded with one hop less to at most [fanout] distinct known peers,
    never back to its sender.  After such a delivery the cache of seen messages is within
    its capacity.  Nothing else evicts: a message the node originates adds its entry
    whatever the cache holds. *)
Theorem gossip_handle_outcome cfg now from m g :
  gossip_reachable iter cfg g ->
  let '(actions, g') := handle_message iter now from m g in
  gossip_inv cfg g' /\
  (seen_messages g !! content_hash m = None -> seen_count (broadcast now m g).2 = S (seen_count g)) /\
  if bool_decide (is_Some (seen_messages g !! content_hash m)) || (ttl m =? 0)
  then actions = [Drop] /\ g' = g
  else exists targets,
    actions = deliver m :: (if (1 <? ttl m) && negb (bool_decide (targets = []))
                            then [Forward (set_ttl (ttl m - 1) m) targets] else []) /\
    NoDup targets /\ from ∉ targets /\ (length targets <= fanout cfg)%nat /\
    targets ⊆ peer_id <$> peers g /\
    (seen_count g' <= seen_cache_size cfg)%nat.
Proof.
  intros Hr. pose proof (gossip_reachable_inv iter iter_perm _ _ Hr) as Hg.
  pose proof (gossip_step_inv iter iter_perm cfg _ _ (step_handle iter now from m g) Hg) as Hg'.
  destruct (handle_message iter now from m g) as [actions g'] eqn:He. split; [done|]. split.
  { intros Hnew. unfold broadcast, seen_count. case_bool_decide; cbn; by apply map_size_insert_None. }
  destruct (bool_decide _ || _) eqn:Hb.
  - rewrite handle_old in He; [by injection He|].
    apply orb_true_iff in Hb as [Hb|Hb]; [left; by apply bool_decide_eq_true in Hb | right; lia].
  - apply orb_false_iff in Hb as [Hnew%bool_decide_eq_false%eq_None_not_Some Ht].
    destruct (handle_new iter iter_perm now from m g Hnew ltac:(lia)) as (g2 & He2 & _ & _ & Hsize).
    rewrite He in He2. injection He2 as -> ->. pose proof (gi_config _ _ Hg) as Hc.
    destruct (forward_targets_ok cfg from g Hg) as (? & ? & ? & ?).
    exists (forward_targets from g). rewrite Hc in Hsize. done.
Qed.

(** What is hashed to recognise a message. *)
Definition gossip_message_bytes (m : GossipMessage) : list Z := default [] (json_gossip m).

(** Deduplication goes by a hash that covers the hop counter: a message that arrives
    again over a path of another length is not recognised and is delivered again. *)
Theorem gossip_ttl_defeats_dedup `{!GossipCodecLaws G} now now' from from' m t g :
  ttl m <> 0 -> t <> 0 -> t <> ttl m ->
  seen_messages g !! content_hash m = None ->
  seen_messages g !! content_hash (set_ttl t m) = None ->
  let g' := (handle_message iter now from m g).2 in
  head (handle_message iter now from m g).1 = Some (deliver m) /\
  (head (handle_message iter now' from' (set_ttl t m) g').1 = Some (deliver m) \/
   collision [gossip_message_bytes (set_ttl t m); gossip_message_bytes m]).
Proof.
  intros Ht Ht' Hne Hnew Hnew'. cbv zeta.
  destruct (handle_new iter iter_perm now from m g Hnew Ht) as (g' & -> & _ & Hsub & _). split; [done|].
  cbn [fst snd].
  destruct (decide (content_hash (set_ttl t m) = content_hash m)) as [Hh|Hh]; [right|left].
  - apply collides_pair. split; [|exact Hh]. intros Heq. apply Hne. unfold gossip_message_bytes in Heq.
    destruct (json_gossip_total m) as [j Hj], (json_gossip_total (set_ttl t m)) as [j' Hj'].
    rewrite Hj, Hj' in Heq. simpl in Heq. subst j'.
    rewrite <- Hj in Hj'. apply json_gossip_inj in Hj'. rewrite <- Hj'. by rewrite set_ttl_ttl.
  - destruct (handle_new iter iter_perm now' from' (set_ttl t m) g') as (g'' & -> & _).
    + destruct (seen_messages g' !! content_hash (set_ttl t m)) as [x|] eqn:Hx; [|done].
      eapply lookup_weaken in Hx; [|exact Hsub]. rewrite lookup_insert_ne in Hx by done. congruence.
    + by rewrite set_ttl_ttl.
    + by destruct m.
Qed.
End GossipClaims.

(** ** A network of nodes *)

Module Flood.
Section Flood.
Context {C : Crypto} {G : GossipCodec}.
Context (iter : gmap (list Z) Z -> list (list Z * Z)).
Context (iter_perm : forall m, iter m ≡ₚ map_to_list m).

(** A message on its way: sender, addressee, content. *)
Definition packet : Type := string * string * GossipMessage.

Record network := mkNetwork { nodes : gmap string GossipProtocol; flight : list packet }.

(** What the runtime of node [me] sends for the actions of the handler. *)
Definition outgoing (me : string) (actions : list GossipAction) : list packet :=
  concat (map (fun a => match a with
                        | Forward m targets => map (fun t => (me, t, m)) targets
                        | _ => []
                        end) actions).

Inductive flood_step : network -> network -> Prop :=
| flood_deliver now from to m pre post ns g :
    ns !! to = Some g ->
    flood_step (mkNetwork ns (pre ++ (from, to, m) :: post))
      (mkNetwork (<[to := (handle_message iter now from m g).2]> ns)
         (pre ++ post ++ outgoing to (handle_message iter now from m g).1))
| flood_lose from to m pre post ns :
    flood_step (mkNetwork ns (pre ++ (from, to, m) :: post)) (mkNetwork ns (pre ++ post)).

Inductive flood_run : nat -> network -> network -> Prop :=
| flood_done n : flood_run 0 n n
| flood_more k n n' n'' : flood_step n n' -> flood_run k n' n'' -> flood_run (S k) n n''.

(** How many deliveries one message with [hops] forwardings left can cause. *)
Fixpoint weight (F hops : nat) : nat :=
  match hops with O => 1 | S h => 1 + F * weight F h end.

Definition packet_weight (F : nat) (p : packet) : nat := weight F (Z.to_nat (ttl p.2 - 1)).

Definition in_flight (F : nat) (n : network) : nat := sum_list_with (packet_weight F) (flight n).

Definition fanout_le (F : nat) (n : network) : Prop :=
  forall id g, nodes n !! id = Some g -> (fanout (gp_config g) <= F)%nat.

Lemma weight_pos F h : (1 <= weight F h)%nat.
Proof. destruct h; simpl; lia. Qed.

Lemma length_forward_targets from g : (length (forward_targets from g) <= fanout (gp_config g))%nat.
Proof. unfold forward_targets. rewrite length_fmap, length_take. lia. Qed.

Lemma targets_weight F me m targets :
  (sum_list_with (packet_weight F) (map (fun t => (me, t, m)) targets)
   = length targets * weight F (Z.to_nat (ttl m - 1)))%nat.
Proof. induction targets as [|t l IH]; simpl; [done|]. rewrite IH. done. Qed.

(** Handling a message sends less than the message was worth. *)
Lemma outgoing_weight F now from to m g : (fanout (gp_config g) <= F)%nat ->
  (S (sum_list_with (packet_weight F) (outgoing to (handle_message iter now from m g).1))
   <= packet_weight F (from, to, m))%nat.
Proof.
  intros HF. unfold packet_weight at 2. simpl ttl.
  pose proof (weight_pos F (Z.to_nat (ttl m - 1))).
  destruct (decide (is_Some (seen_messages g !! content_hash m) \/ ttl m = 0)) as [Hold|Hnew].
  { rewrite handle_old by done. simpl. lia. }
  destruct (handle_new iter iter_perm now from m g) as (g' & -> & _);
    [apply eq_None_not_Some; tauto | tauto |].
  assert (Hd : outgoing to [deliver m] = []) by (by destruct m).
  cbn [fst].
  destruct ((1 <? ttl m) && negb _) eqn:Hb; [|rewrite Hd; cbn [sum_list_with]; lia].
  apply andb_true_iff in Hb as [Ht _].
  assert (Ho : outgoing to [deliver m; Forward (set_ttl (ttl m - 1) m) (forward_targets from g)]
    = map (fun t => (to, t, set_ttl (ttl m - 1) m)) (forward_targets from g))
    by (destruct m; unfold outgoing; simpl; by rewrite app_nil_r).
  rewrite Ho, targets_weight, set_ttl_ttl.
  replace (Z.to_nat (ttl m - 1)) with (S (Z.to_nat (ttl m - 1 - 1))) by lia. simpl weight.
  pose proof (length_forward_targets from g). nia.
Qed.

Lemma flood_step_weight F n n' : flood_step n n' -> fanout_le F n ->
  (S (in_flight F n') <= in_flight F n)%nat /\ fanout_le F n'.
Proof.
  intros Hstep HF. destruct Hstep as [now from to m pre post ns g Hg|from to m pre post ns].
  - pose proof (outgoing_weight F now from to m g (HF to g Hg)) as Hw. unfold in_flight. simpl.
    rewrite !sum_list_with_app. simpl. split; [lia|].
    intros id g'. simpl. rewrite lookup_insert_Some. intros [[<- <-]|[_ Hid]]; [|by eapply HF].
    pose proof (handle_frame iter iter_perm now from m g) as [= -> _]. by eapply (HF to).
  - unfold in_flight. simpl. rewrite !sum_list_with_app. simpl.
    pose proof (weight_pos F (Z.to_nat (ttl m - 1))). unfold packet_weight at 4. simpl.
    split; [lia|done].
Qed.

(** C27. Flooding ends: whatever the topology, the losses and the order of delivery, a
    network whose nodes forward to at most [F] peers delivers at most as many packets as
    the hop counters of those in flight allow; no cycle keeps a message alive. *)
Theorem flood_terminates F k n n' :
  fanout_le F n -> flood_run k n n' -> (k + in_flight F n' <= in_flight F n)%nat.
Proof.
  intros HF Hrun. revert HF. induction Hrun as [n|k n n1 n2 Hstep _ IH]; intros HF; [lia|].
  destruct (flood_step_weight F n n1 Hstep HF) as [Hw HF1]. specialize (IH HF1). lia.
Qed.
End Flood.
End Flood.

(** ** Witnesses *)

Module GossipExamples.
#[local] Existing Instance toy_crypto.
Import ToyCodec.

#[export] Instance peer_countable : Countable PeerInfo.
Proof.
  refine (inj_countable' (fun p => (peer_id p, peer_address p, connected_at p, last_seen p))
    (fun '(a, b, c, d) => mkPeer a b c d) _). by intros [].
Defined.

(** A serializer that is injective on all messages. *)
Definition gossip_codec : GossipCodec := {|
  json_gossip m := Some match m with
    | NewTransaction tx t => [0; Zpos (encode (tx, t))]
    | NewBlock b t => [1; Zpos (encode (b, t))]
    | PeerDiscovery p ps t => [2; Zpos (encode (p, ps, t))]
    end
|}.

Lemma gossip_codec_laws : GossipCodecLaws gossip_codec.
Proof.
  constructor; [intros []; by eexists|].
  intros [] [] [= Heq]; apply (inj encode) in Heq; congruence.
Qed.

Definition small : GossipConfig := mkGossipConfig 3 1000 4 2 2.
Definition bob : PeerInfo := mkPeer "b" "" 0 0.
Definition carol : PeerInfo := mkPeer "c" "" 0 0.
Definition hello : GossipMessage := PeerDiscovery bob [] 3.
Definition node0 : GossipProtocol := add_peer carol (add_peer bob (gossip_new small)).
Definition by_map (m : gmap (list Z) Z) : list (list Z * Z) := map_to_list m.
Lemma by_map_perm m : by_map m ≡ₚ map_to_list m.
Proof. done. Qed.
End GossipExamples.
Import GossipExamples.
#[local] Existing Instance toy_crypto.
#[local] Existing Instance gossip_codec.

(** Three messages of its own fill a cache for two. *)
Definition talkative : GossipProtocol :=
  (broadcast 3 (set_ttl 1 hello) (broadcast 2 (set_ttl 2 hello) (broadcast 1 hello node0).2).2).2.

Example talkative_over_capacity : seen_cache_size small = 2%nat /\ seen_count talkative = 3%nat.
Proof. vm_compute. by split. Qed.

Lemma gossip_handle_outcome_witness :
  let '(actions, g') := handle_message by_map 5 "b" hello node0 in
  gossip_inv small g' /\
  (seen_messages node0 !! content_hash hello = None -> seen_count (broadcast 5 hello node0).2 = S (seen_count node0)) /\
  if bool_decide (is_Some (seen_messages node0 !! content_hash hello)) || (ttl hello =? 0)
  then actions = [Drop] /\ g' = node0
  else exists targets,
    actions = deliver hello :: (if (1 <? ttl hello) && negb (bool_decide (targets = []))
                            then [Forward (set_ttl (ttl hello - 1) hello) targets] else []) /\
    NoDup targets /\ "b" ∉ targets /\ (length targets <= fanout small)%nat /\
    targets ⊆ peer_id <$> peers node0 /\
    (seen_count g' <= seen_cache_size small)%nat.
Proof.
  apply (gossip_handle_outcome by_map by_map_perm small 5 "b"%string hello node0).
  apply (gossip_next _ _ (add_peer bob (gossip_new small))); [|apply step_add_peer].
  apply (gossip_next _ _ (gossip_new small)); [apply gossip_start | apply step_add_peer].
Defined.

Lemma gossip_ttl_defeats_dedup_witness :
  let g' := (handle_message by_map 5 "b" hello node0).2 in
  head (handle_message by_map 5 "b" hello node0).1 = Some (deliver hello) /\
  (head (handle_message by_map 6 "c" (set_ttl 2 hello) g').1 = Some (deliver hello) \/
   collision [gossip_message_bytes (set_ttl 2 hello); gossip_message_bytes hello]).
Proof.
  apply (@gossip_ttl_defeats_dedup toy_crypto gossip_codec by_map by_map_perm gossip_codec_laws
    5 6 "b"%string "c"%string hello 2 node0); vm_compute; congruence.
Defined.

Module FloodExamples.
Import Flood.
Definition nodes0 : gmap string GossipProtocol := {[ "a"%string := node0 ]}.
Definition net0 : network := mkNetwork nodes0 ([] ++ ("b"%string, "a"%string, hello) :: []).
Definition net1 : network :=
  mkNetwork (<["a"%string := (handle_message by_map 5 "b" hello node0).2]> nodes0)
    ([] ++ [] ++ outgoing "a" (handle_message by_map 5 "b" hello node0).1).
End FloodExamples.
Import FloodExamples.

Lemma flood_terminates_witness : (1 + Flood.in_flight 2 net1 <= Flood.in_flight 2 net0)%nat.
Proof.
  apply (Flood.flood_terminates by_map by_map_perm).
  - intros id g Hg. unfold net0, nodes0 in Hg. simpl Flood.nodes in Hg.
    apply lookup_singleton_Some in Hg as [<- <-]. vm_compute. lia.
  - eapply Flood.flood_more; [|apply Flood.flood_done]. apply Flood.flood_deliver. reflexivity.
Defined.
