(* ===== verification/Api.v ===== *)
(** * The node's HTTP and JSON-RPC interface

    [node/src/api.rs]: the REST handlers, the JSON-RPC gateway, the genesis initialization,
    and the start-up step of [node/src/main.rs] that moves the consensus engine to the
    stored tip; with the method and error vocabulary of [protocol/src/network/rpc.rs].
    The routes are in [Http], the WebSocket stream in [Events]; a handler is the
    function from the application state and the parsed request to the response. *)

From S2P Require Import Prelude Bytes Crypto Transaction Block Sled StateTree StateTreeBits.
From S2P Require Import StateTreeSpec StateTreeProofs StateTransfer Db Consensus Producer.
From stdpp Require Import pretty.

#[local] Open Scope Z_scope.
#[local] Opaque tree_put tree_get H compute_default_hashes.

(** ** JSON values *)

(** [serde_json::Value]; the only numbers the handlers make or read are integers. *)
Inductive Value :=
| JNull
| JBool (b : bool)
| JNumber (n : Z)
| JFloat (text : string)
| JString (s : string)
| JArray (l : list Value)
| JObject (fields : list (string * Value)).

Definition as_array (v : Value) : option (list Value) :=
  match v with JArray l => Some l | _ => None end.

Definition as_u64 (v : Value) : option Z :=
  match v with
  | JNumber n => if (0 <=? n) && (n <=? U64_MAX) then Some n else None
  | _ => None
  end.

Definition as_str (v : Value) : option string :=
  match v with JString s => Some s | _ => None end.

(** ** Requests and responses *)

Definition MIN_PEERS_FOR_CONSENSUS : Z := 3.

Record JsonRpcRequest := mkRpcRequest {
  rq_jsonrpc : string;
  rq_method : string;
  rq_params : option Value;
  rq_id : Value
}.

Record JsonRpcError := mkRpcError { code : Z; message : string; data : option Value }.

Record JsonRpcResponse := mkRpcResponse {
  rs_jsonrpc : string;
  result : option Value;
  error : option JsonRpcError;
  rs_id : Value
}.

Record StatusResponse := mkStatus {
  st_version : string;
  st_network : string;
  st_block_height : Z;
  st_peer_count : Z;
  synced : bool;
  st_timestamp : string
}.

Record BlockResponse := mkBlockResponse {
  br_height : Z;
  br_hash : string;
  br_parent_hash : string;
  br_proposer : string;
  br_tx_count : Z;
  br_timestamp : Z
}.

Record TransactionResponse := mkTxResponse {
  tr_hash : string;
  tr_sender : string;
  tr_recipient : string;
  tr_amount : Z;
  tr_fee : Z;
  tr_block_height : option Z;
  tr_status : string;
  tr_timestamp : Z
}.

Record AccountResponse := mkAccountResponse {
  ar_address : string;
  ar_balance : Z;
  ar_nonce : Z;
  ar_tx_count : Z
}.

Inductive StatusCode := OK | NOT_FOUND | INTERNAL_SERVER_ERROR.

(** [serde_json::to_value] of the response structures. *)
Definition block_response_value (r : BlockResponse) : Value :=
  JObject [("height", JNumber (br_height r)); ("hash", JString (br_hash r));
    ("parent_hash", JString (br_parent_hash r)); ("proposer", JString (br_proposer r));
    ("tx_count", JNumber (br_tx_count r)); ("timestamp", JNumber (br_timestamp r))]%string.

Definition transaction_response_value (r : TransactionResponse) : Value :=
  JObject [("hash", JString (tr_hash r)); ("sender", JString (tr_sender r));
    ("recipient", JString (tr_recipient r)); ("amount", JNumber (tr_amount r)); ("fee", JNumber (tr_fee r));
    ("block_height", from_option JNumber JNull (tr_block_height r)); ("status", JString (tr_status r));
    ("timestamp", JNumber (tr_timestamp r))]%string.

Definition error_response_value (e : string) : Value := JObject [("error"%string, JString e)].

(** ** The application state *)

(** What the handlers read; the event channel and the metrics only observe. *)
Record AppState {C : Crypto} (Tr : Type) := mkAppState {
  as_version : string;
  as_network : string;
  as_block_height : Z;
  as_peer_count : Z;
  as_db : NovaDB Tr;
  as_state_tree : StateTree Tr
}.

Arguments mkAppState {C Tr} _ _ _ _ _ _.
Arguments as_version {C Tr} _.
Arguments as_network {C Tr} _.
Arguments as_block_height {C Tr} _.
Arguments as_peer_count {C Tr} _.
Arguments as_db {C Tr} _.
Arguments as_state_tree {C Tr} _.

Section Api.
Context {C : Crypto} {K : AccountCodec} {SC : StorageCodec} {T : TxCodec} {Tr : Type} `{Sd : Sled Tr}.

Definition block_response (block : Block) : BlockResponse :=
  mkBlockResponse (height (header block)) (hex_encode (hash (header block)))
    (hex_encode (parent_hash (header block))) (validator (header block))
    (Z.of_nat (length (transactions block))) (timestamp (header block)).

Definition transaction_response (tx : Transaction) : TransactionResponse :=
  mkTxResponse (tx_id tx) (tx_sender tx) (tx_receiver tx) (value (tx_amount tx)) (tx_fee tx) None
    "confirmed" (tx_timestamp tx).

(** ** REST handlers *)

(** The stored height, or the in-memory counter when it cannot be read. *)
Definition current_height (state : AppState Tr) : res unit Z :=
  match get_latest_block_height (as_db state) with
  | Ok (Some h) => Ok h
  | Panic => Panic
  | _ => Ok (as_block_height state)
  end.

Definition status_handler (now : string) (state : AppState Tr) : res unit StatusResponse :=
  h ← current_height state;
  let peers := as_peer_count state in
  Ok (mkStatus (as_version state) (as_network state) h peers (MIN_PEERS_FOR_CONSENSUS <=? peers) now).

Definition block_by_height_handler (h : Z) (state : AppState Tr) : res unit (StatusCode * Value) :=
  match get_block h (as_db state) with
  | Ok (Some block) => Ok (OK, block_response_value (block_response block))
  | Ok None => Ok (NOT_FOUND, error_response_value ("Block not found at height " +:+ pretty h))
  | Err e => Ok (INTERNAL_SERVER_ERROR, error_response_value ("Database error: " +:+ display_db_error e))
  | Panic => Panic
  end.

Definition transaction_by_hash_handler (h : string) (state : AppState Tr) : res unit (StatusCode * Value) :=
  match get_transaction h (as_db state) with
  | Ok (Some tx) => Ok (OK, transaction_response_value (transaction_response tx))
  | Ok None => Ok (NOT_FOUND, error_response_value ("Transaction not found: " +:+ h))
  | Err e => Ok (INTERNAL_SERVER_ERROR, error_response_value ("Database error: " +:+ display_db_error e))
  | Panic => Panic
  end.

Definition account_handler (address : string) (state : AppState Tr) : AccountResponse :=
  let account_state := tree_get address (as_state_tree state) in
  let '(balance, nonce) :=
    match account_state with
    | Some acct => (balance acct, nonce acct)
    | None => (0, 0)
    end in
  mkAccountResponse address balance nonce nonce.

(** ** The JSON-RPC gateway *)

Definition rpc_ok (v : Value) : res unit (option Value * option JsonRpcError) := Ok (Some v, None).
Definition rpc_err (c : Z) (m : string) : res unit (option Value * option JsonRpcError) :=
  Ok (None, Some (mkRpcError c m None)).

(** The first positional parameter. *)
Definition first_param (params : option Value) : option Value :=
  p ← params; arr ← as_array p; head arr.

Definition rpc_get_block (req : JsonRpcRequest) (state : AppState Tr)
    : res unit (option Value * option JsonRpcError) :=
  match first_param (rq_params req) ≫= as_u64 with
  | Some h =>
      match get_block h (as_db state) with
      | Ok (Some block) => rpc_ok (block_response_value (block_response block))
      | Ok None => rpc_err (-32001) ("Block not found at height " +:+ pretty h)
      | Err e => rpc_err (-32603) ("Internal error: " +:+ display_db_error e)
      | Panic => Panic
      end
  | None => rpc_err (-32602) "Invalid params: expected [height]"
  end.

Definition rpc_get_transaction (req : JsonRpcRequest) (state : AppState Tr)
    : res unit (option Value * option JsonRpcError) :=
  match first_param (rq_params req) ≫= as_str with
  | Some h =>
      match get_transaction h (as_db state) with
      | Ok (Some tx) => rpc_ok (transaction_response_value (transaction_response tx))
      | Ok None => rpc_err (-32001) ("Transaction not found: " +:+ h)
      | Err e => rpc_err (-32603) ("Internal error: " +:+ display_db_error e)
      | Panic => Panic
      end
  | None => rpc_err (-32602) "Invalid params: expected [hash]"
  end.

Definition quoted (s : string) : string :=
  let q := String (Ascii.ascii_of_nat 34) EmptyString in q +:+ s +:+ q.

Definition invalid_request_message : string := "Invalid Request: jsonrpc must be " +:+ quoted "2.0".

Definition rpc_handler (req : JsonRpcRequest) (state : AppState Tr) : res unit JsonRpcResponse :=
  if negb (bool_decide (rq_jsonrpc req = "2.0")) then
    Ok (mkRpcResponse "2.0" None (Some (mkRpcError (-32600) invalid_request_message None)) (rq_id req))
  else
    out ← (if bool_decide (rq_method req = "nova_blockHeight") then
             h ← current_height state; rpc_ok (JNumber h)
           else if bool_decide (rq_method req = "nova_peerCount") then rpc_ok (JNumber (as_peer_count state))
           else if bool_decide (rq_method req = "nova_networkId") then rpc_ok (JString (as_network state))
           else if bool_decide (rq_method req = "nova_version") then rpc_ok (JString (as_version state))
           else if bool_decide (rq_method req = "nova_getBlock") then rpc_get_block req state
           else if bool_decide (rq_method req = "nova_getTransaction") then rpc_get_transaction req state
           else rpc_err (-32601) ("Method not found: " +:+ rq_method req));
    Ok (mkRpcResponse "2.0" out.1 out.2 (rq_id req)).

(** ** Start-up *)

(** The database and the in-memory height counter. *)
Definition initialize_genesis (s : NovaDB Tr * Z) : res unit unit * (NovaDB Tr * Z) :=
  match get_latest_block_height s.1 with
  | Ok (Some h) => (Ok tt, (s.1, h))
  | Ok None =>
      match put_block genesis s.1 with
      | (Ok _, d) => (Ok tt, (d, 0))
      | (Err _, d) => (Ok tt, (d, s.2))
      | (Panic, d) => (Panic, (d, s.2))
      end
  | Err _ => (Ok tt, s)
  | Panic => (Panic, s)
  end.

(** [run_node]: the engine follows the stored tip. *)
Definition sync_engine (d : NovaDB Tr) (engine : ConsensusEngine) : res unit ConsensusEngine :=
  match get_latest_block_height d with
  | Ok (Some h) =>
      match get_block h d with
      | Ok (Some block) =>
          h' ← expect (checked_add h 1);
          Ok (set_chain_state h' (hash (header block)) engine)
      | Panic => Panic
      | _ => Ok engine
      end
  | Panic => Panic
  | _ => Ok engine
  end.
End Api.

(** ** [network/rpc.rs] *)

Inductive RpcMethod :=
| GetBalance
| SendTransaction
| GetTransaction
| GetBlock
| GetBlockHeight
| GetAccountState
| GetValidators
| EstimateFee
| GetCreditOffers.

(** The name on the wire. *)
Definition rpc_method_name (m : RpcMethod) : string :=
  match m with
  | GetBalance => "nova_getBalance"
  | SendTransaction => "nova_sendTransaction"
  | GetTransaction => "nova_getTransaction"
  | GetBlock => "nova_getBlock"
  | GetBlockHeight => "nova_getBlockHeight"
  | GetAccountState => "nova_getAccountState"
  | GetValidators => "nova_getValidators"
  | EstimateFee => "nova_estimateFee"
  | GetCreditOffers => "nova_getCreditOffers"
  end.

(** The constructors of [RpcError]. *)
Definition parse_error (m : string) : JsonRpcError := mkRpcError (-32700) m None.
Definition invalid_request (m : string) : JsonRpcError := mkRpcError (-32600) m None.
Definition method_not_found (m : string) : JsonRpcError := mkRpcError (-32601) ("method not found: " +:+ m) None.
Definition invalid_params (m : string) : JsonRpcError := mkRpcError (-32602) m None.
Definition internal_error (m : string) : JsonRpcError := mkRpcError (-32603) m None.
Definition transaction_not_found (id : string) : JsonRpcError := mkRpcError (-32000) ("transaction not found: " +:+ id) None.
Definition block_not_found (id : string) : JsonRpcError := mkRpcError (-32001) ("block not found: " +:+ id) None.
Definition account_not_found (a : string) : JsonRpcError := mkRpcError (-32002) ("account not found: " +:+ a) None.
Definition transaction_rejected (m : string) : JsonRpcError := mkRpcError (-32003) m None.
Definition node_syncing : JsonRpcError := mkRpcError (-32004) "node is syncing" None.

(** ** The gateway *)

Section Gateway.
Context {C : Crypto} {K : AccountCodec} {SC : StorageCodec} {T : TxCodec} {Tr : Type} `{Sd : Sled Tr}.

Definition methods : list string :=
  ["nova_blockHeight"; "nova_peerCount"; "nova_networkId"; "nova_version"; "nova_getBlock";
   "nova_getTransaction"]%string.

(** What a conforming answer to a request looks like. *)
Record conforms (req : JsonRpcRequest) (resp : JsonRpcResponse) : Prop := {
  cf_version : rs_jsonrpc resp = "2.0";
  cf_id : rs_id resp = rq_id req;
  cf_one : is_Some (result resp) <-> error resp = None;
  cf_invalid : (code <$> error resp) = Some (-32600) <-> rq_jsonrpc req <> "2.0"%string;
  cf_unknown : (code <$> error resp) = Some (-32601) <-> rq_jsonrpc req = "2.0"%string /\ rq_method req ∉ methods;
  cf_codes : forall e, error resp = Some e -> code e ∈ [-32600; -32601; -32602; -32603; -32001] /\ data e = None;
  cf_value : result resp <> Some JNull
}.

(** An outcome of one of the method branches. *)
Definition branch_ok (out : option Value * option JsonRpcError) : Prop :=
  (exists v, out = (Some v, None) /\ v <> JNull) \/
  (exists c m, out = (None, Some (mkRpcError c m None)) /\ c ∈ [-32602; -32603; -32001]).

Lemma branch_conforms req out :
  rq_jsonrpc req = "2.0"%string -> rq_method req ∈ methods -> branch_ok out ->
  conforms req (mkRpcResponse "2.0" out.1 out.2 (rq_id req)).
Proof.
  intros Hj Hm Ho. destruct Ho as [(v & -> & Hv)|(c & m & -> & Hc)].
  - split; simpl; naive_solver.
  - rewrite !elem_of_cons, elem_of_nil in Hc. destruct Hc as [->|[->|[->|[]]]];
      split; simpl; try naive_solver; intros e [= <-]; simpl; (split; [set_solver|done]).
Qed.

(** Reads do not panic: the storage engine and the decoders return. *)
Class ReadsReturn : Prop := {
  sled_get_returns : forall (t : Tr) k, sled_get t k <> Panic;
  block_de_returns : forall l, block_de l <> Panic;
  tx_de_returns : forall l, tx_de l <> Panic
}.
Context {RR : ReadsReturn}.

Lemma get_decoded_returns {A} (t : Tr) (de : list Z -> res string A) k :
  (forall l, de l <> Panic) -> get_decoded t de k <> Panic.
Proof.
  intros Hde. unfold get_decoded. pose proof (sled_get_returns t k).
  destruct (sled_get t k) as [[v|]| |]; simpl; try done. pose proof (Hde v). by destruct (de v).
Qed.

Lemma current_height_returns (state : AppState Tr) : exists h, current_height state = Ok h.
Proof.
  unfold current_height. pose proof (get_decoded_returns (db_metadata (as_db state)) height_of_bytes META_LATEST_HEIGHT) as Hr.
  fold (get_latest_block_height (as_db state)) in Hr. destruct (get_latest_block_height _) as [[h|]| |]; eauto.
  exfalso. apply Hr; [|done]. intros l. unfold height_of_bytes. by case_match.
Qed.

Lemma branch_result v : v <> JNull -> exists out, rpc_ok v = Ok out /\ branch_ok out.
Proof. intros Hv. eexists. split; [done|]. left. eauto. Qed.

Lemma branch_error c m : c ∈ [-32602; -32603; -32001] -> exists out, rpc_err c m = Ok out /\ branch_ok out.
Proof. intros Hc. eexists. split; [done|]. right. eauto. Qed.

Lemma rpc_get_block_branch req (state : AppState Tr) :
  exists out, rpc_get_block req state = Ok out /\ branch_ok out.
Proof.
  unfold rpc_get_block. destruct (_ ≫= as_u64) as [h|]; [|apply branch_error; set_solver].
  pose proof (get_decoded_returns (db_blocks (as_db state)) block_de (be_bytes 8 h) block_de_returns) as Hr.
  fold (get_block h (as_db state)) in Hr. destruct (get_block h (as_db state)) as [[b|]|e|]; [..|done].
  - by apply branch_result.
  - apply branch_error; set_solver.
  - apply branch_error; set_solver.
Qed.

Lemma rpc_get_transaction_branch req (state : AppState Tr) :
  exists out, rpc_get_transaction req state = Ok out /\ branch_ok out.
Proof.
  unfold rpc_get_transaction. destruct (_ ≫= as_str) as [h|]; [|apply branch_error; set_solver].
  pose proof (get_decoded_returns (db_transactions (as_db state)) tx_de (str_bytes h) tx_de_returns) as Hr.
  fold (get_transaction h (as_db state)) in Hr. destruct (get_transaction h (as_db state)) as [[b|]|e|]; [..|done].
  - by apply branch_result.
  - apply branch_error; set_solver.
  - apply branch_error; set_solver.
Qed.

Lemma rpc_answer_conforms req (state : AppState Tr) :
  exists resp, rpc_handler req state = Ok resp /\ conforms req resp.
Proof.
  unfold rpc_handler. case_bool_decide as Hj; cbn [negb].
  2: { eexists. split; [done|]. split; simpl; try naive_solver. intros e [= <-]. simpl. split; [set_solver|done]. }
  assert (forall r : res unit (option Value * option JsonRpcError), rq_method req ∈ methods ->
    (exists out, r = Ok out /\ branch_ok out) ->
    exists resp, (out ← r; Ok (mkRpcResponse "2.0" out.1 out.2 (rq_id req))) = Ok resp /\ conforms req resp) as Hb.
  { intros r Hm (out & -> & Ho). eexists. split; [done|]. by apply branch_conforms. }
  repeat (case_bool_decide;
    [apply Hb; [match goal with H : rq_method req = _ |- _ => rewrite H end; unfold methods; set_solver|]|]).
  - destruct (current_height_returns state) as [h ->]. by apply branch_result.
  - by apply branch_result.
  - by apply branch_result.
  - by apply branch_result.
  - apply rpc_get_block_branch.
  - apply rpc_get_transaction_branch.
  - eexists. split; [done|]. split; simpl; [done|done|..].
    + by split; [intros [??]|].
    + by split.
    + split; [|done]. intros _. split; [done|]. unfold methods. rewrite !elem_of_cons, elem_of_nil. tauto.
    + intros e [= <-]. simpl. split; [set_solver|done].
    + done.
Qed.

(** C35. Every request gets an answer in the JSON-RPC 2.0 form: the request's id, exactly one
    of result and error, and an error code that says what was wrong: -32600 exactly for
    a wrong version, -32601 exactly for an unknown method, and one of three others. *)
Theorem rpc_handler_conforms req (state : AppState Tr) :
  exists resp, rpc_handler req state = Ok resp /\ conforms req resp.
Proof. apply rpc_answer_conforms. Qed.
End Gateway.

(** ** What is served *)

Section Serving.
Context {C : Crypto} {L : CryptoLaws C} {K : AccountCodec} {KL : AccountCodecLaws K}.
Context {SC : StorageCodec} {SCL : StorageCodecLaws SC} {T : TxCodec}.
Context {Tr : Type} `{Sd : Sled Tr} {SL : SledLaws Tr} {SH : SledHealthy Tr}.

Lemma rpc_get_block_served (state : AppState Tr) B h rest rid :
  db_inv (as_db state) B -> in_u64 h ->
  rpc_handler (mkRpcRequest "2.0" "nova_getBlock" (Some (JArray (JNumber h :: rest))) rid) state =
    Ok (match B !! h with
        | Some b => mkRpcResponse "2.0" (Some (block_response_value (block_response b))) None rid
        | None => mkRpcResponse "2.0" None
                    (Some (mkRpcError (-32001) ("Block not found at height " +:+ pretty h) None)) rid
        end).
Proof.
  intros HB Hh. pose proof (get_block_inv h _ _ HB Hh) as Hg.
  unfold rpc_handler. cbn [rq_jsonrpc rq_method rq_id]. rewrite bool_decide_true by done. cbn [negb].
  rewrite !(bool_decide_false (_ = _)) by done. rewrite bool_decide_true by done.
  unfold rpc_get_block. cbn [rq_params first_param mbind option_bind as_array head as_u64].
  unfold in_u64 in Hh. rewrite (proj2 (Z.leb_le 0 h)), (proj2 (Z.leb_le h U64_MAX)) by lia. cbn [andb].
  rewrite Hg. by destruct (B !! h).
Qed.

(** Both interfaces serve the chain: over a database that holds the blocks [B], the REST
    endpoint and the JSON-RPC method answer a height with the same description of the
    stored block, and a height without one with 404 and -32001; an account is answered
    with the balance and nonce of the state tree, zero when it was never written. *)
Theorem api_serves_chain (state : AppState Tr) B A h address rest rid :
  db_inv (as_db state) B -> tree_inv (as_state_tree state) A -> in_u64 h ->
  block_by_height_handler h state =
    Ok (match B !! h with
        | Some b => (OK, block_response_value (block_response b))
        | None => (NOT_FOUND, error_response_value ("Block not found at height " +:+ pretty h))
        end) /\
  rpc_handler (mkRpcRequest "2.0" "nova_getBlock" (Some (JArray (JNumber h :: rest))) rid) state =
    Ok (match B !! h with
        | Some b => mkRpcResponse "2.0" (Some (block_response_value (block_response b))) None rid
        | None => mkRpcResponse "2.0" None
                    (Some (mkRpcError (-32001) ("Block not found at height " +:+ pretty h) None)) rid
        end) /\
  account_handler address state =
    mkAccountResponse address (balance (account A (address_to_key address)))
      (nonce (account A (address_to_key address))) (nonce (account A (address_to_key address))).
Proof.
  intros HB HA Hh. pose proof (get_block_inv h _ _ HB Hh) as Hg. split_and!.
  - unfold block_by_height_handler. rewrite Hg. by destruct (B !! h).
  - by apply rpc_get_block_served.
  - unfold account_handler. rewrite (tree_get_spec _ _ _ HA). unfold account.
    by destruct (A !! address_to_key address).
Qed.

(** Start-up: an empty database receives the genesis block and every later start leaves
    it alone; a database with a tip is never written, and the height counter takes the
    tip's height.  The engine then expects the successor of the stored tip. *)
Theorem startup_follows_tip (d : NovaDB Tr) B counter engine :
  db_inv d B ->
  (get_latest_block_height d = Ok None ->
   exists d', initialize_genesis (d, counter) = (Ok tt, (d', 0)) /\
     db_inv d' (<[0 := genesis]> B) /\
     (forall c, initialize_genesis (d', c) = (Ok tt, (d', 0))) /\
     sync_engine d' engine = Ok (set_chain_state 1 (hash (header genesis)) engine)) /\
  (forall h b, get_latest_block_height d = Ok (Some h) -> B !! h = Some b -> h < U64_MAX ->
   initialize_genesis (d, counter) = (Ok tt, (d, h)) /\
   sync_engine d engine = Ok (set_chain_state (h + 1) (hash (header b)) engine)).
Proof.
  intros HB. split.
  - intros Hn. destruct (put_block_tip genesis d B HB) as (d' & Hp & HB' & Hl & Hg); [by split|].
    change (height (header genesis)) with 0 in *.
    exists d'. unfold initialize_genesis, sync_engine. cbn [fst snd]. rewrite Hn, Hp, Hl, Hg. done.
  - intros h b Hl Hb Hlt. unfold initialize_genesis, sync_engine. cbn [fst snd]. rewrite Hl.
    pose proof HB as [_ Hh]. pose proof (Hh h b Hb) as [Hu _]. unfold in_u64 in Hu.
    rewrite (get_block_inv h d B HB), Hb by (unfold in_u64; lia). split; [done|].
    unfold expect, checked_add. rewrite (proj2 (Z.leb_le _ _)) by lia. done.
Qed.
End Serving.

(** ** The documented methods *)

Lemma rpc_method_unknown {C : Crypto} {K : AccountCodec} {SC : StorageCodec} {T : TxCodec} {Tr}
    `{Sd : Sled Tr} (state : AppState Tr) m params rid :
  m <> GetBlock -> m <> GetTransaction ->
  rpc_handler (mkRpcRequest "2.0" (rpc_method_name m) params rid) state =
    Ok (mkRpcResponse "2.0" None
          (Some (mkRpcError (-32601) ("Method not found: " +:+ rpc_method_name m) None)) rid).
Proof. intros Hb Ht. destruct m; try done; reflexivity. Qed.

(** Of the nine methods the protocol crate names, the gateway knows two: for each of the
    others, [nova_getBlockHeight] included, the answer is method not found, whatever the
    parameters; and a missing transaction is reported with the code the protocol crate
    reserves for blocks. *)
Theorem documented_methods_unknown {C : Crypto} {K : AccountCodec} {SC : StorageCodec} {T : TxCodec} {Tr}
    `{Sd : Sled Tr} (state : AppState Tr) m params rid :
  m <> GetBlock -> m <> GetTransaction ->
  rpc_handler (mkRpcRequest "2.0" (rpc_method_name m) params rid) state =
    Ok (mkRpcResponse "2.0" None
          (Some (mkRpcError (-32601) ("Method not found: " +:+ rpc_method_name m) None)) rid) /\
  (forall h rest, get_transaction h (as_db state) = Ok None ->
   exists e, rpc_handler (mkRpcRequest "2.0" (rpc_method_name GetTransaction)
       (Some (JArray (JString h :: rest))) rid) state = Ok (mkRpcResponse "2.0" None (Some e) rid) /\
     code e = code (block_not_found h) /\ code e <> code (transaction_not_found h)).
Proof.
  intros Hb Ht. split.
  - by apply rpc_method_unknown.
  - intros h rest Hn. exists (mkRpcError (-32001) ("Transaction not found: " +:+ h) None).
    split; [|by split].
    unfold rpc_handler. cbn [rq_jsonrpc rq_method rq_id rpc_method_name]. rewrite bool_decide_true by done.
    cbn [negb]. rewrite !(bool_decide_false (_ = _)) by done. rewrite bool_decide_true by done.
    unfold rpc_get_transaction. cbn [rq_params first_param mbind option_bind as_array head as_str].
    rewrite Hn. reflexivity.
Qed.

(** ** Witnesses: a node that has just started *)

Module ApiExamples.
Export TreeExamples DbExamples.
#[export] Existing Instance TxExamples.codec.

Definition at_boot : AppState (gmap (list Z) (list Z)) := mkAppState "0.1.0" "devnet" 0 0 gap_db tree.

Lemma toy_de_returns {A} `{Countable A} l : ToyCodec.de (A := A) l <> Panic.
Proof.
  unfold ToyCodec.de. destruct l as [|[] [|]]; try done. by destruct (decode p).
Qed.

Lemma boot_reads : ReadsReturn (Tr := gmap (list Z) (list Z)).
Proof. split; [done|..]; intros l; apply toy_de_returns. Qed.
End ApiExamples.

Import ApiExamples.

Lemma rpc_handler_conforms_witness :
  exists resp, rpc_handler (mkRpcRequest "2.0" "nova_version" None (JNumber 1)) at_boot = Ok resp /\
    conforms (mkRpcRequest "2.0" "nova_version" None (JNumber 1)) resp.
Proof. apply (rpc_handler_conforms (RR := boot_reads)). Defined.

Lemma api_serves_chain_witness :
  block_by_height_handler 3 at_boot = Ok (OK, block_response_value (block_response (at_height 3))) /\
  account_handler "alice" at_boot = mkAccountResponse "alice" 100 0 0.
Proof.
  destruct (api_serves_chain at_boot _ accounts 3 "alice" [] (JNumber 1) gap_db_inv tree_ok
    ltac:(unfold in_u64, U64_MAX; lia)) as (Hb & _ & Ha).
  rewrite lookup_insert_eq in Hb. split; [exact Hb|]. rewrite Ha. vm_compute. reflexivity.
Defined.

Lemma startup_follows_tip_witness :
  exists d', initialize_genesis (empty_db, 9) = (Ok tt, (d', 0)) /\
    sync_engine d' ConsensusExamples.engine =
      Ok (set_chain_state 1 (hash (header genesis)) ConsensusExamples.engine).
Proof.
  destruct (proj1 (startup_follows_tip empty_db ∅ 9 ConsensusExamples.engine empty_db_inv)) as (d' & Hi & _ & _ & Hs).
  - reflexivity.
  - exists d'. split; [exact Hi|exact Hs].
Defined.

Lemma documented_methods_unknown_witness :
  exists e, rpc_handler (mkRpcRequest "2.0" "nova_getBlockHeight" None (JNumber 1)) at_boot =
    Ok (mkRpcResponse "2.0" None (Some e) (JNumber 1)) /\ code e = -32601.
Proof.
  eexists. split; [apply (documented_methods_unknown at_boot GetBlockHeight None (JNumber 1)); discriminate|reflexivity].
Defined.
