(* ===== verification/Boot.v ===== *)
(** * Starting a node

    The part of [run_node] in [node/src/main.rs] that wires the components of a node
    together (database, state trees, genesis, developer accounts, validator set, engine,
    mempool, API state), and the consensus loop over the node it builds.  Two handles on
    the state tree are opened over one store: the loop's and the API's; [api_view] is
    what the API serves later from the shared database and store.  Logging, sockets,
    metrics and signals are not modelled; the secret key comes as an argument. *)

From S2P Require Import Prelude Bytes Crypto Transaction Block Sled StateTree StateTreeSpec StateTreeProofs StateTransfer.
From S2P Require Import Db Mempool Consensus Producer Identity Keys Ntp Api.

#[local] Open Scope Z_scope.

Definition DEV_ACCOUNT_COUNT : Z := 10.
Definition DEV_ACCOUNT_BALANCE : Z := 100000000000000.
Definition DEV_VALIDATOR_STAKE : Z := 10000000000.

(** The options of [nova-node run] that decide what is built. *)
Record RunArgs := mkRunArgs { arg_dev : bool; arg_validator : bool; arg_stake : Z }.

Section Boot.
Context {C : Crypto} {S : SecretKeys C} {K : AccountCodec} {SC : StorageCodec} {T : TxCodec}.
Context {Tr : Type} `{Sd : Sled Tr}.

Definition dev_seed_input (index : Z) : list Z := str_bytes "nova-dev-account-" ++ le_bytes 8 index.

Definition generate_dev_seed (index : Z) : list Z := sha2_256 (dev_seed_input index).

Definition dev_address (i : Z) : string :=
  to_address (from_public_key (public_key (from_seed (generate_dev_seed i)))).

(** One turn of the loop of [prefund_dev_accounts]. *)
Definition prefund_one {E} (i : Z) (addresses : list string) : M (StateTree Tr) E (list string) :=
  let addr := dev_address i in
  _ ← tree_put addr (with_balance DEV_ACCOUNT_BALANCE);
  mret (addresses ++ [addr]).

Definition prefund_dev_accounts {E} : M (StateTree Tr) E (list string) :=
  fold_each (seqZ 1 DEV_ACCOUNT_COUNT) prefund_one [].

(** Funding the tree of the consensus loop: the same writes. *)
Definition refund_dev_accounts {E} : M (StateTree Tr) E unit :=
  for_each (seqZ 1 DEV_ACCOUNT_COUNT) (fun i => tree_put (dev_address i) (with_balance DEV_ACCOUNT_BALANCE)).

(** The outcome of a method as a function of the object it leaves. *)
Definition after {A} (r : res unit A * StateTree Tr) : res unit (StateTree Tr) :=
  match r with (Ok _, s) => Ok s | (Err e, _) => Err e | (Panic, _) => Panic end.

Definition boot_validators (args : RunArgs) (kp : NovaKeypair) : ValidatorSet :=
  if arg_validator args || arg_dev args
  then add_validator (pk_to_hex (public_key kp)) (if arg_dev args then DEV_VALIDATOR_STAKE else arg_stake args)
         validator_set_new
  else validator_set_new.

Definition boot_config (args : RunArgs) : ConsensusConfig :=
  if arg_dev args then
    mkConsensusConfig (block_time_ms default_consensus_config) 1 (max_validators default_consensus_config)
      (stake_requirement default_consensus_config) (epoch_length default_consensus_config)
      (max_block_transactions default_consensus_config) (round_timeout_ms default_consensus_config)
  else default_consensus_config.

Definition boot (version : string) (args : RunArgs) (kp : NovaKeypair) (db : NovaDB Tr) (smt : Tr)
    : res unit (Node Tr * AppState Tr) :=
  let state_tree := state_tree_new smt in
  match initialize_genesis (db, 0) with
  | (Ok _, (db, block_height)) =>
      state_tree ← (if arg_dev args then after (prefund_dev_accounts state_tree) else Ok state_tree);
      engine ← sync_engine db (engine_new (boot_config args) (boot_validators args kp));
      let st := state_tree_new (st_tree state_tree) in
      st ← (if arg_dev args then after (refund_dev_accounts st) else Ok st);
      Ok (mkNode db st (mempool_new default_mempool_config) engine,
          mkAppState (version +:+ " (protocol " +:+ PROTOCOL_VERSION +:+ ")") "devnet" block_height 0 db
            (mkTree (st_tree st) (root state_tree)))
  | (Err e, _) => Err e
  | (Panic, _) => Panic
  end.

(** What the API answers from while the loop runs: the shared database and the shared
    store, under the root its own handle had at start-up. *)
Definition api_view (app : AppState Tr) (node : Node Tr) : AppState Tr :=
  mkAppState (as_version app) (as_network app) (as_block_height app) (as_peer_count app) (nd_db node)
    (mkTree (st_tree (nd_tree node)) (root (as_state_tree app))).

(** The loop undisturbed by a shutdown, at the given times. *)
Definition undisturbed (times : list Z) : list (bool * Z * bool) := (fun t => (false, t, false)) <$> times.
End Boot.

(** ** Rounds of an idle validator *)

Section Idle.
Context {C : Crypto} {L : CryptoLaws C} {K : AccountCodec} {KL : AccountCodecLaws K}.
Context {SC : StorageCodec} {SCL : StorageCodecLaws SC} {T : TxCodec}.
Context {Tr : Type} `{Sd : Sled Tr} {SL : SledLaws Tr} {SH : SledHealthy Tr}.
Context (kp : NovaKeypair) (st : Z).

Definition alone : ValidatorSet := add_validator (pk_to_hex (public_key kp)) st validator_set_new.

(** A node that is its own validator set, has no transactions and a tip at height [n]. *)
Record idle (n : Z) (node : Node Tr) (B : gmap Z Block) : Prop := {
  idle_set : validator_set (nd_engine node) = alone;
  idle_pool : nd_pool node = mempool_new default_mempool_config;
  idle_db : db_inv (nd_db node) B;
  idle_tip : get_latest_block_height (nd_db node) = Ok (Some n);
  idle_block : is_Some (B !! n)
}.

Lemma alone_turn e : validator_set e = alone -> is_our_turn kp e = true.
Proof.
  intros He. unfold is_our_turn, proposer_for_round. rewrite He.
  assert (active_validators alone = [mkValidator (pk_to_hex (public_key kp)) st true 0 0]) as -> by reflexivity.
  cbn [length]. rewrite Z.mod_1_r. cbn. by apply bool_decide_eq_true.
Qed.

Lemma idle_tip_block n node B : idle n node B ->
  exists p, B !! n = Some p /\ height (header p) = n /\ 0 <= n /\ get_latest_block (nd_db node) = Ok p.
Proof.
  intros [_ _ HB Ht [p Hp]]. destruct (di_heights _ _ HB n p Hp) as [Hu Hn]. exists p.
  split; [done|]. split; [done|]. split; [unfold in_u64 in Hu; lia|].
  unfold get_latest_block. rewrite Ht. cbn. by rewrite (get_block_inv n _ _ HB Hu), Hp.
Qed.

(** The block an idle validator adds to its tip. *)
Definition extends (sr : list Z) (B : gmap Z Block) (n : Z) : Prop :=
  exists p b, B !! n = Some p /\ B !! (n + 1) = Some b /\ produced_ok kp p [] sr b.

Lemma idle_round now cfg n node B :
  idle n node B -> n < U64_MAX ->
  next_height (nd_engine node) < U64_MAX -> current_round (nd_engine node) < U64_MAX ->
  exists f node' b, run_single_round now kp cfg node = (Ok (Some f), node') /\
    idle (n + 1) node' (<[n + 1 := b]> B) /\ extends (root (nd_tree node)) (<[n + 1 := b]> B) n /\
    nd_tree node' = nd_tree node /\ fb_block f = b /\
    next_height (nd_engine node') = next_height (nd_engine node) + 1 /\
    current_round (nd_engine node') = current_round (nd_engine node) + 1.
Proof.
  intros Hi Hn Hnh Hcr. destruct (idle_tip_block _ _ _ Hi) as (p & Hp & Hhp & Hpos & Hlat).
  pose proof Hi as [Hset Hpool HB Htip _].
  destruct (produce_empty now kp p (max_txs_per_block cfg) node) as (b & Hprod & Hok);
    [by rewrite Hpool|lia|].
  destruct (round_completes now kp cfg p node B (alone_turn _ Hset) Hlat ltac:(lia) _ _ _ _ _ Hprod Hok)
    as (votes & d' & Hr & HB' & Hl & _); [by rewrite Hset|done..|].
  pose proof (po_height _ _ _ _ _ Hok) as Hh. rewrite Hhp in Hh. rewrite Hh in HB', Hl.
  eexists _, _, b. split; [exact Hr|]. split_and!; try done.
  - split; try done.
    + cbn [nd_pool]. by rewrite (po_txs _ _ _ _ _ Hok), Hpool.
    + by rewrite lookup_insert_eq.
  - exists p, b. rewrite lookup_insert_ne, lookup_insert_eq by lia. done.
Qed.

Lemma idle_run cfg times n node B :
  idle n node B -> n + Z.of_nat (length times) <= U64_MAX ->
  next_height (nd_engine node) + Z.of_nat (length times) <= U64_MAX ->
  current_round (nd_engine node) + Z.of_nat (length times) <= U64_MAX ->
  exists node' B', run_loop kp cfg (undisturbed times) node = (None, node') /\
    idle (n + Z.of_nat (length times)) node' B' /\ nd_tree node' = nd_tree node /\
    (forall h, h <= n -> B' !! h = B !! h) /\
    (forall h, n <= h < n + Z.of_nat (length times) -> extends (root (nd_tree node)) B' h).
Proof.
  revert n node B; induction times as [|t times IH]; intros n node B Hi Hn Hnh Hcr; cbn [length] in *.
  { exists node, B. split; [done|]. rewrite Z.add_0_r. split_and!; try done. intros h ?. lia. }
  destruct (idle_round t cfg n node B Hi) as (f & node1 & b & Hr & Hi1 & Hx & Ht & _ & Hh1 & Hc1); [lia..|].
  destruct (IH (n + 1) node1 _ Hi1) as (node' & B' & Hrun & Hi' & Ht' & Hold & Hnew); [lia..|].
  exists node', B'. cbn [undisturbed fmap list_fmap run_loop]. rewrite Hr. split_and!.
  - exact Hrun.
  - by replace (n + Z.of_nat (S (length times))) with (n + 1 + Z.of_nat (length times)) by lia.
  - congruence.
  - intros h Hh. rewrite Hold by lia. apply lookup_insert_ne. lia.
  - intros h Hh. destruct (decide (h = n)) as [->|].
    + destruct Hx as (p & b' & Hp & Hb & Hok). exists p, b'. by rewrite !Hold by lia.
    + rewrite <- Ht. apply Hnew. lia.
Qed.
End Idle.

(** ** Developer accounts *)

Section DevAccounts.
Context {C : Crypto} {L : CryptoLaws C} {S : SecretKeys C} {K : AccountCodec} {KL : AccountCodecLaws K}.
Context {Tr : Type} `{Sd : Sled Tr} {SL : SledLaws Tr} {SH : SledHealthy Tr}.

Definition fund_all (l : list Z) (A : Accounts) : Accounts :=
  fold_left (fun A i => <[address_to_key (dev_address i) := with_balance DEV_ACCOUNT_BALANCE]> A) l A.

Definition dev_accounts : Accounts := fund_all (seqZ 1 DEV_ACCOUNT_COUNT) ∅.

Lemma fund_all_lookup l A k :
  fund_all l A !! k =
  if decide (k ∈ (fun i => address_to_key (dev_address i)) <$> l)
  then Some (with_balance DEV_ACCOUNT_BALANCE) else A !! k.
Proof.
  revert A; induction l as [|i l IH]; intros A; cbn [fund_all fold_left fmap list_fmap].
  { rewrite decide_False by apply not_elem_of_nil. done. }
  fold (fund_all l (<[address_to_key (dev_address i) := with_balance DEV_ACCOUNT_BALANCE]> A)).
  rewrite IH. destruct (decide (k ∈ (fun i => address_to_key (dev_address i)) <$> l)) as [Hin|Hin].
  - rewrite decide_True by by right. done.
  - destruct (decide (address_to_key (dev_address i) = k)) as [<-|Hne].
    + by rewrite lookup_insert_eq, decide_True by left.
    + rewrite lookup_insert_ne by done. rewrite decide_False; [done|].
      intros [|]%elem_of_cons; congruence.
Qed.

Lemma fund_all_again l A : fund_all l (fund_all l A) = fund_all l A.
Proof. apply map_eq. intros k. rewrite !fund_all_lookup. by case_decide. Qed.

Lemma prefund_spec {E} l acc (s : StateTree Tr) A :
  tree_inv s A ->
  exists s', fold_each (E := E) l prefund_one acc s = (Ok (acc ++ (dev_address <$> l)), s') /\
    tree_inv s' (fund_all l A).
Proof.
  revert acc s A; induction l as [|i l IH]; intros acc s A Hs; [by exists s; rewrite app_nil_r|].
  destruct (tree_put_spec (E := E) (dev_address i) (with_balance DEV_ACCOUNT_BALANCE) s A Hs) as (s1 & Hp & H1).
  destruct (IH (acc ++ [dev_address i]) s1 _ H1) as (s2 & Hf & H2). exists s2. split; [|exact H2].
  cbn [fold_each fmap list_fmap]. unfold mbind at 1, M_bind at 1. unfold prefund_one at 1.
  unfold mbind, M_bind, mret, M_ret. cbv beta zeta. rewrite Hp.
  rewrite <- app_assoc in Hf. exact Hf.
Qed.

(** Funding again, through a second handle on the same store, restores the root. *)
Lemma refund_spec {E} l (s : StateTree Tr) A :
  l <> [] -> store_inv (st_tree s) A ->
  exists s', for_each (E := E) l (fun i => tree_put (dev_address i) (with_balance DEV_ACCOUNT_BALANCE)) s
      = (Ok tt, s') /\ tree_inv s' (fund_all l A).
Proof.
  revert s A; induction l as [|i l IH]; intros s A Hl Hs; [done|].
  destruct (tree_put_store (E := E) (dev_address i) (with_balance DEV_ACCOUNT_BALANCE) s A (store_off_path _ _ _ Hs)) as (s1 & Hp & H1).
  cbn [for_each]. unfold mbind, M_bind. rewrite Hp. destruct l as [|j l]; [by exists s1|].
  apply IH; [done|]. apply H1.
Qed.
End DevAccounts.

(** ** Theorems *)

Section BootTheorems.
Context {C : Crypto} {L : CryptoLaws C} {S : SecretKeys C} {K : AccountCodec} {KL : AccountCodecLaws K}.
Context {SC : StorageCodec} {SCL : StorageCodecLaws SC} {T : TxCodec}.
Context {Tr : Type} `{Sd : Sled Tr} {SL : SledLaws Tr} {SH : SledHealthy Tr}.

Lemma open_temporary_inv : db_inv (open_temporary : NovaDB Tr) ∅.
Proof.
  split.
  - intros k v. cbn. rewrite sled_get_new. split; [done|]. intros (h & b & _ & Hb & _). by rewrite lookup_empty in Hb.
  - intros h b Hb. by rewrite lookup_empty in Hb.
Qed.

Lemma open_temporary_height : get_latest_block_height (open_temporary : NovaDB Tr) = Ok None.
Proof. unfold get_latest_block_height, get_decoded. cbn. by rewrite sled_get_ok, sled_get_new. Qed.

Lemma genesis_on_empty engine : exists d' : NovaDB Tr,
  initialize_genesis (open_temporary, 0) = (Ok tt, (d', 0)) /\ db_inv d' (<[0 := genesis]> ∅) /\
  get_latest_block_height d' = Ok (Some 0) /\
  sync_engine d' engine = Ok (set_chain_state 1 (hash (header genesis)) engine).
Proof.
  destruct (put_block_tip genesis (open_temporary : NovaDB Tr) ∅ open_temporary_inv) as (d' & Hp & HB & Hl & Hg);
    [by split|].
  change (height (header genesis)) with 0 in *. exists d'.
  unfold initialize_genesis, sync_engine. cbn [fst snd]. rewrite open_temporary_height, Hp, Hl, Hg. done.
Qed.

(** A developer node on an empty database: alone, at genesis, with the funded accounts. *)
Lemma dev_boot version v stake kp :
  exists node app,
    boot version (mkRunArgs true v stake) kp (open_temporary : NovaDB Tr) sled_new = Ok (node, app) /\
    idle kp DEV_VALIDATOR_STAKE 0 node (<[0 := genesis]> ∅) /\ tree_inv (nd_tree node) dev_accounts /\
    next_height (nd_engine node) = 1 /\ current_round (nd_engine node) = 0.
Proof.
  set (args := mkRunArgs true v stake).
  destruct (genesis_on_empty (engine_new (boot_config args) (boot_validators args kp))) as (d & Hg & HB & Hh & He).
  destruct (prefund_spec (E := unit) (seqZ 1 DEV_ACCOUNT_COUNT) [] _ _ (state_tree_new_inv (Tr := Tr)))
    as (s1 & Hp1 & H1).
  destruct (refund_spec (E := unit) (seqZ 1 DEV_ACCOUNT_COUNT) (state_tree_new (st_tree s1)) _ ltac:(done) (inv_store _ _ H1))
    as (s2 & Hp2 & H2). rewrite fund_all_again in H2.
  eexists (mkNode d s2 (mempool_new default_mempool_config)
    (set_chain_state 1 (hash (header genesis)) (engine_new (boot_config args) (boot_validators args kp)))), _.
  split; [|split; [|split; [exact H2|done]]].
  - unfold boot. rewrite Hg. cbn [arg_dev args]. unfold prefund_dev_accounts, refund_dev_accounts, after. rewrite Hp1.
    cbn [mbind res_bind]. rewrite He. cbn [mbind res_bind]. rewrite Hp2. reflexivity.
  - split; [by destruct v|reflexivity|exact HB|exact Hh|by rewrite lookup_insert_eq].
Qed.

(** A developer node is live: started on an empty database it holds the funded
    accounts, and as long as its loop runs undisturbed every round adds one block,
    signed by it and linked to the one before, back to genesis; the state root in all of
    them is that of the funded accounts, and the API reports the height and the
    accounts. *)
Theorem dev_chain_grows version v stake kp times :
  Z.of_nat (length times) < U64_MAX ->
  exists node app node' B,
    boot version (mkRunArgs true v stake) kp (open_temporary : NovaDB Tr) sled_new = Ok (node, app) /\
    run_loop kp default_loop_config (undisturbed times) node = (None, node') /\
    db_inv (nd_db node') B /\ B !! 0 = Some genesis /\
    (forall h, 0 <= h < Z.of_nat (length times) -> extends kp (root (nd_tree node')) B h) /\
    tree_inv (nd_tree node') dev_accounts /\
    current_height (api_view app node') = Ok (Z.of_nat (length times)) /\
    (forall i, 1 <= i <= DEV_ACCOUNT_COUNT ->
       account_handler (dev_address i) (api_view app node') =
         mkAccountResponse (dev_address i) DEV_ACCOUNT_BALANCE 0 0).
Proof.
  intros Hlen. destruct (dev_boot version v stake kp) as (node & app & Hboot & Hi0 & H2 & Hnh & Hcr).
  destruct (idle_run kp DEV_VALIDATOR_STAKE default_loop_config times 0 node (<[0 := genesis]> ∅) Hi0)
    as (node' & B' & Hrun & Hi & Ht & Hold & Hnew); [lia..|].
  exists node, app, node', B'. split_and!; [exact Hboot|exact Hrun|apply Hi|..].
  - rewrite Hold by lia. apply lookup_insert_eq.
  - rewrite Ht. exact Hnew.
  - rewrite Ht. exact H2.
  - unfold current_height, api_view. cbn [as_db]. by rewrite (idle_tip _ _ _ _ _ Hi).
  - intros i Hi'. unfold account_handler, api_view. cbn [as_state_tree].
    change (tree_get (dev_address i) (mkTree (st_tree (nd_tree node')) ?r)) with (tree_get (dev_address i) (nd_tree node')).
    rewrite Ht, (tree_get_spec _ _ _ H2). unfold dev_accounts. rewrite fund_all_lookup, decide_True; [done|].
    apply (list_elem_of_fmap_2 (fun i => address_to_key (dev_address i))), elem_of_seqZ. lia.
Qed.

Lemma root_new (t t' : Tr) : root (state_tree_new t) = root (state_tree_new t').
Proof. unfold root, state_tree_new. cbn [st_root]. reflexivity. Qed.

(** A validator started on a database whose chain ends at [n]: alone, at [n], with the
    root of the empty tree whatever accounts the store holds. *)
Lemma validator_boot version stake kp (db d1 : NovaDB Tr) h0 B n smt :
  initialize_genesis (db, 0) = (Ok tt, (d1, h0)) -> db_inv d1 B -> get_latest_block_height d1 = Ok (Some n) ->
  is_Some (B !! n) -> n < U64_MAX ->
  exists node app, boot version (mkRunArgs false true stake) kp db smt = Ok (node, app) /\
    idle kp stake n node B /\ nd_tree node = state_tree_new smt /\ nd_db node = d1 /\
    next_height (nd_engine node) = n + 1 /\ current_round (nd_engine node) = 0.
Proof.
  intros Hg HB Hl [p Hp] Hn. set (args := mkRunArgs false true stake).
  destruct (di_heights _ _ HB n p Hp) as [Hu _]. unfold in_u64 in Hu.
  set (engine := set_chain_state (n + 1) (hash (header p)) (engine_new (boot_config args) (boot_validators args kp))).
  assert (sync_engine d1 (engine_new (boot_config args) (boot_validators args kp)) = Ok engine) as He.
  { unfold sync_engine. rewrite Hl, (get_block_inv n d1 B HB), Hp by (unfold in_u64; lia).
    unfold expect, checked_add. rewrite (proj2 (Z.leb_le _ _)) by lia. done. }
  eexists (mkNode d1 (state_tree_new smt) (mempool_new default_mempool_config) engine), _. split; [|by split_and!].
  unfold boot. rewrite Hg. cbn [arg_dev args mbind res_bind]. rewrite He. reflexivity.
Qed.

(** A restarted validator commits to nothing: reopened over the store of its accounts,
    the tree takes the root of the empty tree, and the next block the node signs carries
    that root, although the node still serves the accounts (the two roots differ, unless
    BLAKE3 breaks on the messages hashed for an account in the two trees). *)
Theorem restart_commits_empty_root version stake kp now (d : NovaDB Tr) B h (s : StateTree Tr) A address acct :
  db_inv d B -> get_latest_block_height d = Ok (Some h) -> is_Some (B !! h) -> h + 1 < U64_MAX ->
  tree_inv s A -> tree_get address s = Some acct ->
  exists node app node' b,
    boot version (mkRunArgs false true stake) kp d (st_tree s) = Ok (node, app) /\
    run_loop kp default_loop_config (undisturbed [now]) node = (None, node') /\
    get_latest_block (nd_db node') = Ok b /\ height (header b) = h + 1 /\
    state_root (header b) = root (state_tree_new (sled_new : Tr)) /\
    account_handler address (api_view app node') = mkAccountResponse address (balance acct) (nonce acct) (nonce acct) /\
    (state_root (header b) <> root s \/
     hash_break (path_messages 256 (address_to_key address) ∅ ++ path_messages 256 (address_to_key address) A)).
Proof.
  intros HB Hl Hp Hh Hs Hg.
  destruct (validator_boot version stake kp d d h B h (st_tree s)) as (node & app & Hboot & Hi & Htree & _ & Hnh & Hcr);
    [unfold initialize_genesis; cbn [fst snd]; by rewrite Hl|done..|lia|].
  destruct (idle_run kp stake default_loop_config [now] h node B Hi) as (node' & B' & Hrun & Hi' & Ht & _ & Hnew);
    [rewrite ?Hnh, ?Hcr; cbn [length]; unfold U64_MAX in *; lia..|].
  destruct (Hnew h ltac:(cbn; lia)) as (p' & b & Hp' & Hb & Hok).
  destruct (idle_tip_block _ _ _ _ _ Hi') as (b' & Hb' & Hhb & _ & Hlat).
  change (h + Z.of_nat (length [now])) with (h + 1) in *. rewrite Hb in Hb'. injection Hb' as <-.
  assert (state_root (header b) = root (state_tree_new (st_tree s))) as Hroot by (by rewrite (po_state_root _ _ _ _ _ Hok), Htree).
  exists node, app, node', b. split_and!; [exact Hboot|exact Hrun|exact Hlat|exact Hhb|..].
  - rewrite Hroot. exact (root_new (st_tree s) sled_new).
  - unfold account_handler, api_view. cbn [as_state_tree].
    change (tree_get address (mkTree (st_tree (nd_tree node')) ?r)) with (tree_get address (nd_tree node')).
    by rewrite Ht, Htree, tree_get_new, Hg.
  - rewrite Hroot. by apply (state_tree_new_forgets_root s A address acct).
Qed.
End BootTheorems.

(** ** Witnesses *)

Module BootExamples.
Export KeyExamples ApiExamples.
#[export] Existing Instance ToyCodec.storage_codec.

Definition boss : NovaKeypair (C := toy_crypto) := mkKeypair (C := toy_crypto) 4.
End BootExamples.

Import BootExamples.

Lemma dev_chain_grows_witness :
  exists node app node' B,
    boot "0.1.0" (mkRunArgs true false 0) boss (open_temporary : NovaDB (gmap (list Z) (list Z))) sled_new = Ok (node, app) /\
    run_loop boss default_loop_config (undisturbed [2000; 4000; 6000]) node = (None, node') /\
    B !! 0 = Some genesis /\ extends boss (root (nd_tree node')) B 2 /\
    current_height (api_view app node') = Ok 3.
Proof.
  destruct (dev_chain_grows (Tr := gmap (list Z) (list Z)) "0.1.0" false 0 boss [2000; 4000; 6000])
    as (node & app & node' & B & Hb & Hr & _ & Hg & Hx & _ & Hc & _); [unfold U64_MAX; simpl; lia|].
  exists node, app, node', B. split; [exact Hb|]. split; [exact Hr|]. split; [exact Hg|].
  split; [apply Hx; simpl; lia|exact Hc].
Defined.

Lemma restart_commits_empty_root_witness :
  exists node app node' b,
    boot "0.1.0" (mkRunArgs false true 5) boss gap_db (st_tree tree) = Ok (node, app) /\
    run_loop boss default_loop_config (undisturbed [2000]) node = (None, node') /\
    get_latest_block (nd_db node') = Ok b /\
    state_root (header b) = root (state_tree_new (sled_new : gmap (list Z) (list Z))) /\
    account_handler "alice" (api_view app node') = mkAccountResponse "alice" 100 0 0.
Proof.
  destruct (restart_commits_empty_root "0.1.0" 5 boss 2000 gap_db _ 3 tree accounts "alice" (with_balance 100) gap_db_inv)
    as (node & app & node' & b & Hb & Hr & Hl & _ & Hs & Ha & _).
  - vm_compute. reflexivity.
  - rewrite lookup_insert_eq. eauto.
  - unfold U64_MAX. lia.
  - exact tree_ok.
  - exact tree_alice.
  - exists node, app, node', b. split; [exact Hb|]. split; [exact Hr|]. split; [exact Hl|]. split; [exact Hs|exact Ha].
Defined.
