(* ===== verification/Recovery.v ===== *)
(** * Interrupted writes of the block database

    [NovaDB::put_block] of [protocol/src/storage/db.rs] writes four trees one after the
    other, the chain height last.  This file follows the writes one by one: an I/O error
    or the end of the process leaves the trees after some of them.  [committed] is what a
    restarted node relies on: the blocks up to the stored height with their hash index and
    transactions.  It survives an interruption at every point, however often blocks are
    attempted; what an interrupted block left above the height stays in the indices. *)

From S2P Require Import Prelude Bytes Crypto Transaction Block Sled StateTree Db Consensus Api.

#[local] Open Scope Z_scope.
#[local] Arguments be_bytes : simpl never.
#[local] Arguments META_LATEST_HEIGHT : simpl never.

(** ** The writes of [put_block] *)

Inductive write :=
| WBlocks (ops : list (list Z * list Z))
| WHash (k v : list Z)
| WTransactions (ops : list (list Z * list Z))
| WHeight (v : list Z).

Section Writes.
Context {SC : StorageCodec} {Tr : Type} `{Sd : Sled Tr}.

Definition apply_write (w : write) (d : NovaDB Tr) : res string (NovaDB Tr) :=
  match w with
  | WBlocks ops => t ← sled_apply_batch (db_blocks d) ops; Ok (set_blocks t d)
  | WHash k v => t ← sled_insert (db_block_hashes d) k v; Ok (set_block_hashes t d)
  | WTransactions ops => t ← sled_apply_batch (db_transactions d) ops; Ok (set_transactions t d)
  | WHeight v => t ← sled_insert (db_metadata d) META_LATEST_HEIGHT v; Ok (set_metadata t d)
  end.

Definition put_writes (block : Block) : res DbError (list write) :=
  let height_key := be_bytes 8 (height (header block)) in
  block_bytes ← map_err_res DbSerialization (block_ser block);
  ops ← tx_batch (transactions block);
  Ok [WBlocks [(height_key, block_bytes)]; WHash (hash (header block)) height_key;
      WTransactions ops; WHeight height_key].

(** Writes that reach the trees, in order. *)
Fixpoint run_writes (ws : list write) (d : NovaDB Tr) : res string (NovaDB Tr) :=
  match ws with
  | [] => Ok d
  | w :: ws' => d1 ← apply_write w d; run_writes ws' d1
  end.

(** The trees after the first [n] writes of a block. *)
Definition cut_after (n : nat) (block : Block) (d d' : NovaDB Tr) : Prop :=
  exists ws, put_writes block = Ok ws /\ run_writes (take n ws) d = Ok d'.

(** ** What a restarted node relies on *)

Record stored_at (d : NovaDB Tr) (h : Z) (b : Block) : Prop := {
  sa_height : height (header b) = h;
  sa_block : exists v, block_ser b = Ok v /\ view (db_blocks d) (be_bytes 8 h) = Some v;
  sa_hash : view (db_block_hashes d) (hash (header b)) = Some (be_bytes 8 h);
  sa_txs : forall tx, tx ∈ transactions b -> exists tx' v, tx_id tx' = tx_id tx /\ tx_ser tx' = Ok v /\
    view (db_transactions d) (str_bytes (tx_id tx)) = Some v
}.

Record committed (d : NovaDB Tr) (chain : list Block) : Prop := {
  cm_bound : Z.of_nat (length chain) <= U64_MAX;
  cm_tip : view (db_metadata d) META_LATEST_HEIGHT = Some (be_bytes 8 (Z.of_nat (length chain) - 1));
  cm_some : chain <> [];
  cm_at : forall i b, chain !! i = Some b -> stored_at d (Z.of_nat i) b
}.

(** A block for the next height; its hash is new, or the one an interrupted attempt at
    this height has left. *)
Record next_block (d : NovaDB Tr) (chain : list Block) (b : Block) : Prop := {
  nb_height : height (header b) = Z.of_nat (length chain);
  nb_room : Z.of_nat (length chain) < U64_MAX;
  nb_hash : forall k, view (db_block_hashes d) (hash (header b)) = Some k -> k = be_bytes 8 (height (header b))
}.

(** A life of the database: blocks for the next height are attempted one after the other;
    an attempt ends after some of the four writes, by the end of the process or because
    [put_block] returned.  The second index lists the committed chain. *)
Inductive life : NovaDB Tr -> list Block -> NovaDB Tr -> list Block -> Prop :=
| life_start d chain : life d chain d chain
| life_attempt d chain d1 c1 b n d2 :
    life d chain d1 c1 -> next_block d1 c1 b -> cut_after n b d1 d2 ->
    life d chain d2 (if (n <? 4)%nat then c1 else c1 ++ [b]).
End Writes.

Section Crash.
Context {SC : StorageCodec} {SCL : StorageCodecLaws SC}.
Context {Tr : Type} `{Sd : Sled Tr} {SL : SledLaws Tr}.
Implicit Types (d : NovaDB Tr).

(** A step [self.tree.op(..)?] of the monad against the write it makes. *)
Lemma step_write {A} (m : M (NovaDB Tr) DbError unit) w (k : unit -> M (NovaDB Tr) DbError A) d r d' :
  (forall d, m d = match apply_write w d with Ok d1 => (Ok tt, d1) | Err e => (Err (DbSled e), d) | Panic => (Panic, d) end) ->
  (m ≫= k) d = (r, d') ->
  (d' = d /\ forall a, r <> Ok a) \/ exists d1, apply_write w d = Ok d1 /\ k tt d1 = (r, d').
Proof.
  intros Hm. unfold mbind, M_bind. rewrite Hm. destruct (apply_write w d) as [d1|e|]; [eauto|left; split; congruence..].
Qed.

Lemma db_batch_write_blocks ops d : db_batch db_blocks set_blocks ops d =
  match apply_write (WBlocks ops) d with Ok d1 => (Ok tt, d1) | Err e => (Err (DbSled e), d) | Panic => (Panic, d) end.
Proof. unfold db_batch. cbn. by destruct (sled_apply_batch _ _). Qed.

Lemma db_batch_write_txs ops d : db_batch db_transactions set_transactions ops d =
  match apply_write (WTransactions ops) d with Ok d1 => (Ok tt, d1) | Err e => (Err (DbSled e), d) | Panic => (Panic, d) end.
Proof. unfold db_batch. cbn. by destruct (sled_apply_batch _ _). Qed.

Lemma db_insert_write_hash k v d : db_insert db_block_hashes set_block_hashes k v d =
  match apply_write (WHash k v) d with Ok d1 => (Ok tt, d1) | Err e => (Err (DbSled e), d) | Panic => (Panic, d) end.
Proof. unfold db_insert. cbn. by destruct (sled_insert _ _ _). Qed.

Lemma db_insert_write_height v d : db_insert db_metadata set_metadata META_LATEST_HEIGHT v d =
  match apply_write (WHeight v) d with Ok d1 => (Ok tt, d1) | Err e => (Err (DbSled e), d) | Panic => (Panic, d) end.
Proof. unfold db_insert. cbn. by destruct (sled_insert _ _ _). Qed.

Lemma put_writes_ok b : exists bytes ops, block_ser b = Ok bytes /\ tx_batch (transactions b) = Ok ops /\
  put_writes b = Ok [WBlocks [(be_bytes 8 (height (header b)), bytes)]; WHash (hash (header b)) (be_bytes 8 (height (header b)));
    WTransactions ops; WHeight (be_bytes 8 (height (header b)))].
Proof.
  destruct (block_ser_ok b) as [bytes Hb]. destruct (tx_batch_ok (transactions b)) as (ops & Ho & _).
  exists bytes, ops. split_and!; [done..|]. unfold put_writes. by rewrite Hb, Ho.
Qed.

(** The writes that are known to have succeeded. *)
Ltac wrote_steps := cbn [take run_writes]; repeat (match goal with H : apply_write _ _ = Ok _ |- _ => rewrite H; clear H end; cbn [mbind res_bind]); reflexivity.

(** Whatever [put_block] returns, the trees are those after some of its writes. *)
Lemma put_block_cut b d r d' : put_block b d = (r, d') ->
  exists n, (n <= 4)%nat /\ cut_after n b d d' /\ (r = Ok tt -> n = 4%nat).
Proof.
  destruct (put_writes_ok b) as (bytes & ops & Hb & Ho & Hw).
  assert (forall n ds, run_writes (take n [WBlocks [(be_bytes 8 (height (header b)), bytes)];
    WHash (hash (header b)) (be_bytes 8 (height (header b))); WTransactions ops; WHeight (be_bytes 8 (height (header b)))]) d = Ok ds ->
    cut_after n b d ds) as Hcut by (intros n ds Hn; by eexists).
  unfold put_block, lift. rewrite Hb, Ho. intros Hp.
  unfold mbind at 1, M_bind at 1 in Hp. cbn [map_err_res] in Hp.
  apply (step_write _ _ _ _ _ _ (db_batch_write_blocks _)) in Hp as [[-> Hr]|(d1 & H1 & Hp)].
  { exists 0%nat. split_and!; [lia|apply Hcut; wrote_steps|by intros ?%Hr]. }
  apply (step_write _ _ _ _ _ _ (db_insert_write_hash _ _)) in Hp as [[-> Hr]|(d2 & H2 & Hp)].
  { exists 1%nat. split_and!; [lia|apply Hcut; wrote_steps|by intros ?%Hr]. }
  unfold mbind at 1, M_bind at 1 in Hp.
  apply (step_write _ _ _ _ _ _ (db_batch_write_txs _)) in Hp as [[-> Hr]|(d3 & H3 & Hp)].
  { exists 2%nat. split_and!; [lia|apply Hcut; wrote_steps|by intros ?%Hr]. }
  apply (step_write _ _ _ _ _ _ (db_insert_write_height _)) in Hp as [[-> Hr]|(d4 & H4 & Hp)].
  { exists 3%nat. split_and!; [lia|apply Hcut; wrote_steps|by intros ?%Hr]. }
  unfold flush in Hp. injection Hp as _ <-. exists 4%nat. split_and!; [lia|apply Hcut; wrote_steps|done].
Qed.

(** The contents of the trees after the first [n] writes. *)
Record cut_views (n : nat) (b : Block) (bytes : list Z) (ops : list (list Z * list Z)) (d d' : NovaDB Tr) : Prop := {
  cv_blocks : forall k, view (db_blocks d') k =
    if decide (1 <= n /\ be_bytes 8 (height (header b)) = k)%nat then Some bytes else view (db_blocks d) k;
  cv_hashes : forall k, view (db_block_hashes d') k =
    if decide (2 <= n /\ hash (header b) = k)%nat then Some (be_bytes 8 (height (header b))) else view (db_block_hashes d) k;
  cv_txs : forall k, view (db_transactions d') k =
    match (if decide (3 <= n)%nat then batch_get ops k else None) with Some v => Some v | None => view (db_transactions d) k end;
  cv_height : view (db_metadata d') META_LATEST_HEIGHT =
    if decide (4 <= n)%nat then Some (be_bytes 8 (height (header b))) else view (db_metadata d) META_LATEST_HEIGHT
}.

Lemma bind_ok {A B} (r : res string A) (f : A -> B) x : (a ← r; Ok (f a)) = Ok x -> exists a, r = Ok a /\ x = f a.
Proof. destruct r; cbn; [|done..]. intros [= <-]. eauto. Qed.

Lemma wrote_inv d w ws d' : run_writes (w :: ws) d = Ok d' -> exists d1, apply_write w d = Ok d1 /\ run_writes ws d1 = Ok d'.
Proof. cbn [run_writes]. destruct (apply_write w d) as [d1| |]; [eauto|done..]. Qed.

Lemma wrote_done d d' : run_writes [] d = Ok d' -> d' = d.
Proof. by intros [= ->]. Qed.

(** A view of a tree, with its case distinctions decided. *)
Ltac decide_view V := rewrite V; repeat case_decide; (done || (exfalso; naive_solver lia)).

Lemma cut_after_views n b d d' : cut_after n b d d' ->
  exists bytes ops, block_ser b = Ok bytes /\ tx_batch (transactions b) = Ok ops /\ cut_views n b bytes ops d d'.
Proof.
  intros (ws & Hws & Hw). destruct (put_writes_ok b) as (bytes & ops & Hb & Ho & Hp). rewrite Hp in Hws. injection Hws as <-.
  exists bytes, ops. split_and!; [done..|].
  destruct n as [|n]; [apply wrote_done in Hw as ->; split; intros; by rewrite decide_False by lia|].
  cbn [take] in Hw. apply wrote_inv in Hw as (d1 & (t1 & H1 & ->)%bind_ok & Hw).
  pose proof (fun k => sled_get_batch _ _ _ k H1) as V1. cbn [batch_get] in V1.
  destruct n as [|n]; [apply wrote_done in Hw as ->; split; intros; cbn; [|by rewrite decide_False by lia..]|].
  { decide_view V1. }
  cbn [take] in Hw. apply wrote_inv in Hw as (d2 & (t2 & H2 & ->)%bind_ok & Hw).
  pose proof (fun k => sled_get_insert _ _ _ _ k H2) as V2. cbn in V2.
  destruct n as [|n]; [apply wrote_done in Hw as ->; split; intros; cbn; [| |by rewrite decide_False by lia..]|].
  { decide_view V1. }
  { decide_view V2. }
  cbn [take] in Hw. apply wrote_inv in Hw as (d3 & (t3 & H3 & ->)%bind_ok & Hw).
  pose proof (fun k => sled_get_batch _ _ _ k H3) as V3. cbn in V3.
  destruct n as [|n]; [apply wrote_done in Hw as ->; split; intros; cbn; [| | |by rewrite decide_False by lia..]|].
  { decide_view V1. }
  { decide_view V2. }
  { rewrite V3. by rewrite decide_True by lia. }
  cbn [take] in Hw. apply wrote_inv in Hw as (d4 & (t4 & H4 & ->)%bind_ok & Hw).
  rewrite take_nil in Hw. apply wrote_done in Hw as ->.
  pose proof (fun k => sled_get_insert _ _ _ _ k H4) as V4. cbn in V4.
  split; intros; cbn.
  - decide_view V1.
  - decide_view V2.
  - rewrite V3. by rewrite decide_True by lia.
  - rewrite V4, !decide_True by (done || lia). done.
Qed.

Lemma height_key_inj h h' : in_u64 h -> in_u64 h' -> be_bytes 8 h = be_bytes 8 h' -> h = h'.
Proof. intros H1 H2. apply be_bytes_inj; by apply u64_bound. Qed.

Lemma index_in_u64 d chain i b : committed d chain -> chain !! i = Some b -> in_u64 (Z.of_nat i).
Proof. intros Hc Hi. apply lookup_lt_Some in Hi. pose proof (cm_bound _ _ Hc). unfold in_u64. lia. Qed.

Lemma find_last_tx_id id txs t : find_last_tx id txs = Some t -> tx_id t = id.
Proof. unfold find_last_tx. by intros [? _]%last_Some_elem_of%list_elem_of_filter. Qed.

Lemma find_last_tx_present tx txs : tx ∈ txs -> exists t, find_last_tx (tx_id tx) txs = Some t /\ tx_id t = tx_id tx.
Proof.
  intros Hin. destruct (find_last_tx (tx_id tx) txs) as [t|] eqn:E; [exists t; split; [done|by eapply find_last_tx_id]|].
  unfold find_last_tx in E. apply last_None in E. exfalso. apply (not_elem_of_nil tx). rewrite <- E. by apply list_elem_of_filter.
Qed.

Lemma find_last_tx_absent id txs : id ∉ tx_id <$> txs -> find_last_tx id txs = None.
Proof.
  intros Hno. destruct (find_last_tx id txs) as [t|] eqn:E; [|done]. exfalso. apply Hno.
  pose proof (find_last_tx_id _ _ _ E) as <-. apply list_elem_of_fmap_2. unfold find_last_tx in E.
  by apply last_Some_elem_of, list_elem_of_filter in E as [_ ?].
Qed.

(** What is stored below the height of an attempted block stays stored. *)
Lemma stored_survives n b d d' chain i c :
  committed d chain -> next_block d chain b -> cut_after n b d d' -> chain !! i = Some c -> stored_at d' (Z.of_nat i) c.
Proof.
  intros Hcm Hnb Hcut Hi. destruct (cut_after_views _ _ _ _ Hcut) as (bytes & ops & _ & Ho & V).
  pose proof (index_in_u64 _ _ _ _ Hcm Hi) as Hu. destruct (cm_at _ _ Hcm i c Hi) as [Hh (v & Hv & Hb) Hx Ht].
  pose proof (lookup_lt_Some _ _ _ Hi) as Hlt. destruct Hnb as [Hbh Hroom Hfree].
  assert (be_bytes 8 (height (header b)) <> be_bytes 8 (Z.of_nat i)) as Hne.
  { intros E%height_key_inj; [lia| |done]. unfold in_u64. lia. }
  split; [done|..].
  - exists v. split; [done|]. rewrite (cv_blocks _ _ _ _ _ _ V), decide_False by naive_solver. done.
  - rewrite (cv_hashes _ _ _ _ _ _ V), decide_False; [done|]. intros [_ E]. rewrite E in Hfree. by apply Hfree, symmetry in Hx.
  - intros tx Htx. destruct (Ht tx Htx) as (tx' & w & Hid & Hw & Hvw). rewrite (cv_txs _ _ _ _ _ _ V).
    destruct (decide (3 <= n)%nat); [|eauto]. destruct (tx_batch_ok (transactions b)) as (ops' & Ho' & Hops).
    rewrite Ho in Ho'. injection Ho' as <-. specialize (Hops (tx_id tx)).
    destruct (find_last_tx (tx_id tx) (transactions b)) as [t|] eqn:Ef; [|rewrite Hops; eauto].
    destruct Hops as (w' & Hw' & ->). exists t, w'. split_and!; [|done..].
    by eapply find_last_tx_id.
Qed.

(** The last write makes the whole block part of the chain. *)
Lemma stored_complete n b d d' : cut_after n b d d' -> (4 <= n)%nat -> stored_at d' (height (header b)) b.
Proof.
  intros Hcut Hn. destruct (cut_after_views _ _ _ _ Hcut) as (bytes & ops & Hb & Ho & V). split; [done|..].
  - exists bytes. split; [done|]. rewrite (cv_blocks _ _ _ _ _ _ V). by rewrite decide_True by (split; [lia|done]).
  - rewrite (cv_hashes _ _ _ _ _ _ V). by rewrite decide_True by (split; [lia|done]).
  - intros tx Htx. rewrite (cv_txs _ _ _ _ _ _ V), decide_True by lia.
    destruct (tx_batch_ok (transactions b)) as (ops' & Ho' & Hops). rewrite Ho in Ho'. injection Ho' as <-.
    specialize (Hops (tx_id tx)). destruct (find_last_tx_present tx (transactions b) Htx) as (t & Hf & Hid).
    rewrite Hf in Hops. destruct Hops as (w & Hw & ->). eauto.
Qed.

Lemma attempt_committed n b d d' chain :
  committed d chain -> next_block d chain b -> cut_after n b d d' ->
  committed d' (if (n <? 4)%nat then chain else chain ++ [b]).
Proof.
  intros Hcm Hnb Hcut. destruct (cut_after_views _ _ _ _ Hcut) as (bytes & ops & _ & _ & V).
  pose proof (cv_height _ _ _ _ _ _ V) as Hh. pose proof (nb_room _ _ _ Hnb) as Hroom.
  destruct (Nat.ltb_spec n 4).
  - rewrite decide_False in Hh by lia. split; [by eapply cm_bound|by rewrite Hh; apply cm_tip|by eapply cm_some|].
    intros i c Hi. by eapply stored_survives.
  - rewrite decide_True, (nb_height _ _ _ Hnb) in Hh by done. split.
    + rewrite length_app. cbn. lia.
    + rewrite Hh, length_app. cbn. do 2 f_equal. lia.
    + by intros [_ ?]%app_nil.
    + intros i c [Hi|[Hge Hi]]%lookup_app_Some; [by eapply stored_survives|].
      apply list_lookup_singleton_Some in Hi as [Hi <-]. replace (Z.of_nat i) with (height (header b)).
      * by eapply stored_complete.
      * rewrite (nb_height _ _ _ Hnb). lia.
Qed.

(** The first block of a chain. *)
Lemma first_block_committed b d d' : put_block b d = (Ok tt, d') -> height (header b) = 0 -> committed d' [b].
Proof.
  intros (n & _ & Hcut & Hn)%put_block_cut Hh. specialize (Hn eq_refl) as ->.
  destruct (cut_after_views _ _ _ _ Hcut) as (bytes & ops & _ & _ & V). split; [done| |done|].
  - rewrite (cv_height _ _ _ _ _ _ V), decide_True, Hh by lia. done.
  - intros i c [-> <-]%list_lookup_singleton_Some. pose proof (stored_complete _ _ _ _ Hcut ltac:(lia)) as Hs. rewrite Hh in Hs. exact Hs.
Qed.

Lemma life_committed d chain d' chain' :
  committed d chain -> life d chain d' chain' -> committed d' chain' /\ chain `prefix_of` chain'.
Proof.
  intros Hcm Hl. split.
  - induction Hl as [|d chain d1 c1 b n d2 Hl IH Hnb Hcut]; [done|]. by eapply attempt_committed; [apply IH|..].
  - clear Hcm. induction Hl as [|d chain d1 c1 b n d2 Hl IH Hnb Hcut]; [done|].
    destruct (n <? 4)%nat; [done|]. by apply prefix_app_r.
Qed.

(** C15. A chain whose blocks are stored up to the recorded height stays so through any number
    of attempts to store the next block, each of which may end after any of its writes:
    an attempt either adds its block, with its hash and its transactions, or leaves the
    chain as it was.  The blocks attempted are at the next height, and the hash
    index holds their hashes at no other; where two transactions share an identifier, one of them is
    stored under it.  And [put_block] itself, whatever it returns, is such an attempt,
    complete when it succeeds. *)
Theorem chain_survives_interruptions d chain d' chain' :
  committed d chain -> life d chain d' chain' ->
  committed d' chain' /\ chain `prefix_of` chain' /\
  forall b r d2, put_block b d' = (r, d2) ->
    exists n, (n <= 4)%nat /\ cut_after n b d' d2 /\ (r = Ok tt -> n = 4%nat).
Proof.
  intros Hcm Hl. destruct (life_committed _ _ _ _ Hcm Hl). split_and!; [done..|]. by intros; apply put_block_cut.
Qed.
End Crash.

(** ** The node after a restart *)

Section Restart.
Context {C : Crypto} {K : AccountCodec} {SC : StorageCodec} {SCL : StorageCodecLaws SC} {T : TxCodec}.
Context {Tr : Type} `{Sd : Sled Tr} {SL : SledLaws Tr} {SH : SledHealthy Tr}.
Implicit Types (d : NovaDB Tr).

Lemma stored_reads d h b : in_u64 h -> stored_at d h b ->
  get_block h d = Ok (Some b) /\ get_block_by_hash (hash (header b)) d = Ok (Some b) /\
  forall tx, tx ∈ transactions b -> exists tx', get_transaction (tx_id tx) d = Ok (Some tx') /\ tx_id tx' = tx_id tx.
Proof.
  intros Hu [Hh (v & Hv & Hb) Hx Ht].
  assert (get_block h d = Ok (Some b)) as Hget.
  { unfold get_block. rewrite get_decoded_spec, Hb. by rewrite (block_de_ser b v Hv). }
  split_and!; [done|..].
  - unfold get_block_by_hash. rewrite get_decoded_spec, Hx, height_roundtrip by done. exact Hget.
  - intros tx Htx. destruct (Ht tx Htx) as (tx' & w & Hid & Hw & Hvw). exists tx'. split; [|done].
    unfold get_transaction. rewrite get_decoded_spec, Hvw. by rewrite (tx_de_ser tx' w Hw).
Qed.

Lemma committed_height d chain : committed d chain ->
  get_latest_block_height d = Ok (Some (Z.of_nat (length chain) - 1)).
Proof.
  intros Hcm. unfold get_latest_block_height. rewrite get_decoded_spec, (cm_tip _ _ Hcm), height_roundtrip; [done|].
  pose proof (cm_bound _ _ Hcm). pose proof (cm_some _ _ Hcm). destruct chain; [done|]. cbn in *. unfold in_u64. lia.
Qed.

(** A node started over a database that lived through interrupted writes finds the whole
    committed chain: its height, every block by height and by hash, every transaction by
    identifier; and it continues after the last block. *)
Theorem restart_finds_chain d chain d' chain' engine :
  committed d chain -> life d chain d' chain' ->
  chain `prefix_of` chain' /\
  get_latest_block_height d' = Ok (Some (Z.of_nat (length chain') - 1)) /\
  (forall i b, chain' !! i = Some b ->
     get_block (Z.of_nat i) d' = Ok (Some b) /\ get_block_by_hash (hash (header b)) d' = Ok (Some b) /\
     forall tx, tx ∈ transactions b -> exists tx', get_transaction (tx_id tx) d' = Ok (Some tx') /\ tx_id tx' = tx_id tx) /\
  exists tip, last chain' = Some tip /\
    sync_engine d' engine = Ok (set_chain_state (Z.of_nat (length chain')) (hash (header tip)) engine).
Proof.
  intros Hcm Hl. destruct (life_committed _ _ _ _ Hcm Hl) as [Hcm' Hpre]. pose proof (committed_height _ _ Hcm') as Hh.
  assert (forall i b, chain' !! i = Some b -> in_u64 (Z.of_nat i) /\ stored_at d' (Z.of_nat i) b) as Hst.
  { intros i b Hi. split; [by eapply index_in_u64|by eapply cm_at]. }
  split_and!; [done..| |].
  - intros i b Hi. destruct (Hst i b Hi) as [Hu Hs]. by apply stored_reads.
  - pose proof (cm_some _ _ Hcm') as Hne. pose proof (cm_bound _ _ Hcm') as Hbd. rewrite <- length_zero_iff_nil in Hne.
    destruct (lookup_lt_is_Some_2 chain' (length chain' - 1)) as [tip Ht]; [lia|]. exists tip.
    split; [rewrite last_lookup; by replace (Nat.pred (length chain')) with (length chain' - 1)%nat by lia|].
    destruct (Hst _ _ Ht) as [Hu Hs]. destruct (stored_reads _ _ _ Hu Hs) as [Hg _].
    replace (Z.of_nat (length chain' - 1)) with (Z.of_nat (length chain') - 1) in Hg by lia.
    unfold sync_engine. rewrite Hh, Hg. unfold checked_add. rewrite (proj2 (Z.leb_le _ _)) by lia. cbn.
    do 2 f_equal. lia.
Qed.

(** A reader beside the writer: a height read at one moment, with the writes of a block under
    way, is found at any later one, with the writes of another block under way; so are
    the hash and the transactions of the block found there. *)
Theorem read_height_then_block d chain d1 chain1 d2 chain2 h :
  committed d chain -> life d chain d1 chain1 -> life d chain d2 chain2 -> chain1 `prefix_of` chain2 ->
  get_latest_block_height d1 = Ok (Some h) ->
  exists b, last chain1 = Some b /\ get_block h d2 = Ok (Some b) /\
    get_block_by_hash (hash (header b)) d2 = Ok (Some b) /\
    forall tx, tx ∈ transactions b -> exists tx', get_transaction (tx_id tx) d2 = Ok (Some tx') /\ tx_id tx' = tx_id tx.
Proof.
  intros Hcm Hl1 Hl2 [rest ->] Hh. destruct (life_committed _ _ _ _ Hcm Hl1) as [Hcm1 _].
  destruct (life_committed _ _ _ _ Hcm Hl2) as [Hcm2 _]. rewrite (committed_height _ _ Hcm1) in Hh. injection Hh as <-.
  pose proof (cm_some _ _ Hcm1) as Hne. rewrite <- length_zero_iff_nil in Hne.
  destruct (lookup_lt_is_Some_2 chain1 (length chain1 - 1)) as [b Hb]; [lia|]. exists b.
  split; [rewrite last_lookup; by replace (Nat.pred (length chain1)) with (length chain1 - 1)%nat by lia|].
  assert ((chain1 ++ rest) !! (length chain1 - 1)%nat = Some b) as Hb2 by (by apply lookup_app_l_Some).
  replace (Z.of_nat (length chain1) - 1) with (Z.of_nat (length chain1 - 1)) by lia.
  apply stored_reads; [by eapply index_in_u64|by eapply cm_at].
Qed.

(** What an interrupted block leaves behind: when another block takes its height, its
    hash finds that other block, and its transactions are answered as confirmed although
    no block of the chain carries them. *)
Theorem interrupted_block_leaves_ghosts d chain b d1 b2 d2 tx (state : AppState Tr) :
  committed d chain -> next_block d chain b -> cut_after 3 b d d1 ->
  height (header b2) = height (header b) -> hash (header b2) <> hash (header b) ->
  put_block b2 d1 = (Ok tt, d2) -> tx ∈ transactions b -> tx_id tx ∉ tx_id <$> transactions b2 -> as_db state = d2 ->
  get_block_by_hash (hash (header b)) d2 = Ok (Some b2) /\
  exists tx', tx_id tx' = tx_id tx /\ transaction_by_hash_handler (tx_id tx) state =
    Ok (OK, transaction_response_value (transaction_response tx')) /\ tr_status (transaction_response tx') = "confirmed"%string.
Proof.
  intros Hcm Hnb Hcut Hheight Hhash Hput Htx Hno Hdb.
  assert (in_u64 (height (header b))) as Hu.
  { rewrite (nb_height _ _ _ Hnb). pose proof (nb_room _ _ _ Hnb). unfold in_u64. lia. }
  destruct (cut_after_views _ _ _ _ Hcut) as (bytes & ops & _ & Ho & V).
  destruct (put_block_trees b2 d1) as (d2' & bytes2 & Hp2 & Hs2 & Vb & Vh & Vt & _). rewrite Hput in Hp2. injection Hp2 as <-.
  split.
  - unfold get_block_by_hash. rewrite get_decoded_spec, Vh, decide_False by done.
    rewrite (cv_hashes _ _ _ _ _ _ V), decide_True by (split; [lia|done]). rewrite height_roundtrip by done.
    cbn. unfold get_block. rewrite get_decoded_spec, Vb, Hheight, decide_True by done. by rewrite (block_de_ser _ _ Hs2).
  - destruct (tx_batch_ok (transactions b)) as (ops' & Ho' & Hops). rewrite Ho in Ho'. injection Ho' as <-.
    specialize (Vt (tx_id tx)). specialize (Hops (tx_id tx)).
    rewrite find_last_tx_absent in Vt by done.
    destruct (find_last_tx_present tx (transactions b) Htx) as (t & Hf & Hid). rewrite Hf in Hops.
    destruct Hops as (w & Hw & Hg). exists t. split_and!; [done| |done].
    unfold transaction_by_hash_handler, get_transaction. rewrite Hdb, get_decoded_spec, Vt.
    rewrite (cv_txs _ _ _ _ _ _ V), decide_True, Hg by lia. by rewrite (tx_de_ser _ _ Hw).
Qed.
End Restart.

(** ** Witnesses: a second block is cut off, another takes its height *)

Module RecoveryExamples.
Export ApiExamples ConsensusExamples.

Notation Store := (gmap (list Z) (list Z)).

Definition first_db : NovaDB Store := (put_block (at_height 0) empty_db).2.

Definition replacement : Block := mkBlock (mkHeader 1 (be_bytes 32 77) zero32 0 "v" zero32 zero32 []) [].

(** The trees after the first three writes of block 1. *)
Definition torn_db : NovaDB Store :=
  match (ws ← map_err_res (fun _ => "ser"%string) (put_writes (at_height 1)); run_writes (take 3 ws) first_db) with
  | Ok d => d
  | _ => first_db
  end.

Definition healed_db : NovaDB Store := (put_block replacement torn_db).2.

Lemma first_committed : committed first_db [at_height 0].
Proof. apply (first_block_committed (at_height 0) empty_db); reflexivity. Qed.

Lemma torn_cut : cut_after 3 (at_height 1) first_db torn_db.
Proof. eexists. split; reflexivity. Qed.

Lemma healed_cut : cut_after 4 replacement torn_db healed_db.
Proof. eexists. split; reflexivity. Qed.

Lemma torn_next : next_block first_db [at_height 0] (at_height 1).
Proof. split; [done|by compute|]. intros k. vm_compute. done. Qed.

Lemma healed_next : next_block torn_db [at_height 0] replacement.
Proof. split; [done|by compute|]. intros k. vm_compute. done. Qed.

Lemma healed_life : life first_db [at_height 0] healed_db [at_height 0; replacement].
Proof.
  apply (life_attempt first_db [at_height 0] torn_db [at_height 0] replacement 4 healed_db); [|exact healed_next|exact healed_cut].
  apply (life_attempt first_db [at_height 0] first_db [at_height 0] (at_height 1) 3 torn_db); [|exact torn_next|exact torn_cut].
  constructor.
Qed.
End RecoveryExamples.

Import RecoveryExamples.

Lemma chain_survives_interruptions_witness :
  committed healed_db [at_height 0; replacement] /\ [at_height 0] `prefix_of` [at_height 0; replacement].
Proof.
  destruct (chain_survives_interruptions first_db [at_height 0] healed_db [at_height 0; replacement]
    first_committed healed_life) as (Hc & Hp & _). by split.
Defined.

Lemma restart_finds_chain_witness :
  get_latest_block_height healed_db = Ok (Some 1) /\
  sync_engine healed_db engine = Ok (set_chain_state 2 (be_bytes 32 77) engine).
Proof.
  destruct (restart_finds_chain first_db [at_height 0] healed_db [at_height 0; replacement] engine
    first_committed healed_life) as (_ & Hh & _ & tip & Ht & Hs).
  split; [exact Hh|]. injection Ht as <-. exact Hs.
Defined.

Lemma read_height_then_block_witness : get_block 0 healed_db = Ok (Some (at_height 0)).
Proof.
  assert (life first_db [at_height 0] torn_db [at_height 0]) as Htorn.
  { apply (life_attempt first_db [at_height 0] first_db [at_height 0] (at_height 1) 3 torn_db); [constructor|exact torn_next|exact torn_cut]. }
  destruct (read_height_then_block first_db [at_height 0] torn_db [at_height 0] healed_db [at_height 0; replacement] 0
    first_committed Htorn healed_life) as (b & Hb & Hget & _).
  - by eexists.
  - exact (committed_height _ _ (proj1 (life_committed _ _ _ _ first_committed Htorn))).
  - injection Hb as <-. exact Hget.
Defined.

Lemma interrupted_block_leaves_ghosts_witness :
  get_block_by_hash (be_bytes 32 1) healed_db = Ok (Some replacement).
Proof.
  refine (proj1 (interrupted_block_leaves_ghosts first_db [at_height 0] (at_height 1) torn_db replacement healed_db
    (BlockExamples.pay 1) (mkAppState "0.1.0" "devnet" 0 0 healed_db tree) first_committed torn_next torn_cut _ _ _ _ _ _)).
  - reflexivity.
  - discriminate.
  - reflexivity.
  - left.
  - apply not_elem_of_nil.
  - reflexivity.
Defined.
