(* ===== verification/Startup.v ===== *)
(** * Files of a node, and its command line

    The parts of [node/src/main.rs] and [node/src/cli.rs] that read and write the data
    directory: [init_node], [load_or_generate_keypair] and the database path of
    [run_node]; and the client of the status command with its URL parser.  [Disk] models
    the part of [std::fs] that they use: files with contents and mode, directories, and
    the databases kept under directories.  Every call may also fail for a reason of its
    own (no permission, disk full), given by the argument [fault].  Freshly generated
    keys, the environment and the umask are arguments. *)

From S2P Require Import Prelude Bytes Crypto Transaction Block Sled StateTree Db Consensus Identity Keys Ntp Api Boot.
From Stdlib Require Import Ascii.
From stdpp Require Import pretty.

#[local] Open Scope Z_scope.

(** ** Paths *)

Fixpoint split_slash (s : string) : list string :=
  match s with
  | EmptyString => [EmptyString]
  | String a s' =>
      if (a =? "/")%char then EmptyString :: split_slash s'
      else match split_slash s' with
           | p :: ps => String a p :: ps
           | [] => [String a EmptyString]
           end
  end.

Definition is_absolute (s : string) : bool :=
  match s with String a _ => (a =? "/")%char | EmptyString => false end.

Fixpoint ends_with_slash (s : string) : bool :=
  match s with
  | EmptyString => false
  | String a EmptyString => (a =? "/")%char
  | String _ s' => ends_with_slash s'
  end.

(** [Path::components]: a separator at the start stands for the root, others only
    separate. *)
Definition components (s : string) : list string :=
  (if is_absolute s then ["/"%string] else []) ++ filter (fun c => c <> ""%string) (split_slash s).

(** [Path::join] *)
Definition path_join (p q : string) : string :=
  if is_absolute q then q
  else if bool_decide (p = ""%string) || ends_with_slash p then p +:+ q else (p +:+ "/" +:+ q)%string.

(** [str::strip_prefix] *)
Fixpoint strip_prefix (p s : string) : option string :=
  match p, s with
  | EmptyString, _ => Some s
  | String a p', String b s' => if (a =? b)%char then strip_prefix p' s' else None
  | _, EmptyString => None
  end.

(** ** Files *)

Record File := mkFile { f_text : string; f_mode : Z }.

Record Disk (Tr : Type) := mkDisk {
  dk_files : gmap (list string) File;
  dk_dirs : gset (list string);
  dk_dbs : gmap (list string) (NovaDB Tr)
}.

Arguments mkDisk {Tr} _ _ _.
Arguments dk_files {Tr} _.
Arguments dk_dirs {Tr} _.
Arguments dk_dbs {Tr} _.

Inductive IoCall :=
| IoCreateDir (p : string)
| IoWrite (p : string)
| IoRead (p : string)
| IoChmod (p : string)
| IoOpenDb (p : string).

#[global] Instance IoCall_eq_dec : EqDecision IoCall.
Proof. solve_decision. Defined.

(** An [anyhow::Error]: the outermost context first. *)
Definition AnyError : Type := list string.

Definition with_context {S A} (c : string) (m : M S AnyError A) : M S AnyError A := map_err (fun e => c :: e) m.

Fixpoint prefixes (p : list string) : list (list string) :=
  match p with [] => [] | c :: p' => [c] :: ((fun q => c :: q) <$> prefixes p') end.

Definition parent_of (p : list string) : list string := take (length p - 1) p.

Section Fs.
Context {C : Crypto} {SC : StorageCodec} {T : TxCodec} {Tr : Type} `{Sd : Sled Tr}.
Context (fault : IoCall -> option string) (umask : Z).

Definition path_exists (p : string) (d : Disk Tr) : bool :=
  bool_decide (is_Some (dk_files d !! components p)) || bool_decide (components p ∈ dk_dirs d).

(** A call that may fail for a reason of its own, before anything happens. *)
Definition io {A} (c : IoCall) (m : M (Disk Tr) AnyError A) : M (Disk Tr) AnyError A :=
  match fault c with Some e => throw [e] | None => m end.

Definition create_dir_all (p : string) : M (Disk Tr) AnyError unit :=
  io (IoCreateDir p) (
    d ← get;
    require (forallb (fun q => negb (bool_decide (is_Some (dk_files d !! q)))) (prefixes (components p)))
      else (["File exists (os error 17)"%string]);
    put (mkDisk (dk_files d) (list_to_set (prefixes (components p)) ∪ dk_dirs d) (dk_dbs d))).

(** [fs::write] truncates a file that exists, which keeps its mode. *)
Definition fs_write (p : string) (text : string) : M (Disk Tr) AnyError unit :=
  io (IoWrite p) (
    d ← get;
    require (negb (bool_decide (components p ∈ dk_dirs d))) else (["Is a directory (os error 21)"%string]);
    require (bool_decide (parent_of (components p) ∈ dk_dirs d)) else
      (["No such file or directory (os error 2)"%string]);
    let mode := match dk_files d !! components p with
                | Some f => f_mode f
                | None => Z.land 438 (Z.lnot umask)
                end in
    put (mkDisk (<[components p := mkFile text mode]> (dk_files d)) (dk_dirs d) (dk_dbs d))).

Definition read_to_string (p : string) : M (Disk Tr) AnyError string :=
  io (IoRead p) (
    d ← get;
    match dk_files d !! components p with
    | Some f => mret (f_text f)
    | None => throw ["No such file or directory (os error 2)"%string]
    end).

Definition set_permissions (p : string) (mode : Z) : M (Disk Tr) AnyError unit :=
  io (IoChmod p) (
    d ← get;
    match dk_files d !! components p with
    | Some f => put (mkDisk (<[components p := mkFile (f_text f) mode]> (dk_files d)) (dk_dirs d) (dk_dbs d))
    | None => throw ["No such file or directory (os error 2)"%string]
    end).

(** [NovaDB::open]: the trees kept under the path, empty ones when there are none. *)
Definition open_db (p : string) : M (Disk Tr) AnyError (NovaDB Tr) :=
  io (IoOpenDb p) (
    d ← get;
    let db := default open_temporary (dk_dbs d !! components p) in
    _ ← put (mkDisk (dk_files d) (dk_dirs d) (<[components p := db]> (dk_dbs d)));
    mret db).

(** What a database handle wrote is on disk. *)
Definition save_db (p : string) (db : NovaDB Tr) : M (Disk Tr) AnyError unit :=
  modify (fun d => mkDisk (dk_files d) (dk_dirs d) (<[components p := db]> (dk_dbs d))).

(** ** [cli.rs] *)

(** [to_string_lossy] is the identity on text; [home] is what [HOME] holds. *)
Definition resolve_data_dir (home : option string) (path : string) : string :=
  if bool_decide (is_Some (strip_prefix "~/" path)) || bool_decide (path = "~"%string) then
    match home with
    | Some home => path_join home (default "" (strip_prefix "~/" path))
    | None => path
    end
  else path.

(** ** [main.rs]: the validator key *)

Context {S : SecretKeys C}.

Definition is_space (a : ascii) : bool :=
  let c := Z.of_N (N_of_ascii a) in (c =? 32) || ((9 <=? c) && (c <=? 13)).

Fixpoint trim_start (s : string) : string :=
  match s with
  | EmptyString => EmptyString
  | String a s' => if is_space a then trim_start s' else s
  end.

Fixpoint trim_end (s : string) : string :=
  match s with
  | EmptyString => EmptyString
  | String a s' =>
      match trim_end s' with
      | EmptyString => if is_space a then EmptyString else String a EmptyString
      | t => String a t
      end
  end.

Definition trim (s : string) : string := trim_end (trim_start s).

Definition display_key_error (e : KeyError) : string :=
  match e with
  | InvalidSecretKey => "invalid secret key bytes: wrong length or not a valid scalar"
  | KeyInvalidPublicKey => "invalid public key bytes: not a valid Ed25519 point"
  | KeypairMismatch => "keypair validation failed: public key does not match secret key"
  end.

Definition load_or_generate_keypair (fresh : NovaKeypair) (data_dir : string) : M (Disk Tr) AnyError NovaKeypair :=
  let keys_dir := path_join data_dir "keys" in
  let key_path := path_join keys_dir "validator.key" in
  d ← get;
  if path_exists key_path d then
    hex_str ← with_context ("failed to read validator key from " +:+ key_path) (read_to_string key_path);
    lift (map_err_res (fun e => ["invalid validator key: " +:+ display_key_error e]%string) (kp_from_hex (trim hex_str)))
  else
    _ ← with_context ("failed to create keys directory: " +:+ keys_dir) (create_dir_all keys_dir);
    _ ← with_context ("failed to write validator key to " +:+ key_path)
          (fs_write key_path (hex_encode (secret_key_bytes fresh)));
    _ ← set_permissions key_path 384;
    mret fresh.

(** Steps 3 and 4 of [run_node]. *)
Definition run_keypair (dev : bool) (fresh : NovaKeypair) (data_dir : string) : M (Disk Tr) AnyError NovaKeypair :=
  if dev then mret fresh else load_or_generate_keypair fresh data_dir.

Definition run_open_db (dev : bool) (data_dir : string) : M (Disk Tr) AnyError (NovaDB Tr) :=
  if dev then mret open_temporary
  else
    let db_path := path_join data_dir "db" in
    _ ← with_context ("failed to create database directory: " +:+ db_path) (create_dir_all db_path);
    with_context ("failed to open database at " +:+ db_path) (open_db db_path).

(** ** [init_node] *)

Record InitArgs := mkInitArgs { ia_data_dir : string; ia_network : string; ia_force : bool }.

(** What the command prints. *)
Record InitReport := mkInitReport { ir_public_key : string; ir_address : string; ir_key_path : string; ir_network : string }.

Definition init_node (home : option string) (fresh : NovaKeypair) (args : InitArgs) : M (Disk Tr) AnyError InitReport :=
  let data_dir := resolve_data_dir home (ia_data_dir args) in
  d ← get;
  require (negb (path_exists data_dir d && negb (ia_force args)
                 && path_exists (path_join (path_join data_dir "keys") "validator.key") d))
    else (["data directory already initialized at " +:+ data_dir +:+ ". Use --force to overwrite."]%string);
  let db_dir := path_join data_dir "db" in
  let keys_dir := path_join data_dir "keys" in
  let config_dir := path_join data_dir "config" in
  _ ← with_context ("failed to create db directory: " +:+ db_dir) (create_dir_all db_dir);
  _ ← with_context ("failed to create keys directory: " +:+ keys_dir) (create_dir_all keys_dir);
  _ ← with_context ("failed to create config directory: " +:+ config_dir) (create_dir_all config_dir);
  let key_path := path_join keys_dir "validator.key" in
  _ ← with_context ("failed to write validator key to " +:+ key_path)
        (fs_write key_path (hex_encode (secret_key_bytes fresh)));
  _ ← set_permissions key_path 384;
  db ← with_context ("failed to open database at " +:+ db_dir) (open_db db_dir);
  let '(r, (db, _)) := initialize_genesis (db, 0) in
  _ ← save_db db_dir db;
  _ ← lift (map_err_res (fun _ => []) r);
  mret (mkInitReport (pk_to_hex (public_key fresh)) (to_address (from_public_key (public_key fresh))) key_path (ia_network args)).
End Fs.

(** ** Lemmas on paths *)

Lemma split_slash_ne s : split_slash s <> [].
Proof. destruct s as [|a s]; [done|]. cbn. destruct (a =? "/")%char; [done|]. by destruct (split_slash s). Qed.

Lemma split_slash_app a b : split_slash (a +:+ "/" +:+ b) = split_slash a ++ split_slash b.
Proof.
  induction a as [|x a IH]; [done|].
  change (split_slash (String x a +:+ "/" +:+ b)) with (split_slash (String x (a +:+ "/" +:+ b))). cbn [split_slash].
  destruct (x =? "/")%char; [by rewrite IH|]. rewrite IH.
  pose proof (split_slash_ne a). by destruct (split_slash a).
Qed.

Lemma ends_with_slash_iff p : ends_with_slash p = true -> exists p', p = p' +:+ "/".
Proof.
  induction p as [|a p IH]; [done|]. destruct p as [|b p].
  - cbn. intros ->%Ascii.eqb_eq. by exists EmptyString.
  - intros Hp. destruct (IH Hp) as [p' Hp']. exists (String a p'). change (String a (String b p) = String a (p' +:+ "/")).
    by rewrite Hp'.
Qed.

Lemma is_absolute_app p c : p <> ""%string -> is_absolute (p +:+ c) = is_absolute p.
Proof. by destruct p. Qed.

Lemma string_app_assoc a b c : (a +:+ b) +:+ c = a +:+ (b +:+ c).
Proof. induction a as [|x a IH]; [done|]. exact (f_equal (String x) IH). Qed.

Lemma components_join p q : is_absolute q = false -> components (path_join p q) = components p ++ components q.
Proof.
  intros Hq. unfold path_join, components. rewrite Hq. cbn [app].
  case_bool_decide as Hp; [subst; cbn [orb]; change ("" +:+ q) with q; by rewrite Hq|]. cbn [orb]. destruct (ends_with_slash p) eqn:He.
  - destruct (ends_with_slash_iff p He) as [p' ->].
    rewrite string_app_assoc, split_slash_app. change (p' +:+ "/") with (p' +:+ "/" +:+ ""). rewrite split_slash_app.
    rewrite !filter_app. cbn [split_slash]. rewrite (filter_cons_False _ ""%string) by naive_solver.
    rewrite filter_nil, app_nil_r, app_assoc. by destruct p'.
  - rewrite is_absolute_app, split_slash_app, filter_app, app_assoc by done. done.
Qed.

Lemma prefixes_snoc p c : prefixes (p ++ [c]) = prefixes p ++ [p ++ [c]].
Proof. induction p as [|x p IH]; [done|]. cbn. by rewrite IH, fmap_app. Qed.

Lemma prefixes_self p : p <> [] -> p ∈ prefixes p.
Proof. destruct p as [|c p] using rev_ind; [done|]. intros _. rewrite prefixes_snoc. set_solver. Qed.

Lemma prefixes_length p q : q ∈ prefixes p -> (length q <= length p)%nat.
Proof.
  revert q; induction p as [|x p IH]; intros q; cbn; [by intros ?%not_elem_of_nil|].
  intros [->|(q' & -> & Hq)%list_elem_of_fmap]%elem_of_cons; cbn; [lia|]. apply IH in Hq. lia.
Qed.

(** ** Theorems on the data directory *)

(** The [hex] crate writes lower-case hexadecimal digits: nothing that [trim] removes. *)
Class HexText (C : Crypto) : Prop := {
  hex_no_space : forall l a, Forall byte_ok l -> a ∈ String.list_ascii_of_string (hex_encode l) -> is_space a = false
}.

Lemma trim_start_id s : (forall a, a ∈ String.list_ascii_of_string s -> is_space a = false) -> trim_start s = s.
Proof. destruct s as [|a s]; [done|]. intros Hs. cbn. rewrite Hs; [done|]. by left. Qed.

Lemma trim_end_id s : (forall a, a ∈ String.list_ascii_of_string s -> is_space a = false) -> trim_end s = s.
Proof.
  induction s as [|a s IH]; [done|]. intros Hs. cbn. rewrite IH by (intros b Hb; apply Hs; by right).
  destruct s; [|done]. rewrite Hs; [done|]. by left.
Qed.

Section StartupProofs.
Context {C : Crypto} {L : CryptoLaws C} {HT : HexText C} {S : SecretKeys C} {SKL : SecretKeysLaws S}.
Context {SC : StorageCodec} {SCL : StorageCodecLaws SC} {T : TxCodec}.
Context {Tr : Type} `{Sd : Sled Tr} {SL : SledLaws Tr} {SH : SledHealthy Tr}.
Context (fault : IoCall -> option string) (umask : Z) (data_dir : string).

Let key_path := path_join (path_join data_dir "keys") "validator.key".

Lemma key_components : components key_path = components data_dir ++ ["keys"; "validator.key"]%string.
Proof. unfold key_path. by rewrite !components_join, <- app_assoc. Qed.

Lemma keys_components : components (path_join data_dir "keys") = components data_dir ++ ["keys"%string].
Proof. by rewrite components_join. Qed.

Lemma key_parent : parent_of (components key_path) = components (path_join data_dir "keys").
Proof.
  rewrite key_components, keys_components. unfold parent_of. rewrite length_app. cbn [length].
  replace (length (components data_dir) + 2 - 1)%nat with (length (components data_dir) + 1)%nat by lia.
  rewrite take_app_add'; [done|done].
Qed.

(** A key loaded from the text it was saved as: the same public key and signatures. *)
Lemma key_text_loads kp : exists kp', kp_from_hex (trim (hex_encode (secret_key_bytes kp))) = Ok kp' /\
  public_key kp' = public_key kp /\ (forall m, sign kp' m = sign kp m).
Proof.
  unfold trim. rewrite trim_start_id, trim_end_id by (intros a; apply hex_no_space, seed_bytes).
  exists (from_seed (secret_key_bytes kp)). split.
  - apply kp_from_hex_iff. exists (secret_key_bytes kp). split; [apply hex_roundtrip, seed_bytes|].
    split; [apply seed_length|done].
  - exact (proj2 (reconstructed_key kp)).
Qed.

(** A start that finds a key file changes nothing on disk. *)
Lemma load_existing fresh (d : Disk Tr) f :
  fault (IoRead key_path) = None -> dk_files d !! components key_path = Some f ->
  load_or_generate_keypair fault umask fresh data_dir d =
    (map_err_res (fun e => ["invalid validator key: " +:+ display_key_error e]%string) (kp_from_hex (trim (f_text f))), d).
Proof.
  intros Hf Hk. unfold load_or_generate_keypair, get, mbind, M_bind. fold key_path. unfold path_exists. rewrite Hk.
  rewrite bool_decide_true by eauto. cbn [orb]. unfold with_context, map_err, read_to_string, io. rewrite Hf.
  unfold get, mbind, M_bind. rewrite Hk. done.
Qed.

(** Nothing but directories on the way to [p]. *)
Definition clear_way (p : string) (d : Disk Tr) : Prop :=
  Forall (fun q => dk_files d !! q = None) (prefixes (components p)).

Definition with_dirs (p : string) (d : Disk Tr) : Disk Tr :=
  mkDisk (dk_files d) (list_to_set (prefixes (components p)) ∪ dk_dirs d) (dk_dbs d).

Definition with_file (p : string) (f : File) (d : Disk Tr) : Disk Tr :=
  mkDisk (<[components p := f]> (dk_files d)) (dk_dirs d) (dk_dbs d).

Lemma create_dir_all_ok p (d : Disk Tr) :
  fault (IoCreateDir p) = None -> clear_way p d -> create_dir_all fault p d = (Ok tt, with_dirs p d).
Proof.
  intros Hf Hw. unfold create_dir_all, io. rewrite Hf. unfold get, mbind, M_bind.
  assert (forallb (fun q => negb (bool_decide (is_Some (dk_files d !! q)))) (prefixes (components p)) = true) as ->; [|done].
  apply forallb_forall. intros q Hq%list_elem_of_In. unfold clear_way in Hw. rewrite Forall_forall in Hw. rewrite (Hw q Hq).
  by rewrite bool_decide_false.
Qed.

(** The mode a new file gets; an existing one keeps its own. *)
Definition write_mode (d : Disk Tr) (p : string) : Z :=
  match dk_files d !! components p with Some f => f_mode f | None => Z.land 438 (Z.lnot umask) end.

Definition key_writable (d : Disk Tr) : Prop :=
  components key_path ∉ dk_dirs d /\ components (path_join data_dir "keys") ∈ dk_dirs d.

Lemma fs_write_key text (d : Disk Tr) :
  fault (IoWrite key_path) = None -> key_writable d ->
  fs_write fault umask key_path text d = (Ok tt, with_file key_path (mkFile text (write_mode d key_path)) d).
Proof.
  intros Hf [Hn Hk]. unfold fs_write, io. rewrite Hf. unfold get, mbind, M_bind.
  rewrite bool_decide_false by done. cbn [negb]. by rewrite key_parent, bool_decide_true.
Qed.

Lemma set_permissions_key mode text m (d : Disk Tr) :
  fault (IoChmod key_path) = None ->
  set_permissions fault key_path mode (with_file key_path (mkFile text m) d) =
    (Ok tt, with_file key_path (mkFile text mode) d).
Proof.
  intros Hf. unfold set_permissions, io. rewrite Hf. unfold get, mbind, M_bind. cbn [with_file dk_files].
  rewrite lookup_insert_eq. unfold put, with_file. cbn. by rewrite insert_insert_eq.
Qed.

(** The key is below the directories that a start creates. *)
Lemma key_not_dir q (d : Disk Tr) :
  length (components q) = 1%nat -> is_absolute q = false -> components key_path ∉ dk_dirs d ->
  components key_path ∉ dk_dirs (with_dirs (path_join data_dir q) d).
Proof.
  intros Hq Ha Hk. cbn [with_dirs dk_dirs]. rewrite elem_of_union, elem_of_list_to_set. intros [Hin%prefixes_length|]; [|done].
  rewrite key_components, components_join, !length_app, Hq in Hin by done. cbn in Hin. lia.
Qed.

Lemma keys_dir_created (d : Disk Tr) : key_writable (with_dirs (path_join data_dir "keys") d) <->
  components key_path ∉ dk_dirs d.
Proof.
  split.
  - intros [H _] Hd. apply H. cbn [with_dirs dk_dirs]. set_solver.
  - intros Hd. split; [by apply key_not_dir|]. cbn [with_dirs dk_dirs]. apply elem_of_union_l, elem_of_list_to_set.
    rewrite keys_components, prefixes_snoc. set_solver.
Qed.

(** The first start of a node saves its key, readable by its owner only, and every later
    one, whatever key it has at hand, loads a key with the same public key that signs
    alike, and leaves the disk as it is. *)
Theorem validator_key_persists fresh (d : Disk Tr) :
  (forall c, fault c = None) -> path_exists key_path d = false -> clear_way (path_join data_dir "keys") d ->
  exists d1, load_or_generate_keypair fault umask fresh data_dir d = (Ok fresh, d1) /\
    dk_files d1 = <[components key_path := mkFile (hex_encode (secret_key_bytes fresh)) 384]> (dk_files d) /\
    dk_dbs d1 = dk_dbs d /\
    forall other, exists kp', load_or_generate_keypair fault umask other data_dir d1 = (Ok kp', d1) /\
      public_key kp' = public_key fresh /\ forall m, sign kp' m = sign fresh m.
Proof.
  intros Hf Hn Hw. set (d1 := with_file key_path (mkFile (hex_encode (secret_key_bytes fresh)) 384)
    (with_dirs (path_join data_dir "keys") d)).
  exists d1. split_and!; [|done|done|].
  - unfold load_or_generate_keypair, get, mbind, M_bind. fold key_path. rewrite Hn.
    unfold with_context, map_err. rewrite create_dir_all_ok by done. cbn [map_err_res].
    rewrite fs_write_key; [|done|].
    2:{ apply keys_dir_created. unfold path_exists in Hn. apply orb_false_iff in Hn as [_ Hn].
        by apply bool_decide_eq_false in Hn. }
    cbn [map_err_res]. by rewrite set_permissions_key.
  - intros other. destruct (key_text_loads fresh) as (kp' & Hkp & Hsame). exists kp'. split; [|done].
    rewrite (load_existing other d1 (mkFile (hex_encode (secret_key_bytes fresh)) 384));
      [|done|unfold d1; cbn [with_file dk_files]; by rewrite lookup_insert_eq]. cbn [f_text]. by rewrite Hkp.
Qed.

(** When the mode cannot be changed the start fails, but the key stays on disk as it was
    written, with the mode that the umask leaves a new file, and the next start uses it
    without looking at its mode. *)
Theorem failed_chmod_leaves_key fresh e (d : Disk Tr) :
  (forall c, fault c = if decide (c = IoChmod key_path) then Some e else None) ->
  path_exists key_path d = false -> clear_way (path_join data_dir "keys") d ->
  exists d1, load_or_generate_keypair fault umask fresh data_dir d = (Err [e], d1) /\
    dk_files d1 !! components key_path = Some (mkFile (hex_encode (secret_key_bytes fresh)) (Z.land 438 (Z.lnot umask))) /\
    forall other, exists kp', load_or_generate_keypair fault umask other data_dir d1 = (Ok kp', d1) /\
      public_key kp' = public_key fresh.
Proof.
  intros Hf Hn Hw. assert (forall c, c <> IoChmod key_path -> fault c = None) as Hok by (intros c Hc; by rewrite Hf, decide_False).
  set (f := mkFile (hex_encode (secret_key_bytes fresh)) (Z.land 438 (Z.lnot umask))).
  unfold path_exists in Hn. apply orb_false_iff in Hn as [Hn1 Hn2].
  exists (with_file key_path f (with_dirs (path_join data_dir "keys") d)). split_and!.
  - unfold load_or_generate_keypair, get, mbind, M_bind. fold key_path. unfold path_exists. rewrite Hn1, Hn2. cbn [orb].
    apply bool_decide_eq_false in Hn1, Hn2. unfold with_context, map_err.
    rewrite create_dir_all_ok by (done || by apply Hok). cbn [map_err_res].
    rewrite fs_write_key by (by apply Hok || by apply keys_dir_created). cbn [map_err_res].
    unfold write_mode. cbn [with_dirs dk_files]. rewrite (proj2 (eq_None_not_Some _) Hn1).
    unfold set_permissions, io. by rewrite Hf, decide_True.
  - cbn [with_file dk_files]. by rewrite lookup_insert_eq.
  - intros other. destruct (key_text_loads fresh) as (kp' & Hkp & Hsame & _). exists kp'. split; [|done].
    rewrite (load_existing other _ f); [|by apply Hok|cbn [with_file dk_files]; by rewrite lookup_insert_eq].
    cbn [f f_text]. by rewrite Hkp.
Qed.

(** ** Initialization *)

Let db_path := path_join data_dir "db".

Lemma db_components : components db_path = components data_dir ++ ["db"%string].
Proof. unfold db_path. by rewrite components_join. Qed.

(** What [init_node] does when nothing fails: three directories, the key and the genesis
    block, if the database has no block yet. *)
Lemma init_runs home fresh args (d : Disk Tr) db' r h :
  (forall c, fault c = None) -> resolve_data_dir home (ia_data_dir args) = data_dir ->
  path_exists data_dir d && negb (ia_force args) && path_exists key_path d = false ->
  clear_way db_path d -> clear_way (path_join data_dir "keys") d -> clear_way (path_join data_dir "config") d ->
  components key_path ∉ dk_dirs d ->
  initialize_genesis (default open_temporary (dk_dbs d !! components db_path), 0) = (r, (db', h)) ->
  exists d', init_node fault umask home fresh args d =
      (map_err_res (fun _ => [])
         (_ ← r; Ok (mkInitReport (pk_to_hex (public_key fresh)) (to_address (from_public_key (public_key fresh)))
                       key_path (ia_network args))), d') /\
    dk_files d' = <[components key_path := mkFile (hex_encode (secret_key_bytes fresh)) 384]> (dk_files d) /\
    dk_dbs d' = <[components db_path := db']> (dk_dbs d) /\ components key_path ∉ dk_dirs d' /\
    (components data_dir <> [] -> components data_dir ∈ dk_dirs d').
Proof.
  intros Hf Hdir Hguard Hw1 Hw2 Hw3 Hk Hg.
  set (d3 := with_dirs (path_join data_dir "config") (with_dirs (path_join data_dir "keys") (with_dirs db_path d))).
  assert (components key_path ∉ dk_dirs d3) as Hk3 by (unfold d3; by repeat apply key_not_dir).
  assert (key_writable d3) as Hkw.
  { split; [exact Hk3|]. unfold d3. cbn [with_dirs dk_dirs]. rewrite keys_components, prefixes_snoc. set_solver. }
  set (f := mkFile (hex_encode (secret_key_bytes fresh)) 384).
  exists (mkDisk (<[components key_path := f]> (dk_files d)) (dk_dirs d3) (<[components db_path := db']> (dk_dbs d))).
  split; [|split; [done|split; [done|split; [exact Hk3|]]]].
  - unfold init_node, get, mbind, M_bind. rewrite Hdir. fold key_path db_path. rewrite Hguard. cbn [negb].
    unfold with_context, map_err. rewrite !create_dir_all_ok by done. cbn [map_err_res]. fold d3.
    rewrite fs_write_key by done. cbn [map_err_res]. rewrite set_permissions_key by done.
    unfold open_db, io. rewrite Hf. unfold get, put, mbind, M_bind. cbn [with_file dk_dbs map_err_res mret M_ret].
    change (dk_dbs d3) with (dk_dbs d). rewrite Hg. unfold save_db, modify, lift. cbn [dk_dbs dk_files dk_dirs].
    rewrite insert_insert_eq. by destruct r as [[]|e|].
  - intros Hne. unfold d3. cbn [with_dirs dk_dirs]. rewrite db_components, prefixes_snoc.
    pose proof (prefixes_self _ Hne). set_solver.
Qed.

(** The key is in nobody's way. *)
Lemma clear_way_key q f (d d' : Disk Tr) :
  length (components q) = 1%nat -> is_absolute q = false ->
  dk_files d' = <[components key_path := f]> (dk_files d) ->
  clear_way (path_join data_dir q) d -> clear_way (path_join data_dir q) d'.
Proof.
  intros Hq Ha Hd. unfold clear_way. rewrite !Forall_forall. intros Hw x Hx. rewrite Hd, lookup_insert_ne; [by apply Hw|].
  intros <-. apply prefixes_length in Hx. rewrite key_components, components_join, !length_app, Hq in Hx by done. cbn in Hx. lia.
Qed.

(** A directory initialized once: a node started on it has the identity that was reported
    and, in a fresh directory, a chain with the genesis block; and it is not initialized
    again unless that is forced. *)
Theorem init_then_run home fresh args (d : Disk Tr) :
  (forall c, fault c = None) -> resolve_data_dir home (ia_data_dir args) = data_dir -> components data_dir <> [] ->
  path_exists key_path d = false ->
  clear_way db_path d -> clear_way (path_join data_dir "keys") d -> clear_way (path_join data_dir "config") d ->
  dk_dbs d !! components db_path = None ->
  exists report d', init_node fault umask home fresh args d = (Ok report, d') /\
    ir_public_key report = pk_to_hex (public_key fresh) /\
    (forall other, exists kp, run_keypair fault umask false other data_dir d' = (Ok kp, d') /\
       pk_to_hex (public_key kp) = ir_public_key report) /\
    (exists db d'', run_open_db fault false data_dir d' = (Ok db, d'') /\ dk_files d'' = dk_files d' /\
       get_latest_block_height db = Ok (Some 0) /\ get_block 0 db = Ok (Some genesis)) /\
    (forall other net, init_node fault umask home other (mkInitArgs (ia_data_dir args) net false) d' =
       (Err ["data directory already initialized at " +:+ data_dir +:+ ". Use --force to overwrite."]%string, d')).
Proof.
  intros Hf Hdir Hne Hn Hw1 Hw2 Hw3 Hdb.
  destruct (put_block_tip genesis (open_temporary : NovaDB Tr) ∅ open_temporary_inv) as (db' & Hp & _ & Hl & Hg); [done|].
  destruct (init_runs home fresh args d db' (Ok tt) 0) as (d' & Hinit & Hfiles & Hdbs & _ & Hroot); try done.
  { by rewrite Hn, andb_false_r. }
  { unfold path_exists in Hn. apply orb_false_iff in Hn as [_ Hn]. by apply bool_decide_eq_false in Hn. }
  { rewrite Hdb. unfold initialize_genesis. cbn [fst snd default]. by rewrite open_temporary_height, Hp. }
  assert (dk_files d' !! components key_path = Some (mkFile (hex_encode (secret_key_bytes fresh)) 384)) as Hkey
    by (by rewrite Hfiles, lookup_insert_eq).
  eexists _, d'. split; [exact Hinit|]. split; [done|]. split_and!.
  - intros other. destruct (key_text_loads fresh) as (kp & Hkp & Hpk & _). exists kp.
    unfold run_keypair. rewrite (load_existing other d' _ (Hf _) Hkey). cbn [f_text]. rewrite Hkp. by rewrite Hpk.
  - eexists db', _. split; [|split; [|split; [exact Hl|exact Hg]]].
    + unfold run_open_db, mbind, M_bind. fold db_path. unfold with_context, map_err.
      rewrite create_dir_all_ok by (apply Hf || by eapply clear_way_key). cbn [map_err_res].
      unfold open_db, io. rewrite Hf. unfold get, put, mbind, M_bind. cbn [with_dirs dk_dbs].
      rewrite Hdbs, lookup_insert_eq. reflexivity.
    + done.
  - intros other net. unfold init_node, get, mbind, M_bind. cbn [ia_data_dir ia_force]. rewrite Hdir. fold key_path.
    assert (path_exists key_path d' = true) as -> by (unfold path_exists; rewrite Hkey; by rewrite bool_decide_true by eauto).
    assert (path_exists data_dir d' = true) as ->; [|done].
    unfold path_exists. apply orb_true_iff. right. by apply bool_decide_eq_true, Hroot.
Qed.

(** [--force] replaces the key and nothing else: the chain of the directory survives it,
    and the next start is a new validator on the old chain. *)
Theorem force_keeps_chain home fresh args (d : Disk Tr) db h :
  (forall c, fault c = None) -> resolve_data_dir home (ia_data_dir args) = data_dir -> ia_force args = true ->
  components key_path ∉ dk_dirs d ->
  clear_way db_path d -> clear_way (path_join data_dir "keys") d -> clear_way (path_join data_dir "config") d ->
  dk_dbs d !! components db_path = Some db -> get_latest_block_height db = Ok (Some h) ->
  exists report d', init_node fault umask home fresh args d = (Ok report, d') /\ dk_dbs d' = dk_dbs d /\
    forall other, exists kp, run_keypair fault umask false other data_dir d' = (Ok kp, d') /\
      public_key kp = public_key fresh.
Proof.
  intros Hf Hdir Hforce Hk Hw1 Hw2 Hw3 Hdb Hh.
  destruct (init_runs home fresh args d db (Ok tt) h) as (d' & Hinit & Hfiles & Hdbs & _); try done.
  { by rewrite Hforce, andb_false_r. }
  { rewrite Hdb. unfold initialize_genesis. cbn [fst snd from_option id]. by rewrite Hh. }
  eexists _, d'. split; [exact Hinit|]. split; [rewrite Hdbs; by apply insert_id|].
  intros other. destruct (key_text_loads fresh) as (kp & Hkp & Hpk & _). exists kp. split; [|done].
  unfold run_keypair. rewrite (load_existing other d' (mkFile (hex_encode (secret_key_bytes fresh)) 384) (Hf _));
    [|by rewrite Hfiles, lookup_insert_eq]. cbn [f_text]. by rewrite Hkp.
Qed.
End StartupProofs.

(** ** The status command *)

(** [u16::from_str] and [u64::from_str]: an optional plus sign and decimal digits. *)
Fixpoint uint_digits (max acc : Z) (s : string) : res string Z :=
  match s with
  | EmptyString => Ok acc
  | String a s' =>
      let c := Z.of_N (N_of_ascii a) in
      ensure ((48 <=? c) && (c <=? 57)) else "invalid digit found in string"%string;
      ensure (acc * 10 + (c - 48) <=? max) else "number too large to fit in target type"%string;
      uint_digits max (acc * 10 + (c - 48)) s'
  end.

Definition parse_uint (max : Z) (s : string) : res string Z :=
  match s with
  | EmptyString => Err "cannot parse integer from empty string"%string
  | String "+" EmptyString | String "-" EmptyString => Err "invalid digit found in string"%string
  | String "+" s' => uint_digits max 0 s'
  | _ => uint_digits max 0 s
  end.

Definition parse_u16 (s : string) : res string Z := parse_uint 65535 s.

Record Url := mkUrl { url_host : string; url_port : option Z; url_path : string }.

(** [str::find] and [str::rfind] of a character, as the parts before and after it. *)
Fixpoint cut_first (c : ascii) (s : string) : option (string * string) :=
  match s with
  | EmptyString => None
  | String a s' =>
      if (a =? c)%char then Some (EmptyString, s')
      else match cut_first c s' with Some (p, q) => Some (String a p, q) | None => None end
  end.

Fixpoint cut_last (c : ascii) (s : string) : option (string * string) :=
  match s with
  | EmptyString => None
  | String a s' =>
      match cut_last c s' with
      | Some (p, q) => Some (String a p, q)
      | None => if (a =? c)%char then Some (EmptyString, s') else None
      end
  end.

Definition url_from_str (s : string) : res string Url :=
  let rest := match strip_prefix "http://" s with
              | Some r => r
              | None => match strip_prefix "https://" s with Some r => r | None => s end
              end in
  let '(authority, path) :=
    match cut_first "/" rest with
    | Some (a, p) => (a, String "/" p)
    | None => (rest, "/"%string)
    end in
  match cut_last ":" authority with
  | Some (host, port) =>
      p ← map_err_res (fun e => "bad port: " +:+ e)%string (parse_u16 port);
      Ok (mkUrl host (Some p) path)
  | None => Ok (mkUrl authority None path)
  end.

(** [trim_end_matches('/')] *)
Fixpoint trim_slashes (s : string) : string :=
  match s with
  | EmptyString => EmptyString
  | String a s' =>
      match trim_slashes s' with
      | EmptyString => if (a =? "/")%char then EmptyString else String a EmptyString
      | t => String a t
      end
  end.

Definition crlf : string := String "013" (String "010" "").

(** The part after the first blank line, or everything. *)
Fixpoint split_body (s : string) : option string :=
  match s with
  | EmptyString => None
  | String _ s' => match strip_prefix (crlf +:+ crlf) s with Some body => Some body | None => split_body s' end
  end.

Definition response_body (response : string) : string := default response (split_body response).

(** The server: the address connected to and the request sent give a response. *)
Definition reqwest_get_stub (server : string -> Z -> string -> res string string) (url : string) : res string string :=
  parsed ← map_err_res (fun e => "invalid URL: " +:+ e)%string (url_from_str url);
  let port := default 80 (url_port parsed) in
  response ← server (url_host parsed) port
    ("GET " +:+ url_path parsed +:+ " HTTP/1.1" +:+ crlf +:+ "Host: " +:+ url_host parsed +:+ crlf +:+
     "Connection: close" +:+ crlf +:+ crlf)%string;
  Ok (response_body response).

Definition status_url (rpc_url : string) : string := (trim_slashes rpc_url +:+ "/status")%string.

Lemma pretty_digit m : (m < 10)%N -> Z.of_N (N_of_ascii (pretty_N_char m)) = 48 + Z.of_N m.
Proof.
  intros Hm. assert (m = 0 \/ m = 1 \/ m = 2 \/ m = 3 \/ m = 4 \/ m = 5 \/ m = 6 \/ m = 7 \/ m = 8 \/ m = 9)%N as Hc by lia.
  repeat destruct Hc as [->|Hc]; subst; reflexivity.
Qed.

Lemma uint_digits_pretty max x s : Z.of_N x <= max -> uint_digits max 0 (pretty_N_go x s) = uint_digits max (Z.of_N x) s.
Proof.
  revert s; induction (N.lt_wf_0 x) as [x _ IH]; intros s Hx. destruct (decide (x = 0%N)) as [->|Hx0].
  { by rewrite pretty_N_go_0. }
  pose proof (N.mod_lt x 10 ltac:(lia)) as Hm. pose proof (N.div_mod' x 10) as Hd.
  set (q := (x `div` 10)%N) in *. set (m := (x `mod` 10)%N) in *.
  rewrite pretty_N_go_step by lia. fold q m. rewrite (IH q) by lia. cbn [uint_digits]. rewrite pretty_digit by done.
  rewrite !(proj2 (Z.leb_le _ _)) by lia. cbn [andb]. f_equal. lia.
Qed.

Lemma uint_digit_head max acc a s n : uint_digits max acc (String a s) = Ok n -> 48 <= Z.of_N (N_of_ascii a) <= 57.
Proof. cbn [uint_digits]. destruct (_ && _) eqn:E; [|done]. intros _. apply andb_true_iff in E. lia. Qed.

Lemma parse_uint_digits max s n : s <> ""%string -> uint_digits max 0 s = Ok n -> parse_uint max s = Ok n.
Proof.
  destruct s as [|a s]; [done|]. intros _ Hs. pose proof (uint_digit_head _ _ _ _ _ Hs) as Ha.
  unfold parse_uint. destruct a as [[] [] [] [] [] [] [] []]; try done; cbn in Ha; lia.
Qed.

(** A number in decimal is read back, and is all digits. *)
Lemma number_digits max port : 0 <= port <= max -> pretty port <> ""%string /\ uint_digits max 0 (pretty port) = Ok port.
Proof.
  intros Hp. destruct port as [|x|x].
  { split; [done|]. change (pretty 0) with "0"%string. cbn [uint_digits]. by rewrite (proj2 (Z.leb_le (0 * 10 + _) max)) by (cbn; lia). }
  2: lia.
  assert (pretty (Zpos x) = pretty_N_go (Npos x) "") as -> by done.
  pose proof (uint_digits_pretty max (Npos x) "" ltac:(lia)) as Hd. split; [|exact Hd].
  intros E. rewrite E in Hd. discriminate Hd.
Qed.

(** Text without the character [c]. *)
Fixpoint avoids (c : ascii) (s : string) : Prop :=
  match s with EmptyString => True | String a s' => a <> c /\ avoids c s' end.

Lemma digits_avoid max c acc s n :
  ~ 48 <= Z.of_N (N_of_ascii c) <= 57 -> uint_digits max acc s = Ok n -> avoids c s.
Proof.
  intros Hc. revert acc; induction s as [|a s IH]; intros acc Hs; [done|]. pose proof (uint_digit_head _ _ _ _ _ Hs) as Ha.
  split; [by intros ->|]. cbn [uint_digits] in Hs. destruct (_ && _); [|done]. destruct (_ <=? max); [|done]. by eapply IH.
Qed.

Lemma cut_first_app c s t : avoids c s -> cut_first c (s +:+ String c t) = Some (s, t).
Proof.
  induction s as [|a s IH]; intros Hs.
  - change ("" +:+ String c t) with (String c t). cbn [cut_first]. by rewrite Ascii.eqb_refl.
  - destruct Hs as [Ha Hs]. change (String a s +:+ String c t) with (String a (s +:+ String c t)). cbn [cut_first].
    rewrite (proj2 (Ascii.eqb_neq _ _) Ha), IH by done. done.
Qed.

Lemma cut_last_none c s : avoids c s -> cut_last c s = None.
Proof.
  induction s as [|a s IH]; [done|]. intros [Ha Hs]. cbn [cut_last]. rewrite IH by done. by rewrite (proj2 (Ascii.eqb_neq _ _) Ha).
Qed.

Lemma cut_last_app c s t : avoids c t -> cut_last c (s +:+ String c t) = Some (s, t).
Proof.
  intros Ht. induction s as [|a s IH].
  - change ("" +:+ String c t) with (String c t). cbn [cut_last]. by rewrite cut_last_none, Ascii.eqb_refl.
  - change (String a s +:+ String c t) with (String a (s +:+ String c t)). cbn [cut_last]. by rewrite IH.
Qed.

Fixpoint slashes (n : nat) : string := match n with O => EmptyString | S n' => String "/" (slashes n') end.

Lemma trim_only_slashes n : trim_slashes (slashes n) = ""%string.
Proof. induction n as [|n IH]; [done|]. cbn. by rewrite IH. Qed.

Lemma trim_slashes_after s n : avoids "/" s -> trim_slashes (s +:+ slashes n) = s.
Proof.
  induction s as [|a s IH]; intros Hs; [apply trim_only_slashes|]. destruct Hs as [Ha Hs].
  change (String a s +:+ slashes n) with (String a (s +:+ slashes n)). cbn [trim_slashes]. rewrite IH by done.
  destruct s; [|done]. by rewrite (proj2 (Ascii.eqb_neq _ _) Ha).
Qed.

Lemma trim_slashes_app s t : trim_slashes t <> ""%string -> trim_slashes (s +:+ t) = s +:+ trim_slashes t.
Proof.
  intros Ht. induction s as [|a s IH]; [done|]. change (String a s +:+ t) with (String a (s +:+ t)). cbn [trim_slashes].
  rewrite IH. destruct (s +:+ trim_slashes t) eqn:E; [|by rewrite <- E]. destruct s; done.
Qed.

Lemma avoids_app c s t : avoids c s -> avoids c t -> avoids c (s +:+ t).
Proof. induction s as [|a s IH]; [done|]. intros [Ha Hs] Ht. split; [done|]. by apply IH. Qed.

Lemma strip_http s : strip_prefix "http://" ("http://" +:+ s) = Some s.
Proof. reflexivity. Qed.

(** An address with a port is parsed back: whatever the host is, IPv6 addresses included,
    as long as it has no slash. *)
Lemma url_with_port host port path :
  avoids "/" host -> 0 <= port <= 65535 ->
  url_from_str ("http://" +:+ host +:+ ":" +:+ pretty port +:+ "/" +:+ path) = Ok (mkUrl host (Some port) ("/" +:+ path)).
Proof.
  intros Hh Hp. destruct (number_digits 65535 port Hp) as [Hne Hd]. unfold url_from_str. rewrite strip_http.
  pose proof (digits_avoid 65535 "/" _ _ _ ltac:(by cbn; lia) Hd) as Hs. pose proof (digits_avoid 65535 ":" _ _ _ ltac:(by cbn; lia) Hd) as Hc.
  replace (host +:+ ":" +:+ pretty port +:+ "/" +:+ path) with ((host +:+ String ":" (pretty port)) +:+ String "/" path)
    by (by rewrite string_app_assoc).
  rewrite cut_first_app by (apply avoids_app; [done|by split]). rewrite cut_last_app by done.
  unfold parse_u16. by rewrite (parse_uint_digits 65535 _ _ Hne Hd).
Qed.

(** The status command asks the node it is pointed at: for an address with a port, with
    any number of slashes after it, it connects to that host and port and requests
    [/status]. *)
Theorem status_reaches_node server host port n :
  avoids "/" host -> 0 <= port <= 65535 ->
  reqwest_get_stub server (status_url ("http://" +:+ host +:+ ":" +:+ pretty port +:+ slashes n)) =
  (response ← server host port ("GET /status HTTP/1.1" +:+ crlf +:+ "Host: " +:+ host +:+ crlf +:+
     "Connection: close" +:+ crlf +:+ crlf)%string;
   Ok (response_body response)).
Proof.
  intros Hh Hp. destruct (number_digits 65535 port Hp) as [Hne Hd].
  pose proof (digits_avoid 65535 "/" _ _ _ ltac:(by cbn; lia) Hd) as Hs. unfold reqwest_get_stub, status_url.
  pose proof (trim_slashes_after (pretty port) n Hs) as Ht.
  replace ("http://" +:+ host +:+ ":" +:+ pretty port +:+ slashes n) with
    (("http://" +:+ host +:+ ":") +:+ (pretty port +:+ slashes n)) by (by rewrite !string_app_assoc).
  rewrite trim_slashes_app, Ht by (by rewrite Ht).
  replace ((("http://" +:+ host +:+ ":") +:+ pretty port) +:+ "/status") with
    ("http://" +:+ host +:+ ":" +:+ pretty port +:+ "/" +:+ "status") by (by rewrite !string_app_assoc).
  by rewrite url_with_port.
Qed.

(** An [https] address is contacted in plain text, on port 80 unless it names another. *)
Theorem https_sent_in_clear server host :
  avoids "/" host -> avoids ":" host ->
  reqwest_get_stub server ("https://" +:+ host) =
  (response ← server host 80 ("GET / HTTP/1.1" +:+ crlf +:+ "Host: " +:+ host +:+ crlf +:+
     "Connection: close" +:+ crlf +:+ crlf)%string;
   Ok (response_body response)).
Proof.
  intros Hs Hc. assert (cut_first "/" host = None) as Hcut.
  { clear Hc. induction host as [|a h IH]; [done|]. destruct Hs as [Ha Hs]. cbn [cut_first].
    by rewrite (proj2 (Ascii.eqb_neq _ _) Ha), IH. }
  assert (url_from_str ("https://" +:+ host) = Ok (mkUrl host None "/")) as Hu.
  { unfold url_from_str. cbv zeta. change (strip_prefix "http://" ("https://" +:+ host)) with (@None string).
    change (strip_prefix "https://" ("https://" +:+ host)) with (Some host). cbv iota beta. by rewrite Hcut, cut_last_none. }
  unfold reqwest_get_stub. by rewrite Hu.
Qed.

(** ** Witnesses *)

Module StartupExamples.
Export BootExamples.

Notation Store := (gmap (list Z) (list Z)).

Lemma nibble_no_space z : 0 <= z < 16 -> is_space (Toy.nibble z) = false.
Proof.
  intros Hz. assert (z = 0 \/ z = 1 \/ z = 2 \/ z = 3 \/ z = 4 \/ z = 5 \/ z = 6 \/ z = 7 \/
    z = 8 \/ z = 9 \/ z = 10 \/ z = 11 \/ z = 12 \/ z = 13 \/ z = 14 \/ z = 15) as Hc by lia.
  repeat destruct Hc as [->|Hc]; subst; reflexivity.
Qed.

#[export] Instance toy_hex_text : HexText toy_crypto.
Proof.
  split. intros l a. cbn [hex_encode toy_crypto]. induction 1 as [|b l Hb Hl IH]; cbn [Toy.hex String.list_ascii_of_string].
  - by intros ?%not_elem_of_nil.
  - destruct (byte_nibbles b Hb) as (H1 & H2 & _).
    intros [->|[->|]%elem_of_cons]%elem_of_cons; [by apply nibble_no_space..|by apply IH].
Qed.

Definition no_fault (c : IoCall) : option string := None.
Definition no_chmod (c : IoCall) : option string :=
  if decide (c = IoChmod "/n/keys/validator.key") then Some "Operation not permitted"%string else None.

Definition blank_disk : Disk Store := mkDisk ∅ ∅ ∅.

(** A directory that was initialized and whose chain has grown. *)
Definition old_disk : Disk Store :=
  mkDisk ∅ {[["/"; "n"]; ["/"; "n"; "keys"]; ["/"; "n"; "db"]]}%string (<[["/"; "n"; "db"]%string := gap_db]> ∅).

(** A server on ports 80 and 9741 that answers with the host asked for. *)
Definition echo (host : string) (port : Z) (request : string) : res string string :=
  if (port =? 80) || (port =? 9741) then Ok host else Err "connection refused"%string.

Definition heir : NovaKeypair (C := toy_crypto) := mkKeypair (C := toy_crypto) 5.
End StartupExamples.

Import StartupExamples.

Lemma validator_key_persists_witness :
  exists d1, load_or_generate_keypair no_fault 18 boss "/n" blank_disk = (Ok boss, d1) /\
    exists kp', load_or_generate_keypair no_fault 18 heir "/n" d1 = (Ok kp', d1) /\ public_key kp' = public_key boss.
Proof.
  destruct (validator_key_persists no_fault 18 "/n" boss blank_disk) as (d1 & H1 & _ & _ & H2).
  - reflexivity.
  - reflexivity.
  - repeat constructor.
  - exists d1. split; [exact H1|]. destruct (H2 heir) as (kp' & H3 & H4 & _). exists kp'. split; [exact H3|exact H4].
Defined.

Lemma failed_chmod_leaves_key_witness :
  exists d1, load_or_generate_keypair no_chmod 18 boss "/n" blank_disk = (Err ["Operation not permitted"%string], d1) /\
    dk_files d1 !! ["/"; "n"; "keys"; "validator.key"]%string = Some (mkFile (hex_encode (secret_key_bytes boss)) 420).
Proof.
  destruct (failed_chmod_leaves_key no_chmod 18 "/n" boss "Operation not permitted" blank_disk) as (d1 & H1 & H2 & _).
  - intros c. reflexivity.
  - reflexivity.
  - repeat constructor.
  - exists d1. split; [exact H1|exact H2].
Defined.

Lemma init_then_run_witness :
  exists report d', init_node no_fault 18 (Some "/h") boss (mkInitArgs "/n" "devnet" false) blank_disk = (Ok report, d') /\
    (exists kp, run_keypair no_fault 18 false heir "/n" d' = (Ok kp, d') /\ pk_to_hex (public_key kp) = ir_public_key report) /\
    exists e, init_node no_fault 18 (Some "/h") heir (mkInitArgs "/n" "mainnet" false) d' = (Err e, d').
Proof.
  destruct (init_then_run no_fault 18 "/n" (Some "/h") boss (mkInitArgs "/n" "devnet" false) blank_disk)
    as (report & d' & H1 & _ & H2 & _ & H3); [reflexivity|reflexivity|discriminate|reflexivity|repeat constructor..|reflexivity|].
  exists report, d'. split; [exact H1|]. split; [apply H2|]. eexists. exact (H3 heir "mainnet"%string).
Defined.

Lemma force_keeps_chain_witness :
  exists report d', init_node no_fault 18 (Some "/h") heir (mkInitArgs "/n" "devnet" true) old_disk = (Ok report, d') /\
    dk_dbs d' = dk_dbs old_disk.
Proof.
  destruct (force_keeps_chain no_fault 18 "/n" (Some "/h") heir (mkInitArgs "/n" "devnet" true) old_disk gap_db 3)
    as (report & d' & H1 & H2 & _); [reflexivity|reflexivity|reflexivity| |repeat constructor..|reflexivity|vm_compute; reflexivity|].
  - apply (bool_decide_eq_true_1 (~ _)). vm_compute. reflexivity.
  - exists report, d'. split; [exact H1|exact H2].
Defined.

Lemma status_reaches_node_witness : reqwest_get_stub echo (status_url "http://127.0.0.1:9741//") = Ok "127.0.0.1"%string.
Proof.
  etransitivity; [apply (status_reaches_node echo "127.0.0.1" 9741 2); [repeat split; discriminate|lia]|reflexivity].
Defined.

Lemma https_sent_in_clear_witness : reqwest_get_stub echo "https://node" = Ok "node"%string.
Proof.
  etransitivity; [apply (https_sent_in_clear echo "node"); repeat split; discriminate|reflexivity].
Defined.
