(* ===== verification/Text.v ===== *)
(** * What people read

    The texts in which the code shows amounts, networks and token identifiers:
    [display_decimal] and the [Display] instances of [transaction/types.rs],
    [format_nova_amount] and [validate_log_level] of [node/src/cli.rs], the network names
    of [config.rs], and [TokenId] of [vault/token.rs] with the hexadecimal keys of its
    serialized maps.  The theorems read the texts back. *)

From S2P Require Import Prelude Bytes Crypto Transaction Block Sled StateTree Db Consensus Identity Keys Startup.
From Stdlib Require Import Ascii.
From stdpp Require Import pretty.

#[local] Open Scope Z_scope.

(** ** Amounts *)

Fixpoint zeros (n : nat) : string := match n with O => EmptyString | S n' => String "0" (zeros n') end.

(** [format!("{:0>width$}", n)] *)
Definition pad_left (width : nat) (n : Z) : string :=
  (zeros (width - String.length (pretty n)) +:+ pretty n)%string.

(** [10u64.pow] overflows only above 19 decimals. *)
Definition display_decimal (a : Amount) : string :=
  let d := decimals (currency a) in
  let divisor := 10 ^ d in
  let whole := value a / divisor in
  let frac := value a mod divisor in
  (pretty whole +:+ "." +:+ pad_left (Z.to_nat d) frac +:+ " " +:+ display_currency (currency a))%string.

Definition display_amount (a : Amount) : string := (pretty (value a) +:+ " " +:+ display_currency (currency a))%string.

Definition format_nova_amount (photons : Z) : string :=
  let whole := photons / 100000000 in
  let frac := photons mod 100000000 in
  (pretty whole +:+ "." +:+ pad_left 8 frac)%string.

Definition display_status (s : TransactionStatus) : string :=
  match s with
  | TxPending => "Pending"
  | TxConfirmed => "Confirmed"
  | TxFailed => "Failed"
  | TxExpired => "Expired"
  end.

(** ** Levels and networks *)

Definition to_lower (a : ascii) : ascii :=
  let c := Z.of_N (N_of_ascii a) in
  if (65 <=? c) && (c <=? 90) then ascii_of_N (Z.to_N (c + 32)) else a.

Fixpoint to_lowercase (s : string) : string :=
  match s with EmptyString => EmptyString | String a s' => String (to_lower a) (to_lowercase s') end.

Definition validate_log_level (level : string) : bool :=
  bool_decide (to_lowercase level ∈ ["trace"; "debug"; "info"; "warn"; "error"]%string).

Inductive LogFormat := Pretty | Json.

Definition from_str_lossy (s : string) : LogFormat :=
  if bool_decide (to_lowercase s = "json"%string) then Json else Pretty.

Definition NETWORK_ID_MAINNET : Z := 0x4E4F5641.
Definition NETWORK_ID_TESTNET : Z := 0x4E4F5654.
Definition NETWORK_ID_DEVNET : Z := 0x4E4F5644.
Definition MAINNET_HRP : string := "nova".
Definition TESTNET_HRP : string := "tnova".
Definition DEVNET_HRP : string := "dnova".

Definition hrp_for_network (network_id : Z) : option string :=
  if network_id =? NETWORK_ID_MAINNET then Some MAINNET_HRP
  else if network_id =? NETWORK_ID_TESTNET then Some TESTNET_HRP
  else if network_id =? NETWORK_ID_DEVNET then Some DEVNET_HRP
  else None.

(** [{:08X}]: upper-case digits, eight of them for a [u32]. *)
Definition upper_digit (z : Z) : ascii := ascii_of_N (Z.to_N (if z <? 10 then 48 + z else 55 + z)).

Fixpoint upper_hex (width : nat) (z : Z) (acc : string) : string :=
  match width with O => acc | S w => upper_hex w (z / 16) (String (upper_digit (z mod 16)) acc) end.

Definition network_name (network_id : Z) : string :=
  if network_id =? NETWORK_ID_MAINNET then "mainnet"
  else if network_id =? NETWORK_ID_TESTNET then "testnet"
  else if network_id =? NETWORK_ID_DEVNET then "devnet"
  else ("unknown(0x" +:+ upper_hex 8 network_id "" +:+ ")")%string.

(** ** Token identifiers *)

Section TokenIds.
Context {C : Crypto}.

Definition token_to_hex (id : list Z) : string := hex_encode id.

Definition token_from_hex (s : string) : res string (list Z) :=
  bytes ← hex_decode s;
  ensure (bool_decide (length bytes = 32%nat)) else "Invalid string length"%string;
  Ok bytes.

(** [Debug] cuts the text. *)
Definition token_debug {E} (id : list Z) : res E string :=
  if (12 <=? String.length (token_to_hex id))%nat
  then Ok ("TokenId(" +:+ String.substring 0 12 (token_to_hex id) +:+ "...)")%string else Panic.

(** [token_id_map]: a JSON object with hexadecimal keys; an object with a key twice keeps
    the later value. *)
Definition map_serialize {V} (m : gmap (list Z) V) : list (string * V) :=
  (fun kv => (token_to_hex kv.1, kv.2)) <$> map_to_list m.

Fixpoint collect_ids {V} (entries : list (string * V)) : res string (gmap (list Z) V) :=
  match entries with
  | [] => Ok ∅
  | (key, value) :: rest =>
      id ← token_from_hex key;
      m ← collect_ids rest;
      Ok (<[id := value]> m)
  end.

Definition map_deserialize {V} (object : list (string * V)) : res string (gmap (list Z) V) :=
  let string_map : gmap string V := fold_left (fun m kv => <[kv.1 := kv.2]> m) object ∅ in
  collect_ids (map_to_list string_map).
End TokenIds.

(** ** Identities *)

Section IdentityText.
Context {C : Crypto}.

(** The [Serialize] and [Deserialize] instances of [NovaId]: an address for formats that
    people read, the hash itself for the others. *)
Definition nova_id_serialize (human_readable : bool) (id : NovaId) : string + list Z :=
  if human_readable then inl (to_address id) else inr (key_hash id).

Definition nova_id_deserialize (value : string + list Z) : res string NovaId :=
  match value with
  | inl s => map_err_res display_nova_id_error (from_address s)
  | inr bytes =>
      ensure (bool_decide (length bytes = 32%nat)) else
        ("expected 32-byte key hash, got " +:+ pretty (Z.of_nat (length bytes)))%string;
      Ok (mkNovaId bytes None)
  end.
End IdentityText.

(** ** Reading the texts back *)

(** Decimal digits, continuing from [acc]. *)
Fixpoint dec_value (acc : Z) (s : string) : option Z :=
  match s with
  | EmptyString => Some acc
  | String a s' =>
      let c := Z.of_N (N_of_ascii a) in
      if (48 <=? c) && (c <=? 57) then dec_value (acc * 10 + (c - 48)) s' else None
  end.

(** The number and the ticker of a text like [1.50000000 BTC], the number of digits after
    the point, and the value in the smallest unit. *)
Definition read_decimal (s : string) : option (Z * nat * string) :=
  '(number, ticker) ← cut_first " " s;
  '(whole, frac) ← cut_first "." number;
  w ← dec_value 0 whole;
  v ← dec_value w frac;
  Some (v, String.length frac, ticker).

Lemma dec_value_pretty_go x s : dec_value 0 (pretty_N_go x s) = dec_value (Z.of_N x) s.
Proof.
  revert s; induction (N.lt_wf_0 x) as [x _ IH]; intros s. destruct (decide (x = 0%N)) as [->|Hx0].
  { by rewrite pretty_N_go_0. }
  pose proof (N.mod_lt x 10 ltac:(lia)) as Hm. pose proof (N.div_mod' x 10) as Hd.
  set (q := (x `div` 10)%N) in *. set (m := (x `mod` 10)%N) in *.
  rewrite pretty_N_go_step by lia. fold q m. rewrite (IH q) by lia. cbn [dec_value]. rewrite pretty_digit by done.
  rewrite !(proj2 (Z.leb_le _ _)) by lia. cbn [andb]. f_equal. lia.
Qed.

Lemma dec_value_pretty n : 0 <= n -> dec_value 0 (pretty n) = Some n.
Proof.
  intros Hn. destruct n as [|p|p]; [done| |lia].
  assert (pretty (Zpos p) = pretty_N_go (Npos p) "") as -> by done. by rewrite dec_value_pretty_go.
Qed.

Lemma dec_value_zeros n s : dec_value 0 (zeros n +:+ s) = dec_value 0 s.
Proof. induction n as [|n IH]; [done|]. exact IH. Qed.

Lemma dec_value_shift s : forall a b n,
  dec_value b s = Some n -> dec_value (a + b) s = Some (a * 10 ^ Z.of_nat (String.length s) + n).
Proof.
  induction s as [|x s IH]; intros a b n; cbn [dec_value String.length].
  - intros [= ->]. f_equal. lia.
  - destruct (_ && _); [|done]. intros Hn. rewrite Nat2Z.inj_succ, Z.pow_succ_r by lia.
    replace ((a + b) * 10 + (Z.of_N (N_of_ascii x) - 48)) with (a * 10 + (b * 10 + (Z.of_N (N_of_ascii x) - 48))) by lia.
    rewrite (IH _ _ _ Hn). f_equal. lia.
Qed.

Lemma digits_avoid_char c s : ~ 48 <= Z.of_N (N_of_ascii c) <= 57 -> forall a n, dec_value a s = Some n -> avoids c s.
Proof.
  intros Hc. induction s as [|x s IH]; intros a n; cbn [dec_value]; [done|]. destruct (_ && _) eqn:E; [|done].
  intros Hs. apply andb_true_iff in E. split; [intros ->; lia|]. by eapply IH.
Qed.

(** Padding fills a number to the width it has to fit. *)
Lemma pretty_go_length w x s :
  (x < 10 ^ N.of_nat w)%N -> (String.length (pretty_N_go x s) <= w + String.length s)%nat.
Proof.
  revert x s; induction w as [|w IH]; intros x s Hx.
  - assert (x = 0%N) as -> by (cbn in Hx; lia). by rewrite pretty_N_go_0.
  - destruct (decide (x = 0%N)) as [->|Hx0]; [rewrite pretty_N_go_0; lia|]. rewrite pretty_N_go_step by lia.
    etransitivity; [apply IH|cbn; lia]. rewrite Nat2N.inj_succ, N.pow_succ_r' in Hx.
    apply N.Div0.div_lt_upper_bound. lia.
Qed.

Lemma string_length_app s t : String.length (s +:+ t) = (String.length s + String.length t)%nat.
Proof. induction s as [|a s IH]; [done|]. exact (f_equal S IH). Qed.

Lemma zeros_length n : String.length (zeros n) = n.
Proof. induction n as [|n IH]; [done|]. exact (f_equal S IH). Qed.

Lemma pad_left_spec w n : (0 < w)%nat -> 0 <= n < 10 ^ Z.of_nat w ->
  String.length (pad_left w n) = w /\ dec_value 0 (pad_left w n) = Some n.
Proof.
  intros Hw Hn. assert (String.length (pretty n) <= w)%nat as Hl.
  { destruct n as [|p|p]; [cbn; lia| |lia]. assert (pretty (Zpos p) = pretty_N_go (Npos p) "") as -> by done.
    etransitivity; [apply (pretty_go_length w)|cbn; lia]. apply N2Z.inj_lt. rewrite N2Z.inj_pow, nat_N_Z. cbn. lia. }
  unfold pad_left. split; [rewrite string_length_app, zeros_length; lia|]. by rewrite dec_value_zeros, dec_value_pretty by lia.
Qed.

(** A number cut at the point. *)
Lemma read_decimal_at w f d ticker : (0 < d)%nat -> 0 <= w -> 0 <= f < 10 ^ Z.of_nat d ->
  read_decimal (pretty w +:+ "." +:+ pad_left d f +:+ " " +:+ ticker) = Some (w * 10 ^ Z.of_nat d + f, d, ticker).
Proof.
  intros Hd Hw Hf. destruct (pad_left_spec d f Hd Hf) as [Hl Hv]. pose proof (dec_value_pretty w Hw) as Hp.
  assert (forall c, ~ 48 <= Z.of_N (N_of_ascii c) <= 57 -> avoids c (pretty w) /\ avoids c (pad_left d f)) as Hav
    by (intros c Hc; split; by eapply digits_avoid_char).
  destruct (Hav " "%char) as [H1 H2]; [cbn; lia|]. destruct (Hav "."%char) as [H3 _]; [cbn; lia|].
  unfold read_decimal.
  replace (pretty w +:+ "." +:+ pad_left d f +:+ " " +:+ ticker) with ((pretty w +:+ String "." (pad_left d f)) +:+ String " " ticker)
    by (by rewrite string_app_assoc).
  rewrite cut_first_app by (apply avoids_app; [done|by split]). cbn [mbind option_bind]. rewrite cut_first_app by done.
  cbn [mbind option_bind]. rewrite Hp. cbn [mbind option_bind].
  replace w with (w + 0) at 1 by lia. rewrite (dec_value_shift _ _ _ _ Hv), Hl. done.
Qed.

(** Amounts are shown exactly: the text of every amount reads back to its value, with the
    number of decimals of its currency and its ticker; the startup banner's stake
    likewise. *)
Theorem amounts_shown_exactly a :
  in_u64 (value a) ->
  read_decimal (display_decimal a) = Some (value a, Z.to_nat (decimals (currency a)), display_currency (currency a)) /\
  read_decimal (format_nova_amount (value a) +:+ " NOVA") = Some (value a, 8%nat, "NOVA"%string).
Proof.
  intros [Hv _]. assert (0 < decimals (currency a)) as Hd by (by destruct (currency a)).
  assert (0 < 10 ^ decimals (currency a)) as Hp by (apply Z.pow_pos_nonneg; lia). split.
  - unfold display_decimal. rewrite read_decimal_at; rewrite ?Z2Nat.id by lia; [|lia|by apply Z.div_pos|by apply Z.mod_pos_bound].
    rewrite Z.mul_comm, <- Z.div_mod by lia. done.
  - unfold format_nova_amount. rewrite !string_app_assoc.
    change (" NOVA") with (" " +:+ "NOVA"). rewrite read_decimal_at; [|lia|by apply Z.div_pos|by apply Z.mod_pos_bound].
    change (10 ^ Z.of_nat 8) with 100000000. rewrite Z.mul_comm, <- Z.div_mod by lia. done.
Qed.

(** ** Networks *)

Lemma upper_digit_inj x y : 0 <= x < 16 -> 0 <= y < 16 -> upper_digit x = upper_digit y -> x = y.
Proof.
  intros Hx Hy Hd. apply (f_equal N_of_ascii) in Hd. unfold upper_digit in Hd.
  revert Hd. destruct (Z.ltb_spec x 10), (Z.ltb_spec y 10); rewrite !N_ascii_embedding by lia; lia.
Qed.

Lemma upper_hex_inj w z z' acc acc' :
  0 <= z < 16 ^ Z.of_nat w -> 0 <= z' < 16 ^ Z.of_nat w -> String.length acc = String.length acc' ->
  upper_hex w z acc = upper_hex w z' acc' -> z = z' /\ acc = acc'.
Proof.
  revert z z' acc acc'; induction w as [|w IH]; intros z z' acc acc' Hz Hz' Hl He.
  - cbn in Hz, Hz'. split; [lia|exact He].
  - rewrite Nat2Z.inj_succ, Z.pow_succ_r in Hz, Hz' by lia. cbn [upper_hex] in He.
    apply IH in He; [|split; [apply Z.div_pos; lia|apply Z.div_lt_upper_bound; lia]..|cbn; congruence].
    destruct He as [Hq [= Hd ->]]. split; [|done].
    enough (z mod 16 = z' mod 16) by (pose proof (Z.div_mod z 16); pose proof (Z.div_mod z' 16); lia).
    apply upper_digit_inj; [by apply Z.mod_pos_bound..|done].
Qed.

(** ** Token maps *)

Section TokenMaps.
Context {C : Crypto} {L : CryptoLaws C} {V : Type}.

Definition ids_ok (m : gmap (list Z) V) : Prop := forall k v, m !! k = Some v -> length k = 32%nat /\ Forall byte_ok k.

Lemma token_hex_roundtrip id : length id = 32%nat -> Forall byte_ok id -> token_from_hex (token_to_hex id) = Ok id.
Proof. intros Hl Hb. unfold token_from_hex, token_to_hex. rewrite hex_roundtrip by done. cbn. by rewrite bool_decide_true. Qed.

Lemma collect_ids_ok (entries : list (list Z * V)) :
  Forall (fun kv => length kv.1 = 32%nat /\ Forall byte_ok kv.1) entries -> NoDup entries.*1 ->
  collect_ids ((fun kv => (token_to_hex kv.1, kv.2)) <$> entries) = Ok (list_to_map entries).
Proof.
  induction 1 as [|[k v] entries [Hl Hb] Hf IH]; [done|]. cbn. intros [_ Hn]%NoDup_cons.
  rewrite token_hex_roundtrip by done. cbn. by rewrite IH.
Qed.

Lemma inserts_list (l : list (string * V)) : NoDup l.*1 ->
  map_to_list (fold_left (fun m kv => <[kv.1 := kv.2]> m) l (∅ : gmap string V)) ≡ₚ l.
Proof.
  intros Hl. assert (fold_left (fun m kv => <[kv.1 := kv.2]> m) l (∅ : gmap string V) = list_to_map (reverse l)) as ->.
  { rewrite <- fold_left_rev_right. unfold reverse. rewrite <- rev_alt. generalize (rev l). clear.
    induction l as [|[k v] l IH]; [done|]. cbn. by rewrite IH. }
  rewrite map_to_list_to_map; [by rewrite reverse_Permutation|]. rewrite fmap_reverse. by rewrite reverse_Permutation.
Qed.

(** A map keyed by token identifiers survives its JSON form, whose keys are texts. *)
Theorem token_maps_roundtrip (m : gmap (list Z) V) : ids_ok m -> map_deserialize (map_serialize m) = Ok m.
Proof.
  intros Hm. unfold map_deserialize, map_serialize.
  assert (Forall (fun kv => length kv.1 = 32%nat /\ Forall byte_ok kv.1) (map_to_list m)) as Hf.
  { apply Forall_forall. intros [k v] Hkv%elem_of_map_to_list. by apply (Hm k v). }
  set (f := fun kv : list Z * V => (token_to_hex kv.1, kv.2)).
  assert (NoDup (f <$> map_to_list m).*1) as Hnd.
  { rewrite <- list_fmap_compose. change (fst ∘ f) with (token_to_hex ∘ (fst (A := list Z) (B := V))).
    rewrite list_fmap_compose. apply NoDup_fmap_2_strong; [|apply NoDup_fst_map_to_list].
    intros x y ([k v] & -> & Hx)%list_elem_of_fmap ([k' v'] & -> & Hy)%list_elem_of_fmap He.
    rewrite Forall_forall in Hf. apply (hex_encode_inj k k'); [by apply (Hf _ Hx)|by apply (Hf _ Hy)|exact He]. }
  pose proof (inserts_list _ Hnd) as Hp. apply Permutation_map_inv in Hp as (l & Hl & Hp).
  rewrite Hl. change (map f l) with (f <$> l). rewrite collect_ids_ok.
  - f_equal. etransitivity; [symmetry; apply list_to_map_proper; [apply NoDup_fst_map_to_list|exact Hp]|].
    apply list_to_map_to_list.
  - by rewrite <- Hp.
  - rewrite <- Hp. apply NoDup_fst_map_to_list.
Qed.
End TokenMaps.

(** Both serialized forms of an identity are read back as an equal identity, without the
    public key: what the copy is given to verify it refuses until a key with the right
    hash is attached again. *)
Theorem nova_id_forms_roundtrip {C : Crypto} {L : CryptoLaws C} human pk m s :
  exists id, nova_id_deserialize (nova_id_serialize human (from_public_key pk)) = Ok id /\
    nova_id_eqb id (from_public_key pk) = true /\ verify_signature id m s = Err NoPublicKey /\
    attach_public_key pk id = (Ok tt, from_public_key pk).
Proof.
  exists (mkNovaId (blake3 (pk_bytes pk)) None). split_and!.
  - destruct human; cbn [nova_id_serialize nova_id_deserialize].
    + by rewrite address_roundtrip.
    + cbn [key_hash from_public_key]. by rewrite bool_decide_true by apply blake3_length.
  - unfold nova_id_eqb. by rewrite bool_decide_true.
  - done.
  - unfold attach_public_key. run. by rewrite bool_decide_true.
Qed.

Lemma upper_hex_app w z acc t : upper_hex w z acc +:+ t = upper_hex w z (acc +:+ t).
Proof. revert z acc; induction w as [|w IH]; intros z acc; [done|]. cbn [upper_hex]. by rewrite IH. Qed.

(** No two networks have the same name, known or not. *)
Theorem network_names_distinct x y :
  0 <= x < 2 ^ 32 -> 0 <= y < 2 ^ 32 -> network_name x = network_name y -> x = y.
Proof.
  intros Hx Hy. unfold network_name. repeat (case_match; try (rewrite ?Z.eqb_eq, ?Z.eqb_neq in *));
    try congruence; try (intros [=]; done).
  rewrite !upper_hex_app. intros He%(inj (String.append "unknown(0x")). by apply upper_hex_inj in He as [-> _].
Qed.

(** ** Witnesses *)

Module TextExamples.
Export StartupExamples.

Definition fee : Amount := mkAmount 150000000 BTC.

Definition shelf : gmap (list Z) Z := {[ replicate 32 7 := 5 ]}.
End TextExamples.

Import TextExamples.

Lemma amounts_shown_exactly_witness :
  display_decimal fee = "1.50000000 BTC"%string /\ read_decimal "1.50000000 BTC" = Some (150000000, 8%nat, "BTC"%string).
Proof.
  split; [reflexivity|]. destruct (amounts_shown_exactly fee) as [H _]; [by split|]. exact H.
Defined.

Lemma token_maps_roundtrip_witness : map_deserialize (map_serialize shelf) = Ok shelf.
Proof.
  apply (token_maps_roundtrip shelf). intros k v. unfold shelf. rewrite lookup_singleton_Some. intros [<- _].
  split; [reflexivity|]. apply Forall_replicate. unfold byte_ok. lia.
Defined.

Lemma network_names_distinct_witness : network_name 5 = "unknown(0x00000005)"%string /\ 5 = 5.
Proof.
  split; [reflexivity|]. apply (network_names_distinct 5 5); [lia|lia|reflexivity].
Defined.

Lemma nova_id_forms_roundtrip_witness :
  exists id, nova_id_deserialize (nova_id_serialize false (from_public_key (public_key heir))) = Ok id /\
    nova_id_eqb id (from_public_key (public_key heir)) = true.
Proof.
  destruct (nova_id_forms_roundtrip false (public_key heir) [] (mkSig [])) as (id & H1 & H2 & _).
  exists id. split; [exact H1|exact H2].
Defined.
