(* ===== verification/Http.v ===== *)
(** * HTTP: routes, envelopes and the status command

    The router of [node/src/api.rs] with its health and validator endpoints, the wire forms
    of the JSON-RPC envelopes of [node/src/api.rs] and [protocol/src/network/rpc.rs], and
    [query_status] of [node/src/main.rs].  A request carries the text of its body, read with
    the limits of the libraries.  Axum's matching of paths and the text of JSON are the
    classes [Axum] and [JsonText]. *)

From S2P Require Import Prelude Bytes Crypto Transaction Block Sled StateTree StateTreeBits.
From S2P Require Import StateTreeSpec StateTreeProofs Db Consensus Api Boot Startup Text.
From Stdlib Require Import Ascii.
From stdpp Require Import pretty.

#[local] Open Scope Z_scope.
#[local] Opaque tree_put tree_get H compute_default_hashes.

(** ** The text of JSON *)

(** [serde_json]: the text of a value and back. *)
Class JsonText := {
  json_to_string : Value -> string;
  json_from_str : string -> res string Value
}.

(** How deep arrays and objects are nested. *)
Fixpoint depth (v : Value) : nat :=
  match v with
  | JArray l => S (max_list (map depth l))
  | JObject fields => S (max_list (map (fun p => depth p.2) fields))
  | _ => O
  end.

Definition key_le (p q : string * Value) : Prop := String.leb p.1 q.1 = true.

#[global] Instance key_le_dec p q : Decision (key_le p q).
Proof. unfold key_le. apply _. Defined.

(** [serde_json::Map] is a [BTreeMap]: a value that was read has its objects in the order
    of their keys. *)
Fixpoint sort_keys (v : Value) : Value :=
  match v with
  | JArray l => JArray (map sort_keys l)
  | JObject fields => JObject (merge_sort key_le (map (fun p => (p.1, sort_keys p.2)) fields))
  | _ => v
  end.

(** A value of integers of [serde_json] (a 64-bit number, with or without a sign), strings,
    booleans and null, no object of which has a key twice. *)
Fixpoint value_ok (v : Value) : bool :=
  match v with
  | JNumber n => (- 2 ^ 63 <=? n) && (n <=? U64_MAX)
  | JFloat _ => false
  | JArray l => forallb value_ok l
  | JObject fields => bool_decide (NoDup fields.*1) && forallb (fun p => value_ok p.2) fields
  | _ => true
  end.

(** How deep [serde_json] follows a text: its counter starts at 128. *)
Definition recursion_limit : nat := 127.

(** The text of a value is read back up to the order of the fields, unless it is nested
    too deep. *)
Class JsonTextLaws (J : JsonText) : Prop := {
  json_text_read : forall v, value_ok v = true -> (depth v <= recursion_limit)%nat ->
    json_from_str (json_to_string v) = Ok (sort_keys v);
  json_text_deep : forall v, value_ok v = true -> (recursion_limit < depth v)%nat ->
    exists e, json_from_str (json_to_string v) = Err e
}.

(** ** Structures on the wire *)

Definition as_bool (v : Value) : option bool := match v with JBool b => Some b | _ => None end.

Definition as_i32 (v : Value) : option Z :=
  match v with JNumber n => if (- 2 ^ 31 <=? n) && (n <? 2 ^ 31) then Some n else None | _ => None end.

(** [Value::get] *)
Definition value_get (k : string) (v : Value) : option Value :=
  match v with
  | JObject fields => snd <$> find (fun p => bool_decide (p.1 = k)) fields
  | _ => None
  end.

(** A derived [Deserialize]: the fields of an object by name, none of them twice, or the
    elements of an array in the order of the declaration. *)
Definition struct_fields (names : list string) (v : Value) : option (list (option Value)) :=
  match v with
  | JObject fields =>
      mapM (fun k => match filter (fun p => p.1 = k) fields with
                     | [] => Some None
                     | [p] => Some (Some p.2)
                     | _ => None
                     end) names
  | JArray l => if bool_decide (length l = length names) then Some (Some <$> l) else None
  | _ => None
  end.

(** An [Option<Value>]: null is no value. *)
Definition opt_value (o : option Value) : option Value :=
  match o with Some JNull => None | _ => o end.

(** [skip_serializing_if = "Option::is_none"] *)
Definition opt_field (k : string) (o : option Value) : list (string * Value) :=
  match o with Some v => [(k, v)] | None => [] end.

(** ** [network/rpc.rs] *)

Record RpcRequest := mkRequest { q_jsonrpc : string; q_id : Value; q_method : RpcMethod; q_params : Value }.

Definition rpc_request_new (id : Value) (method : RpcMethod) (params : Value) : RpcRequest :=
  mkRequest "2.0" id method params.

Record RpcResponse := mkResponse {
  p_jsonrpc : string;
  p_id : Value;
  p_result : option Value;
  p_error : option JsonRpcError
}.

Definition rpc_success (id result : Value) : RpcResponse := mkResponse "2.0" id (Some result) None.
Definition rpc_error (id : Value) (error : JsonRpcError) : RpcResponse := mkResponse "2.0" id None (Some error).

Definition rpc_request_value (r : RpcRequest) : Value :=
  JObject [("jsonrpc", JString (q_jsonrpc r)); ("id", q_id r); ("method", JString (rpc_method_name (q_method r)));
    ("params", q_params r)].

Definition rpc_error_of_value (v : Value) : option JsonRpcError :=
  fs ← struct_fields ["code"; "message"; "data"] v;
  match fs with
  | [c; m; d] => c ← c ≫= as_i32; m ← m ≫= as_str; Some (mkRpcError c m (opt_value d))
  | _ => None
  end.

Definition rpc_response_of_value (v : Value) : option RpcResponse :=
  fs ← struct_fields ["jsonrpc"; "id"; "result"; "error"] v;
  match fs with
  | [j; i; r; e] =>
      j ← j ≫= as_str; i ← i;
      e ← match opt_value e with None => Some None | Some w => Some <$> rpc_error_of_value w end;
      Some (mkResponse j i (opt_value r) e)
  | _ => None
  end.

(** ** [node/src/api.rs] *)

Definition json_rpc_request_of_value (v : Value) : option JsonRpcRequest :=
  fs ← struct_fields ["jsonrpc"; "method"; "params"; "id"] v;
  match fs with
  | [j; m; p; i] => j ← j ≫= as_str; m ← m ≫= as_str; i ← i; Some (mkRpcRequest j m (opt_value p) i)
  | _ => None
  end.

Definition json_rpc_error_value (e : JsonRpcError) : Value :=
  JObject ([("code", JNumber (code e)); ("message", JString (message e))] ++ opt_field "data" (data e)).

Definition json_rpc_response_value (r : JsonRpcResponse) : Value :=
  JObject ([("jsonrpc", JString (rs_jsonrpc r))] ++ opt_field "result" (result r) ++
    opt_field "error" (json_rpc_error_value <$> error r) ++ [("id", rs_id r)]).

Definition status_response_value (r : StatusResponse) : Value :=
  JObject [("version", JString (st_version r)); ("network", JString (st_network r));
    ("block_height", JNumber (st_block_height r)); ("peer_count", JNumber (st_peer_count r));
    ("synced", JBool (synced r)); ("timestamp", JString (st_timestamp r))].

Definition account_response_value (r : AccountResponse) : Value :=
  JObject [("address", JString (ar_address r)); ("balance", JNumber (ar_balance r)); ("nonce", JNumber (ar_nonce r));
    ("tx_count", JNumber (ar_tx_count r))].

Inductive HttpMethod := GET | POST | OPTIONS | OtherMethod (name : string).

#[global] Instance HttpMethod_eq_dec : EqDecision HttpMethod.
Proof. solve_decision. Defined.

Inductive Endpoint := EHealth | EStatus | ERpc | EWs | EValidators | EBlock | ETransaction | EAccount.

Definition create_router : list (string * HttpMethod * Endpoint) :=
  [("/health", GET, EHealth); ("/status", GET, EStatus); ("/rpc", POST, ERpc); ("/ws", GET, EWs);
   ("/validators", GET, EValidators); ("/blocks/:height", GET, EBlock); ("/transactions/:hash", GET, ETransaction);
   ("/accounts/:address", GET, EAccount)].

(** Axum: the endpoint for a method and a path, with the text of the path parameter; the
    content types the [Json] extractor takes and the length it reads of a body. *)
Class Axum := {
  dispatch : list (string * HttpMethod * Endpoint) -> HttpMethod -> string -> option (Endpoint * option string);
  is_json : string -> bool;
  body_limit : Z
}.

(** A pattern without the name of its parameter. *)
Definition shape (r : string * HttpMethod * Endpoint) : string :=
  match cut_first ":" r.1.1 with Some (a, _) => a +:+ ":" | None => r.1.1 end.

(** Text that is one segment of a path as it stands. *)
Definition plain (s : string) : Prop :=
  s <> "" /\ avoids "/" s /\ avoids ":" s /\ avoids "%" s /\ avoids "?" s /\ avoids "#" s.

Class AxumLaws (X : Axum) : Prop := {
  dispatch_fixed : forall routes p m e, NoDup (shape <$> routes) -> (p, m, e) ∈ routes -> avoids ":" p ->
    dispatch routes m p = Some (e, None);
  dispatch_param : forall routes a name m e seg, NoDup (shape <$> routes) -> avoids ":" a ->
    (a +:+ "/:" +:+ name, m, e) ∈ routes -> plain seg -> (a +:+ "/" +:+ seg) ∉ (fun r => r.1.1) <$> routes ->
    dispatch routes m (a +:+ "/" +:+ seg) = Some (e, Some seg);
  json_type : is_json "application/json" = true;
  body_limit_default : body_limit = 2097152
}.

(** What a request gets: an answer of a handler, a WebSocket, or a refusal by the library. *)
Inductive Answer := Handled (c : StatusCode) (v : Value) | Upgraded | Rejected.

Definition health_handler : Value := JObject [("status", JString "ok")].

Definition validators_handler : Value :=
  JArray [JObject [("public_key", JString (zeros 64)); ("stake", JNumber 100000000000); ("active", JBool true);
    ("last_proposed_block", JNumber 0)]].

Section Serve.
Context {C : Crypto} {K : AccountCodec} {SC : StorageCodec} {T : TxCodec} {Tr : Type} `{Sd : Sled Tr}.
Context {X : Axum} {J : JsonText}.

(** What a request carries: the type and the text. *)
Definition Body : Type := option (string * string).

(** [Json<JsonRpcRequest>]: the body of a request with the type of JSON, if it is not too
    long, not nested too deep and has the fields of the structure. *)
Definition extract_request (body : Body) : option JsonRpcRequest :=
  '(content_type, text) ← body;
  if is_json content_type && (Z.of_nat (String.length text) <=? body_limit) then
    match json_from_str text with Ok v => json_rpc_request_of_value v | _ => None end
  else None.

(** [Path<u64>] parses the segment; [Json] parses the body. *)
Definition serve (now : string) (m : HttpMethod) (path : string) (body : Body) (state : AppState Tr)
    : res unit Answer :=
  match dispatch create_router m path with
  | Some (EHealth, _) => Ok (Handled OK health_handler)
  | Some (EStatus, _) => r ← status_handler now state; Ok (Handled OK (status_response_value r))
  | Some (ERpc, _) =>
      match extract_request body with
      | Some req => r ← rpc_handler req state; Ok (Handled OK (json_rpc_response_value r))
      | None => Ok Rejected
      end
  | Some (EWs, _) => Ok Upgraded
  | Some (EValidators, _) => Ok (Handled OK validators_handler)
  | Some (EBlock, Some h) =>
      match parse_uint U64_MAX h with
      | Ok n => '(c, v) ← block_by_height_handler n state; Ok (Handled c v)
      | _ => Ok Rejected
      end
  | Some (ETransaction, Some h) => '(c, v) ← transaction_by_hash_handler h state; Ok (Handled c v)
  | Some (EAccount, Some a) => Ok (Handled OK (account_response_value (account_handler a state)))
  | _ => Ok Rejected
  end.
End Serve.

(** ** The status command *)

Definition status_lines {J : JsonText} (body : string) : list string :=
  match json_from_str body with
  | Ok json =>
      match value_get "version" json ≫= as_str with
      | Some version => ["Node Status"; "  Version     : " +:+ version] | None => [] end ++
      match value_get "network" json ≫= as_str with
      | Some network => ["  Network     : " +:+ network] | None => [] end ++
      match value_get "block_height" json ≫= as_u64 with
      | Some height => ["  Block Height: " +:+ pretty height] | None => [] end ++
      match value_get "peer_count" json ≫= as_u64 with
      | Some peers => ["  Peers       : " +:+ pretty peers] | None => [] end ++
      match value_get "synced" json ≫= as_bool with
      | Some synced => ["  Synced      : " +:+ (if synced : bool then "yes" else "no")] | None => [] end ++
      match value_get "timestamp" json ≫= as_str with
      | Some ts => ["  Timestamp   : " +:+ ts] | None => [] end
  | _ => [body]
  end.

Definition query_status {J : JsonText} (server : string -> Z -> string -> res string string) (rpc_url : string)
    : res string (list string) :=
  body ← reqwest_get_stub server (status_url rpc_url);
  Ok (status_lines body).

(** ** Proofs *)

Lemma router_unambiguous : NoDup (shape <$> create_router).
Proof. cbv. repeat (constructor; [set_solver|]). constructor. Qed.

Ltac keys_distinct := cbn; repeat (constructor; [set_solver|]); constructor.
Ltac in_router := unfold create_router; repeat (apply elem_of_cons; (left; reflexivity) || right).

Section ServeProofs.
Context {C : Crypto} {K : AccountCodec} {SC : StorageCodec} {T : TxCodec} {Tr : Type} `{Sd : Sled Tr}.
Context {X : Axum} {XL : AxumLaws X} {J : JsonText}.
Implicit Types (state : AppState Tr).

(** No route spells out a value of a parameter. *)
Lemma param_not_fixed a seg :
  a ∈ ["/blocks"; "/transactions"; "/accounts"]%string -> plain seg ->
  (a +:+ "/" +:+ seg) ∉ (fun r => r.1.1) <$> create_router.
Proof.
  intros Ha (_ & _ & Hc & _) Hin. apply list_elem_of_In in Hin. cbn in Hin.
  assert (seg = ":height" \/ seg = ":hash" \/ seg = ":address")%string as Hs.
  { rewrite !elem_of_cons, elem_of_nil in Ha. destruct Ha as [->|[->|[->|[]]]]; cbn in Hin;
      repeat destruct Hin as [Hin|Hin]; try discriminate Hin; try done; injection Hin as Hin; change ("" +:+ seg) with seg in Hin; subst; auto. }
  destruct Hs as [->|[->| ->]]; by destruct Hc.
Qed.

Lemma number_plain n : in_u64 n -> plain (pretty n) /\ parse_uint U64_MAX (pretty n) = Ok n.
Proof.
  intros Hn. destruct (number_digits U64_MAX n Hn) as [Hne Hd].
  split; [|by apply parse_uint_digits]. split; [done|].
  split_and!; (eapply digits_avoid; [|exact Hd]); cbn; lia.
Qed.

(** A path parameter reaches its handler as it was written; a height is read as the number
    it is the decimal of. *)
Theorem rest_paths_served now body state h s :
  in_u64 h -> plain s ->
  serve now GET ("/blocks/" +:+ pretty h) body state = ('(c, v) ← block_by_height_handler h state; Ok (Handled c v)) /\
  serve now GET ("/transactions/" +:+ s) body state = ('(c, v) ← transaction_by_hash_handler s state; Ok (Handled c v)) /\
  serve now GET ("/accounts/" +:+ s) body state = Ok (Handled OK (account_response_value (account_handler s state))).
Proof.
  intros Hh Hs. destruct (number_plain h Hh) as [Hp Hn].
  assert (forall a name e seg, a ∈ ["/blocks"; "/transactions"; "/accounts"]%string -> avoids ":" a -> plain seg ->
    (a +:+ "/:" +:+ name, GET, e) ∈ create_router -> dispatch create_router GET (a +:+ "/" +:+ seg) = Some (e, Some seg)) as Hd.
  { intros a name e seg Ha Hc Hseg Hin. eapply dispatch_param; [exact router_unambiguous|done|exact Hin|done|].
    by apply param_not_fixed. }
  split_and!; unfold serve.
  - change ("/blocks/" +:+ pretty h) with ("/blocks" +:+ "/" +:+ pretty h).
    rewrite (Hd _ "height" EBlock) by (set_solver || done || in_router). by rewrite Hn.
  - change ("/transactions/" +:+ s) with ("/transactions" +:+ "/" +:+ s).
    by rewrite (Hd _ "hash" ETransaction) by (set_solver || done || in_router).
  - change ("/accounts/" +:+ s) with ("/accounts" +:+ "/" +:+ s).
    by rewrite (Hd _ "address" EAccount) by (set_solver || done || in_router).
Qed.
End ServeProofs.

(** ** The text of a response *)

Definition cr : ascii := "013".

(** The lines of the head, each ended, then an empty line and the body. *)
Fixpoint http_text (lines : list string) (body : string) : string :=
  match lines with
  | [] => crlf +:+ body
  | l :: rest => l +:+ crlf +:+ http_text rest body
  end.

Definition head_line (l : string) : Prop := l <> ""%string /\ avoids cr l.

Lemma strip_prefix_cons c p a s :
  Startup.strip_prefix (String c p) (String a s) = if (c =? a)%char then Startup.strip_prefix p s else None.
Proof. reflexivity. Qed.

Lemma split_body_skip a s : a <> cr -> split_body (String a s) = split_body s.
Proof.
  intros Ha. cbn [split_body]. change (crlf +:+ crlf) with (String cr (String "010" crlf)).
  by rewrite strip_prefix_cons, (proj2 (Ascii.eqb_neq _ _) (not_eq_sym Ha)).
Qed.

Lemma split_body_line l s : avoids cr l -> split_body (l +:+ s) = split_body s.
Proof.
  induction l as [|a l IH]; [done|]. intros [Ha Hl]. change (String a l +:+ s) with (String a (l +:+ s)).
  by rewrite split_body_skip, IH.
Qed.

Lemma response_body_text lines body :
  lines <> [] -> Forall head_line lines -> response_body (http_text lines body) = body.
Proof.
  intros Hne Hl. unfold response_body. enough (split_body (http_text lines body) = Some body) as -> by done.
  induction Hl as [|l rest [_ Hav] Hrest IH]; [done|]. cbn [http_text]. rewrite split_body_line by done.
  destruct Hrest as [|l2 rest [Hn2 Hav2] Hrest]; [reflexivity|].
  rewrite <- IH by done. destruct l2 as [|a l2]; [done|]. destruct Hav2 as [Ha _].
  cbn [http_text]. set (tail := crlf +:+ http_text rest body).
  change (crlf +:+ String a l2 +:+ tail) with (String cr (String "010" (String a (l2 +:+ tail)))).
  change (String a l2 +:+ tail) with (String a (l2 +:+ tail)).
  transitivity (split_body (String "010" (String a (l2 +:+ tail)))); [|by apply split_body_skip].
  cbn [split_body]. change (crlf +:+ crlf) with (String cr (String "010" (String cr (String "010" "")))).
  rewrite !strip_prefix_cons, !Ascii.eqb_refl. by rewrite (proj2 (Ascii.eqb_neq _ _) (not_eq_sym Ha)).
Qed.

(** The fields of an object do not depend on their order. *)
Lemma value_get_elem fields k v : NoDup fields.*1 -> (k, v) ∈ fields -> value_get k (JObject fields) = Some v.
Proof.
  cbn [value_get]. induction fields as [|[k' v'] fields IH]; cbn; [by intros _ ?%not_elem_of_nil|].
  intros [Hni Hnd]%NoDup_cons Hin. apply elem_of_cons in Hin as [[= <- <-]|Hin].
  - by rewrite bool_decide_true.
  - rewrite bool_decide_false; [by apply IH|]. intros ->. apply Hni. by apply (list_elem_of_fmap_2 fst) in Hin.
Qed.

(** ** Values that were read *)

Lemma sort_object fields :
  exists fields', sort_keys (JObject fields) = JObject fields' /\ fields' ≡ₚ map (fun p => (p.1, sort_keys p.2)) fields.
Proof. eexists. split; [reflexivity|]. apply merge_sort_Permutation. Qed.

Lemma sort_keys_null v : sort_keys v = JNull -> v = JNull.
Proof. by destruct v. Qed.

Lemma keys_mapped (fields : list (string * Value)) : (map (fun p => (p.1, sort_keys p.2)) fields).*1 = fields.*1.
Proof. induction fields as [|p fields IH]; [done|]. cbn. by f_equal. Qed.

(** A key that occurs once is found whatever the order. *)
Lemma filter_key_perm k (fields fields' : list (string * Value)) :
  fields' ≡ₚ fields -> NoDup fields.*1 ->
  filter (fun p => p.1 = k) fields' = filter (fun p => p.1 = k) fields.
Proof.
  intros Hp Hnd. assert (filter (fun p => p.1 = k) fields' ≡ₚ filter (fun p => p.1 = k) fields) as Hf by by rewrite Hp.
  assert (length (filter (fun p => p.1 = k) fields) <= 1)%nat as Hl.
  { clear Hp Hf. induction fields as [|p fields IH]; [cbn; lia|]. cbn in Hnd. apply NoDup_cons in Hnd as [Hni Hnd].
    rewrite filter_cons. case_decide as Hk; [|by apply IH]. enough (filter (fun p => p.1 = k) fields = []) as -> by (cbn; lia).
    destruct (filter (fun p => p.1 = k) fields) as [|q l] eqn:E; [done|].
    assert (q ∈ filter (fun p => p.1 = k) fields) as [Hq Hin]%list_elem_of_filter by (rewrite E; by left).
    exfalso. apply Hni. rewrite Hk, <- Hq. by apply (list_elem_of_fmap_2 fst). }
  destruct (filter (fun p => p.1 = k) fields) as [|p [|]]; [by apply Permutation_nil_r in Hf|by apply Permutation_singleton_r in Hf|cbn in Hl; lia].
Qed.

Lemma struct_fields_perm names (fields fields' : list (string * Value)) :
  fields' ≡ₚ fields -> NoDup fields.*1 ->
  struct_fields names (JObject fields') = struct_fields names (JObject fields).
Proof.
  intros Hp Hnd. cbn [struct_fields]. induction names as [|k names IH]; [done|].
  cbn [mapM]. by rewrite (filter_key_perm k _ _ Hp Hnd), IH.
Qed.

(** A structure is read from what was read of its text as from its own fields. *)
Lemma struct_fields_read names fields :
  NoDup fields.*1 ->
  struct_fields names (sort_keys (JObject fields)) =
  struct_fields names (JObject (map (fun p => (p.1, sort_keys p.2)) fields)).
Proof.
  intros Hnd. destruct (sort_object fields) as (fields' & -> & Hp). apply struct_fields_perm; [done|]. by rewrite keys_mapped.
Qed.

Section StatusProofs.
Context {C : Crypto} {K : AccountCodec} {SC : StorageCodec} {T : TxCodec} {Tr : Type} `{Sd : Sled Tr}.
Context {X : Axum} {XL : AxumLaws X} {J : JsonText} {JL : JsonTextLaws J}.

Lemma status_lines_text (r : StatusResponse) :
  in_u64 (st_block_height r) -> in_u64 (st_peer_count r) ->
  status_lines (json_to_string (status_response_value r)) =
  ["Node Status"; "  Version     : " +:+ st_version r; "  Network     : " +:+ st_network r;
   "  Block Height: " +:+ pretty (st_block_height r); "  Peers       : " +:+ pretty (st_peer_count r);
   "  Synced      : " +:+ (if synced r then "yes" else "no"); "  Timestamp   : " +:+ st_timestamp r]%string.
Proof.
  intros Hh Hp. unfold status_lines, status_response_value.
  set (fields := _ :: _). assert (NoDup fields.*1) as Hnd.
  { cbn. repeat (constructor; [set_solver|]). constructor. }
  rewrite json_text_read; [|subst fields; cbn; unfold in_u64 in *; rewrite !bool_decide_true by done; lia|cbn; unfold recursion_limit; lia].
  destruct (sort_object fields) as (fields' & -> & Hperm). change (map _ fields) with fields in Hperm.
  assert (forall k v, (k, v) ∈ fields -> value_get k (JObject fields') = Some v) as Hget.
  { intros k v Hin. apply value_get_elem; [by rewrite Hperm|by rewrite Hperm]. }
  unfold in_u64 in *.
  rewrite (Hget "version" (JString (st_version r))), (Hget "network" (JString (st_network r))),
    (Hget "block_height" (JNumber (st_block_height r))), (Hget "peer_count" (JNumber (st_peer_count r))),
    (Hget "synced" (JBool (synced r))), (Hget "timestamp" (JString (st_timestamp r))) by (unfold fields; set_solver).
  cbn [mbind option_bind as_str as_u64 as_bool].
  by rewrite !(proj2 (Z.leb_le _ _)) by lia.
Qed.

(** The status command shows the state of the node it is pointed at: over a server that
    sends the answer of the router as the body of an HTTP response, it prints the version,
    the network, the height of the stored chain, the peers and whether they suffice. *)
Theorem status_command_shows_node server host port n now head (state : AppState Tr) h :
  avoids "/" host -> 0 <= port <= 65535 -> head <> [] -> Forall head_line head ->
  (forall v, serve now GET "/status" None state = Ok (Handled OK v) ->
     server host port ("GET /status HTTP/1.1" +:+ crlf +:+ "Host: " +:+ host +:+ crlf +:+
       "Connection: close" +:+ crlf +:+ crlf) = Ok (http_text head (json_to_string v))) ->
  get_latest_block_height (as_db state) = Ok (Some h) -> in_u64 h -> in_u64 (as_peer_count state) ->
  query_status server ("http://" +:+ host +:+ ":" +:+ pretty port +:+ slashes n) =
  Ok ["Node Status"; "  Version     : " +:+ as_version state; "  Network     : " +:+ as_network state;
      "  Block Height: " +:+ pretty h; "  Peers       : " +:+ pretty (as_peer_count state);
      "  Synced      : " +:+ (if (MIN_PEERS_FOR_CONSENSUS <=? as_peer_count state)%Z then "yes" else "no");
      "  Timestamp   : " +:+ now]%string.
Proof.
  intros Hhost Hport Hne Hhead Hserver Hheight Hh Hp. unfold query_status. rewrite status_reaches_node by done.
  rewrite (Hserver (status_response_value (mkStatus (as_version state) (as_network state) h (as_peer_count state)
    (MIN_PEERS_FOR_CONSENSUS <=? as_peer_count state)%Z now))).
  - cbn [mbind res_bind]. rewrite response_body_text by done. by rewrite status_lines_text.
  - unfold serve. rewrite (dispatch_fixed create_router "/status" GET EStatus);
      [|exact router_unambiguous|in_router|by vm_compute]. unfold status_handler, current_height. by rewrite Hheight.
Qed.
End StatusProofs.

(** ** A client of the gateway *)

Section Client.
Context {C : Crypto} {K : AccountCodec} {SC : StorageCodec} {SCL : StorageCodecLaws SC} {T : TxCodec}.
Context {Tr : Type} `{Sd : Sled Tr} {SL : SledLaws Tr} {SH : SledHealthy Tr} {X : Axum} {XL : AxumLaws X}.
Context {J : JsonText} {JL : JsonTextLaws J}.

Definition request_text (r : RpcRequest) : string := json_to_string (rpc_request_value r).

(** A request of the protocol crate posted to the node as text, the text of the answer read
    as a response of the protocol crate. *)
Definition rpc_call (now : string) (state : AppState Tr) (r : RpcRequest) : res unit (option RpcResponse) :=
  a ← serve now POST "/rpc" (Some ("application/json", request_text r)) state;
  Ok (match a with
      | Handled _ v => match json_from_str (json_to_string v) with Ok w => rpc_response_of_value w | _ => None end
      | _ => None
      end).

(** A value a client can hold: integers, and objects in the order of their keys. *)
Definition sendable (v : Value) : Prop := value_ok v = true /\ sort_keys v = v.

(** The numbers of what is stored have the width of their types. *)
Record typed_store (state : AppState Tr) : Prop := {
  ts_block : forall h b, get_block h (as_db state) = Ok (Some b) ->
    in_u64 (height (header b)) /\ in_u64 (timestamp (header b)) /\ in_u64 (Z.of_nat (length (transactions b)));
  ts_tx : forall h tx, get_transaction h (as_db state) = Ok (Some tx) ->
    in_u64 (value (tx_amount tx)) /\ in_u64 (tx_fee tx) /\ in_u64 (tx_timestamp tx)
}.

(** A value that is written and read as it stands up to the order of a flat object. *)
Definition flat (v : Value) : Prop := value_ok v = true /\ (depth v <= 1)%nat.

Lemma u64_ok n : in_u64 n -> value_ok (JNumber n) = true.
Proof. unfold in_u64. cbn [value_ok]. rewrite andb_true_iff, !Z.leb_le. lia. Qed.

Lemma block_response_flat (state : AppState Tr) h b :
  typed_store state -> get_block h (as_db state) = Ok (Some b) -> flat (block_response_value (block_response b)).
Proof.
  intros [Hb _] Hg. destruct (Hb h b Hg) as (Hh & Ht & Hl). split; [|cbn; lia].
  change (value_ok (JNumber (height (header b))) && (value_ok (JNumber (Z.of_nat (length (transactions b)))) &&
    (value_ok (JNumber (timestamp (header b))) && true)) = true).
  by rewrite !u64_ok.
Qed.

Lemma transaction_response_flat (state : AppState Tr) h tx :
  typed_store state -> get_transaction h (as_db state) = Ok (Some tx) ->
  flat (transaction_response_value (transaction_response tx)).
Proof.
  intros [_ Ht] Hg. destruct (Ht h tx Hg) as (Ha & Hf & Hs). split; [|cbn; lia].
  change (value_ok (JNumber (value (tx_amount tx))) && (value_ok (JNumber (tx_fee tx)) &&
    (value_ok (JNumber (tx_timestamp tx)) && true)) = true).
  by rewrite !u64_ok.
Qed.

Lemma request_value_ok id m params :
  value_ok id = true -> value_ok params = true -> value_ok (rpc_request_value (rpc_request_new id m params)) = true.
Proof. intros Hi Hp. cbn. by rewrite Hi, Hp. Qed.

Lemma request_depth id m params :
  depth (rpc_request_value (rpc_request_new id m params)) = S (depth id `max` depth params).
Proof. cbn. lia. Qed.

Lemma request_parsed id m params :
  sort_keys id = id -> sort_keys params = params ->
  json_rpc_request_of_value (sort_keys (rpc_request_value (rpc_request_new id m params))) =
  Some (mkRpcRequest "2.0" (rpc_method_name m) (opt_value (Some params)) id).
Proof.
  intros Hi Hp. unfold json_rpc_request_of_value, rpc_request_value. rewrite struct_fields_read by (keys_distinct).
  cbn [map fst snd rpc_request_new q_jsonrpc q_id q_method q_params]. rewrite Hi, Hp. reflexivity.
Qed.

Lemma error_parsed e :
  - 2 ^ 31 <= code e < 2 ^ 31 -> data e = None -> rpc_error_of_value (sort_keys (json_rpc_error_value e)) = Some e.
Proof.
  destruct e as [c m d]. cbn [code data]. intros Hc ->. unfold rpc_error_of_value, json_rpc_error_value.
  rewrite struct_fields_read by (keys_distinct).
  assert (struct_fields ["code"; "message"; "data"]%string
    (JObject [("code"%string, JNumber c); ("message"%string, JString m)]) =
    Some [Some (JNumber c); Some (JString m); None]) as Hf by done.
  cbn [code message data opt_field app map fst snd sort_keys]. rewrite Hf. cbn [mbind option_bind as_i32 as_str].
  by rewrite (proj2 (Z.leb_le _ _)), (proj2 (Z.ltb_lt _ _)) by lia.
Qed.

(** What the node answers is read back, its result with the fields in the order of their keys. *)
Definition answer_ok (r : JsonRpcResponse) : Prop :=
  sort_keys (rs_id r) = rs_id r /\ value_ok (rs_id r) = true /\ (S (depth (rs_id r)) <= recursion_limit)%nat /\
  (forall v, result r = Some v -> flat v /\ v <> JNull) /\
  (forall e, error r = Some e -> - 2 ^ 31 <= code e < 2 ^ 31 /\ data e = None).

Lemma response_value_ok r :
  answer_ok r -> value_ok (json_rpc_response_value r) = true /\ (depth (json_rpc_response_value r) <= recursion_limit)%nat.
Proof.
  destruct r as [j res err i]. intros (_ & Hi & Hd & Hr & He). cbn [rs_id result error] in *.
  assert (forall e, err = Some e -> value_ok (json_rpc_error_value e) = true /\ depth (json_rpc_error_value e) = 1%nat) as He'.
  { intros [c m d] ->. destruct (He _ eq_refl) as [Hc Hdata]. cbn in Hc, Hdata. subst d. split; [|done].
    change (value_ok (JNumber c) && true = true). cbn [value_ok]. unfold U64_MAX.
    rewrite !andb_true_iff, !Z.leb_le. lia. }
  unfold recursion_limit in *.
  destruct res as [v|], err as [e|]; cbn [json_rpc_response_value rs_jsonrpc result error rs_id opt_field app fmap option_fmap option_map];
    repeat match goal with
    | _ => destruct (Hr _ eq_refl) as [[Hv Hdv] _]; clear Hr
    | _ => destruct (He' _ eq_refl) as [Hve Hde]; clear He'
    end;
    (split; [cbn -[json_rpc_error_value]; rewrite ?Hv, ?Hve, ?Hi; reflexivity|cbn -[json_rpc_error_value]; lia]).
Qed.

Lemma response_parsed r :
  answer_ok r ->
  rpc_response_of_value (sort_keys (json_rpc_response_value r)) =
    Some (mkResponse (rs_jsonrpc r) (rs_id r) (sort_keys <$> result r) (error r)).
Proof.
  destruct r as [j res err i]. intros (Hi & _ & _ & Hr & He). cbn [rs_id result error] in *.
  assert (opt_value (sort_keys <$> res) = sort_keys <$> res) as Hv.
  { destruct res as [v|]; [|done]. destruct (Hr v eq_refl) as [_ Hn]. by destruct v. }
  unfold rpc_response_of_value, json_rpc_response_value. cbn [rs_jsonrpc rs_id result error].
  rewrite struct_fields_read by (destruct res, err; keys_distinct).
  assert (struct_fields ["jsonrpc"; "id"; "result"; "error"]%string
    (JObject (map (fun p => (p.1, sort_keys p.2)) ([("jsonrpc"%string, JString j)] ++ opt_field "result" res ++
      opt_field "error" (json_rpc_error_value <$> err) ++ [("id"%string, i)])))
    = Some [Some (JString j); Some (sort_keys i); sort_keys <$> res; (sort_keys ∘ json_rpc_error_value) <$> err]) as ->
    by (by destruct res, err).
  cbn [mbind option_bind as_str]. rewrite Hv, Hi. destruct err as [e|]; [|done]. destruct (He e eq_refl) as [Hc Hd].
  change (opt_value ((sort_keys ∘ json_rpc_error_value) <$> Some e)) with (Some (sort_keys (json_rpc_error_value e))).
  cbv iota. by rewrite (error_parsed e Hc Hd).
Qed.

(** A request within the limits on the body: its length, and how deep its text is nested. *)
Definition within_limits (r : RpcRequest) : Prop :=
  (depth (rpc_request_value r) <= recursion_limit)%nat /\ Z.of_nat (String.length (request_text r)) <= 2097152.

Lemma request_extracted id m params :
  sendable id -> sendable params -> within_limits (rpc_request_new id m params) ->
  extract_request (Some ("application/json"%string, request_text (rpc_request_new id m params))) =
  Some (mkRpcRequest "2.0" (rpc_method_name m) (opt_value (Some params)) id).
Proof.
  intros [Hi Hsi] [Hp Hsp] [Hd Hl]. unfold extract_request. cbn [mbind option_bind].
  rewrite json_type, body_limit_default, (proj2 (Z.leb_le _ _) Hl). cbn [andb]. unfold request_text.
  rewrite json_text_read by (done || by apply request_value_ok). by rewrite request_parsed.
Qed.

Lemma request_refused id m params :
  sendable id -> sendable params -> ~ within_limits (rpc_request_new id m params) ->
  extract_request (Some ("application/json"%string, request_text (rpc_request_new id m params))) = None.
Proof.
  intros [Hi _] [Hp _] Hw. unfold extract_request. cbn [mbind option_bind].
  rewrite json_type, body_limit_default. cbn [andb]. case_match eqn:Hl; [|done]. apply Z.leb_le in Hl.
  destruct (decide (depth (rpc_request_value (rpc_request_new id m params)) <= recursion_limit)%nat) as [Hd|Hd]; [by destruct Hw|].
  destruct (json_text_deep (rpc_request_value (rpc_request_new id m params))) as [e He]; [by apply request_value_ok|lia|].
  unfold request_text. by rewrite He.
Qed.

Lemma serve_rpc now body (state : AppState Tr) :
  serve now POST "/rpc" body state =
  match extract_request body with
  | Some req => r ← rpc_handler req state; Ok (Handled OK (json_rpc_response_value r))
  | None => Ok Rejected
  end.
Proof.
  unfold serve. by rewrite (dispatch_fixed create_router "/rpc" POST ERpc);
    [|exact router_unambiguous|in_router|vm_compute].
Qed.

(** The answers to the methods the protocol crate names can be written and read. *)
Lemma method_answer_ok {RR : ReadsReturn (Tr := Tr)} (state : AppState Tr) id m params resp :
  typed_store state -> sendable id -> (depth id < recursion_limit)%nat ->
  rpc_handler (mkRpcRequest "2.0" (rpc_method_name m) params id) state = Ok resp -> answer_ok resp.
Proof.
  intros HT [Hi Hsi] Hd Hr.
  destruct (rpc_answer_conforms (mkRpcRequest "2.0" (rpc_method_name m) params id) state)
    as (resp' & Hr' & [_ Hid _ _ _ Hc Hn]). rewrite Hr in Hr'. injection Hr' as <-. cbn [rq_id] in Hid.
  unfold answer_ok. rewrite Hid. split_and!; [done|done|lia| |].
  - intros v Hv. split; [|by intros ->].
    assert (m = GetBlock \/ m = GetTransaction \/ (m <> GetBlock /\ m <> GetTransaction)) as [->|[->|[Hb Ht]]]
      by (destruct m; auto; right; right; by split).
    + change ((out ← rpc_get_block (mkRpcRequest "2.0" (rpc_method_name GetBlock) params id) state;
        Ok (mkRpcResponse "2.0" out.1 out.2 id) : res unit JsonRpcResponse) = Ok resp) in Hr. unfold rpc_get_block in Hr.
      repeat case_match; try discriminate; injection Hr as <-; try discriminate. injection Hv as <-.
      by eapply block_response_flat.
    + change ((out ← rpc_get_transaction (mkRpcRequest "2.0" (rpc_method_name GetTransaction) params id) state;
        Ok (mkRpcResponse "2.0" out.1 out.2 id) : res unit JsonRpcResponse) = Ok resp) in Hr. unfold rpc_get_transaction in Hr.
      repeat case_match; try discriminate; injection Hr as <-; try discriminate. injection Hv as <-.
      by eapply transaction_response_flat.
    + rewrite (rpc_method_unknown state m params id Hb Ht) in Hr. by injection Hr as <-.
  - intros e He. destruct (Hc e He) as [Hcode Hdata]. split; [|done].
    rewrite !elem_of_cons, elem_of_nil in Hcode. lia.
Qed.

Lemma rpc_call_answered now {RR : ReadsReturn (Tr := Tr)} (state : AppState Tr) id m params resp :
  typed_store state -> sendable id -> sendable params -> within_limits (rpc_request_new id m params) ->
  rpc_handler (mkRpcRequest "2.0" (rpc_method_name m) (opt_value (Some params)) id) state = Ok resp ->
  rpc_call now state (rpc_request_new id m params) =
    Ok (Some (mkResponse (rs_jsonrpc resp) (rs_id resp) (sort_keys <$> result resp) (error resp))).
Proof.
  intros HT Hi Hp Hw Hr. assert (answer_ok resp) as Ha.
  { eapply method_answer_ok; [done|exact Hi| |exact Hr]. destruct Hw as [Hd _]. rewrite request_depth in Hd. lia. }
  unfold rpc_call. rewrite serve_rpc, request_extracted by done. rewrite Hr. cbn [mbind res_bind].
  destruct (response_value_ok _ Ha) as [Hv Hd]. rewrite json_text_read by done. by rewrite response_parsed.
Qed.

(** C36. The two ends of JSON-RPC fit together over text: a request of the protocol crate whose
    id and parameters hold integers and whose text keeps within 2 MiB and 127 levels of
    nesting is read by the gateway, and the text of the answer is read back as a response
    with the request's id and exactly one of result and error; a request over either
    limit gets no JSON-RPC answer.  A client that asks for a block gets the stored one, or
    the error that there is none; for the methods the gateway does not know it gets
    [Method not found]. *)
Theorem rpc_client_answered {RR : ReadsReturn (Tr := Tr)} now (state : AppState Tr) B id :
  db_inv (as_db state) B -> typed_store state -> sendable id ->
  (forall m params, sendable params ->
     (within_limits (rpc_request_new id m params) ->
        exists resp, rpc_call now state (rpc_request_new id m params) = Ok (Some resp) /\
          p_jsonrpc resp = "2.0"%string /\ p_id resp = id /\ (is_Some (p_result resp) <-> p_error resp = None)) /\
     (~ within_limits (rpc_request_new id m params) -> rpc_call now state (rpc_request_new id m params) = Ok None)) /\
  (forall h, in_u64 h -> within_limits (rpc_request_new id GetBlock (JArray [JNumber h])) ->
     rpc_call now state (rpc_request_new id GetBlock (JArray [JNumber h])) =
     Ok (Some (match B !! h with
               | Some b => rpc_success id (sort_keys (block_response_value (block_response b)))
               | None => rpc_error id (mkRpcError (-32001) ("Block not found at height " +:+ pretty h) None)
               end))) /\
  (forall m params, m <> GetBlock -> m <> GetTransaction -> sendable params ->
     within_limits (rpc_request_new id m params) ->
     rpc_call now state (rpc_request_new id m params) =
     Ok (Some (rpc_error id (mkRpcError (-32601) ("Method not found: " +:+ rpc_method_name m) None)))).
Proof.
  intros HB HT Hid. split_and!.
  - intros m params Hp. split; intros Hw.
    + destruct (rpc_answer_conforms (mkRpcRequest "2.0" (rpc_method_name m) (opt_value (Some params)) id) state)
        as (resp & Hr & [Hv Hi Ho _ _ _ _]).
      eexists. split; [by eapply rpc_call_answered|]. split_and!; [done|done|]. cbn [p_result p_error].
      by rewrite fmap_is_Some.
    + unfold rpc_call. by rewrite serve_rpc, request_refused.
  - intros h Hh Hw. assert (sendable (JArray [JNumber h])) as Hp.
    { split; [|done]. cbn [value_ok forallb]. fold (value_ok (JNumber h)). by rewrite u64_ok. }
    erewrite rpc_call_answered by (done || exact (rpc_get_block_served state B h [] id HB Hh)). by destruct (B !! h).
  - intros m params Hb Ht Hp Hw.
    by erewrite rpc_call_answered by (done || exact (rpc_method_unknown state m (opt_value (Some params)) id Hb Ht)).
Qed.
End Client.

(** ** Witnesses: a router and a text format *)

Module HttpExamples.
Export ApiExamples.

Lemma find_unique {A} (f : A -> string) l x : NoDup (f <$> l) -> x ∈ l -> find (fun y => bool_decide (f y = f x)) l = Some x.
Proof.
  induction l as [|y l IH]; [by intros _ ?%not_elem_of_nil|]. cbn. intros [Hni Hnd]%NoDup_cons Hin.
  apply elem_of_cons in Hin as [->|Hin]; [by rewrite bool_decide_true|]. rewrite bool_decide_false; [by apply IH|].
  intros E. apply Hni. rewrite E. by apply list_elem_of_fmap_2.
Qed.

Definition select (m : HttpMethod) (r : option (string * HttpMethod * Endpoint)) (p : option string) : option (Endpoint * option string) :=
  match r with
  | Some (_, m', e) => if bool_decide (m = m') then Some (e, p) else None
  | None => None
  end.

(** Routes spelled out first, then those with a parameter in the last segment. *)
#[export] Instance toy_axum : Axum := {|
  dispatch := fun routes m path =>
    match find (fun r => bool_decide (r.1.1 = path)) routes with
    | Some r => select m (Some r) None
    | None =>
        match cut_last "/" path with
        | Some (a, seg) => select m (find (fun r => bool_decide (shape r = a +:+ "/:")) routes) (Some seg)
        | None => None
        end
    end;
  is_json := fun t => bool_decide (t = "application/json"%string);
  body_limit := 2097152
|}.

(** Two routes with the same shape are the same route. *)
Lemma find_path routes p m e :
  NoDup (shape <$> routes) -> (p, m, e) ∈ routes -> avoids ":" p ->
  find (fun r => bool_decide (r.1.1 = p)) routes = Some (p, m, e).
Proof.
  intros Hnd Hin Hp. assert (NoDup ((fun r => r.1.1) <$> routes)) as Hnd'.
  { clear Hin. induction routes as [|r routes IH]; [constructor|]. cbn in *. apply NoDup_cons in Hnd as [Hni Hnd].
    apply NoDup_cons. split; [|by apply IH]. intros (r' & E & Hr')%list_elem_of_fmap. apply Hni.
    apply list_elem_of_fmap. exists r'. split; [|done]. unfold shape. by rewrite E. }
  apply (find_unique (fun r => r.1.1) routes (p, m, e) Hnd' Hin).
Qed.

#[export] Instance toy_axum_laws : AxumLaws toy_axum.
Proof.
  split.
  - intros routes p m e Hnd Hin Hp. cbn [dispatch toy_axum]. rewrite (find_path routes p m e) by done.
    cbn [select]. by rewrite bool_decide_true.
  - intros routes a name m e seg Hnd Ha Hin (Hne & Hs & _) Hnf. cbn [dispatch toy_axum].
    destruct (find (fun r => bool_decide (r.1.1 = a +:+ "/" +:+ seg)) routes) as [r|] eqn:Ef.
    { apply List.find_some in Ef as [Hr Hb%bool_decide_eq_true_1]. exfalso. apply Hnf. rewrite <- Hb.
      apply (list_elem_of_fmap_2 (fun r => r.1.1)). by apply list_elem_of_In. }
    change (a +:+ "/" +:+ seg) with (a +:+ String "/" seg). rewrite cut_last_app by done.
    assert (shape (a +:+ "/:" +:+ name, m, e) = a +:+ "/:") as Hshape.
    { unfold shape. cbn [fst]. replace (a +:+ "/:" +:+ name) with ((a +:+ "/") +:+ String ":" name) by (by rewrite string_app_assoc).
      rewrite cut_first_app; [by rewrite string_app_assoc|]. apply avoids_app; [done|by split]. }
    rewrite <- Hshape, (find_unique shape routes) by done. cbn [select]. by rewrite bool_decide_true.
  - done.
  - done.
Qed.

(** Values as trees, and trees as binary numbers. *)
Definition leaf : Type := string + Z.

Fixpoint to_tree (v : Value) : gen_tree leaf :=
  match v with
  | JNull => GenNode 0 []
  | JBool false => GenNode 1 []
  | JBool true => GenNode 2 []
  | JNumber n => GenLeaf (inr n)
  | JFloat s => GenNode 3 [GenLeaf (inl s)]
  | JString s => GenLeaf (inl s)
  | JArray l => GenNode 4 (map to_tree l)
  | JObject fields => GenNode 5 (map (fun p => GenNode 6 [GenLeaf (inl p.1); to_tree p.2]) fields)
  end.

Fixpoint of_tree (t : gen_tree leaf) : Value :=
  match t with
  | GenLeaf (inr n) => JNumber n
  | GenLeaf (inl s) => JString s
  | GenNode 1 _ => JBool false
  | GenNode 2 _ => JBool true
  | GenNode 4 l => JArray (map of_tree l)
  | GenNode 5 l =>
      JObject (map (fun t => match t with GenNode _ [GenLeaf (inl k); w] => (k, of_tree w) | _ => (""%string, JNull) end) l)
  | _ => JNull
  end.

Fixpoint binary (p : positive) : string :=
  match p with
  | xH => ""
  | xO p => String "0" (binary p)
  | xI p => String "1" (binary p)
  end.

Fixpoint of_binary (s : string) : positive :=
  match s with
  | "" => xH
  | String a s => if (a =? "0")%char then xO (of_binary s) else xI (of_binary s)
  end%string.

Lemma of_binary_binary p : of_binary (binary p) = p.
Proof. induction p as [p IH|p IH|]; cbn; congruence. Qed.

#[export] Instance toy_json : JsonText := {|
  json_to_string := fun v => binary (encode (to_tree v));
  json_from_str := fun s =>
    match decode (of_binary s) with
    | Some t =>
        if bool_decide (depth (of_tree t) <= recursion_limit)%nat then Ok (sort_keys (of_tree t))
        else Err "recursion limit exceeded"%string
    | None => Err "expected value"%string
    end
|}.

(** Induction through arrays and objects. *)
Fixpoint value_induction (P : Value -> Prop) (Hs : forall v, (forall l, v <> JArray l) -> (forall l, v <> JObject l) -> P v)
    (Ha : forall l, Forall P l -> P (JArray l)) (Ho : forall l, Forall (fun p => P p.2) l -> P (JObject l)) (v : Value) : P v.
Proof.
  destruct v as [|b|n|s|s|l|l]; [by apply Hs..|apply Ha|apply Ho].
  - exact ((fix go (l : list Value) : Forall P l := match l with [] => Forall_nil_2 P | w :: l => Forall_cons_2 P w l (value_induction P Hs Ha Ho w) (go l) end) l).
  - exact ((fix go (l : list (string * Value)) : Forall (fun p => P p.2) l :=
      match l with [] => Forall_nil_2 _ | p :: l => Forall_cons_2 (fun p => P p.2) p l
        (match p return P p.2 with (_, w) => value_induction P Hs Ha Ho w end) (go l) end) l).
Qed.

Lemma of_to_tree v : value_ok v = true -> of_tree (to_tree v) = v.
Proof.
  induction v as [v Ha Ho|l IH|l IH] using value_induction; intros Hv.
  - destruct v as [|[]| | | |l|l]; try done; [by destruct (Ha l)|by destruct (Ho l)].
  - cbn in *. f_equal. rewrite map_map. induction IH as [|w l Hw _ IHl]; [done|]. cbn in *.
    apply andb_true_iff in Hv as [Hv Hl]. by rewrite Hw, IHl.
  - cbn in *. apply andb_true_iff in Hv as [_ Hv]. f_equal. rewrite map_map.
    induction IH as [|[k w] l Hw _ IHl]; [done|]. cbn in *. apply andb_true_iff in Hv as [Hv Hl]. by rewrite Hw, IHl.
Qed.

#[export] Instance toy_json_laws : JsonTextLaws toy_json.
Proof.
  split; intros v Hv Hd; cbn [json_to_string json_from_str toy_json]; rewrite of_binary_binary, decode_encode, of_to_tree by done.
  - by rewrite bool_decide_true.
  - rewrite bool_decide_false by lia. by eexists.
Qed.

(** An array in an array, and so on. *)
Fixpoint nested (n : nat) : Value := match n with O => JNull | S n => JArray [nested n] end.

(** A server that answers every request with the status of [at_boot]. *)
Definition status_server (host : string) (port : Z) (request : string) : res string string :=
  match serve "now" GET "/status" None at_boot with
  | Ok (Handled OK v) => Ok (http_text ["HTTP/1.1 200 OK"; "content-type: application/json"]%string (json_to_string v))
  | _ => Err "connection reset"%string
  end.
End HttpExamples.

Import HttpExamples.

Lemma rest_paths_served_witness :
  serve "now" GET "/blocks/3" None at_boot = ('(c, v) ← block_by_height_handler 3 at_boot; Ok (Handled c v)) /\
  serve "now" GET "/accounts/alice" None at_boot = Ok (Handled OK (account_response_value (account_handler "alice" at_boot))).
Proof.
  destruct (rest_paths_served "now" None at_boot 3 "alice") as (Hb & _ & Ha).
  - unfold in_u64, U64_MAX. lia.
  - repeat split; discriminate.
  - split; [exact Hb|exact Ha].
Defined.

Lemma status_command_shows_node_witness :
  query_status status_server "http://127.0.0.1:9741/" =
  Ok ["Node Status"; "  Version     : 0.1.0"; "  Network     : devnet"; "  Block Height: 3"; "  Peers       : 0";
      "  Synced      : no"; "  Timestamp   : now"]%string.
Proof.
  refine (status_command_shows_node status_server "127.0.0.1" 9741 1 "now"
    ["HTTP/1.1 200 OK"; "content-type: application/json"]%string at_boot 3 _ _ _ _ _ _ _ _).
  - repeat split; discriminate.
  - lia.
  - discriminate.
  - repeat constructor; discriminate.
  - intros v Hv. unfold status_server. rewrite Hv. reflexivity.
  - reflexivity.
  - unfold in_u64, U64_MAX. lia.
  - cbn. unfold in_u64, U64_MAX. lia.
Defined.

(** The numbers of a decoded value are 64 bits wide. *)
Definition wide (numbers : list Z) : bool := forallb (fun n => (0 <=? n) && (n <=? U64_MAX)) numbers.

Definition block_numbers (b : Block) : list Z :=
  [height (header b); timestamp (header b); Z.of_nat (length (transactions b))].

Definition tx_numbers (tx : Transaction) : list Z := [value (tx_amount tx); tx_fee tx; tx_timestamp tx].

Definition decoded_wide {A} (de : list Z -> res string A) (numbers : A -> list Z) (v : list Z) : bool :=
  match de v with Ok a => wide (numbers a) | _ => true end.

Lemma wide_u64 numbers n : wide numbers = true -> n ∈ numbers -> in_u64 n.
Proof.
  unfold wide. rewrite List.forallb_forall. intros Hw Hn%list_elem_of_In. apply Hw in Hn.
  apply andb_true_iff in Hn as [H0%Z.leb_le H1%Z.leb_le]. by split.
Qed.

Lemma get_decoded_wide {A : Type} (t : gmap (list Z) (list Z)) (de : list Z -> res string A) (numbers : A -> list Z) k a :
  forallb (fun p => decoded_wide de numbers p.2) (map_to_list t) = true ->
  get_decoded t de k = Ok (Some a) -> wide (numbers a) = true.
Proof.
  intros Hf. unfold get_decoded. rewrite sled_get_ok. cbn [map_err_res mbind res_bind].
  destruct (view t k) as [v|] eqn:Ev; [|done].
  rewrite List.forallb_forall in Hf. assert (In (k, v) (map_to_list t)) as Hin.
  { apply list_elem_of_In, elem_of_map_to_list. exact Ev. }
  specialize (Hf _ Hin). unfold decoded_wide in Hf. cbn [snd] in Hf.
  destruct (de v) as [a'| |]; cbn; [|done..]. by intros [= <-].
Qed.

Lemma boot_blocks_wide :
  forallb (fun p => decoded_wide block_de block_numbers p.2) (map_to_list (db_blocks gap_db)) = true.
Proof. vm_compute. reflexivity. Qed.

Lemma boot_transactions_wide :
  forallb (fun p => decoded_wide tx_de tx_numbers p.2) (map_to_list (db_transactions gap_db)) = true.
Proof. vm_compute. reflexivity. Qed.

Lemma at_boot_typed : typed_store at_boot.
Proof.
  split; cbn [as_db at_boot].
  - intros h b Hg. apply (get_decoded_wide (db_blocks gap_db) block_de block_numbers (be_bytes 8 h) b boot_blocks_wide) in Hg.
    split_and!; apply (wide_u64 _ _ Hg); unfold block_numbers; set_solver.
  - intros h tx Hg.
    apply (get_decoded_wide (db_transactions gap_db) tx_de tx_numbers (str_bytes h) tx boot_transactions_wide) in Hg.
    split_and!; apply (wide_u64 _ _ Hg); unfold tx_numbers; set_solver.
Qed.

Lemma rpc_client_answered_witness :
  rpc_call "now" at_boot (rpc_request_new (JNumber 7) GetBlock (JArray [JNumber 3])) =
    Ok (Some (rpc_success (JNumber 7) (sort_keys (block_response_value (block_response (at_height 3)))))) /\
  (exists resp, rpc_call "now" at_boot (rpc_request_new (JNumber 7) GetBalance JNull) = Ok (Some resp) /\ p_id resp = JNumber 7) /\
  rpc_call "now" at_boot (rpc_request_new (JNumber 7) GetBlock (nested 127)) = Ok None.
Proof.
  destruct (rpc_client_answered (RR := boot_reads) "now" at_boot _ (JNumber 7) gap_db_inv at_boot_typed) as (Ha & Hb & _);
    [by split|]. split_and!.
  - rewrite (Hb 3); [|unfold in_u64, U64_MAX; lia|split; [vm_compute; lia|vm_compute; discriminate]].
    rewrite lookup_insert_eq. reflexivity.
  - destruct (Ha GetBalance JNull) as [Hok _]; [by split|].
    destruct Hok as (resp & Hr & _ & Hi & _); [split; [vm_compute; lia|vm_compute; discriminate]|].
    exists resp. split; [exact Hr|exact Hi].
  - destruct (Ha GetBlock (nested 127)) as [_ Hno]; [by split; vm_compute|]. apply Hno. intros [Hd _].
    vm_compute in Hd. lia.
Defined.
