(* ===== verification/Events.v ===== *)
(** * Live events

    The WebSocket side of [node/src/api.rs] and the stand-in for consensus that
    [node/src/main.rs] runs in a node that does not validate.  Events travel through a
    broadcast channel of the [tokio] crate, the class [Broadcast]: a sender that keeps a
    bounded number of values, and receivers that each remember how far they have read.
    A connection is driven by a schedule of inputs, because [select!] takes whichever of
    its two branches is ready. *)

From S2P Require Import Prelude Bytes Crypto Transaction Block Sled StateTree Db Consensus Producer Identity Keys Ntp Api Boot.

#[local] Open Scope Z_scope.

Inductive NodeEvent :=
| NewBlock (height : Z) (hash : string) (tx_count timestamp : Z)
| NewTransaction (hash sender recipient : string) (amount : Z).

(** [tokio::sync::broadcast] *)
Inductive RecvResult :=
| Received (e : NodeEvent)
| Lagged (n : nat)
| Closed.

Class Broadcast := {
  Sender : Type;
  Receiver : Type;
  channel : nat -> Sender;
  subscribe : Sender -> Receiver;
  send : NodeEvent -> Sender -> Sender;
  (** [None] while there is nothing to receive. *)
  recv : Receiver -> Sender -> option (RecvResult * Receiver)
}.

(** The documentation: a receiver gets the values sent after it subscribed, in order; the
    channel retains at least [capacity] values, and a receiver that falls further behind
    is told how many it missed and continues with the oldest retained one.  The handler
    holds a sender itself, so the channel does not close. *)
Class BroadcastLaws (B : Broadcast) := {
  sent : Sender -> list NodeEvent;
  seen : Receiver -> nat;
  retained : Sender -> nat;
  channel_sent : forall n, sent (channel n) = [];
  channel_retained : forall n, (n <= retained (channel n))%nat;
  subscribe_seen : forall c, seen (subscribe c) = length (sent c);
  send_sent : forall e c, sent (send e c) = sent c ++ [e];
  send_retained : forall e c, retained (send e c) = retained c;
  recv_empty : forall r c, seen r = length (sent c) -> recv r c = None;
  recv_lagged : forall r c, (seen r + retained c < length (sent c))%nat ->
    exists r', recv r c = Some (Lagged (length (sent c) - retained c - seen r), r') /\
      seen r' = (length (sent c) - retained c)%nat;
  recv_next : forall r c e, (length (sent c) <= seen r + retained c)%nat -> sent c !! seen r = Some e ->
    exists r', recv r c = Some (Received e, r') /\ seen r' = S (seen r)
}.

(** [serde_json::to_string] of an event. *)
Class EventCodec := { json_event : NodeEvent -> option string }.

Section Ws.
Context {B : Broadcast} {J : EventCodec}.

(** A connection: its receiver, the text messages it has sent, the warnings it has logged
    about missed events, and whether its loop still runs. *)
Record Conn := mkConn {
  ws_rx : Receiver;
  ws_sent : list string;
  ws_lagged : list nat;
  ws_open : bool
}.

Definition ws_connect (event_tx : Sender) : Conn := mkConn (subscribe event_tx) [] [] true.

(** The branch of [rx.recv()]; [delivered] is whether [socket.send] succeeds. *)
Definition rx_branch (delivered : bool) (event : RecvResult) (rx : Receiver) (c : Conn) : Conn :=
  match event with
  | Received ev =>
      match json_event ev with
      | Some payload =>
          if delivered then mkConn rx (ws_sent c ++ [payload]) (ws_lagged c) true
          else mkConn rx (ws_sent c) (ws_lagged c) false
      | None => mkConn rx (ws_sent c) (ws_lagged c) true
      end
  | Lagged n => mkConn rx (ws_sent c) (ws_lagged c ++ [n]) true
  | Closed => mkConn rx (ws_sent c) (ws_lagged c) false
  end.

(** The branch of [socket.recv()]: a message, an error, or the end of the stream. *)
Definition socket_branch (msg : option bool) (c : Conn) : Conn :=
  match msg with
  | Some true => c
  | _ => mkConn (ws_rx c) (ws_sent c) (ws_lagged c) false
  end.

Inductive WsInput :=
| Publish (e : NodeEvent)
| PollRx (delivered : bool)
| ClientSays (msg : option bool).

(** One turn of the loop of [handle_ws_connection], or somebody sending an event. *)
Definition ws_turn (s : Sender * Conn) (i : WsInput) : Sender * Conn :=
  let '(tx, c) := s in
  match i with
  | Publish e => (send e tx, c)
  | PollRx delivered =>
      if ws_open c then
        match recv (ws_rx c) tx with
        | Some (event, rx) => (tx, rx_branch delivered event rx c)
        | None => (tx, c)
        end
      else (tx, c)
  | ClientSays msg => if ws_open c then (tx, socket_branch msg c) else (tx, c)
  end.

Definition handle_ws_connection (inputs : list WsInput) (s : Sender * Conn) : Sender * Conn := fold_left ws_turn inputs s.

(** The events of a schedule. *)
Definition published (inputs : list WsInput) : list NodeEvent :=
  omap (fun i => match i with Publish e => Some e | _ => None end) inputs.
End Ws.

(** ** What a subscriber receives *)

Section WsProofs.
Context {B : Broadcast} {BL : BroadcastLaws B} {J : EventCodec}.

Lemma sublist_full {A} (l k : list A) : sublist l k -> (length k <= length l)%nat -> l = k.
Proof.
  induction 1 as [|x l k Hl IH|x l k Hl IH]; cbn; intros Hlen; [done|f_equal; apply IH; lia|].
  apply sublist_length in Hl. lia.
Qed.

(** What a connection has received of the events [log] that were sent after it
    subscribed: [evs], leaving out those it was warned about. *)
Record stream_inv (base : nat) (log : list NodeEvent) (evs : list NodeEvent) (s : Sender * Conn) : Prop := {
  sv_log : drop base (sent s.1) = log;
  sv_base : (base <= length (sent s.1))%nat;
  sv_seen : (base <= seen (ws_rx s.2) <= length (sent s.1))%nat;
  sv_sub : sublist evs (take (seen (ws_rx s.2) - base) log);
  sv_sent : ws_open s.2 = true -> ws_sent s.2 = omap json_event evs;
  sv_prefix : exists rest, omap json_event evs = ws_sent s.2 ++ rest;
  sv_count : (length evs + sum_list (ws_lagged s.2) = seen (ws_rx s.2) - base)%nat
}.

Lemma connect_inv tx : stream_inv (length (sent tx)) [] [] (tx, ws_connect tx).
Proof.
  split; cbn; rewrite ?subscribe_seen; try done; try lia; [by rewrite drop_all|apply sublist_nil_l|by exists []].
Qed.

(** Receiving the next event. *)
Lemma received_inv base log evs tx c e rx delivered :
  stream_inv base log evs (tx, c) -> ws_open c = true -> sent tx !! seen (ws_rx c) = Some e ->
  seen rx = S (seen (ws_rx c)) -> stream_inv base log (evs ++ [e]) (tx, rx_branch delivered (Received e) rx c).
Proof.
  intros [Hlog Hbase Hseen Hsub Hsent _ Hcount] Hop He Hrx. cbn [fst snd] in *. specialize (Hsent Hop).
  pose proof (lookup_lt_Some _ _ _ He) as Hlt.
  assert (ws_rx (rx_branch delivered (Received e) rx c) = rx /\ ws_lagged (rx_branch delivered (Received e) rx c) = ws_lagged c)
    as [Er El] by (cbn; destruct (json_event e), delivered; done).
  split; cbn [fst snd]; rewrite ?Er, ?El, ?Hrx; try done; [lia| | | |].
  - replace (S (seen (ws_rx c)) - base)%nat with (S (seen (ws_rx c) - base)) by lia.
    rewrite (take_S_r _ _ e); [by apply sublist_app|]. rewrite <- Hlog, lookup_drop. by replace (base + (seen (ws_rx c) - base))%nat with (seen (ws_rx c)) by lia.
  - rewrite omap_app. cbn. destruct (json_event e), delivered; cbn; rewrite ?app_nil_r; congruence.
  - exists (match json_event e, delivered with Some p, false => [p] | _, _ => [] end).
    rewrite omap_app, <- Hsent. cbn. by destruct (json_event e), delivered; cbn; rewrite ?app_nil_r.
  - rewrite length_app. cbn. lia.
Qed.

Lemma lagged_inv base log evs tx c n rx :
  stream_inv base log evs (tx, c) -> ws_open c = true ->
  (seen rx = seen (ws_rx c) + n)%nat -> (seen rx <= length (sent tx))%nat ->
  stream_inv base log evs (tx, rx_branch true (Lagged n) rx c).
Proof.
  intros [Hlog Hbase Hseen Hsub Hsent Hpre Hcount] Hop Hrx Hle. cbn [fst snd] in *.
  split; cbn [fst snd rx_branch ws_rx ws_sent ws_lagged]; try done; [lia| |intros _; by apply Hsent|].
  - etransitivity; [exact Hsub|]. rewrite Hrx.
    replace (seen (ws_rx c) + n - base)%nat with (seen (ws_rx c) - base + n)%nat by lia.
    rewrite <- take_take_drop. by apply sublist_inserts_r.
  - rewrite sum_list_with_app. cbn. lia.
Qed.

Lemma publish_inv base log evs tx c e :
  stream_inv base log evs (tx, c) -> stream_inv base (log ++ [e]) evs (send e tx, c).
Proof.
  intros [Hlog Hbase Hseen Hsub Hsent Hpre Hcount]. cbn [fst snd] in *.
  split; cbn [fst snd]; rewrite ?send_sent, ?length_app; try done; [|cbn; lia..|].
  - by rewrite drop_app_le, Hlog.
  - rewrite take_app_le; [done|]. rewrite <- Hlog, length_drop. lia.
Qed.

Lemma close_inv base log evs tx c msg :
  stream_inv base log evs (tx, c) -> stream_inv base log evs (tx, socket_branch msg c).
Proof.
  intros Hs. destruct msg as [[]|]; [done| |]; destruct Hs; by split.
Qed.

Lemma ws_turn_inv base log evs s i :
  stream_inv base log evs s -> exists evs', stream_inv base (log ++ published [i]) evs' (ws_turn s i).
Proof.
  destruct s as [tx c]. intros Hs. destruct i as [e|delivered|msg]; cbn [ws_turn published omap list_omap].
  - exists evs. by apply publish_inv.
  - rewrite app_nil_r. destruct (ws_open c) eqn:Hop; [|by exists evs].
    pose proof (sv_seen _ _ _ _ Hs) as Hseen. cbn [fst snd] in Hseen.
    destruct (decide (seen (ws_rx c) = length (sent tx))) as [He|Hne]; [rewrite recv_empty by done; by exists evs|].
    destruct (decide (seen (ws_rx c) + retained tx < length (sent tx))%nat) as [Hlag|Hfit].
    + destruct (recv_lagged _ _ Hlag) as (rx & -> & Hrx). exists evs. apply (lagged_inv _ _ _ _ _ _ _ Hs Hop); lia.
    + destruct (lookup_lt_is_Some_2 (sent tx) (seen (ws_rx c)) ltac:(lia)) as [e He].
      destruct (recv_next (ws_rx c) tx e ltac:(lia) He) as (rx & -> & Hrx). exists (evs ++ [e]). by apply received_inv.
  - rewrite app_nil_r. exists evs. destruct (ws_open c); [by apply close_inv|done].
Qed.

Lemma ws_run_inv base log evs s inputs :
  stream_inv base log evs s -> exists evs', stream_inv base (log ++ published inputs) evs' (handle_ws_connection inputs s).
Proof.
  revert log evs s; induction inputs as [|i inputs IH]; intros log evs s Hs; [exists evs; by rewrite app_nil_r|].
  destruct (ws_turn_inv _ _ _ _ i Hs) as [evs1 H1]. destruct (IH _ _ _ H1) as [evs2 H2].
  exists evs2. rewrite <- app_assoc in H2. unfold published in *. by rewrite <- omap_app in H2.
Qed.

(** Reading on without new events: everything that is retained arrives. *)
Lemma drain tx c n :
  ws_open c = true -> (length (sent tx) = seen (ws_rx c) + n)%nat -> (n <= retained tx)%nat ->
  exists rx, handle_ws_connection (replicate n (PollRx true)) (tx, c) =
    (tx, mkConn rx (ws_sent c ++ omap json_event (drop (seen (ws_rx c)) (sent tx))) (ws_lagged c) true) /\
    seen rx = length (sent tx).
Proof.
  revert c; induction n as [|n IH]; intros c Hop Hn Hr.
  - exists (ws_rx c). rewrite drop_ge by lia. cbn. rewrite app_nil_r. destruct c; cbn in *. subst. split; [done|lia].
  - destruct (lookup_lt_is_Some_2 (sent tx) (seen (ws_rx c)) ltac:(lia)) as [e He].
    destruct (recv_next (ws_rx c) tx e ltac:(lia) He) as (rx & Hrecv & Hrx).
    cbn [replicate handle_ws_connection fold_left ws_turn]. rewrite Hop, Hrecv.
    fold (handle_ws_connection (replicate n (PollRx true)) (tx, rx_branch true (Received e) rx c)).
    rewrite (drop_S _ _ _ He). cbn [omap list_omap].
    destruct (IH (rx_branch true (Received e) rx c)) as (rx' & Hrun & Hrx').
    { cbn. by destruct (json_event e). }
    { cbn. destruct (json_event e); cbn; lia. }
    { lia. }
    exists rx'. split; [|done]. rewrite Hrun. cbn [rx_branch].
    destruct (json_event e); cbn [ws_sent ws_rx ws_lagged]; rewrite Hrx, <- ?app_assoc; done.
Qed.

(** C39. A subscriber's stream, whatever happens in which order: the messages it is sent are
    the events published since it connected, in their order, without repetition; what is
    missing is what it was warned about, event by event, and the one it failed to take
    when it went away.  If it keeps up with the capacity of the channel it gets them all. *)
Theorem subscriber_stream tx inputs :
  let s := handle_ws_connection inputs (tx, ws_connect tx) in
  let k := (seen (ws_rx s.2) - length (sent tx))%nat in
  exists evs rest, sublist evs (take k (published inputs)) /\ omap json_event evs = ws_sent s.2 ++ rest /\
    (length evs + sum_list (ws_lagged s.2) = k)%nat /\ (ws_open s.2 = true -> rest = []) /\
    (ws_open s.2 = true -> ws_lagged s.2 = [] -> (length (published inputs) <= k + retained s.1)%nat ->
     ws_sent (handle_ws_connection (inputs ++ replicate (length (published inputs) - k) (PollRx true)) (tx, ws_connect tx)).2 =
       omap json_event (published inputs)).
Proof.
  cbv zeta. destruct (ws_run_inv _ _ _ _ inputs (connect_inv tx)) as [evs Hs]. cbn [app] in Hs.
  destruct (handle_ws_connection inputs (tx, ws_connect tx)) as [tx' c] eqn:Er. cbn [fst snd].
  destruct Hs as [Hlog Hbase Hseen Hsub Hsent [rest Hpre] Hcount]. cbn [fst snd] in *.
  exists evs, rest. split; [done|]. split; [done|]. split; [done|]. split.
  { intros Hop. apply (app_inv_head (ws_sent c)). rewrite app_nil_r, <- Hpre. symmetry. by apply Hsent. }
  intros Hop Hlag Hfit. rewrite Hlag in Hcount. cbn in Hcount.
  assert (length (published inputs) = length (sent tx') - length (sent tx))%nat as Hlen by (by rewrite <- Hlog, length_drop).
  unfold handle_ws_connection in *. rewrite fold_left_app, Er.
  fold (handle_ws_connection (replicate (length (published inputs) - (seen (ws_rx c) - length (sent tx))) (PollRx true)) (tx', c)).
  destruct (drain tx' c (length (published inputs) - (seen (ws_rx c) - length (sent tx))) Hop) as (rx & -> & _); [lia..|].
  cbn [snd ws_sent]. rewrite Hsent by done.
  assert (evs = take (seen (ws_rx c) - length (sent tx)) (published inputs)) as ->.
  { apply sublist_full; [done|]. rewrite length_take. lia. }
  rewrite <- omap_app. f_equal. rewrite <- (take_drop (seen (ws_rx c) - length (sent tx)) (published inputs)) at 2. f_equal.
  rewrite <- Hlog, drop_drop. f_equal. lia.
Qed.
End WsProofs.

(** ** A node without a consensus loop *)

(** The [prometheus] crate: counters, gauges and histograms are made from a name that has
    to be valid, and a registry refuses a name that it has. *)
Class Prometheus := {
  Registry : Type;
  new_custom : string -> option Registry;
  metric_valid : string -> bool;
  register : string -> Registry -> option Registry
}.

Class PrometheusLaws (P : Prometheus) := {
  registered : Registry -> gset string;
  new_custom_ok : forall prefix, exists r, new_custom prefix = Some r /\ registered r = ∅;
  register_ok : forall name r, name ∉ registered r ->
    exists r', register name r = Some r' /\ registered r' = {[name]} ∪ registered r;
  register_twice : forall name r, name ∈ registered r -> register name r = None
}.

(** The handles; the gauges are signed, a histogram is the list of what it observed. *)
Record NodeMetrics := mkMetrics {
  m_blocks_processed_total : Z;
  m_transactions_processed_total : Z;
  m_transactions_in_mempool : Z;
  m_connected_peers : Z;
  m_consensus_rounds_total : Z;
  m_block_height : Z;
  m_transaction_latency_seconds : list Z
}.

Definition metric_names : list string :=
  ["blocks_processed_total"; "transactions_processed_total"; "transactions_in_mempool"; "connected_peers";
   "consensus_rounds_total"; "block_height"; "transaction_latency_seconds"]%string.

Definition zero_metrics : NodeMetrics := mkMetrics 0 0 0 0 0 0 [].

Section Metrics.
Context {P : Prometheus}.

(** Each metric is created, then registered; both are [expect]ed. *)
Fixpoint register_all {E} (names : list string) (r : Registry) : res E Registry :=
  match names with
  | [] => Ok r
  | name :: rest =>
      _ ← expect (if metric_valid name then Some tt else None);
      r' ← expect (register name r);
      register_all rest r'
  end.

Definition metrics_new {E} : res E (Registry * NodeMetrics) :=
  r ← expect (new_custom "nova");
  r' ← register_all metric_names r;
  Ok (r', zero_metrics).
End Metrics.

Lemma register_all_ok {P : Prometheus} {PL : PrometheusLaws P} {E} names r :
  NoDup names -> (forall n, n ∈ names -> n ∉ registered r) -> (forall n, n ∈ names -> metric_valid n = true) ->
  exists r', register_all (E := E) names r = Ok r' /\ registered r' = list_to_set names ∪ registered r.
Proof.
  intros Hn. revert r; induction Hn as [|name names Hni Hn IH]; intros r Hr Hv; [exists r; split; [done|set_solver]|].
  cbn [register_all]. rewrite Hv by set_solver. cbn [expect mbind res_bind].
  destruct (register_ok name r) as (r1 & -> & H1); [set_solver|]. cbn [expect mbind res_bind].
  destruct (IH r1) as (r2 & H2 & Hr2); [set_solver..|]. exists r2. split; [exact H2|]. rewrite Hr2, H1. set_solver.
Qed.

(** Start-up does not fail on the metrics: their names are distinct, and all of them are
    registered, at zero. *)
Lemma metrics_new_ok {P : Prometheus} {PL : PrometheusLaws P} {E} :
  (forall n, n ∈ metric_names -> metric_valid n = true) ->
  exists r, metrics_new (E := E) = Ok (r, zero_metrics) /\ registered r = list_to_set metric_names.
Proof.
  intros Hv. unfold metrics_new. destruct (new_custom_ok "nova") as (r & -> & Hr). cbn [expect mbind res_bind].
  destruct (register_all_ok (E := E) metric_names r) as (r' & -> & Hr').
  - unfold metric_names. repeat (constructor; [set_solver|]). constructor.
  - rewrite Hr. set_solver.
  - done.
  - exists r'. split; [done|]. rewrite Hr', Hr. set_solver.
Qed.

(** [format!("{:064x}", h)] *)
Definition hex_digit (z : Z) : Ascii.ascii := Ascii.ascii_of_N (Z.to_N (if z <? 10 then 48 + z else 87 + z)).

Fixpoint hex_fixed (width : nat) (z : Z) (acc : string) : string :=
  match width with
  | O => acc
  | S w => hex_fixed w (z / 16) (String (hex_digit (z mod 16)) acc)
  end.

Definition set_block_metrics (h total : Z) (m : NodeMetrics) : NodeMetrics :=
  mkMetrics total (m_transactions_processed_total m) (m_transactions_in_mempool m) (m_connected_peers m)
    (m_consensus_rounds_total m) h (m_transaction_latency_seconds m).

Section Stub.
Context {B : Broadcast}.

Record StubNode := mkStub { sn_height : Z; sn_metrics : NodeMetrics; sn_events : Sender }.

(** One tick of the interval: [fetch_add] wraps, the [+ 1] on what it returns does not. *)
Definition stub_tick {E} (now_ms : Z) (n : StubNode) : res E StubNode :=
  h ← expect (checked_add (sn_height n) 1);
  Ok (mkStub ((sn_height n + 1) mod 2 ^ 64)
    (set_block_metrics (as_i64 h) (m_blocks_processed_total (sn_metrics n) + 1) (sn_metrics n))
    (send (NewBlock h (hex_fixed 64 h "") 0 now_ms) (sn_events n))).

Fixpoint stub_run {E} (times : list Z) (n : StubNode) : res E StubNode :=
  match times with
  | [] => Ok n
  | t :: rest => n' ← stub_tick t n; stub_run rest n'
  end.
End Stub.

Section StubProofs.
Context {B : Broadcast} {BL : BroadcastLaws B}.
Context {C : Crypto} {L : CryptoLaws C} {K : AccountCodec} {SC : StorageCodec} {SCL : StorageCodecLaws SC} {T : TxCodec}.
Context {Tr : Type} `{Sd : Sled Tr} {SL : SledLaws Tr} {SH : SledHealthy Tr}.

(** The announcements from height [h] on. *)
Fixpoint announced (h : Z) (times : list Z) : list NodeEvent :=
  match times with [] => [] | t :: rest => NewBlock (h + 1) (hex_fixed 64 (h + 1) "") 0 t :: announced (h + 1) rest end.

Lemma stub_run_spec {E} times n :
  0 <= sn_height n -> sn_height n + Z.of_nat (length times) <= U64_MAX ->
  exists n', stub_run (E := E) times n = Ok n' /\ sn_height n' = sn_height n + Z.of_nat (length times) /\
    sent (sn_events n') = sent (sn_events n) ++ announced (sn_height n) times /\
    m_blocks_processed_total (sn_metrics n') = m_blocks_processed_total (sn_metrics n) + Z.of_nat (length times) /\
    (m_block_height (sn_metrics n) = as_i64 (sn_height n) -> m_block_height (sn_metrics n') = as_i64 (sn_height n')).
Proof.
  revert n; induction times as [|t times IH]; intros n H0 Hn; cbn [stub_run announced length] in *.
  { exists n. rewrite app_nil_r. split_and!; [done|lia|done|lia|done]. }
  unfold stub_tick, expect, checked_add. rewrite (proj2 (Z.leb_le _ _)) by lia. cbn [mbind res_bind].
  rewrite Z.mod_small by (unfold U64_MAX in *; lia).
  destruct (IH (mkStub (sn_height n + 1) (set_block_metrics (as_i64 (sn_height n + 1)) (m_blocks_processed_total (sn_metrics n) + 1) (sn_metrics n))
    (send (NewBlock (sn_height n + 1) (hex_fixed 64 (sn_height n + 1) "") 0 t) (sn_events n)))) as (n' & Hrun & Hh & Hs & Hb & Hm);
    cbn [sn_height sn_events sn_metrics m_blocks_processed_total m_block_height set_block_metrics] in *; [lia..|].
  exists n'. split_and!; [exact Hrun|lia|by rewrite Hs, send_sent, <- app_assoc|lia|]. intros _. by apply Hm.
Qed.

(** A node that does not validate announces a block on every tick; none of them exists:
    the interface of the same node answers its height with the genesis height and every
    announced height with not found. *)
Theorem stub_announces_missing_blocks {E} times n (app : AppState Tr) :
  sn_height n = 0 -> Z.of_nat (length times) <= U64_MAX ->
  db_inv (as_db app) (<[0 := genesis]> ∅) -> get_latest_block_height (as_db app) = Ok (Some 0) ->
  exists n', stub_run (E := E) times n = Ok n' /\ sn_height n' = Z.of_nat (length times) /\
    sent (sn_events n') = sent (sn_events n) ++ announced 0 times /\
    current_height app = Ok 0 /\
    forall h, 1 <= h <= Z.of_nat (length times) ->
      exists e, block_by_height_handler h app = Ok (NOT_FOUND, error_response_value e).
Proof.
  intros H0 Hn Hd Hl. destruct (stub_run_spec (E := E) times n) as (n' & Hrun & Hh & Hs & _); [lia..|]. rewrite H0 in *.
  exists n'. split_and!; try done. { unfold current_height. by rewrite Hl. }
  intros h Hh1. unfold block_by_height_handler. rewrite (get_block_inv h _ _ Hd) by (unfold in_u64; lia).
  rewrite lookup_insert_ne, lookup_empty by lia. by eexists.
Qed.
End StubProofs.

(** ** Witnesses: a channel that keeps everything it was sent *)

Module EventExamples.
Export BootExamples.

(** The values sent and the capacity; a receiver is a position. *)
#[export] Instance ring : Broadcast := {|
  Sender := list NodeEvent * nat;
  Receiver := nat;
  channel n := ([], n);
  subscribe c := length c.1;
  send e c := (c.1 ++ [e], c.2);
  recv r c :=
    if (r + c.2 <? length c.1)%nat then Some (Lagged (length c.1 - c.2 - r), (length c.1 - c.2)%nat)
    else match c.1 !! r with Some e => Some (Received e, S r) | None => None end
|}.

#[export] Instance ring_laws : BroadcastLaws ring.
Proof.
  refine (Build_BroadcastLaws ring (fun c : list NodeEvent * nat => c.1) (fun r : nat => r)
    (fun c : list NodeEvent * nat => c.2) _ _ _ _ _ _ _ _); try done.
  - intros r c Hr. cbn [recv ring]. rewrite (proj2 (Nat.ltb_ge _ _)) by lia. by rewrite lookup_ge_None_2 by lia.
  - intros r c Hr. cbn [recv ring]. rewrite (proj2 (Nat.ltb_lt _ _)) by lia. by eexists.
  - intros r c e Hr He. cbn [recv ring]. rewrite (proj2 (Nat.ltb_ge _ _)), He by lia. by eexists.
Defined.

#[export] Instance event_text : EventCodec := {|
  json_event e := Some match e with NewBlock _ h _ _ => h | NewTransaction h _ _ _ => h end
|}.

(** A registry that is the set of its names. *)
#[export] Instance names_registry : Prometheus := {|
  Registry := gset string;
  new_custom _ := Some ∅;
  metric_valid _ := true;
  register name r := if decide (name ∈ r) then None else Some ({[name]} ∪ r)
|}.

#[export] Instance names_registry_laws : PrometheusLaws names_registry.
Proof.
  refine (Build_PrometheusLaws names_registry (fun r : gset string => r) _ _ _).
  - intros prefix. by eexists.
  - intros name r Hn. cbn. rewrite decide_False by done. by eexists.
  - intros name r Hn. cbn. by rewrite decide_True.
Defined.

Definition pay_event (h : string) : NodeEvent := NewTransaction h "alice" "bob" 5.

Definition session : list WsInput := [Publish (pay_event "a"); PollRx true; Publish (pay_event "b"); ClientSays (Some true)].

Definition silent : StubNode := mkStub 0 zero_metrics (channel 256).

(** The interface of a node with a fresh chain. *)
Definition idle_app : AppState (gmap (list Z) (list Z)) :=
  mkAppState "0.1.0" "devnet" 0 0 (put_block genesis open_temporary).2 (state_tree_new ∅).
End EventExamples.

Import EventExamples.

Lemma subscriber_stream_witness :
  ws_sent (handle_ws_connection (session ++ [PollRx true]) (channel 2, ws_connect (channel 2))).2 = ["a"; "b"]%string.
Proof.
  destruct (subscriber_stream (channel 2) session) as (evs & rest & _ & _ & _ & _ & H).
  apply H; [reflexivity|reflexivity|]. vm_compute. lia.
Defined.

Lemma stub_announces_missing_blocks_witness :
  exists n', stub_run (E := unit) [5; 2005] silent = Ok n' /\ sn_height n' = 2 /\ current_height idle_app = Ok 0.
Proof.
  destruct (stub_announces_missing_blocks (E := unit) [5; 2005] silent idle_app) as (n' & H1 & H2 & _ & H3 & _).
  - reflexivity.
  - unfold U64_MAX. simpl. lia.
  - destruct (put_block_tip genesis (open_temporary : NovaDB (gmap (list Z) (list Z))) ∅ open_temporary_inv) as (d' & Hp & HB & _).
    + by split.
    + cbn [as_db idle_app]. rewrite Hp. exact HB.
  - vm_compute. reflexivity.
  - exists n'. split; [exact H1|]. split; [exact H2|exact H3].
Defined.
