(* ===== verification/Telemetry.v ===== *)
(** * Logging and the metrics page

    [node/src/logging.rs]: the global subscriber, with its filter and its format;
    [node/src/metrics.rs]: the encoding of the registry as text and the handler of
    [/metrics].  Filters are the class [Filters], the text encoder of the [prometheus]
    crate is the class [Exposition]. *)

From Stdlib Require Import Ascii.
From S2P Require Import Prelude Bytes Crypto Transaction Text Events.

#[local] Open Scope Z_scope.

(** ** Logging *)

(** [EnvFilter]: the directives of [RUST_LOG], refused when they do not parse, and the
    lossy constructor for the directives of the program. *)
Class Filters := {
  EnvFilter : Type;
  filter_try : string -> option EnvFilter;
  filter_new : string -> EnvFilter
}.

(** What the layer of a format writes with each record. *)
Record Subscriber (F : Type) := mkSubscriber {
  sub_filter : F;
  sub_json : bool;
  sub_target : bool;
  sub_file : bool;
  sub_line_number : bool
}.
Arguments mkSubscriber {F}.
Arguments sub_filter {F}.
Arguments sub_json {F}.

Section Logging.
Context {F : Filters}.

(** The subscriber of the process, set once: [init] panics when there is one. *)
Definition subscriber_init {E} (s : Subscriber EnvFilter) : M (option (Subscriber EnvFilter)) E unit := fun global =>
  match global with
  | None => (Ok tt, Some s)
  | Some _ => (Panic, global)
  end.

(** [rust_log] is the environment variable. *)
Definition env_filter (rust_log : option string) (default_level : string) : EnvFilter :=
  default (filter_new default_level) (rust_log ≫= filter_try).

Definition init_logging {E} (rust_log : option string) (default_level : string) (format : LogFormat)
    : M (option (Subscriber EnvFilter)) E unit :=
  let filter := env_filter rust_log default_level in
  match format with
  | Pretty => subscriber_init (mkSubscriber filter false true true true)
  | Json => subscriber_init (mkSubscriber filter true true false false)
  end.

(** The directives [run_node] makes from [--log-level]. *)
Definition log_filter (log_level : string) : string :=
  "nova_node=" +:+ log_level +:+ ",nova_protocol=" +:+ log_level +:+ ",tower_http=debug".

Definition run_logging {E} (rust_log : option string) (log_level : string)
    : M (option (Subscriber EnvFilter)) E unit :=
  init_logging rust_log (log_filter log_level) Pretty.

(** The first call succeeds whatever the level says, with directives that parse in the
    environment before those of the level, and never as JSON; every later call panics and changes
    nothing, whatever it asks for. *)
Theorem logging_once {E} rust_log level :
  exists s, run_logging (E := E) rust_log level None = (Ok tt, Some s) /\ sub_json s = false /\
    sub_filter s = match rust_log with
                   | Some d => default (filter_new (log_filter level)) (filter_try d)
                   | None => filter_new (log_filter level)
                   end /\
    forall rust_log' d format, init_logging (E := E) rust_log' d format (Some s) = (Panic, Some s).
Proof. eexists. split; [reflexivity|]. split_and!; [done|by destruct rust_log|by intros ? ? []]. Qed.
End Logging.

(** ** UTF-8 *)

Definition in_range (a b z : Z) : bool := (a <=? z) && (z <=? b).

(** The well-formed byte sequences of [String::from_utf8]. *)
Fixpoint utf8_valid (l : list Z) : bool :=
  match l with
  | [] => true
  | a :: l1 =>
      if in_range 0 127 a then utf8_valid l1 else
      match l1 with
      | [] => false
      | b :: l2 =>
          if in_range 194 223 a then in_range 128 191 b && utf8_valid l2 else
          match l2 with
          | [] => false
          | c :: l3 =>
              if in_range 224 239 a then
                in_range (if a =? 224 then 160 else 128) (if a =? 237 then 159 else 191) b
                && in_range 128 191 c && utf8_valid l3
              else
              match l3 with
              | [] => false
              | d :: l4 =>
                  in_range 240 244 a && in_range (if a =? 240 then 144 else 128) (if a =? 244 then 143 else 191) b
                  && in_range 128 191 c && in_range 128 191 d && utf8_valid l4
              end
          end
      end
  end.

Fixpoint bytes_str (l : list Z) : string :=
  match l with [] => EmptyString | b :: l' => String (ascii_of_N (Z.to_N b)) (bytes_str l') end.

Definition from_utf8 (l : list Z) : option string := if utf8_valid l then Some (bytes_str l) else None.

(** ** The metrics page *)

Inductive Sample := Scalar (v : Z) | Observed (l : list Z).

(** The handles and the registry share their cells: what is gathered is what the handles hold. *)
Definition samples (m : NodeMetrics) : list (string * Sample) :=
  zip metric_names
    [Scalar (m_blocks_processed_total m); Scalar (m_transactions_processed_total m);
     Scalar (m_transactions_in_mempool m); Scalar (m_connected_peers m); Scalar (m_consensus_rounds_total m);
     Scalar (m_block_height m); Observed (m_transaction_latency_seconds m)].

Class Exposition (P : Prometheus) := {
  MetricFamilies : Type;
  gather : Registry -> list (string * Sample) -> MetricFamilies;
  text_encode : MetricFamilies -> string + list Z
}.

(** [family] reads a family by its full name; the prefix is the one the registry was made with. *)
Class ExpositionLaws (P : Prometheus) (PL : PrometheusLaws P) (X : Exposition P) := {
  family : MetricFamilies -> string -> option Sample;
  prefix_of : Registry -> string;
  prefix_new : forall p r, new_custom p = Some r -> prefix_of r = p;
  prefix_register : forall n r r', register n r = Some r' -> prefix_of r' = prefix_of r;
  gather_family : forall r l n v, n ∈ registered r -> (n, v) ∈ l -> NoDup l.*1 ->
    family (gather r l) (prefix_of r +:+ "_" +:+ n) = Some v;
  text_utf8 : forall f b, text_encode f = inr b -> utf8_valid b = true
}.

Section Page.
Context {P : Prometheus} {X : Exposition P}.

Definition metrics_encode (registry : Registry) (m : NodeMetrics) : res string string :=
  match text_encode (gather registry (samples m)) with
  | inl e => Err e
  | inr buffer => expect (from_utf8 buffer)
  end.

(** Status, content type and body. *)
Definition metrics_handler (registry : Registry) (m : NodeMetrics) : res string (Z * string * string) :=
  match metrics_encode registry m with
  | Ok body => Ok (200, "text/plain; version=0.0.4; charset=utf-8", body)%string
  | Err e => Ok (500, "text/plain; charset=utf-8", "metrics encoding failed")%string
  | Panic => Panic
  end.
End Page.

Section PageProofs.
Context {P : Prometheus} {PL : PrometheusLaws P} {X : Exposition P} {XL : ExpositionLaws P PL X}.
Context {B : Broadcast} {BL : BroadcastLaws B}.

Lemma register_all_prefix {E} names r r' :
  register_all (E := E) names r = Ok r' -> prefix_of r' = prefix_of r.
Proof.
  revert r; induction names as [|n names IH]; intros r; cbn [register_all]; [by intros [= ->]|].
  destruct (metric_valid n); cbn [expect mbind res_bind]; [|done].
  destruct (register n r) as [r1|] eqn:Hr; cbn [expect mbind res_bind]; [|done].
  intros H. rewrite (IH r1 H). by apply (prefix_register n).
Qed.

(** The page never fails on what the encoder wrote. *)
Lemma metrics_handler_total registry m :
  exists r, metrics_handler registry m = Ok r /\
    (r = (500, "text/plain; charset=utf-8", "metrics encoding failed")%string /\
     (exists e, text_encode (gather registry (samples m)) = inl e) \/
     exists b, text_encode (gather registry (samples m)) = inr b /\
       r = (200, "text/plain; version=0.0.4; charset=utf-8", bytes_str b)%string).
Proof.
  unfold metrics_handler, metrics_encode. destruct (text_encode _) as [e|b] eqn:He.
  - eexists. split; [reflexivity|]. left. split; [done|]. by exists e.
  - unfold from_utf8. rewrite (text_utf8 _ _ He). eexists. split; [reflexivity|]. right. by exists b.
Qed.

Lemma samples_family registry m name v :
  registered registry = list_to_set metric_names -> (name, v) ∈ samples m ->
  family (gather registry (samples m)) (prefix_of registry +:+ "_" +:+ name) = Some v.
Proof.
  intros Hreg Hin. apply gather_family; [|done|].
  - rewrite Hreg. apply elem_of_list_to_set. apply elem_of_zip_l in Hin. done.
  - unfold samples. rewrite fst_zip by done. apply (bool_decide_unpack _). vm_compute. exact I.
Qed.

(** The page of a passive node: it is always answered, and what is encoded for it gives as
    the height and as the number of blocks processed the number of ticks of the stub, though
    the node has processed no block. *)
Theorem metrics_page {E} times (n : StubNode) :
  (forall name, name ∈ metric_names -> metric_valid name = true) ->
  sn_height n = 0 -> sn_metrics n = zero_metrics -> Z.of_nat (length times) < 2 ^ 63 ->
  exists registry n', metrics_new (E := E) = Ok (registry, zero_metrics) /\ stub_run (E := E) times n = Ok n' /\
    (exists r, metrics_handler registry (sn_metrics n') = Ok r) /\
    let page := gather registry (samples (sn_metrics n')) in
    family page "nova_block_height" = Some (Scalar (Z.of_nat (length times))) /\
    family page "nova_blocks_processed_total" = Some (Scalar (Z.of_nat (length times))).
Proof.
  intros Hv H0 Hz Hn. destruct (metrics_new_ok (E := E) Hv) as (registry & Hnew & Hreg).
  destruct (stub_run_spec (E := E) times n) as (n' & Hrun & Hh & _ & Hb & Hm); [unfold U64_MAX; lia..|].
  exists registry, n'. split_and!; [done..| |].
  { destruct (metrics_handler_total registry (sn_metrics n')) as (r & Hr & _). by exists r. }
  assert (prefix_of registry = "nova"%string) as Hp.
  { revert Hnew. unfold metrics_new. destruct (new_custom "nova") as [r0|] eqn:Hc; cbn [expect mbind res_bind]; [|done].
    destruct (register_all metric_names r0) as [r1| |] eqn:Ha; cbn [mbind res_bind]; [|done..].
    intros [= ->]. rewrite (register_all_prefix _ _ _ Ha). by apply prefix_new. }
  assert (m_block_height (sn_metrics n') = Z.of_nat (length times)) as Hht.
  { rewrite Hm, Hh, H0 by (by rewrite Hz, H0). unfold as_i64. by rewrite (proj2 (Z.ltb_lt _ _)) by lia. }
  assert (m_blocks_processed_total (sn_metrics n') = Z.of_nat (length times)) as Hbt by (by rewrite Hb, Hz). cbv zeta.
  split; (change "nova_block_height"%string with ("nova" +:+ "_" +:+ "block_height")%string
    || change "nova_blocks_processed_total"%string with ("nova" +:+ "_" +:+ "blocks_processed_total")%string);
    rewrite <- Hp; apply samples_family; [done| |done|].
  - rewrite <- Hht at 1. unfold samples, metric_names. set_solver.
  - rewrite <- Hbt at 1. unfold samples, metric_names. set_solver.
Qed.
End PageProofs.

(** ** Witnesses: an encoder that writes nothing *)

Module TelemetryExamples.
Export EventExamples.

(** A registry that keeps its prefix. *)
#[export] Instance prefixed : Prometheus := {|
  Registry := string * gset string;
  new_custom p := Some (p, ∅);
  metric_valid _ := true;
  register name r := if decide (name ∈ r.2) then None else Some (r.1, {[name]} ∪ r.2)
|}.

#[export] Instance prefixed_laws : PrometheusLaws prefixed.
Proof.
  refine (Build_PrometheusLaws prefixed (fun r : string * gset string => r.2) _ _ _).
  - intros prefix. by eexists.
  - intros name r Hn. cbn. rewrite decide_False by done. by eexists.
  - intros name r Hn. cbn. by rewrite decide_True.
Defined.

Definition named (p : string) (kv : string * Sample) : string * Sample := (p +:+ "_" +:+ kv.1, kv.2).

Definition page_gather (r : string * gset string) (l : list (string * Sample)) : gmap string Sample :=
  list_to_map (named r.1 <$> l).

#[export] Instance page_text : Exposition prefixed :=
  Build_Exposition prefixed (gmap string Sample) page_gather (fun _ => inr []).

Lemma string_app_inj (a b c : string) : a +:+ b = a +:+ c -> b = c.
Proof. induction a as [|x a IH]; [done|]. intros [= ->%IH]. done. Qed.

#[export] Instance page_laws : ExpositionLaws prefixed prefixed_laws page_text.
Proof.
  refine (Build_ExpositionLaws prefixed prefixed_laws page_text (fun (f : gmap string Sample) name => f !! name)
    (fun r : string * gset string => r.1) _ _ _ _).
  - intros p r [= <-]. done.
  - intros n r r'. cbn. case_decide; [done|]. by intros [= <-].
  - intros r l n v _ Hin Hnd. cbn. apply elem_of_list_to_map_1.
    + rewrite <- list_fmap_compose.
      replace ((fst ∘ named r.1) <$> l) with ((fun n => r.1 +:+ "_" +:+ n) <$> l.*1) by (by rewrite <- list_fmap_compose).
      apply NoDup_fmap_2; [|done]. by intros x y ?%string_app_inj%string_app_inj.
    + apply list_elem_of_fmap. by exists (n, v).
  - intros f b [= <-]. done.
Defined.
End TelemetryExamples.
Import TelemetryExamples.

Lemma metrics_page_witness :
  exists registry n', metrics_new (P := prefixed) (E := unit) = Ok (registry, zero_metrics) /\
    stub_run (E := unit) [5; 2005] silent = Ok n' /\
    family (gather registry (samples (sn_metrics n'))) "nova_block_height" = Some (Scalar 2).
Proof.
  destruct (metrics_page (P := prefixed) (X := page_text) (E := unit) [5; 2005] silent) as (registry & n' & H1 & H2 & _ & H3 & _).
  - intros name _. reflexivity.
  - reflexivity.
  - reflexivity.
  - simpl. lia.
  - exists registry, n'. split; [exact H1|]. split; [exact H2|exact H3].
Defined.

(** Two-, three- and four-byte sequences, an overlong form and a surrogate. *)
Example utf8_cases :
  utf8_valid <$> [[65; 195; 169]; [226; 130; 172]; [240; 159; 152; 128]; [192; 128]; [237; 160; 128]; [195]] =
    [true; true; true; false; false; false].
Proof. reflexivity. Qed.
