(* ===== verification/Lifecycle.v ===== *)
(** * A node's life: sessions over one data directory

    [run_node] of [node/src/main.rs] as a whole, from its options to its end: data
    directory, key, database, the wiring of [boot], metrics, the worker it spawns (the
    consensus loop, or the stub of a passive node), the listeners it binds and the
    shutdown; and the dispatch of the subcommands in [main].  A [Machine] is what outlives
    a session: the disk, and the tree of account nodes of each database kept on it.  What
    the world does in a session is a [Session]: the key the generator would give, the
    addresses that cannot be bound, and the turns of the worker before each listener is
    bound and until the signal that ends the session.

    [validator_sessions] composes start-up, boot and the rounds of the loop over any
    number of restarts. *)

From Stdlib Require Import Ascii.
From stdpp Require Import pretty.
From S2P Require Import Prelude Bytes Crypto Transaction Block Sled StateTree StateTreeSpec StateTreeProofs StateTransfer Db Mempool.
From S2P Require Import Consensus Producer Identity Keys Ntp Api Boot Startup Text Http Events.

#[local] Open Scope Z_scope.
#[local] Opaque tree_put tree_get compute_default_hashes.

(** ** The command line *)

Record RunOptions := mkRunOptions {
  ro_data_dir : string;
  ro_rpc_addr : string;
  ro_p2p_addr : string;
  ro_metrics_addr : string;
  ro_dev : bool;
  ro_log_level : string;
  ro_validator : bool;
  ro_stake : Z;
  ro_rpc_port : Z;
  ro_p2p_port : Z;
  ro_metrics_port : Z;
  ro_validator_key : option string
}.

(** What the options decide about the components. *)
Definition run_args (o : RunOptions) : RunArgs := mkRunArgs (ro_dev o) (ro_validator o) (ro_stake o).

Inductive Commands :=
| CmdRun (args : RunOptions)
| CmdInit (args : InitArgs)
| CmdStatus (rpc_url : string)
| CmdVersion.

(** ** The banner *)

(** [str::chars().count()] of UTF-8 text: the bytes that do not continue a character. *)
Fixpoint char_count (s : string) : nat :=
  match s with
  | EmptyString => 0
  | String a s' =>
      let c := Z.of_N (N_of_ascii a) in
      ((if ((128 <=? c) && (c <? 192))%Z then 0 else 1) + char_count s')%nat
  end.

Fixpoint repeat_str (n : nat) (s : string) : string :=
  match n with O => EmptyString | S n' => s +:+ repeat_str n' s end.

(** [format!("{:<width$}", s)] *)
Definition pad_right (width : nat) (s : string) : string := s +:+ repeat_str (width - char_count s) " ".

(** [str::replace] of a character. *)
Fixpoint replace_char (c : ascii) (by_ : string) (s : string) : string :=
  match s with
  | EmptyString => EmptyString
  | String a s' => (if (a =? c)%char then by_ else String a EmptyString) +:+ replace_char c by_ s'
  end.

Definition banner_fields (node_id rpc_addr p2p_addr data_dir mode : string) (stake : Z) : list string :=
  let node_id_short := if (20 <? String.length node_id)%nat then String.substring 0 20 node_id +:+ "..." else node_id in
  ["  Node ID:    " +:+ node_id_short;
   "  RPC:        http://" +:+ rpc_addr;
   "  P2P:        /ip4/" +:+ replace_char ":" "/tcp/" p2p_addr;
   "  Data:       " +:+ data_dir;
   "  Mode:       " +:+ mode;
   "  Stake:      " +:+ format_nova_amount stake +:+ " NOVA"]%string.

Definition banner_title (version : string) : string := ("  NOVA Protocol — Validator Node v" +:+ version)%string.

Definition banner_row (max_width : nat) (line : string) : string :=
  ("║  " +:+ pad_right (max_width - 4) (trim line) +:+ "  ║")%string.

Definition print_startup_banner (version node_id rpc_addr p2p_addr data_dir mode : string) (stake : Z) : list string :=
  let lines := banner_fields node_id rpc_addr p2p_addr data_dir mode stake in
  let title := banner_title version in
  let max_width := (max_list (String.length <$> lines ++ [title]) + 4)%nat in
  let border := repeat_str max_width "═" in
  ["╔" +:+ border +:+ "╗"; banner_row max_width title; "╠" +:+ border +:+ "╣"]%string
  ++ (banner_row max_width <$> lines) ++ ["╚" +:+ border +:+ "╝"]%string.

Lemma char_count_app s t : char_count (s +:+ t) = (char_count s + char_count t)%nat.
Proof.
  induction s as [|a s IH]; [done|]. change (String a s +:+ t) with (String a (s +:+ t)). cbn [char_count]. rewrite IH. lia.
Qed.

Lemma char_count_le s : (char_count s <= String.length s)%nat.
Proof. induction s as [|a s IH]; cbn [char_count String.length]; [done|]. destruct (_ && _); lia. Qed.

Lemma char_count_repeat n s : char_count (repeat_str n s) = (n * char_count s)%nat.
Proof. induction n as [|n IH]; [done|]. cbn [repeat_str]. rewrite char_count_app, IH. lia. Qed.

Lemma trim_length s : (String.length (trim s) <= String.length s)%nat.
Proof.
  assert (forall t, String.length (trim_end t) <= String.length t)%nat as He.
  { induction t as [|a t IH]; [done|]. cbn [trim_end]. destruct (trim_end t) eqn:E; [destruct (is_space a)|]; cbn in *; lia. }
  assert (forall t, String.length (trim_start t) <= String.length t)%nat as Hs.
  { induction t as [|a t IH]; [done|]. cbn [trim_start]. destruct (is_space a); cbn; lia. }
  unfold trim. pose proof (He (trim_start s)). pose proof (Hs s). lia.
Qed.

Lemma max_list_elem (l : list nat) x : x ∈ l -> (x <= max_list l)%nat.
Proof. induction 1; cbn; lia. Qed.

(** The box is straight: every row has the same number of characters. *)
Theorem banner_aligned version node_id rpc_addr p2p_addr data_dir mode stake :
  exists w, Forall (fun row => char_count row = w) (print_startup_banner version node_id rpc_addr p2p_addr data_dir mode stake).
Proof.
  unfold print_startup_banner. set (lines := banner_fields _ _ _ _ _ _). set (title := banner_title version).
  set (m := (max_list (String.length <$> lines ++ [title]))%nat). exists (m + 4 + 2)%nat.
  assert (forall l, l ∈ lines ++ [title] -> char_count (banner_row (m + 4) l) = (m + 4 + 2)%nat) as Hrow.
  { intros l Hl. unfold banner_row, pad_right. rewrite !char_count_app, char_count_repeat.
    pose proof (max_list_elem _ _ (list_elem_of_fmap_2 String.length _ _ Hl) : _ <= m)%nat.
    pose proof (trim_length l). pose proof (char_count_le (trim l)). 
    change (char_count "║  ") with 3%nat. change (char_count "  ║") with 3%nat. change (char_count " ") with 1%nat. lia. }
  assert (char_count "═" = 1%nat) as H1 by reflexivity.
  apply Forall_app. split; [|apply Forall_app; split; [apply Forall_fmap, Forall_forall|]].
  - repeat constructor; try (rewrite !char_count_app, char_count_repeat, H1; set (n := (m + 4)%nat);
      change (n * 1 + 1 = n + 2)%nat || change (1 + (n * 1 + 1) = n + 2)%nat; lia). apply Hrow. set_solver.
  - intros l Hl. apply Hrow. set_solver.
  - repeat constructor. rewrite !char_count_app, char_count_repeat, H1. set (n := (m + 4)%nat).
    change (1 + (n * 1 + 1) = n + 2)%nat. lia.
Qed.

(** ** A machine and its sessions *)

Record Machine (Tr : Type) := mkMachine {
  mc_disk : Disk Tr;
  mc_smt : gmap (list string) Tr
}.

Arguments mkMachine {Tr} _ _.
Arguments mc_disk {Tr} _.
Arguments mc_smt {Tr} _.

Section Run.
Context {C : Crypto} {S : SecretKeys C} {K : AccountCodec} {SC : StorageCodec} {T : TxCodec}.
Context {Tr : Type} `{Sd : Sled Tr} {P : Prometheus} {B : Broadcast}.
Context (fault : IoCall -> option string) (umask : Z) (home : option string) (CARGO_PKG_VERSION : string).

Record Session := mkSession {
  se_fresh : NovaKeypair;
  se_bind : string -> option string;
  se_turns : list (bool * Z * bool) * list (bool * Z * bool) * list (bool * Z * bool)
}.

(** The task spawned beside the listeners; a panic ends the task, not the node. *)
Inductive Worker :=
| Validating (node : Node Tr) (exit : option (res ConsensusLoopError unit))
| Passive (n : StubNode)
| PassivePanicked.

Definition spawn (dev validator : bool) (node : Node Tr) (app : AppState Tr) (m : NodeMetrics) (events : Sender) : Worker :=
  if validator || dev then Validating node None else Passive (mkStub (as_block_height app) m events).

(** The worker is given more turns. *)
Definition work (kp : NovaKeypair) (turns : list (bool * Z * bool)) (w : Worker) : Worker :=
  match w with
  | Validating node None =>
      let '(exit, node') := run_loop kp default_loop_config turns node in Validating node' exit
  | Validating node (Some e) => w
  | Passive n =>
      match stub_run (E := unit) ((fun t => t.1.2) <$> turns) n with
      | Ok n' => Passive n'
      | _ => PassivePanicked
      end
  | PassivePanicked => w
  end.

Definition on_disk {A} (m : M (Disk Tr) AnyError A) : M (Machine Tr) AnyError A := fun mc =>
  let '(r, d) := m (mc_disk mc) in (r, mkMachine d (mc_smt mc)).

(** [db.open_tree(SMT_TREE_NAME)]: the account nodes kept with the database. *)
Definition open_smt (dev : bool) (db_path : string) : M (Machine Tr) AnyError Tr := fun mc =>
  (Ok (if dev then sled_new else default sled_new (mc_smt mc !! components db_path)), mc).

(** What the handles of a session wrote stays on disk, unless they are temporary. *)
Definition keep (dev : bool) (db_path : string) (db : NovaDB Tr) (smt : Tr) : M (Machine Tr) AnyError unit := fun mc =>
  if dev then (Ok tt, mc)
  else (Ok tt, mkMachine (save_db db_path db (mc_disk mc)).2 (<[components db_path := smt]> (mc_smt mc))).

Definition keep_worker (dev : bool) (db_path : string) (w : Worker) : M (Machine Tr) AnyError unit :=
  match w with
  | Validating node _ => keep dev db_path (nd_db node) (st_tree (nd_tree node))
  | _ => mret tt
  end.

(** [TcpListener::bind] *)
Definition bind_listener (s : Session) (what addr : string) : M (Machine Tr) AnyError unit :=
  match se_bind s addr with
  | Some e => throw ["failed to bind " +:+ what +:+ " listener on " +:+ addr; e]%string
  | None => mret tt
  end.

Definition run_mode (o : RunOptions) : string :=
  match ro_validator o || ro_dev o, ro_dev o with
  | true, true => "Validator (dev)"
  | true, false => "Validator"
  | false, _ => "Full Node"
  end.

(** What a session was: its identity, its banner, what its interface served from, its worker. *)
Record Report := mkReport {
  rp_public_key : string;
  rp_address : string;
  rp_banner : list string;
  rp_app : AppState Tr;
  rp_worker : Worker
}.

(** Steps 14 to 17: the listeners, the banner, the work until the signal. *)
Definition serve_node (o : RunOptions) (s : Session) (kp : NovaKeypair) (app : AppState Tr) (w : Worker)
    : M (Machine Tr) AnyError Report :=
  let data_dir := resolve_data_dir home (ro_data_dir o) in
  let db_path := path_join data_dir "db" in
  let dev := ro_dev o in
  let address := to_address (from_public_key (public_key kp)) in
  let w := work kp (se_turns s).1.1 w in
  _ ← keep_worker dev db_path w;
  _ ← bind_listener s "RPC" (ro_rpc_addr o);
  let w := work kp (se_turns s).1.2 w in
  _ ← keep_worker dev db_path w;
  _ ← bind_listener s "metrics" (ro_metrics_addr o);
  let w := work kp (se_turns s).2 w in
  _ ← keep_worker dev db_path w;
  mret (mkReport (pk_to_hex (public_key kp)) address
    (print_startup_banner CARGO_PKG_VERSION address (ro_rpc_addr o) (ro_p2p_addr o) data_dir (run_mode o)
       (if dev then DEV_VALIDATOR_STAKE else ro_stake o)) app w).

Definition run_node (o : RunOptions) (s : Session) : M (Machine Tr) AnyError Report :=
  let data_dir := resolve_data_dir home (ro_data_dir o) in
  let db_path := path_join data_dir "db" in
  let dev := ro_dev o in
  kp ← on_disk (run_keypair fault umask dev (se_fresh s) data_dir);
  db ← on_disk (run_open_db fault dev data_dir);
  smt ← open_smt dev db_path;
  _ ← keep dev db_path (initialize_genesis (db, 0)).2.1 smt;
  started ← lift (map_err_res (fun _ => []) (boot CARGO_PKG_VERSION (run_args o) kp db smt));
  let '(node, app) := started in
  metrics ← lift metrics_new;
  serve_node o s kp app (spawn dev (ro_validator o) node app metrics.2 (channel 256)).

(** The node started again and again with the same options. *)
Fixpoint run_sessions (o : RunOptions) (ss : list Session) : M (Machine Tr) AnyError (list Report) :=
  match ss with
  | [] => mret []
  | s :: ss' => r ← run_node o s; rs ← run_sessions o ss'; mret (r :: rs)
  end.

(** ** The subcommands *)

(** What the build left in the environment: [GIT_COMMIT], [BUILD_TIMESTAMP] and [RUSTC_VERSION]. *)
Record BuildEnv := mkBuildEnv { git_commit : option string; build_timestamp : option string; rustc : option string }.

Definition rustc_version (e : BuildEnv) : string := default "unknown"%string (rustc e).

Definition print_version (e : BuildEnv) : list string :=
  ["nova-node " +:+ CARGO_PKG_VERSION; "protocol  " +:+ PROTOCOL_VERSION; "rustc     " +:+ rustc_version e]%string
  ++ match git_commit e with Some commit => ["commit    " +:+ commit]%string | None => [] end
  ++ match build_timestamp e with Some ts => ["built     " +:+ ts]%string | None => [] end.

Inductive Outcome :=
| Ran (r : Report)
| Initialized (r : InitReport)
| Printed (lines : list string).

Definition main `{J : JsonText} (e : BuildEnv) (server : string -> Z -> string -> res string string) (s : Session)
    (command : Commands) : M (Machine Tr) AnyError Outcome :=
  match command with
  | CmdRun args => r ← run_node args s; mret (Ran r)
  | CmdInit args => r ← on_disk (init_node fault umask home (se_fresh s) args); mret (Initialized r)
  | CmdStatus rpc_url => lines ← lift (map_err_res (fun err => [err]) (query_status server rpc_url)); mret (Printed lines)
  | CmdVersion => mret (Printed (print_version e))
  end.
End Run.

(** ** Proofs *)

Section Sessions.
Context {C : Crypto} {L : CryptoLaws C} {HT : HexText C} {S : SecretKeys C} {SKL : SecretKeysLaws S}.
Context {K : AccountCodec} {KL : AccountCodecLaws K} {SC : StorageCodec} {SCL : StorageCodecLaws SC} {T : TxCodec}.
Context {Tr : Type} `{Sd : Sled Tr} {SL : SledLaws Tr} {SH : SledHealthy Tr}.
Context {P : Prometheus} {PL : PrometheusLaws P} {B : Broadcast}.
Context (fault : IoCall -> option string) (umask : Z) (home : option string) (version : string).

Implicit Types (mc : Machine Tr) (s : Session) (w : Worker (Tr := Tr)).

Lemma run_loop_app kp cfg t1 t2 (n : Node Tr) :
  run_loop kp cfg (t1 ++ t2) n =
  match run_loop kp cfg t1 n with (None, n1) => run_loop kp cfg t2 n1 | r => r end.
Proof.
  revert n; induction t1 as [|[[sd now] wk] t1 IH]; intros n; [done|]. cbn [app run_loop].
  destruct sd; [done|]. destruct (run_single_round now kp cfg n) as [[f|e|] n1]; [| |done]; destruct wk; done.
Qed.

Lemma stub_run_app {E} t1 t2 (n : StubNode) :
  stub_run (E := E) (t1 ++ t2) n = (n1 ← stub_run t1 n; stub_run t2 n1).
Proof.
  revert n; induction t1 as [|t t1 IH]; intros n; [done|]. cbn [app stub_run].
  destruct (stub_tick t n) as [n1|e|]; [|done..]. cbn [mbind res_bind]. apply IH.
Qed.

(** The turns of a worker add up, however the listeners are bound between them. *)
Lemma work_app kp t1 t2 w : work kp t2 (work kp t1 w) = work kp (t1 ++ t2) w.
Proof.
  destruct w as [node [e|]|n|]; try done; cbn [work].
  - rewrite run_loop_app. destruct (run_loop kp default_loop_config t1 node) as [[e|] n1]; [done|]. cbn [work].
    by destruct (run_loop kp default_loop_config t2 n1).
  - rewrite fmap_app, stub_run_app. by destruct (stub_run ((fun t => t.1.2) <$> t1) n) as [n1|e|].
Qed.

Definition turns s : list (bool * Z * bool) := (se_turns s).1.1 ++ (se_turns s).1.2 ++ (se_turns s).2.

(** Keeping what a worker wrote touches one entry of the disk. *)
Lemma keep_ok db_path db smt mc :
  keep false db_path db smt mc =
  (Ok tt, mkMachine (mkDisk (dk_files (mc_disk mc)) (dk_dirs (mc_disk mc)) (<[components db_path := db]> (dk_dbs (mc_disk mc))))
            (<[components db_path := smt]> (mc_smt mc))).
Proof. done. Qed.

Definition same_but_db (db_path : string) mc mc' : Prop :=
  dk_files (mc_disk mc') = dk_files (mc_disk mc) /\ dk_dirs (mc_disk mc') = dk_dirs (mc_disk mc) /\
  delete (components db_path) (dk_dbs (mc_disk mc')) = delete (components db_path) (dk_dbs (mc_disk mc)).

#[local] Instance same_but_db_equiv db_path : Equivalence (same_but_db db_path).
Proof.
  split; [by intros ?|by intros ?? (?&?&?)|]. intros ??? (E1&E2&E3) (F1&F2&F3). unfold same_but_db. by rewrite F1, F2, F3.
Qed.

Lemma keep_same db_path db smt mc : same_but_db db_path mc (keep false db_path db smt mc).2.
Proof. split_and!; [done..|]. cbn. apply delete_insert_eq. Qed.

Lemma keep_worker_ok db_path w mc : exists mc',
  keep_worker false db_path w mc = (Ok tt, mc') /\ same_but_db db_path mc mc' /\
  (forall node e, w = Validating node e -> dk_dbs (mc_disk mc') !! components db_path = Some (nd_db node)).
Proof.
  destruct w as [node e|n|]; [|by exists mc..]. exists (keep false db_path (nd_db node) (st_tree (nd_tree node)) mc).2.
  split; [done|]. split; [apply keep_same|]. intros ?? [= <- <-]. cbn. by rewrite lookup_insert_eq.
Qed.

(** ** One session *)

Context (data_dir : string) (o : RunOptions).
Context (Hdir : resolve_data_dir home (ro_data_dir o) = data_dir) (Hdev : ro_dev o = false) (Hval : ro_validator o = true).
Context (Hvalid : forall n, n ∈ metric_names -> metric_valid n = true).

Let db_path := path_join data_dir "db".

(** The listeners can be bound. *)
Definition binds s : Prop := se_bind s (ro_rpc_addr o) = None /\ se_bind s (ro_metrics_addr o) = None.

(** Up to the listeners: a validator at the end of the chain its database holds. *)
Lemma session_starts s mc kp dA db dB db1 h0 n Bs :
  run_keypair fault umask false (se_fresh s) data_dir (mc_disk mc) = (Ok kp, dA) ->
  run_open_db fault false data_dir dA = (Ok db, dB) ->
  initialize_genesis (db, 0) = (Ok tt, (db1, h0)) -> db_inv db1 Bs -> get_latest_block_height db1 = Ok (Some n) ->
  is_Some (Bs !! n) -> n < U64_MAX ->
  exists node app mc1,
    run_node fault umask home version o s mc = serve_node home version o s kp app (Validating node None) mc1 /\
    same_but_db db_path (mkMachine dB (mc_smt mc)) mc1 /\ idle kp (ro_stake o) n node Bs /\
    root (nd_tree node) = root (state_tree_new (sled_new : Tr)) /\
    next_height (nd_engine node) = n + 1 /\ current_round (nd_engine node) = 0.
Proof.
  intros Hkp Hdb Hg HB Hl Hp Hn. set (smt := default sled_new (mc_smt mc !! components db_path) : Tr).
  destruct (validator_boot version (ro_stake o) kp db db1 h0 Bs n smt Hg HB Hl Hp Hn)
    as (node & app & Hboot & Hi & Htree & _ & Hnh & Hcr).
  destruct (metrics_new_ok (E := AnyError) Hvalid) as (reg & Hm & _).
  set (mc1 := (keep false db_path db1 smt (mkMachine dB (mc_smt mc))).2).
  exists node, app, mc1. split_and!; [|apply keep_same|done|by rewrite Htree|done..].
  unfold run_node. rewrite Hdir, Hdev, Hval. fold db_path. unfold mbind, M_bind, on_disk. rewrite Hkp. cbn [mc_disk].
  rewrite Hdb. unfold open_smt. cbn [mc_smt]. fold smt. rewrite Hg. cbn [fst snd].
  change (keep false db_path db1 smt (mkMachine dB (mc_smt mc))) with (Ok (E := AnyError) tt, mc1).
  unfold lift, run_args. rewrite Hdev, Hval, Hboot, Hm. reflexivity.
Qed.

(** The rounds of an idle validator, from a chain of [n] blocks, and what they leave. *)
Definition rounds_kept (kp : NovaKeypair) (n : Z) (Bs : gmap Z Block) (times : list Z) (mc' : Machine Tr) : Prop :=
  let m := n + Z.of_nat (length times) in
  exists db' Bs', dk_dbs (mc_disk mc') !! components db_path = Some db' /\ db_inv db' Bs' /\
    get_latest_block_height db' = Ok (Some m) /\ is_Some (Bs' !! m) /\ (forall h, h <= n -> Bs' !! h = Bs !! h) /\
    forall h, n <= h < m -> extends kp (root (state_tree_new (sled_new : Tr))) Bs' h.

Lemma rounds_kept_work kp n Bs node ts times mc :
  idle kp (ro_stake o) n node Bs -> root (nd_tree node) = root (state_tree_new (sled_new : Tr)) ->
  next_height (nd_engine node) = n + 1 -> current_round (nd_engine node) = 0 ->
  ts = undisturbed times -> n + Z.of_nat (length times) < U64_MAX ->
  exists node' mc', work kp ts (Validating node None) = Validating node' None /\
    keep_worker false db_path (Validating node' None) mc = (Ok tt, mc') /\
    same_but_db db_path mc mc' /\ rounds_kept kp n Bs times mc'.
Proof.
  intros Hi Hroot Hnh Hcr -> Hn.
  destruct (idle_run kp (ro_stake o) default_loop_config times n node Bs Hi) as (node' & Bs' & Hrun & Hi' & Ht' & Hold & Hnew);
    [destruct (idle_tip_block _ _ _ _ _ Hi) as (_ & _ & _ & ? & _); rewrite ?Hnh, ?Hcr; lia..|].
  destruct (keep_worker_ok db_path (Validating node' None) mc) as (mc' & Hk & Hs & Hd).
  exists node', mc'. split; [cbn [work]; by rewrite Hrun|]. split; [exact Hk|]. split; [exact Hs|].
  destruct Hi' as [_ _ Hdb' Htip' Hblk']. exists (nd_db node'), Bs'. rewrite Hroot in Hnew.
  split; [exact (Hd _ _ eq_refl)|]. split_and!; done.
Qed.

Lemma session_runs s mc kp dA db dB db1 h0 n Bs times :
  run_keypair fault umask false (se_fresh s) data_dir (mc_disk mc) = (Ok kp, dA) ->
  run_open_db fault false data_dir dA = (Ok db, dB) ->
  initialize_genesis (db, 0) = (Ok tt, (db1, h0)) -> db_inv db1 Bs -> get_latest_block_height db1 = Ok (Some n) ->
  is_Some (Bs !! n) -> n + Z.of_nat (length times) < U64_MAX -> binds s -> turns s = undisturbed times ->
  exists rep mc', run_node fault umask home version o s mc = (Ok rep, mc') /\
    rp_public_key rep = pk_to_hex (public_key kp) /\
    same_but_db db_path (mkMachine dB (mc_smt mc)) mc' /\ rounds_kept kp n Bs times mc'.
Proof.
  intros Hkp Hdb Hg HB Hl Hp Hn [Hb1 Hb2] Ht.
  destruct (session_starts s mc kp dA db dB db1 h0 n Bs Hkp Hdb Hg HB Hl Hp ltac:(lia))
    as (node & app & mc1 & Hrun & Hs1 & Hi & Hroot & Hnh & Hcr).
  set (w1 := work kp (se_turns s).1.1 (Validating node None)). set (w2 := work kp (se_turns s).1.2 w1).
  destruct (keep_worker_ok db_path w1 mc1) as (mc2 & Hk2 & Hs2 & _).
  destruct (keep_worker_ok db_path w2 mc2) as (mc3 & Hk3 & Hs3 & _).
  destruct (rounds_kept_work kp n Bs node (turns s) times mc3 Hi Hroot Hnh Hcr Ht Hn) as (node' & mc4 & Hw & Hk4 & Hs4 & Hkept).
  unfold turns in Hw. rewrite <- !work_app in Hw. fold w1 w2 in Hw.
  eexists _, mc4. split; [|split; [|split; [|exact Hkept]]].
  - rewrite Hrun. unfold serve_node. rewrite Hdir, Hdev. fold db_path. unfold mbind, M_bind. fold w1.
    rewrite Hk2. unfold bind_listener. rewrite Hb1. unfold mret, M_ret. fold w2. rewrite Hk3, Hb2, Hw, Hk4. reflexivity.
  - reflexivity.
  - exact (transitivity Hs1 (transitivity Hs2 (transitivity Hs3 Hs4))).
Qed.

(** ** Any number of sessions *)

Context (Hf : forall c, fault c = None).

Let key_path := path_join (path_join data_dir "keys") "validator.key".
Let empty_root : list Z := root (state_tree_new (sled_new : Tr)).

(** The chain from genesis to height [n] that the key has signed, every block empty. *)
Record own_chain (kp : NovaKeypair) (n : Z) (Bs : gmap Z Block) : Prop := {
  oc_genesis : Bs !! 0 = Some genesis;
  oc_height : 0 <= n;
  oc_links : forall h, 0 <= h < n -> extends kp empty_root Bs h
}.

(** A machine between two sessions of the validator [kp]. *)
Record grown (kp : NovaKeypair) (n : Z) (Bs : gmap Z Block) (db : NovaDB Tr) mc : Prop := {
  gr_key : dk_files (mc_disk mc) !! components key_path = Some (mkFile (hex_encode (secret_key_bytes kp)) 384);
  gr_way : clear_way db_path (mc_disk mc);
  gr_db : dk_dbs (mc_disk mc) !! components db_path = Some db;
  gr_inv : db_inv db Bs;
  gr_tip : get_latest_block_height db = Ok (Some n);
  gr_block : is_Some (Bs !! n);
  gr_chain : own_chain kp n Bs
}.

Definition opened (db : NovaDB Tr) (d : Disk Tr) : Disk Tr :=
  mkDisk (dk_files d) (dk_dirs (with_dirs db_path d)) (<[components db_path := db]> (dk_dbs d)).

Lemma run_open_db_ok (d : Disk Tr) :
  clear_way db_path d ->
  run_open_db fault false data_dir d =
  (Ok (default open_temporary (dk_dbs d !! components db_path)),
   opened (default open_temporary (dk_dbs d !! components db_path)) d).
Proof.
  intros Hw. unfold run_open_db, mbind, M_bind. fold db_path. unfold with_context, map_err.
  rewrite create_dir_all_ok by done. cbn [map_err_res]. unfold open_db, io. rewrite Hf. done.
Qed.

Lemma extends_key kp kp' sr Bs h : public_key kp' = public_key kp -> extends kp' sr Bs h -> extends kp sr Bs h.
Proof.
  intros E (p & b & Hp & Hb & [? ? ? ? ? Hv Hs]). exists p, b. split_and!; [done..|]. rewrite E in Hv, Hs. by split.
Qed.

Lemma grown_kept kp kp1 n Bs db mc mc' times :
  grown kp n Bs db mc -> public_key kp1 = public_key kp -> dk_files (mc_disk mc') = dk_files (mc_disk mc) ->
  rounds_kept kp1 n Bs times mc' -> exists db' Bs', grown kp (n + Z.of_nat (length times)) Bs' db' mc'.
Proof.
  intros [Hkey Hway Hdb Hinv Htip Hblk [Hgen H0 Hlinks]] Hpk Hfiles (db' & Bs' & Hdb' & Hinv' & Htip' & Hblk' & Hold & Hnew).
  exists db', Bs'. split; [| |exact Hdb'|exact Hinv'|exact Htip'|exact Hblk'|].
  - by rewrite Hfiles.
  - unfold clear_way. rewrite Hfiles. exact Hway.
  - split; [by rewrite Hold|lia|]. intros h Hh. destruct (decide (h < n)) as [Hlt|Hge].
    + destruct (Hlinks h ltac:(lia)) as (p & b & Hp & Hb' & Hok). exists p, b. by rewrite !Hold by lia.
    + apply (extends_key _ kp1); [done|]. apply Hnew. lia.
Qed.

(** What a later session finds: its key, its chain. *)
Lemma grown_opens s kp n Bs db mc :
  grown kp n Bs db mc -> exists kp1, public_key kp1 = public_key kp /\
    run_keypair fault umask false (se_fresh s) data_dir (mc_disk mc) = (Ok kp1, mc_disk mc) /\
    run_open_db fault false data_dir (mc_disk mc) = (Ok db, opened db (mc_disk mc)) /\
    initialize_genesis (db, 0) = (Ok tt, (db, n)).
Proof.
  intros [Hkey Hway Hdb Hinv Htip Hblk _]. destruct (key_text_loads kp) as (kp1 & Hload & Hpk & _).
  exists kp1. split_and!; [done|..].
  - unfold run_keypair. rewrite (load_existing fault umask data_dir (se_fresh s) _ _ (Hf _) Hkey). cbn [f_text]. by rewrite Hload.
  - rewrite run_open_db_ok, Hdb by done. reflexivity.
  - unfold initialize_genesis. cbn [fst snd]. by rewrite Htip.
Qed.

(** A later session of the same validator: the chain grows by the rounds of its loop. *)
Lemma session_grows s mc kp n Bs db times :
  grown kp n Bs db mc -> binds s -> turns s = undisturbed times -> n + Z.of_nat (length times) < U64_MAX ->
  exists rep mc' db' Bs', run_node fault umask home version o s mc = (Ok rep, mc') /\
    rp_public_key rep = pk_to_hex (public_key kp) /\ grown kp (n + Z.of_nat (length times)) Bs' db' mc'.
Proof.
  intros Hg Hb Ht Hn. destruct (grown_opens s _ _ _ _ _ Hg) as (kp1 & Hpk & Hkp & Hdb & Hgen).
  destruct (session_runs s mc kp1 (mc_disk mc) db (opened db (mc_disk mc)) db n n Bs times)
    as (rep & mc' & Hrun & Hrep & (Hfiles & _ & _) & Hkept);
    [exact Hkp|exact Hdb|exact Hgen|apply Hg..|exact Hn|exact Hb|exact Ht|].
  destruct (grown_kept _ _ _ _ _ _ _ _ Hg Hpk Hfiles Hkept) as (db' & Bs' & Hg').
  exists rep, mc', db', Bs'. split; [exact Hrun|]. split; [by rewrite Hrep, Hpk|done].
Qed.

(** A session whose first listener cannot be bound fails, but its loop had started: the
    blocks it produced by then are on disk. *)
Theorem unbound_session_leaves_rounds s mc kp n Bs db times e :
  grown kp n Bs db mc -> se_bind s (ro_rpc_addr o) = Some e -> (se_turns s).1.1 = undisturbed times ->
  n + Z.of_nat (length times) < U64_MAX ->
  exists mc' db' Bs', run_node fault umask home version o s mc =
      (Err ["failed to bind RPC listener on " +:+ ro_rpc_addr o; e]%string, mc') /\
    grown kp (n + Z.of_nat (length times)) Bs' db' mc'.
Proof.
  intros Hg Hb Ht Hn. destruct (grown_opens s _ _ _ _ _ Hg) as (kp1 & Hpk & Hkp & Hdb & Hgen).
  destruct (session_starts s mc kp1 (mc_disk mc) db (opened db (mc_disk mc)) db n n Bs)
    as (node & app & mc1 & Hrun & Hs1 & Hi & Hroot & Hnh & Hcr);
    [exact Hkp|exact Hdb|exact Hgen|apply Hg..|lia|].
  destruct (rounds_kept_work kp1 n Bs node _ times mc1 Hi Hroot Hnh Hcr Ht Hn) as (node' & mc2 & Hw & Hk & Hs2 & Hkept).
  destruct (transitivity Hs1 Hs2) as (Hfiles & _ & _).
  destruct (grown_kept _ _ _ _ _ _ _ _ Hg Hpk Hfiles Hkept) as (db' & Bs' & Hg').
  exists mc2, db', Bs'. split; [|exact Hg'].
  rewrite Hrun. unfold serve_node. rewrite Hdir, Hdev. fold db_path. unfold mbind, M_bind. rewrite Hw, Hk.
  unfold bind_listener. by rewrite Hb.
Qed.

(** The first session of a machine makes the key and the genesis block. *)
Definition blank mc : Prop :=
  path_exists key_path (mc_disk mc) = false /\ clear_way (path_join data_dir "keys") (mc_disk mc) /\
  clear_way db_path (mc_disk mc) /\ dk_dbs (mc_disk mc) !! components db_path = None.

Lemma first_session_grows s mc times :
  blank mc -> binds s -> turns s = undisturbed times -> Z.of_nat (length times) < U64_MAX ->
  exists rep mc' db' Bs', run_node fault umask home version o s mc = (Ok rep, mc') /\
    rp_public_key rep = pk_to_hex (public_key (se_fresh s)) /\
    grown (se_fresh s) (Z.of_nat (length times)) Bs' db' mc'.
Proof.
  intros (Hno & Hwk & Hwd & Hnodb) Hb Ht Hn.
  destruct (validator_key_persists fault umask data_dir (se_fresh s) (mc_disk mc) Hf Hno Hwk) as (d1 & Hload & Hfiles1 & Hdbs1 & _).
  assert (clear_way db_path d1) as Hwd1 by by eapply clear_way_key.
  destruct (put_block_tip genesis (open_temporary : NovaDB Tr) ∅ open_temporary_inv) as (db1 & Hp & Hinv1 & Hl1 & _); [done|].
  change (height (header genesis)) with 0 in *.
  destruct (session_runs s mc (se_fresh s) d1 open_temporary (opened open_temporary d1) db1 0 0 (<[0 := genesis]> ∅) times)
    as (rep & mc' & Hrun & Hrep & (Hfiles & _ & _) & db' & Bs' & Hdb' & Hinv' & Htip' & Hblk' & Hold & Hnew);
    [exact Hload| | |exact Hinv1|exact Hl1|by rewrite lookup_insert_eq|exact Hn|exact Hb|exact Ht|].
  { rewrite run_open_db_ok, Hdbs1, Hnodb by done. reflexivity. }
  { unfold initialize_genesis. cbn [fst snd]. by rewrite open_temporary_height, Hp. }
  cbn [mc_disk opened dk_files] in Hfiles. rewrite Z.add_0_l in *.
  exists rep, mc', db', Bs'. split; [exact Hrun|]. split; [exact Hrep|].
  split; [| |exact Hdb'|exact Hinv'|exact Htip'|exact Hblk'|].
  - rewrite Hfiles, Hfiles1. apply lookup_insert_eq.
  - unfold clear_way. rewrite Hfiles. exact Hwd1.
  - split; [by rewrite Hold, lookup_insert_eq|lia|]. intros h Hh. apply Hnew. lia.
Qed.

(** Sessions whose listeners bind and whose loop is not disturbed, with the times of their rounds. *)
Definition quiet (s : Session) (times : list Z) : Prop := binds s /\ turns s = undisturbed times.

Lemma sessions_grow ss tss mc kp n Bs db :
  Forall2 quiet ss tss -> grown kp n Bs db mc -> n + Z.of_nat (length (concat tss)) < U64_MAX ->
  exists reps mc' db' Bs', run_sessions fault umask home version o ss mc = (Ok reps, mc') /\
    length reps = length ss /\ Forall (fun r => rp_public_key r = pk_to_hex (public_key kp)) reps /\
    grown kp (n + Z.of_nat (length (concat tss))) Bs' db' mc'.
Proof.
  intros Hss. revert mc n Bs db; induction Hss as [|s times ss tss [Hb Ht] _ IH]; intros mc n Bs db Hg Hn; cbn [concat length] in *.
  { exists [], mc, db, Bs. rewrite Z.add_0_r. by split_and!. }
  rewrite length_app, Nat2Z.inj_add in *.
  destruct (session_grows s mc kp n Bs db times Hg Hb Ht ltac:(lia)) as (rep & mc1 & db1 & Bs1 & Hrun & Hrep & Hg1).
  destruct (IH mc1 _ _ _ Hg1 ltac:(lia)) as (reps & mc' & db' & Bs' & Hruns & Hlen & Hreps & Hg').
  exists (rep :: reps), mc', db', Bs'. rewrite Z.add_assoc. split_and!; [|cbn; lia|by constructor|done].
  cbn [run_sessions]. unfold mbind, M_bind. rewrite Hrun, Hruns. done.
Qed.

(** C16. A validator (not a developer node) on a machine without its files, over storage that
    does not fail, whose addresses are free and whose loop is not interrupted in a round,
    keeps its identity and its chain over any number of restarts: the first
    start makes the key and the genesis block, every start presents the same key, and
    over all sessions together the chain on disk grows by one block a round, each signed
    by that key and linked to the one before, back to genesis.  All of them carry the root
    of the empty tree. *)
Theorem validator_sessions s ss times tss mc :
  blank mc -> quiet s times -> Forall2 quiet ss tss -> Z.of_nat (length (times ++ concat tss)) < U64_MAX ->
  exists reps mc' db Bs, run_sessions fault umask home version o (s :: ss) mc = (Ok reps, mc') /\
    length reps = (1 + length ss)%nat /\
    Forall (fun r => rp_public_key r = pk_to_hex (public_key (se_fresh s))) reps /\
    dk_dbs (mc_disk mc') !! components db_path = Some db /\ db_inv db Bs /\
    get_latest_block_height db = Ok (Some (Z.of_nat (length (times ++ concat tss)))) /\
    Bs !! 0 = Some genesis /\
    forall h, 0 <= h < Z.of_nat (length (times ++ concat tss)) -> extends (se_fresh s) empty_root Bs h.
Proof.
  intros Hblank [Hb Ht] Hss Hn. rewrite length_app, Nat2Z.inj_add in *.
  destruct (first_session_grows s mc times Hblank Hb Ht ltac:(lia)) as (rep & mc1 & db1 & Bs1 & Hrun & Hrep & Hg1).
  destruct (sessions_grow ss tss mc1 _ _ _ _ Hss Hg1 ltac:(lia)) as (reps & mc' & db & Bs & Hruns & Hlen & Hreps & [_ _ Hdb Hinv Htip _ [Hgen _ Hlinks]]).
  exists (rep :: reps), mc', db, Bs.
  split; [|split; [cbn; lia|split; [by constructor|exact (conj Hdb (conj Hinv (conj Htip (conj Hgen Hlinks))))]]].
  cbn [run_sessions]. unfold mbind, M_bind. rewrite Hrun, Hruns. done.
Qed.
End Sessions.

(** ** Witnesses: three starts of one validator, the second of which cannot bind its interface *)

Module LifecycleExamples.
Export StartupExamples EventExamples.

Definition options : RunOptions :=
  mkRunOptions "/n" "127.0.0.1:9741" "127.0.0.1:9740" "127.0.0.1:9742" false "info" true 5 9741 9740 9742 None.

Definition blank_machine : Machine Store := mkMachine blank_disk ∅.

Definition free (addr : string) : option string := None.
Definition taken (addr : string) : option string := Some "Address already in use"%string.

Definition session1 : Session := mkSession boss free (undisturbed [2000], [], undisturbed [4000; 6000]).
Definition session2 : Session := mkSession heir free ([], undisturbed [8000], []).
Definition blocked : Session := mkSession heir taken (undisturbed [9000], [], []).
End LifecycleExamples.

Import LifecycleExamples.

Lemma validator_sessions_witness :
  exists reps mc' db, run_sessions no_fault 18 None "0.1.0" options [session1; session2] blank_machine = (Ok reps, mc') /\
    Forall (fun r => rp_public_key r = pk_to_hex (public_key boss)) reps /\
    dk_dbs (mc_disk mc') !! ["/"; "n"; "db"]%string = Some db /\ get_latest_block_height db = Ok (Some 4).
Proof.
  destruct (validator_sessions (P := names_registry) (B := ring) no_fault 18 None "0.1.0" "/n" options eq_refl eq_refl eq_refl (fun _ _ => eq_refl)
    (fun _ => eq_refl) session1 [session2] [2000; 4000; 6000] [[8000]] blank_machine)
    as (reps & mc' & db & Bs & Hrun & _ & Hkeys & Hdb & _ & Htip & _).
  - split; [reflexivity|]. split; [repeat constructor|]. split; [repeat constructor|reflexivity].
  - split; [split; reflexivity|reflexivity].
  - repeat constructor.
  - reflexivity.
  - exists reps, mc', db. split; [exact Hrun|]. split; [exact Hkeys|]. split; [exact Hdb|exact Htip].
Defined.

Lemma unbound_session_leaves_rounds_witness :
  exists (mc mc' : Machine Store) db', run_node no_fault 18 None "0.1.0" options blocked mc =
      (Err ["failed to bind RPC listener on 127.0.0.1:9741"; "Address already in use"]%string, mc') /\
    dk_dbs (mc_disk mc') !! ["/"; "n"; "db"]%string = Some db' /\ get_latest_block_height db' = Ok (Some 4).
Proof.
  destruct (first_session_grows (Tr := Store) (P := names_registry) (B := ring) no_fault 18 None "0.1.0" "/n" options eq_refl eq_refl eq_refl (fun _ _ => eq_refl)
    (fun _ => eq_refl) session1 blank_machine [2000; 4000; 6000]) as (rep & mc & db & Bs & _ & _ & Hg).
  - split; [reflexivity|]. split; [repeat constructor|]. split; [repeat constructor|reflexivity].
  - split; reflexivity.
  - reflexivity.
  - reflexivity.
  - destruct (unbound_session_leaves_rounds (P := names_registry) (B := ring) no_fault 18 None "0.1.0" "/n" options eq_refl eq_refl eq_refl (fun _ _ => eq_refl)
      (fun _ => eq_refl) blocked mc boss 3 Bs db [9000] "Address already in use" Hg) as (mc' & db' & Bs' & Hrun & Hg');
      [reflexivity|reflexivity|reflexivity|].
    exists mc, mc', db'. split; [exact Hrun|]. destruct Hg' as [_ _ Hd _ Ht _ _]. split; [exact Hd|exact Ht].
Defined.
