(* ===== verification/Replica.v ===== *)
(** * Replicas: a producing node and the peers that follow it

    The composition of block production ([Producer]) and synchronization ([Sync]).
    [replica] says that a database and a state tree hold a chain on the genesis block and
    the accounts that its transactions lead to.  A validator that receives transactions
    and runs rounds stays a replica of a growing chain.  Any peer that is a replica of a
    prefix becomes a replica of the whole chain.

    Nothing under src/ calls the synchronization engine.  [catch_up] and [net_step] are
    drivers, written here: [catch_up] calls [compute_sync_plan], [process_sync_request]
    and [apply_blocks] in the order of the diagram in the documentation of
    [network/sync.rs] (ask a peer for its tip, compute the plan, fetch and apply the
    batches), and [net_step] lets one node receive transactions and run rounds while
    another only follows: the follower starts from the database and the accounts of a
    booted node, and runs no consensus loop of its own. *)

From S2P Require Import Prelude Bytes Crypto Transaction Block Sled StateTree StateTreeBits.
From S2P Require Import StateTreeSpec StateTreeProofs StateTransfer Db Mempool Consensus Producer Sync Keys Api Boot.

#[local] Open Scope Z_scope.
#[local] Opaque tree_put tree_get H compute_default_hashes apply_transfer.

(** ** Chains of blocks *)

Section Chains.
Context {C : Crypto} {T : TxCodec}.

Lemma linked_app ph h l k :
  linked ph h (l ++ k) <->
  linked ph h l /\ linked (default ph (hash ∘ header <$> last l)) (h + Z.of_nat (length l)) k.
Proof.
  revert ph h; induction l as [|b l IH]; intros ph h; cbn [app linked length].
  { rewrite Z.add_0_r. cbn. tauto. }
  rewrite IH, last_cons. replace (h + 1 + Z.of_nat (length l)) with (h + Z.of_nat (S (length l))) by lia.
  destruct (last l); cbn; tauto.
Qed.

Lemma linked_lookup ph h l i b : linked ph h l -> l !! i = Some b -> height (header b) = h + Z.of_nat i.
Proof.
  revert ph h i; induction l as [|c l IH]; intros ph h [|i] Hl Hb; [done..| |]; destruct Hl as (_ & Hh & _ & Hl).
  - injection Hb as <-. lia.
  - rewrite (IH _ _ _ Hl Hb). lia.
Qed.

Lemma linked_sorted ph h l : linked ph h l -> StronglySorted (fun b c => height (header b) < height (header c)) l.
Proof.
  revert ph h; induction l as [|b l IH]; intros ph h Hl; [constructor|]. destruct Hl as (_ & Hh & _ & Hl).
  constructor; [by eapply IH|]. apply Forall_forall. intros c [i Hc]%list_elem_of_lookup.
  rewrite (linked_lookup _ _ _ _ _ Hl Hc). lia.
Qed.

Lemma store_all_lookup ph h l B k :
  linked ph h l ->
  store_all l B !! k =
  if decide (h <= k < h + Z.of_nat (length l)) then l !! Z.to_nat (k - h) else B !! k.
Proof.
  revert ph h B; induction l as [|b l IH]; intros ph h B Hl; cbn [store_all fold_left length].
  { rewrite decide_False by lia. done. }
  destruct Hl as (_ & Hh & _ & Hl). fold (store_all l (<[height (header b) := b]> B)). rewrite (IH _ _ _ Hl), Hh.
  destruct (decide (k = h)) as [->|Hne].
  - rewrite decide_False, decide_True, lookup_insert_eq, Z.sub_diag by lia. done.
  - destruct (decide (h + 1 <= k < h + 1 + Z.of_nat (length l))).
    + rewrite decide_True by lia. replace (Z.to_nat (k - h)) with (S (Z.to_nat (k - (h + 1)))) by lia. done.
    + rewrite decide_False, lookup_insert_ne by lia. done.
Qed.

(** The blocks of a chain on genesis, by height. *)
Definition chain_map (blocks : list Block) : gmap Z Block := store_all blocks (<[0 := genesis]> ∅).

Definition on_genesis (blocks : list Block) : Prop := linked (hash (header genesis)) 1 blocks.

Lemma chain_map_lookup blocks k : on_genesis blocks ->
  chain_map blocks !! k = if decide (0 <= k) then (genesis :: blocks) !! Z.to_nat k else None.
Proof.
  intros Hl. unfold chain_map. rewrite (store_all_lookup _ _ _ _ _ Hl). case_decide.
  - rewrite decide_True by lia. replace (Z.to_nat k) with (S (Z.to_nat (k - 1))) by lia. done.
  - destruct (decide (k = 0)) as [->|]; [by rewrite lookup_insert_eq|].
    rewrite lookup_insert_ne, lookup_empty by done. case_decide; [|done].
    symmetry. apply lookup_ge_None. cbn [length]. lia.
Qed.

(** The blocks at heights [s .. e - 1]. *)
Definition batch (s e : Z) (blocks : list Block) : list Block :=
  take (Z.to_nat (e - s)) (drop (Z.to_nat (s - 1)) blocks).

Lemma batch_elem s e blocks b :
  on_genesis blocks -> 1 <= s -> e <= Z.of_nat (length blocks) + 1 ->
  (b ∈ batch s e blocks <-> exists h, s <= h <= e - 1 /\ chain_map blocks !! h = Some b).
Proof.
  intros Hl Hs He. unfold batch. split.
  - intros [i Hi]%list_elem_of_lookup. apply lookup_take_Some in Hi as [Hi Hlt]. rewrite lookup_drop in Hi.
    exists (s + Z.of_nat i). split; [lia|]. rewrite chain_map_lookup, decide_True by (done || lia).
    by replace (Z.to_nat (s + Z.of_nat i)) with (S (Z.to_nat (s - 1) + i)) by lia.
  - intros (h & Hh & Hb). rewrite chain_map_lookup, decide_True in Hb by (done || lia).
    replace (Z.to_nat h) with (S (Z.to_nat (s - 1) + Z.to_nat (h - s))) in Hb by lia.
    apply (list_elem_of_lookup_2 _ (Z.to_nat (h - s))). rewrite lookup_take_lt by lia. by rewrite lookup_drop.
Qed.

Lemma sorted_same_elements (l k : list Block) :
  StronglySorted (fun b c => height (header b) < height (header c)) l ->
  StronglySorted (fun b c => height (header b) < height (header c)) k ->
  (forall b, b ∈ l <-> b ∈ k) -> l = k.
Proof.
  revert k; induction l as [|b l IH]; intros k Hl Hk Hel.
  - destruct k as [|c k]; [done|]. exfalso. apply (not_elem_of_nil c), Hel. by left.
  - destruct k as [|c k]; [exfalso; apply (not_elem_of_nil b), Hel; by left|].
    inversion_clear Hl as [|? ? Hsl Hfl]. inversion_clear Hk as [|? ? Hsk Hfk]. rewrite Forall_forall in *.
    assert (b = c) as ->.
    { assert (b ∈ c :: k) as [Hb|Hb]%elem_of_cons by (apply Hel; by left); [done|].
      assert (c ∈ b :: l) as [Hc|Hc]%elem_of_cons by (apply Hel; by left); [done|].
      specialize (Hfl _ Hc). specialize (Hfk _ Hb). lia. }
    f_equal. apply IH; [done..|]. intros x. split; intros Hx.
    + assert (x ∈ c :: k) as [->|]%elem_of_cons by (apply Hel; by right); [|done]. specialize (Hfl _ Hx). lia.
    + assert (x ∈ c :: l) as [->|]%elem_of_cons by (apply Hel; by right); [|done]. specialize (Hfk _ Hx). lia.
Qed.

Lemma batch_sorted s e blocks :
  on_genesis blocks -> StronglySorted (fun b c => height (header b) < height (header c)) (batch s e blocks).
Proof.
  intros Hl. unfold batch. apply linked_sorted in Hl.
  rewrite <- (take_drop (Z.to_nat (s - 1)) blocks) in Hl. apply StronglySorted_app in Hl as (_ & _ & Hl).
  rewrite <- (take_drop (Z.to_nat (e - s)) (drop _ blocks)) in Hl. by apply StronglySorted_app in Hl as (_ & Hl & _).
Qed.

(** A chain is its prefix of [n] blocks, the next batch, and the rest. *)
Lemma batch_split (n m : Z) blocks :
  0 <= n <= m -> m <= Z.of_nat (length blocks) ->
  take (Z.to_nat m) blocks = take (Z.to_nat n) blocks ++ batch (n + 1) (m + 1) blocks.
Proof.
  intros Hn Hm. unfold batch. replace (Z.to_nat (n + 1 - 1)) with (Z.to_nat n) by lia.
  replace (m + 1 - (n + 1)) with (m - n) by lia.
  rewrite take_take_drop. f_equal. lia.
Qed.
End Chains.

(** ** Following a peer *)

Section Follow.
Context {C : Crypto} {L : CryptoLaws C} {K : AccountCodec} {KL : AccountCodecLaws K}.
Context {SC : StorageCodec} {SCL : StorageCodecLaws SC} {T : TxCodec}.
Context {Tr : Type} `{Sd : Sled Tr} {SL : SledLaws Tr} {SH : SledHealthy Tr}.

(** One request of the plan, and the batch it brings. *)
Definition fetch (peer : SyncEngine Tr) (range : Z * Z) : M (SyncEngine Tr) SyncError unit :=
  r ← lift (process_sync_request (GetBlocks range.1 range.2) peer);
  match r with
  | Blocks blocks => _ ← apply_blocks blocks; mret tt
  | _ => throw PeerDisconnected
  end.

Definition catch_up (peer : SyncEngine Tr) : M (SyncEngine Tr) SyncError unit :=
  s ← get;
  own ← lift (local_chain_tip s);
  tip ← lift (process_sync_request GetChainTip peer);
  match tip, compute_sync_plan (se_config s) own.1 (match tip with ChainTip h _ => h | _ => 0 end) with
  | ChainTip _ _, Some plan => plan ← lift plan; for_each plan (fetch peer)
  | _, _ => throw PeerDisconnected
  end.

(** A tree and a database that hold the chain [blocks] on genesis and the accounts its
    transactions lead to from [A0]. *)
Record replica (A0 : Accounts) (blocks : list Block) (tree : StateTree Tr) (db : NovaDB Tr) : Prop := {
  rp_chain : on_genesis blocks;
  rp_accounts : exists A, replay_map (all_txs blocks) A0 = Ok A /\ tree_inv tree A;
  rp_db : db_inv db (chain_map blocks);
  rp_tip : get_latest_block_height db = Ok (Some (Z.of_nat (length blocks)))
}.

Lemma replica_height A0 blocks tree db b :
  replica A0 blocks tree db -> b ∈ genesis :: blocks -> in_u64 (height (header b)).
Proof.
  intros Hr [i Hi]%list_elem_of_lookup. apply (fun H => proj1 (di_heights _ _ (rp_db _ _ _ _ Hr) (height (header b)) b H)).
  assert (height (header b) = Z.of_nat i) as ->.
  { destruct i; [by injection Hi as <-|]. rewrite (linked_lookup _ _ _ _ _ (rp_chain _ _ _ _ Hr) Hi). lia. }
  rewrite chain_map_lookup, decide_True, Nat2Z.id by (apply Hr || lia). done.
Qed.

Lemma replica_tip_block A0 blocks tree db :
  replica A0 blocks tree db ->
  exists b, last (genesis :: blocks) = Some b /\ height (header b) = Z.of_nat (length blocks) /\ in_u64 (height (header b)) /\ get_block (Z.of_nat (length blocks)) db = Ok (Some b).
Proof.
  intros Hr. destruct (last (genesis :: blocks)) as [b|] eqn:Hl; [|by apply last_None in Hl].
  pose proof (replica_height _ _ _ _ b Hr (last_Some_elem_of _ _ Hl)) as Hu.
  rewrite last_lookup in Hl. cbn [length Nat.pred] in Hl.
  assert (height (header b) = Z.of_nat (length blocks)) as Hh.
  { destruct (length blocks) as [|n]; [by injection Hl as <-|].
    rewrite (linked_lookup _ _ _ _ _ (rp_chain _ _ _ _ Hr) Hl). lia. }
  exists b. split; [done|]. split; [done|]. split; [done|]. rewrite Hh in Hu.
  rewrite (get_block_inv _ _ _ (rp_db _ _ _ _ Hr) Hu), chain_map_lookup, decide_True, Nat2Z.id; [|lia|apply Hr].
  by rewrite Hl.
Qed.

Lemma replica_local_tip A0 blocks s :
  replica A0 blocks (se_tree s) (se_db s) ->
  exists x, local_chain_tip s = Ok (Z.of_nat (length blocks), x).
Proof.
  intros Hr. destruct (replica_tip_block _ _ _ _ Hr) as (b & _ & _ & _ & Hb).
  unfold local_chain_tip. rewrite (rp_tip _ _ _ _ Hr). cbn. rewrite Hb. by eexists.
Qed.

(** A replica answers a range request with the blocks of the range. *)
Lemma replica_serves A0 blocks peer s e :
  replica A0 blocks (se_tree peer) (se_db peer) -> 1 <= s < e -> e <= Z.of_nat (length blocks) + 1 ->
  process_sync_request (E := SyncError) (GetBlocks s e) peer = Ok (Blocks (batch s e blocks)).
Proof.
  intros Hr Hs He. cbn [process_sync_request]. rewrite (proj2 (Z.leb_gt _ _)) by lia.
  destruct (replica_tip_block _ _ _ _ Hr) as (b & _ & Hh & Hu & _). unfold in_u64 in Hu.
  destruct (get_block_range_complete s (e - 1) (se_db peer) _ (rp_db _ _ _ _ Hr)) as (l & -> & Hsort & Hel);
    [unfold in_u64; lia..|].
  do 2 f_equal. apply sorted_same_elements; [done|apply batch_sorted, Hr|].
  intros c. rewrite Hel, batch_elem by (apply Hr || lia). done.
Qed.

Lemma all_txs_app l k : all_txs (l ++ k) = all_txs l ++ all_txs k.
Proof. unfold all_txs. by rewrite fmap_app, concat_app. Qed.

Lemma chain_map_app l k : chain_map (l ++ k) = store_all k (chain_map l).
Proof. unfold chain_map, store_all. by rewrite fold_left_app. Qed.

(** Applying the next stretch of a chain that another node holds. *)
Lemma replica_applies A0 l k rest tree db (s : SyncEngine Tr) :
  replica A0 (l ++ k ++ rest) tree db -> replica A0 l (se_tree s) (se_db s) -> k <> [] ->
  exists r s', apply_blocks k s = (Ok r, s') /\ replica A0 (l ++ k) (se_tree s') (se_db s') /\
    se_config s' = se_config s.
Proof.
  intros Hp [Hc (A & HA & Ht) Hd Htip] Hk. destruct k as [|b0 k0] eqn:Ek; [done|]. rewrite <- Ek in *. clear Hk.
  pose proof (rp_chain _ _ _ _ Hp) as Hl. unfold on_genesis in *. rewrite app_assoc in Hl.
  apply linked_app in Hl as [Hl _]. pose proof (proj2 (proj1 (linked_app _ _ _ _) Hl)) as Hk.
  set (ph := default (hash (header genesis)) (hash ∘ header <$> last l)) in *.
  set (h := 1 + Z.of_nat (length l)) in *. pose proof Hk as Hb0. rewrite Ek in Hb0. destruct Hb0 as (_ & Hh0 & _).
  assert (Forall (fun b => in_u64 (height (header b))) k) as Hu.
  { apply Forall_forall. intros b Hb. apply (replica_height _ _ _ _ b Hp). right. set_solver. }
  destruct (rp_accounts _ _ _ _ Hp) as (Ap & HAp & _). rewrite !all_txs_app, replay_map_app, HA, replay_map_app in HAp.
  destruct (replay_map (all_txs k) A) as [A'|e|] eqn:HA'; [|done..].
  assert (anchor (chain_map l) h = Some ph) as Hanch.
  { unfold anchor. rewrite (proj2 (Z.eqb_neq _ _)) by lia. rewrite chain_map_lookup, decide_True by (done || lia).
    replace (Z.to_nat (h - 1)) with (Nat.pred (length (genesis :: l))) by (cbn; lia).
    rewrite <- last_lookup, last_cons. unfold ph. by destruct (last l). }
  destruct (apply_loop_ok true h ph (if h =? 0 then 0 else h - 1) 0 0 k s A _ A' (conj Ht Hd) Hk Hu ltac:(lia) HA')
    as (s' & Hrun & [Ht' Hd'] & Hcfg & Hlat).
  eexists _, s'. split; [|split; [|exact Hcfg]].
  - rewrite Ek in *. rewrite (apply_blocks_prefix b0 k0 s A _ (conj Ht Hd)) by (by apply Forall_cons in Hu as [? _]).
    rewrite Hh0, Hanch. unfold mbind, M_bind. rewrite Hrun. reflexivity.
  - split; [done| | |].
    + exists A'. split; [|done]. by rewrite all_txs_app, replay_map_app, HA.
    + by rewrite chain_map_app.
    + rewrite Hlat. destruct (last k) as [b|] eqn:Hb; [|subst k; by apply last_None in Hb].
      rewrite last_lookup in Hb. rewrite (linked_lookup _ _ _ _ _ Hk Hb), length_app. subst k. cbn [length Nat.pred].
      do 2 f_equal. lia.
Qed.

Lemma for_each_fetch A0 blocks peer plan n (s : SyncEngine Tr) :
  replica A0 blocks (se_tree peer) (se_db peer) ->
  replica A0 (take (Z.to_nat n) blocks) (se_tree s) (se_db s) -> 0 <= n <= Z.of_nat (length blocks) ->
  covers (n + 1) (Z.of_nat (length blocks) + 1) (batch_size (se_config s)) plan ->
  exists s', for_each plan (fetch peer) s = (Ok tt, s') /\ replica A0 blocks (se_tree s') (se_db s') /\
    se_config s' = se_config s.
Proof.
  intros Hp. revert n s; induction plan as [|[a e] plan IH]; intros n s Hs Hn Hcov; cbn [covers] in Hcov.
  { exists s. split; [done|]. rewrite take_ge in Hs by lia. done. }
  destruct Hcov as (-> & Hae & Hb & Hcov).
  pose proof (batch_split n (e - 1) blocks ltac:(lia) ltac:(lia)) as Hsplit. rewrite Z.sub_add in Hsplit.
  set (k := batch (n + 1) e blocks) in *.
  assert (blocks = take (Z.to_nat n) blocks ++ k ++ drop (Z.to_nat (e - 1)) blocks) as Hblocks.
  { rewrite app_assoc, <- Hsplit. by rewrite take_drop. }
  assert (k <> []) as Hk.
  { intros E. apply (f_equal length) in E. unfold k, batch in E. rewrite length_take, length_drop in E. cbn in E. lia. }
  rewrite Hblocks in Hp at 1.
  destruct (replica_applies _ _ _ _ _ _ s Hp Hs Hk) as (r & s1 & Hrun & Hs1 & Hcfg). rewrite <- Hblocks in Hp.
  rewrite <- Hsplit in Hs1.
  destruct (IH (e - 1) s1 Hs1 ltac:(lia)) as (s' & Hall & Hs' & Hc'); [by rewrite Hcfg, Z.sub_add|].
  exists s'. split; [|split; [done|congruence]]. cbn [for_each]. unfold mbind at 1, M_bind at 1. unfold fetch at 1. cbn [fst snd].
  rewrite (replica_serves _ _ _ _ _ Hp) by lia. unfold lift, mbind, M_bind. fold k. rewrite Hrun. exact Hall.
Qed.

(** Two replicas of one chain: the same root, the same blocks, nothing left to fetch. *)
Lemma replicas_agree A0 blocks (s s' : SyncEngine Tr) :
  replica A0 blocks (se_tree s) (se_db s) -> replica A0 blocks (se_tree s') (se_db s') ->
  root (se_tree s) = root (se_tree s') /\
  (forall address, tree_get address (se_tree s) = tree_get address (se_tree s')) /\
  (forall h, in_u64 h -> get_block h (se_db s) = get_block h (se_db s')) /\
  needs_sync (Z.of_nat (length blocks)) s = false.
Proof.
  intros [_ (A & HA & Ht) Hd Htip] [_ (A' & HA' & Ht') Hd' _]. rewrite HA in HA'. injection HA' as <-.
  split; [by eapply tree_inv_same_root|]. split; [|split].
  - intros address. by rewrite (tree_get_spec _ _ _ Ht), (tree_get_spec _ _ _ Ht').
  - intros h Hh. by rewrite (get_block_inv _ _ _ Hd), (get_block_inv _ _ _ Hd').
  - unfold needs_sync. rewrite Htip. apply Z.ltb_irrefl.
Qed.

(** A follower of any prefix, the whole chain included, ends with the whole chain. *)
Lemma catch_up_spec A0 blocks n (peer s : SyncEngine Tr) :
  replica A0 blocks (se_tree peer) (se_db peer) ->
  replica A0 (take n blocks) (se_tree s) (se_db s) ->
  0 < batch_size (se_config s) -> Z.of_nat (length blocks) + batch_size (se_config s) <= U64_MAX ->
  exists s', catch_up peer s = (Ok tt, s') /\ replica A0 blocks (se_tree s') (se_db s') /\
    se_config s' = se_config s.
Proof.
  intros Hp Hs Hb Ho. set (m := Nat.min n (length blocks)).
  assert (take n blocks = take m blocks) as Hm by (unfold m; by rewrite <- take_take, (take_ge blocks (length blocks))).
  rewrite Hm in Hs. assert (length (take m blocks) = m) as Hlen by (rewrite length_take; lia).
  destruct (replica_local_tip _ _ _ Hs) as [x Hx]. destruct (replica_local_tip _ _ _ Hp) as [y Hy]. rewrite Hlen in Hx.
  unfold catch_up, lift, get, mbind, M_bind. rewrite Hx. cbn [process_sync_request fst]. rewrite Hy.
  destruct (decide (m = length blocks)) as [E|Hne].
  - exists s. rewrite E, take_ge in Hs by lia. split; [|done].
    unfold compute_sync_plan. rewrite (proj2 (Z.leb_le _ _)) by lia. done.
  - unfold compute_sync_plan, checked_add. rewrite (proj2 (Z.leb_gt _ _)), !(proj2 (Z.leb_le _ _)) by lia.
    destruct (plan_loop_covers (E := SyncError) (Z.to_nat (Z.of_nat (length blocks) + 1 - (Z.of_nat m + 1)))
      (Z.of_nat m + 1) (Z.of_nat (length blocks) + 1) (batch_size (se_config s))) as (plan & -> & Hcov); [lia..|].
    apply (for_each_fetch A0 blocks peer plan (Z.of_nat m) s); [done| |lia|done]. by rewrite Nat2Z.id.
Qed.
End Follow.

(** ** A validator and its follower *)

Section Network.
Context {C : Crypto} {L : CryptoLaws C} {K : AccountCodec} {KL : AccountCodecLaws K}.
Context {SC : StorageCodec} {SCL : StorageCodecLaws SC} {T : TxCodec}.
Context {Tr : Type} `{Sd : Sled Tr} {SL : SledLaws Tr} {SH : SledHealthy Tr}.
Context (kp : NovaKeypair) (cfg : ConsensusLoopConfig).

(** What happens in the network: the validator receives a transaction, it runs a round,
    the follower asks it for news. *)
Inductive event :=
| Submit (now : Z) (tx : Transaction)
| Round (now_ms : Z)
| Pull.

Record Net := mkNet { leader : Node Tr; follower : SyncEngine Tr }.

Definition leader_engine (net : Net) : SyncEngine Tr :=
  mkSync (nd_db (leader net)) (nd_tree (leader net)) default_sync_config.

Definition net_step (net : Net) (e : event) : Net :=
  match e with
  | Submit now tx => mkNet (set_nd_pool (pool_add now tx (nd_pool (leader net))).2 (leader net)) (follower net)
  | Round now_ms => mkNet (run_single_round now_ms kp cfg (leader net)).2 (follower net)
  | Pull => mkNet (leader net) (catch_up (leader_engine net) (follower net)).2
  end.

Definition net_run (net : Net) (events : list event) : Net := fold_left net_step events net.

Definition rounds (events : list event) : nat :=
  sum_list_with (fun e => match e with Round _ => 1 | _ => 0 end)%nat events.

(** A lone validator with room for [r] more rounds, holding the chain [blocks]. *)
Record leading (A0 : Accounts) (r : nat) (blocks : list Block) (n : Node Tr) : Prop := {
  ld_replica : replica A0 blocks (nd_tree n) (nd_db n);
  ld_alone : exists st, validator_set (nd_engine n) = alone kp st;
  ld_pool : pool_inv (nd_pool n);
  ld_amounts : forall id tx, pool_get id (nd_pool n) = Some tx -> amount_ok tx;
  ld_ledger : forall A, replay_map (all_txs blocks) A0 = Ok A -> ledger_ok (r * max_txs_per_block cfg) A;
  ld_heights : Z.of_nat (length blocks) + Z.of_nat r <= U64_MAX;
  ld_next : next_height (nd_engine n) + Z.of_nat r <= U64_MAX;
  ld_round : current_round (nd_engine n) + Z.of_nat r <= U64_MAX;
  ld_root : forall b, last blocks = Some b -> state_root (header b) = root (nd_tree n)
}.

Lemma select_elem m p tx : pool_inv p -> tx ∈ select_transactions m p -> pool_get (tx_id tx) p = Some tx.
Proof.
  intros Hp. unfold select_transactions. rewrite select_loop_take. cbn [app]. intros Hin%elem_of_take.
  apply (ranked_elem p tx Hp). by destruct Hin as (i & Hi & _); apply list_elem_of_lookup_2 in Hi.
Qed.

Lemma leading_submit A0 r blocks n now tx :
  amount_ok tx -> leading A0 r blocks n ->
  leading A0 r blocks (set_nd_pool (pool_add now tx (nd_pool n)).2 n).
Proof.
  intros Htx []. split; cbn [nd_tree nd_db nd_engine nd_pool set_nd_pool]; try done; [by apply pool_add_inv|].
  pose proof (pool_add_spec now tx (nd_pool n) ld_pool0) as Hspec.
  destruct (pool_add now tx (nd_pool n)) as [[[]|e|] p']; cbn [snd]; [|by destruct Hspec as [-> _]|done].
  intros id tx' Hget. destruct Hspec as [(_ & _ & _ & Hg)|(_ & _ & out & _ & _ & _ & Hg)]; rewrite Hg in Hget;
    repeat case_decide; by simplify_eq || eauto.
Qed.

Lemma leading_round A0 r blocks n now_ms :
  leading A0 (S r) blocks n ->
  exists b f n', run_single_round now_ms kp cfg n = (Ok (Some f), n') /\ fb_block f = b /\
    leading A0 r (blocks ++ [b]) n'.
Proof.
  intros [Hr [st Hst] Hpool Ham Hled Hh Hn Hc _].
  destruct (replica_tip_block _ _ _ _ Hr) as (p & Hp & Hhp & Hu & Hgb).
  pose proof Hr as [Hchain (A & HA & Ht) Hd Htip]. specialize (Hled A HA).
  assert (get_latest_block (nd_db n) = Ok p) as Hlat by (unfold get_latest_block; rewrite Htip; cbn; by rewrite Hgb).
  assert (Forall amount_ok (select_transactions (max_txs_per_block cfg) (nd_pool n))) as Hsel
    by (apply Forall_forall; intros tx Htx; eapply Ham, select_elem; done).
  assert (0 <= height (header p) < U64_MAX) as Hhb by lia.
  assert (ledger_ok (max_txs_per_block cfg) A) as Hled1 by (eapply ledger_ok_weaken; [|exact Hled]; cbn; lia).
  destruct (produce_block_spec now_ms kp p (max_txs_per_block cfg) n A Ht Hled1 Hsel Hhb)
    as (tree' & results & b & Hprod & Ht' & Hok & _).
  destruct (round_completes now_ms kp cfg p n (chain_map blocks) (alone_turn kp st _ Hst) Hlat Hhb _ _ _ _ _ Hprod Hok)
    as (votes & d' & Hrun & Hd' & Hl' & _); [by rewrite Hst|exact Hd|lia..|].
  eexists b, _, _. split; [exact Hrun|]. split; [done|].
  pose proof (select_length (max_txs_per_block cfg) (nd_pool n)) as Hlen.
  set (cands := select_transactions (max_txs_per_block cfg) (nd_pool n)) in *.
  assert (ledger_ok (length cands + r * max_txs_per_block cfg) A) as Hled2
    by (eapply ledger_ok_weaken; [|exact Hled]; cbn; lia).
  assert (replay_map (all_txs (blocks ++ [b])) A0 = Ok (run_map cands A).2) as Hreplay.
  { rewrite all_txs_app, replay_map_app, HA. unfold all_txs. cbn. rewrite app_nil_r, (po_txs _ _ _ _ _ Hok).
    by eapply run_map_replay. }
  split; cbn [nd_tree nd_db nd_pool nd_engine validator_set next_height current_round]; rewrite ?length_app; cbn [length].
  - split.
    + apply linked_app. split; [done|]. cbn [linked]. destruct Hok as [Hv Hh' Hpar _ _ _ _].
      split_and!; [done|lia| |done]. rewrite Hpar, last_cons in *. destruct (last blocks); by injection Hp as ->.
    + eauto.
    + rewrite chain_map_app. exact Hd'.
    + rewrite Hl', (po_height _ _ _ _ _ Hok), Hhp, length_app. cbn [length]. do 2 f_equal. lia.
  - eauto.
  - by apply remove_all_inv.
  - intros id tx. unfold pool_get. rewrite remove_all_lookup. case_decide; [done|]. apply Ham.
  - intros A' HA'. rewrite Hreplay in HA'. injection HA' as <-. by eapply run_map_ok.
  - lia.
  - lia.
  - lia.
  - intros c. rewrite last_snoc. intros [= <-]. apply Hok.
Qed.

(** The invariant of the network: the follower holds a prefix of the validator's chain. *)
Definition net_ok (A0 : Accounts) (r k : nat) (net : Net) : Prop :=
  exists pre rest, leading A0 r (pre ++ rest) (leader net) /\
    replica A0 pre (se_tree (follower net)) (se_db (follower net)) /\
    se_config (follower net) = default_sync_config /\ length (pre ++ rest) = k.

Definition payable (e : event) : Prop := match e with Submit _ tx => amount_ok tx | _ => True end.

(** After a pull the follower's chain is the validator's. *)
Lemma net_pull A0 r k net :
  net_ok A0 r k net -> Z.of_nat k + batch_size default_sync_config <= U64_MAX ->
  exists blocks s', catch_up (leader_engine net) (follower net) = (Ok tt, s') /\
    leading A0 r blocks (leader net) /\ replica A0 blocks (se_tree s') (se_db s') /\
    se_config s' = default_sync_config /\ length blocks = k.
Proof.
  intros (pre & rest & Hl & Hf & Hc & Hk) Hb.
  destruct (catch_up_spec A0 (pre ++ rest) (length pre) (leader_engine net) (follower net)) as (s' & Hrun & Hs' & Hc').
  - exact (ld_replica _ _ _ _ Hl).
  - by rewrite take_app_length.
  - by rewrite Hc.
  - by rewrite Hc, Hk.
  - exists (pre ++ rest), s'. split; [exact Hrun|]. split; [exact Hl|]. split; [exact Hs'|]. split; [congruence|exact Hk].
Qed.

Lemma net_step_ok A0 r k net e :
  payable e -> Z.of_nat k + batch_size default_sync_config <= U64_MAX ->
  net_ok A0 (rounds [e] + r) k net -> net_ok A0 r (rounds [e] + k) (net_step net e).
Proof.
  intros Hp Hb Hnet. destruct e as [now tx|now_ms|]; cbn in Hnet |- *.
  - destruct Hnet as (pre & rest & Hl & Hf & Hc). exists pre, rest. split; [by apply leading_submit|done].
  - destruct Hnet as (pre & rest & Hl & Hf & Hc & Hk).
    destruct (leading_round _ _ _ _ now_ms Hl) as (b & f & n' & -> & _ & Hl'). exists pre, (rest ++ [b]).
    rewrite app_assoc. split; [exact Hl'|]. split; [exact Hf|]. split; [exact Hc|]. rewrite length_app, Hk. cbn. lia.
  - destruct (net_pull _ _ _ _ Hnet Hb) as (blocks & s' & -> & Hl & Hs' & Hc & Hk).
    exists blocks, []. rewrite app_nil_r. done.
Qed.

Lemma net_run_ok A0 r k net events :
  Forall payable events -> Z.of_nat (rounds events + k) + batch_size default_sync_config <= U64_MAX ->
  net_ok A0 (rounds events + r) k net -> net_ok A0 r (rounds events + k) (net_run net events).
Proof.
  intros Hp. revert k net; induction Hp as [|e events He Hp IH]; intros k net Hb Hnet; [done|].
  assert (rounds (e :: events) = rounds [e] + rounds events)%nat as Hr by (by destruct e). rewrite Hr in *.
  replace (rounds [e] + rounds events + k)%nat with (rounds events + (rounds [e] + k))%nat by lia.
  apply IH; [lia|]. apply (net_step_ok _ _ _ _ _ He); [lia|]. by rewrite Nat.add_assoc.
Qed.
End Network.

(** ** Convergence *)

Section Convergence.
Context {C : Crypto} {L : CryptoLaws C} {S : SecretKeys C} {K : AccountCodec} {KL : AccountCodecLaws K}.
Context {SC : StorageCodec} {SCL : StorageCodecLaws SC} {T : TxCodec}.
Context {Tr : Type} `{Sd : Sled Tr} {SL : SledLaws Tr} {SH : SledHealthy Tr}.

Lemma fund_all_ledger l A B :
  accounts_ok A -> supply A <= B -> (forall k, nonce (account A k) = 0) ->
  accounts_ok (fund_all l A) /\ supply (fund_all l A) <= B + Z.of_nat (length l) * DEV_ACCOUNT_BALANCE /\
  forall k, nonce (account (fund_all l A) k) = 0.
Proof.
  revert A B; induction l as [|i l IH]; intros A B HA Hs Hn; cbn [fund_all fold_left length].
  { split; [done|]. split; [lia|done]. }
  fold (fund_all l (<[address_to_key (dev_address i) := with_balance DEV_ACCOUNT_BALANCE]> A)).
  destruct (IH (<[address_to_key (dev_address i) := with_balance DEV_ACCOUNT_BALANCE]> A) (B + DEV_ACCOUNT_BALANCE))
    as (H1 & H2 & H3).
  - by apply accounts_ok_insert.
  - rewrite supply_insert. pose proof (account_ok A (address_to_key (dev_address i)) HA) as [[Hb _] _]. cbn. lia.
  - intros k. rewrite account_insert. case_decide; [done|apply Hn].
  - split; [exact H1|]. split; [lia|exact H3].
Qed.

Lemma dev_ledger n : Z.of_nat n <= U64_MAX -> ledger_ok n dev_accounts.
Proof.
  intros Hn. destruct (fund_all_ledger (seqZ 1 DEV_ACCOUNT_COUNT) ∅ 0) as (H1 & H2 & H3).
  - intros k a. by rewrite lookup_empty.
  - done.
  - intros k. unfold account. by rewrite lookup_empty.
  - split; [exact H1| |intros k; rewrite H3; lia]. etransitivity; [exact H2|]. vm_compute. discriminate.
Qed.

(** A booted developer node holds the empty chain. *)
Lemma booted_replica kp node : idle kp DEV_VALIDATOR_STAKE 0 node (<[0 := genesis]> ∅) ->
  tree_inv (nd_tree node) dev_accounts -> replica dev_accounts [] (nd_tree node) (nd_db node).
Proof. intros Hi Ht. split; [done|by exists dev_accounts|apply Hi|apply Hi]. Qed.

(** C14. Eventual agreement, under the driver [net_step]: a developer node and, on another
    machine, an engine over the stores of a second one, which runs no loop of its own and
    follows the first by the documented exchange.  Whatever transactions the first receives, however many rounds it runs and
    whenever the second asks for news, every round adds one block and one more request
    leaves both with the same blocks, the same accounts and the same root, which the last
    block carries; the follower then needs nothing more. *)
Theorem network_converges version kp kp' events :
  Forall payable events ->
  Z.of_nat (rounds events * max_txs_per_block default_loop_config) + batch_size default_sync_config < U64_MAX ->
  exists node app node' app',
    boot version (mkRunArgs true true 0) kp (open_temporary : NovaDB Tr) sled_new = Ok (node, app) /\
    boot version (mkRunArgs true true 0) kp' (open_temporary : NovaDB Tr) sled_new = Ok (node', app') /\
    let net := net_run kp default_loop_config
      (mkNet node (mkSync (nd_db node') (nd_tree node') default_sync_config)) (events ++ [Pull]) in
    exists tip, get_latest_block (nd_db (leader net)) = Ok tip /\
      height (header tip) = Z.of_nat (rounds events) /\
      (rounds events <> 0%nat -> state_root (header tip) = root (se_tree (follower net))) /\
      root (se_tree (follower net)) = root (nd_tree (leader net)) /\
      (forall address, tree_get address (se_tree (follower net)) = tree_get address (nd_tree (leader net))) /\
      (forall h, in_u64 h -> get_block h (se_db (follower net)) = get_block h (nd_db (leader net))) /\
      needs_sync (height (header tip)) (follower net) = false.
Proof.
  intros Hp Hb. cbn [max_txs_per_block default_loop_config batch_size default_sync_config] in Hb.
  destruct (dev_boot version true 0 kp) as (node & app & Hboot & Hi & Ht & Hnh & Hcr).
  destruct (dev_boot version true 0 kp') as (node' & app' & Hboot' & Hi' & Ht' & _).
  exists node, app, node', app'. split; [exact Hboot|]. split; [exact Hboot'|].
  set (net0 := mkNet node _).
  assert (net_ok kp default_loop_config dev_accounts (rounds events + 0) 0 net0) as H0.
  { exists [], []. split_and!; [|by eapply booted_replica|done|done]. rewrite Nat.add_0_r. change (leader net0) with node. split.
    - by eapply booted_replica.
    - eexists. apply Hi.
    - rewrite (idle_pool _ _ _ _ _ Hi). apply mempool_new_inv.
    - rewrite (idle_pool _ _ _ _ _ Hi). done.
    - intros A [= <-]. apply dev_ledger. cbn. lia.
    - cbn. lia.
    - rewrite Hnh. lia.
    - rewrite Hcr. lia.
    - done. }
  apply (net_run_ok kp default_loop_config _ _ _ _ events Hp) in H0; [|cbn; lia].
  cbv zeta. unfold net_run. rewrite fold_left_app. cbn [fold_left]. fold (net_run kp default_loop_config net0 events).
  destruct (net_pull kp default_loop_config _ _ _ _ H0) as (blocks & s' & Hpull & Hl & Hs & _ & Hk); [cbn; lia|].
  cbn [net_step leader follower]. rewrite Hpull. cbn [snd].
  set (lead := leader (net_run kp default_loop_config net0 events)) in *.
  destruct (replica_tip_block _ _ _ _ (ld_replica _ _ _ _ _ _ Hl)) as (tip & Htip & Hh & _ & Hgb).
  destruct (replicas_agree _ _ s' (mkSync (nd_db lead) (nd_tree lead) default_sync_config) Hs (ld_replica _ _ _ _ _ _ Hl))
    as (Hroot & Hacc & Hblk & Hns).
  rewrite Nat.add_0_r in Hk. exists tip. split_and!; try done.
  - unfold get_latest_block. rewrite (rp_tip _ _ _ _ (ld_replica _ _ _ _ _ _ Hl)). cbn. by rewrite Hgb.
  - by rewrite Hh, Hk.
  - intros Hne. rewrite Hroot. apply (ld_root _ _ _ _ _ _ Hl). rewrite last_cons in Htip.
    destruct (last blocks) eqn:E; [done|]. apply last_None in E. subst. done.
  - by rewrite Hh.
Qed.

(** An engine over an empty database reports the genesis block as its tip, and a plan
    from there asks for blocks from height 1 on; it cannot apply a single one, because the
    genesis block it reports is not in the database. *)
Theorem empty_engine_cannot_follow (s : SyncEngine Tr) b rest :
  db_inv (se_db s) ∅ -> get_latest_block_height (se_db s) = Ok None -> height (header b) = 1 ->
  (exists x, local_chain_tip s = Ok (0, x)) /\ apply_blocks (b :: rest) s = (Err (ChainGap 0 1), s).
Proof.
  intros Hd Hl Hh. split; [exists (hash (header genesis)); unfold local_chain_tip; by rewrite Hl|].
  unfold apply_blocks, lift, get, mbind, M_bind. rewrite Hh. change (1 =? 0) with false. change (1 - 1) with 0.
  by rewrite (get_block_inv 0 _ _ Hd) by done.
Qed.
End Convergence.

(** ** Witnesses *)

Module ReplicaExamples.
Export SyncExamples BootExamples.

(** Three rounds, a payment between the first two, a request after the second. *)
Definition schedule : list event := [Round 2000; Submit 3 pay30; Round 4000; Pull; Round 6000].

Definition blank : SyncEngine (gmap (list Z) (list Z)) := mkSync open_temporary tree default_sync_config.
End ReplicaExamples.

Import ReplicaExamples.

Lemma network_converges_witness :
  exists node app node' app',
    boot "0.1.0" (mkRunArgs true true 0) boss (open_temporary : NovaDB (gmap (list Z) (list Z))) sled_new = Ok (node, app) /\
    boot "0.1.0" (mkRunArgs true true 0) (mkKeypair (C := toy_crypto) 5) (open_temporary : NovaDB (gmap (list Z) (list Z))) sled_new
      = Ok (node', app') /\
    let net := net_run boss default_loop_config
      (mkNet node (mkSync (nd_db node') (nd_tree node') default_sync_config)) (schedule ++ [Pull]) in
    root (se_tree (follower net)) = root (nd_tree (leader net)) /\ needs_sync 3 (follower net) = false.
Proof.
  destruct (network_converges (Tr := gmap (list Z) (list Z)) "0.1.0" boss (mkKeypair (C := toy_crypto) 5) schedule)
    as (node & app & node' & app' & H1 & H2 & tip & _ & Hh & _ & Hr & _ & _ & Hn).
  - repeat constructor. unfold payable, amount_ok. simpl. lia.
  - vm_compute. reflexivity.
  - exists node, app, node', app'. split; [exact H1|]. split; [exact H2|]. cbv zeta. split; [exact Hr|].
    rewrite Hh in Hn. exact Hn.
Defined.

Lemma empty_engine_cannot_follow_witness :
  apply_blocks [forge []] blank = (Err (ChainGap 0 1), blank).
Proof.
  apply (empty_engine_cannot_follow blank (forge []) []).
  - exact DbExamples.empty_db_inv.
  - vm_compute. reflexivity.
  - vm_compute. reflexivity.
Defined.
