(* ===== verification/Node.v ===== *)
(** * The validator node

    [ValidatorNode] of [protocol/src/network/node.rs] with the in-memory [Chain] of
    [protocol/src/storage/chain.rs]: the runtime that owns the mempool, the database,
    the state tree, the consensus engine and the block producer, and its lifecycle
    [new], [start], [stop].  The producer holds [Arc] clones of the node's own mempool,
    database and tree, so the model keeps only its keypair and runs it on the node's
    fields. *)

From S2P Require Import Prelude Bytes Crypto Transaction Block Sled StateTree StateTreeBits.
From S2P Require Import StateTreeSpec StateTreeProofs StateTransfer Db Mempool Consensus Producer Ntp.
From stdpp Require Import pretty.

#[local] Open Scope Z_scope.
#[local] Opaque tree_put tree_get H compute_default_hashes apply_transfer.

(** ** [storage/chain.rs] *)

Record Chain := mkChain { chain_blocks : list Block }.

Definition default_chain : Chain := mkChain [].
Definition append (block : Block) (c : Chain) : Chain := mkChain (chain_blocks c ++ [block]).
Definition tip (c : Chain) : option Block := last (chain_blocks c).
Definition chain_height (c : Chain) : Z := Z.of_nat (length (chain_blocks c)).

(** ** The node *)

Definition DEFAULT_P2P_PORT : Z := 9740.
Definition MAX_PEERS : nat := 50.

Inductive NodeStatus := Syncing | Active | Validating | Offline.

#[global] Instance NodeStatus_eq_dec : EqDecision NodeStatus.
Proof. solve_decision. Defined.

(** The block producer; its database, tree and mempool are the node's. *)
Record BlockProducer {C : Crypto} := mkProducer { bp_keypair : NovaKeypair }.

Record ValidatorNode {C : Crypto} (Tr : Type) := mkValidatorNode {
  vn_id : string;
  vn_keypair : NovaKeypair;
  vn_address : string;
  vn_stake : Z;
  vn_status : NodeStatus;
  vn_peers : gset string;
  vn_chain : Chain;
  vn_mempool : Mempool;
  vn_db : NovaDB Tr;
  vn_state_tree : StateTree Tr;
  vn_consensus : option ConsensusEngine;
  vn_producer : option BlockProducer
}.

Arguments mkProducer {C} _.
Arguments bp_keypair {C} _.
Arguments mkValidatorNode {C Tr} _ _ _ _ _ _ _ _ _ _ _ _.
Arguments vn_id {C Tr} _.
Arguments vn_keypair {C Tr} _.
Arguments vn_address {C Tr} _.
Arguments vn_stake {C Tr} _.
Arguments vn_status {C Tr} _.
Arguments vn_peers {C Tr} _.
Arguments vn_chain {C Tr} _.
Arguments vn_mempool {C Tr} _.
Arguments vn_db {C Tr} _.
Arguments vn_state_tree {C Tr} _.
Arguments vn_consensus {C Tr} _.
Arguments vn_producer {C Tr} _.

Inductive NodeError :=
| NodeOffline
| InvalidTransaction (msg : string)
| PoolRejected (msg : string)
| InvalidBlock (msg : string)
| ConsensusNotReady
| BlockProductionNotReady
| BlockProductionFailed (msg : string).

(** ** Error texts *)

Definition display_mempool_error (e : MempoolError) : string :=
  match e with
  | DuplicateTransaction => "transaction already exists in mempool"
  | FeeTooLow min got => "fee too low: minimum " +:+ pretty min +:+ ", got " +:+ pretty got
  | SenderLimitExceeded sender limit =>
      "sender " +:+ sender +:+ " exceeded per-sender limit of " +:+ pretty limit
  | MempoolFull size => "mempool is full (" +:+ pretty size +:+ " transactions)"
  end.

Definition display_consensus_error (e : ConsensusError) : string :=
  match e with
  | InsufficientValidators have need =>
      "insufficient validators: have " +:+ pretty have +:+ ", need " +:+ pretty need
  | UnauthorizedProposer a => "unauthorized proposer: " +:+ a
  | UnexpectedHeight expected got =>
      "unexpected block height: expected " +:+ pretty expected +:+ ", got " +:+ pretty got
  | InvalidParentHash => "block does not extend the chain tip"
  | TooManyTransactions n => "block exceeds maximum transaction count: " +:+ pretty n
  | InvalidTimestamp t => "invalid block timestamp: " +:+ pretty t
  | InsufficientVotes have need =>
      "insufficient votes for finality: have " +:+ pretty have +:+ ", need " +:+ pretty need
  | InvalidVote v => "invalid vote from validator " +:+ v
  | VoteFromNonValidator v => "vote from non-validator: " +:+ v
  | DuplicateVote v => "duplicate vote from " +:+ v
  end.

Definition display_loop_error (e : ConsensusLoopError) : string :=
  match e with
  | NotValidator => "node is not in the active validator set"
  | LoopProduction p => "block production failed: " +:+ display_production_error p
  | LoopConsensus c => "consensus error: " +:+ display_consensus_error c
  | LoopDb d => "database error: " +:+ display_db_error d
  | Shutdown => "consensus loop received shutdown signal"
  end.

Definition display_node_error (e : NodeError) : string :=
  match e with
  | NodeOffline => "node is offline"
  | InvalidTransaction m => "invalid transaction: " +:+ m
  | PoolRejected m => "mempool rejected transaction: " +:+ m
  | InvalidBlock m => "invalid block: " +:+ m
  | ConsensusNotReady => "consensus engine not ready"
  | BlockProductionNotReady => "block production not available (node is not validating)"
  | BlockProductionFailed m => "block production failed: " +:+ m
  end.

Section Node.
Context {C : Crypto} {HC : HeaderCodec} {K : AccountCodec} {SC : StorageCodec} {T : TxCodec}.
Context {Tr : Type} `{Sd : Sled Tr}.

Notation VNode := (ValidatorNode Tr).

(** ** Construction and field updates *)

Definition with_db (keypair : NovaKeypair) (cfg : ConsensusConfig) (db : NovaDB Tr)
    (tree : StateTree Tr) : VNode :=
  mkValidatorNode (pk_to_hex (public_key keypair)) keypair
    ("/ip4/0.0.0.0/tcp/" +:+ pretty DEFAULT_P2P_PORT) 0 Offline ∅ default_chain
    (mempool_new (mkMempoolConfig (max_block_transactions cfg * 10)
       (max_per_sender default_mempool_config) (expiry_seconds default_mempool_config)
       (min_fee default_mempool_config)))
    db tree None None.

(** The state tree's [smt_nodes] is a tree of its own in the same database. *)
Definition node_new (keypair : NovaKeypair) (cfg : ConsensusConfig) : VNode :=
  with_db keypair cfg open_temporary (state_tree_new sled_new).

Definition set_stake (stake : Z) (n : VNode) : VNode :=
  mkValidatorNode (vn_id n) (vn_keypair n) (vn_address n) stake (vn_status n) (vn_peers n)
    (vn_chain n) (vn_mempool n) (vn_db n) (vn_state_tree n) (vn_consensus n) (vn_producer n).

Definition set_runtime (st : NodeStatus) (peers : gset string) (e : option ConsensusEngine)
    (p : option BlockProducer) (n : VNode) : VNode :=
  mkValidatorNode (vn_id n) (vn_keypair n) (vn_address n) (vn_stake n) st peers
    (vn_chain n) (vn_mempool n) (vn_db n) (vn_state_tree n) e p.

Definition set_chain (c : Chain) (n : VNode) : VNode :=
  mkValidatorNode (vn_id n) (vn_keypair n) (vn_address n) (vn_stake n) (vn_status n) (vn_peers n)
    c (vn_mempool n) (vn_db n) (vn_state_tree n) (vn_consensus n) (vn_producer n).

Definition set_mempool (p : Mempool) (n : VNode) : VNode :=
  mkValidatorNode (vn_id n) (vn_keypair n) (vn_address n) (vn_stake n) (vn_status n) (vn_peers n)
    (vn_chain n) p (vn_db n) (vn_state_tree n) (vn_consensus n) (vn_producer n).

Definition set_storage (d : NovaDB Tr) (t : StateTree Tr) (p : Mempool) (n : VNode) : VNode :=
  mkValidatorNode (vn_id n) (vn_keypair n) (vn_address n) (vn_stake n) (vn_status n) (vn_peers n)
    (vn_chain n) p d t (vn_consensus n) (vn_producer n).

(** ** The lifecycle *)

Definition start (vs : ValidatorSet) (n : VNode) : VNode :=
  let config := default_consensus_config in
  let consensus := Some (engine_new config vs) in
  if stake_requirement config <=? vn_stake n
  then set_runtime Validating (vn_peers n) consensus (Some (mkProducer (vn_keypair n))) n
  else set_runtime Active (vn_peers n) consensus (vn_producer n) n.

Definition stop (n : VNode) : VNode := set_runtime Offline ∅ None None n.

(** ** Transactions and blocks from peers *)

Definition process_transaction (now_ms now : Z) (tx : Transaction) : M VNode NodeError unit :=
  n ← get;
  require (negb (bool_decide (vn_status n = Offline))) else NodeOffline;
  _ ← lift (map_err_res (fun e => InvalidTransaction (display_transaction_error e))
              (verify_transaction now_ms tx));
  map_err (fun e => PoolRejected (display_mempool_error e))
    (zoom vn_mempool set_mempool (pool_add now tx)).

Definition process_block (block : Block) : M VNode NodeError unit :=
  n ← get;
  require (negb (bool_decide (vn_status n = Offline))) else NodeOffline;
  consensus ← lift (ok_or (vn_consensus n) ConsensusNotReady);
  _ ← lift (map_err_res (fun e => InvalidBlock (display_consensus_error e))
              (validate_block block consensus));
  _ ← modify (fun n => set_mempool
        (fold_left (fun p tx => (pool_remove (tx_id tx) p).2) (transactions block) (vn_mempool n)) n);
  modify (fun n => set_chain (append block (vn_chain n)) n).

(** ** Block production *)

(** The structures the producer shares with the node.  It has no engine: the field is
    filled with the node's, and nothing it does reads or writes it. *)
Definition producer_view (n : VNode) : Producer.Node Tr :=
  mkNode (vn_db n) (vn_state_tree n) (vn_mempool n)
    (default (engine_new default_consensus_config validator_set_new) (vn_consensus n)).

Definition producer_update (v : Producer.Node Tr) (n : VNode) : VNode :=
  set_storage (nd_db v) (nd_tree v) (nd_pool v) n.

Definition produce_next_block (now_ms : Z) : M VNode NodeError ProducedBlock :=
  let failed e := BlockProductionFailed (display_production_error e) in
  n ← get;
  producer ← lift (ok_or (vn_producer n) BlockProductionNotReady);
  parent ← lift (ok_or (tip (vn_chain n))
             (InvalidBlock "chain has no blocks; initialize with genesis first"));
  produced ← map_err failed
    (zoom producer_view producer_update (produce_block now_ms (bp_keypair producer) parent 1000));
  _ ← map_err failed (zoom producer_view producer_update (commit_block (pb_block produced)));
  _ ← modify (fun n => set_chain (append (pb_block produced) (vn_chain n)) n);
  mret produced.

(** ** Peers *)

Definition node_add_peer (peer_id : string) (n : VNode) : VNode :=
  if (size (vn_peers n) <? MAX_PEERS)%nat
  then set_runtime (vn_status n) ({[peer_id]} ∪ vn_peers n) (vn_consensus n) (vn_producer n) n
  else n.

Definition node_remove_peer (peer_id : string) (n : VNode) : VNode :=
  set_runtime (vn_status n) (vn_peers n ∖ {[peer_id]}) (vn_consensus n) (vn_producer n) n.

Definition node_peer_count (n : VNode) : nat := size (vn_peers n).
End Node.

(** ** The lifecycle invariant *)

Section NodeInvariant.
Context {C : Crypto} {HC : HeaderCodec} {K : AccountCodec} {SC : StorageCodec} {T : TxCodec}.
Context {Tr : Type} `{Sd : Sled Tr}.

Notation VNode := (ValidatorNode Tr).

Record node_inv (n : VNode) : Prop := {
  ni_id : vn_id n = pk_to_hex (public_key (vn_keypair n));
  ni_pool : pool_inv (vn_mempool n);
  ni_peers : (size (vn_peers n) <= MAX_PEERS)%nat;
  ni_not_syncing : vn_status n <> Syncing;
  ni_offline : vn_status n = Offline <-> vn_consensus n = None;
  ni_stopped : vn_status n = Offline -> vn_producer n = None;
  ni_validating : vn_status n = Validating -> is_Some (vn_producer n);
  ni_producer : forall p, vn_producer n = Some p -> bp_keypair p = vn_keypair n;
  ni_engine : forall e, vn_consensus n = Some e -> exists vs, e = engine_new default_consensus_config vs
}.

(** Everything that happens to a node.  [stake], [chain], [db] and [state_tree] are
    public: the first two steps are what their holders may do to the first two. *)
Inductive node_step : VNode -> VNode -> Prop :=
| step_stake stake n : node_step n (set_stake stake n)
| step_seed block n : node_step n (set_chain (append block (vn_chain n)) n)
| step_start vs n : node_step n (start vs n)
| step_stop n : node_step n (stop n)
| step_transaction now_ms now tx n : node_step n (process_transaction now_ms now tx n).2
| step_block block n : node_step n (process_block block n).2
| step_produce now_ms n : node_step n (produce_next_block now_ms n).2
| step_add_peer peer n : node_step n (node_add_peer peer n)
| step_remove_peer peer n : node_step n (node_remove_peer peer n).

Inductive node_reachable : VNode -> Prop :=
| node_reach_new kp cfg d t : node_reachable (with_db kp cfg d t)
| node_reach_step n n' : node_reachable n -> node_step n n' -> node_reachable n'.

(** A node that differs only in its chain, storage, stake and (well-formed) mempool. *)
Lemma node_inv_frame (n n' : VNode) :
  node_inv n -> pool_inv (vn_mempool n') ->
  (vn_id n', vn_keypair n', vn_peers n', vn_status n', vn_consensus n', vn_producer n') =
  (vn_id n, vn_keypair n, vn_peers n, vn_status n, vn_consensus n, vn_producer n) ->
  node_inv n'.
Proof. intros [] Hp [= E1 E2 E3 E4 E5 E6]. split; rewrite ?E1, ?E2, ?E3, ?E4, ?E5, ?E6; done. Qed.

Lemma remove_txs_inv txs p :
  pool_inv p -> pool_inv (fold_left (fun p tx => (pool_remove (tx_id tx) p).2) txs p).
Proof.
  revert p; induction txs as [|tx txs IH]; intros p Hp; [done|]. by apply IH, pool_remove_inv.
Qed.

Lemma produce_block_pool now kp parent m (v : Producer.Node Tr) :
  nd_pool (produce_block now kp parent m v).2 = nd_pool v.
Proof.
  unfold produce_block, zoom, lift, get, mret, M_ret, mbind, M_bind.
  destruct (execute_candidates _ _ _ _) as [[out| |] tree']; try done.
  by destruct (block_new _ _ _ _ _).
Qed.

Lemma commit_block_pool block (v : Producer.Node Tr) :
  pool_inv (nd_pool v) -> pool_inv (nd_pool (commit_block block v).2).
Proof.
  intros Hp. unfold commit_block, zoom, map_err, modify, mbind, M_bind.
  destruct (put_block block (nd_db v)) as [[[]| |] d]; try done. by apply remove_all_inv.
Qed.

Lemma with_db_inv kp cfg d t : node_inv (with_db (Tr := Tr) kp cfg d t).
Proof.
  split; try done; [apply mempool_new_inv|].
  cbn [vn_peers with_db]. rewrite size_empty. unfold MAX_PEERS. lia.
Qed.

Lemma process_transaction_inv now_ms now tx (n : VNode) :
  node_inv n -> node_inv (process_transaction now_ms now tx n).2.
Proof.
  intros Hn. unfold process_transaction, get, lift, throw, mbind, M_bind.
  case_match; [|done]. destruct (verify_transaction now_ms tx) as [[]| |]; try done. cbn [map_err_res].
  unfold map_err, zoom. pose proof (pool_add_inv now tx _ (ni_pool n Hn)) as Hp.
  destruct (pool_add now tx (vn_mempool n)) as [r p]. by eapply node_inv_frame.
Qed.

Lemma process_block_inv block (n : VNode) : node_inv n -> node_inv (process_block block n).2.
Proof.
  intros Hn. unfold process_block, get, lift, throw, modify, ok_or, mbind, M_bind.
  case_match; [|done]. destruct (vn_consensus n) as [e|]; [|done].
  destruct (validate_block block e) as [[]| |]; try done; cbn;
    (eapply node_inv_frame; [exact Hn|apply remove_txs_inv, Hn|done]).
Qed.

Lemma produce_next_block_inv now_ms (n : VNode) : node_inv n -> node_inv (produce_next_block now_ms n).2.
Proof.
  intros Hn. unfold produce_next_block, get, lift, ok_or, modify, mret, M_ret, mbind, M_bind.
  destruct (vn_producer n) as [p|]; [|done]. destruct (tip (vn_chain n)) as [parent|]; [|done].
  unfold map_err, zoom.
  pose proof (produce_block_pool now_ms (bp_keypair p) parent 1000 (producer_view n)) as Hpool.
  destruct (produce_block _ _ _ _ _) as [r v]. cbn [snd] in Hpool.
  assert (pool_inv (nd_pool v)) as Hv by (rewrite Hpool; apply Hn).
  destruct r as [b| |]; cbn; try (by eapply node_inv_frame).
  pose proof (commit_block_pool (pb_block b) (producer_view (producer_update v n)) Hv) as Hc.
  destruct (commit_block _ _) as [[[]| |] v']; cbn; by eapply node_inv_frame.
Qed.

Lemma node_step_inv (n n' : VNode) : node_step n n' -> node_inv n -> node_inv n'.
Proof.
  intros [] Hn.
  - by eapply node_inv_frame; [|apply Hn|].
  - by eapply node_inv_frame; [|apply Hn|].
  - destruct Hn. unfold start. case_match; split; simpl; try done; eauto; naive_solver.
  - destruct Hn. split; try done. cbn [stop set_runtime vn_peers]. rewrite size_empty. unfold MAX_PEERS. lia.
  - by apply process_transaction_inv.
  - by apply process_block_inv.
  - by apply produce_next_block_inv.
  - destruct Hn. unfold node_add_peer. case_match eqn:Hs; [|done]. split; simpl; try done.
    apply Nat.ltb_lt in Hs. rewrite size_union_alt, size_singleton.
    pose proof (subseteq_size (vn_peers n0 ∖ {[peer]}) (vn_peers n0) ltac:(set_solver)). lia.
  - destruct Hn. split; simpl; try done.
    pose proof (subseteq_size (vn_peers n0 ∖ {[peer]}) (vn_peers n0) ltac:(set_solver)). lia.
Qed.

Lemma node_reachable_inv n : node_reachable n -> node_inv n.
Proof. induction 1; [apply with_db_inv|by eapply node_step_inv]. Qed.
End NodeInvariant.

(** ** What a node accepts and produces *)

Section NodeTheorems.
Context {C : Crypto} {HC : HeaderCodec} {K : AccountCodec} {SC : StorageCodec} {T : TxCodec}.
Context {Tr : Type} `{Sd : Sled Tr}.

Notation VNode := (ValidatorNode Tr).

(** The lifecycle, for every sequence of operations: a node never stays in
    [Syncing]; it is offline exactly when it has no consensus engine, and then has no
    producer either, so it refuses transactions and blocks and produces nothing; a
    validating node has a producer with its own key; its peers never exceed the limit
    and its mempool stays consistent. *)
Theorem node_lifecycle (n : VNode) :
  node_reachable n ->
  node_inv n /\
  (vn_status n = Offline -> forall now_ms now tx block,
     process_transaction now_ms now tx n = (Err NodeOffline, n) /\
     process_block block n = (Err NodeOffline, n) /\
     produce_next_block now_ms n = (Err BlockProductionNotReady, n)).
Proof.
  intros Hn%node_reachable_inv. split; [done|]. intros Ho now_ms now tx block.
  unfold process_transaction, process_block, produce_next_block, get, lift, throw, mbind, M_bind.
  rewrite (ni_stopped n Hn Ho). by rewrite bool_decide_true.
Qed.

(** The engine of a running node is never advanced: the only blocks it ever accepts
    from peers are at height zero on the zero hash.  Accepting one appends it to the
    chain without touching the database, the state tree or the engine, so the same
    block is accepted and appended again. *)
Theorem process_block_never_advances (n n' : VNode) block :
  node_reachable n -> process_block block n = (Ok tt, n') ->
  height (header block) = 0 /\ parent_hash (header block) = zero32 /\
  vn_db n' = vn_db n /\ vn_state_tree n' = vn_state_tree n /\ vn_consensus n' = vn_consensus n /\
  exists n'', process_block block n' = (Ok tt, n'') /\
    chain_blocks (vn_chain n'') = chain_blocks (vn_chain n) ++ [block; block].
Proof.
  intros Hn%node_reachable_inv Hp.
  unfold process_block, get, lift, throw, modify, ok_or, mbind, M_bind in *.
  destruct (negb (bool_decide (vn_status n = Offline))) eqn:Ho; [|done].
  destruct (vn_consensus n) as [e|] eqn:He; [|done].
  destruct (validate_block block e) as [ok|err|] eqn:Hv; [|done..]. cbn in Hp. simplify_eq. cbn.
  rewrite He, Ho, Hv. cbn. destruct (ni_engine n Hn e He) as [vs ->].
  unfold validate_block in Hv. rewrite !ensure_ok in Hv. cbn in Hv.
  destruct Hv as (Hh%Z.eqb_eq & Hpar%bool_decide_eq_true & _).
  split_and!; [done..|]. eexists. split; [done|]. cbn. by rewrite <- app_assoc.
Qed.
End NodeTheorems.

Section NodeProduction.
Context {C : Crypto} {L : CryptoLaws C} {HC : HeaderCodec} {K : AccountCodec} {KL : AccountCodecLaws K}.
Context {SC : StorageCodec} {SCL : StorageCodecLaws SC} {T : TxCodec}.
Context {Tr : Type} `{Sd : Sled Tr} {SL : SledLaws Tr} {SH : SledHealthy Tr}.

Notation VNode := (ValidatorNode Tr).

(** What a successful [produce_next_block] leaves behind. *)
Record production_ok (n n' : VNode) (parent : Block) (A : Accounts) (B : gmap Z Block)
    (produced : ProducedBlock) : Prop := {
  pr_block : produced_ok (vn_keypair n) parent
    (run_map (select_transactions 1000 (vn_mempool n)) A).1 (root (vn_state_tree n')) (pb_block produced);
  pr_accounts : tree_inv (vn_state_tree n') (run_map (select_transactions 1000 (vn_mempool n)) A).2;
  pr_chain : chain_blocks (vn_chain n') = chain_blocks (vn_chain n) ++ [pb_block produced];
  pr_db : db_inv (vn_db n') (<[height (header (pb_block produced)) := pb_block produced]> B);
  pr_latest : get_latest_block_height (vn_db n') = Ok (Some (height (header (pb_block produced))));
  pr_transactions : forall id, get_transaction id (vn_db n') =
    match find_last_tx id (transactions (pb_block produced)) with
    | Some tx => Ok (Some tx)
    | None => get_transaction id (vn_db n)
    end;
  pr_mempool : vn_mempool n' = remove_batch (tx_id <$> transactions (pb_block produced)) (vn_mempool n);
  pr_status : vn_status n' = vn_status n
}.

Lemma produce_next_block_spec now_ms (n : VNode) parent A B :
  node_inv n -> is_Some (vn_producer n) -> tip (vn_chain n) = Some parent ->
  0 <= height (header parent) < U64_MAX ->
  tree_inv (vn_state_tree n) A -> ledger_ok 1000 A ->
  Forall amount_ok (select_transactions 1000 (vn_mempool n)) -> db_inv (vn_db n) B ->
  exists produced n', produce_next_block now_ms n = (Ok produced, n') /\
    production_ok n n' parent A B produced.
Proof.
  intros Hn [p Hp] Htip Hh Ht HA Ham HB.
  destruct (produce_block_spec now_ms (bp_keypair p) parent 1000 (producer_view n) A Ht HA Ham Hh)
    as (tree' & results & b & Hprod & Hi & Hok & _).
  assert (in_u64 (height (header b))) as Hu by (rewrite (po_height _ _ _ _ _ Hok); unfold in_u64; lia).
  destruct (put_block_lookup b (vn_db n) B HB Hu) as (d' & Hput & HB' & _ & Hlat & _ & Htx & _).
  eexists (mkProduced b results (root tree')), _. split.
  - unfold produce_next_block, get, lift, ok_or, modify, mret, M_ret, mbind, M_bind.
    rewrite Hp, Htip. unfold map_err, zoom. rewrite Hprod. cbn.
    unfold commit_block, zoom, map_err, modify, mbind, M_bind. cbn. rewrite Hput. reflexivity.
  - split; cbn; try done. by rewrite <- (ni_producer n Hn p Hp).
Qed.

(** Block production by a node with a producer and a chain tip, from any mempool:
    it never fails; the block it returns is signed with the node's key, extends the
    tip, commits to the accounts after executing exactly the transactions it carries,
    becomes the new tip, is stored with its transactions, and empties them from the
    mempool. *)
Theorem produce_next_block_commits now_ms (n : VNode) parent A B :
  node_reachable n -> is_Some (vn_producer n) -> tip (vn_chain n) = Some parent ->
  0 <= height (header parent) < U64_MAX ->
  tree_inv (vn_state_tree n) A -> ledger_ok 1000 A ->
  Forall amount_ok (select_transactions 1000 (vn_mempool n)) -> db_inv (vn_db n) B ->
  exists produced n', produce_next_block now_ms n = (Ok produced, n') /\
    production_ok n n' parent A B produced /\ tip (vn_chain n') = Some (pb_block produced) /\
    (forall tx, tx ∈ transactions (pb_block produced) -> pool_get (tx_id tx) (vn_mempool n') = None).
Proof.
  intros Hn%node_reachable_inv Hp Htip Hh Ht HA Ham HB.
  destruct (produce_next_block_spec now_ms n parent A B Hn Hp Htip Hh Ht HA Ham HB)
    as (produced & n' & Hrun & Hok).
  exists produced, n'. split; [done|]. split; [done|]. split.
  - unfold tip. rewrite (pr_chain _ _ _ _ _ _ Hok). apply last_snoc.
  - intros tx Htx. unfold pool_get. rewrite (pr_mempool _ _ _ _ _ _ Hok), remove_all_lookup.
    rewrite decide_True; [done|]. by apply list_elem_of_fmap_2.
Qed.

(** One affordable payment alone: it executes and moves exactly its amount. *)
Lemma run_map_payment tx A n :
  tx_type tx = Transfer -> ledger_ok (S n) A -> amount_ok tx ->
  address_to_key (tx_sender tx) <> address_to_key (tx_receiver tx) ->
  frozen (account A (address_to_key (tx_sender tx))) = false ->
  value (tx_amount tx) <= balance (account A (address_to_key (tx_sender tx))) ->
  (run_map [tx] A).1 = [tx] /\
  balance (account (run_map [tx] A).2 (address_to_key (tx_sender tx))) =
    balance (account A (address_to_key (tx_sender tx))) - value (tx_amount tx) /\
  balance (account (run_map [tx] A).2 (address_to_key (tx_receiver tx))) =
    balance (account A (address_to_key (tx_receiver tx))) + value (tx_amount tx) /\
  (forall k, frozen (account (run_map [tx] A).2 k) = frozen (account A k)).
Proof.
  intros Hty [HA Hs Hnn] Ham Hne Hfr Hb. simpl. unfold exec_map. rewrite Hty.
  set (sk := address_to_key (tx_sender tx)) in *. set (rk := address_to_key (tx_receiver tx)) in *.
  pose proof (transfer_ok_iff (tx_sender tx) sk rk (value (tx_amount tx)) A HA Ham Hs
    ltac:(specialize (Hnn sk); lia)) as Hr.
  pose proof (fun k => transfer_account (tx_sender tx) sk rk (value (tx_amount tx)) A k) as Hk.
  rewrite Hfr, (proj2 (Z.ltb_ge _ _) Hb) in Hr. destruct (transfer _ _ _ _ _) as [r A']. cbn [fst snd] in *.
  subst r. cbn [fst snd]. rewrite !Hk by done. cbn.
  repeat (case_decide; try congruence). split_and!; [done|lia..|]. intros k. by rewrite Hk.
Qed.

(** A validating node with an idle mempool, at the end of its chain, in front of [k] blocks. *)
Record idle_node (k : nat) (n : VNode) (parent : Block) (A : Accounts) (B : gmap Z Block) : Prop := {
  in_node : node_reachable n;
  in_status : vn_status n = Validating;
  in_tip : tip (vn_chain n) = Some parent;
  in_height : 0 <= height (header parent) /\ height (header parent) + Z.of_nat k <= U64_MAX;
  in_tree : tree_inv (vn_state_tree n) A;
  in_ledger : ledger_ok (999 + k) A;
  in_db : db_inv (vn_db n) B;
  in_idle : pool_txs (vn_mempool n) = ∅;
  in_room : (0 < max_per_sender (config (vn_mempool n)))%nat /\ (0 < max_size (config (vn_mempool n)))%nat
}.

Section Payment.
Context (built : Z) (kp : NovaKeypair) (b : TransactionBuilder).

(** A payment made with the builder, signed by its sender. *)
Hypothesis Hsender : b_sender b = to_address (from_public_key (public_key kp)).
Hypothesis Htype : b_tx_type b = Transfer.
Hypothesis Hnonce : b_nonce b <> 0.
Hypothesis Hkeys : address_to_key (b_sender b) <> address_to_key (b_receiver b).

Let tx := sign_transaction kp (build built b).
Let sk := address_to_key (b_sender b).
Let rk := address_to_key (b_receiver b).

(** A time at which the payment is not from the future. *)
Definition in_time (seen : Z) : Prop := seen + 300000 <= U64_MAX /\ default built (b_timestamp b) <= seen + 300000.

Lemma payment_step seen at_s now_ms k (n : VNode) parent A B :
  idle_node (S k) n parent A B -> in_time seen -> min_fee (config (vn_mempool n)) <= b_fee b ->
  frozen (account A sk) = false -> 0 < value (b_amount b) <= balance (account A sk) ->
  exists n1 n2 produced A2,
    process_transaction seen at_s tx n = (Ok tt, n1) /\
    produce_next_block now_ms n1 = (Ok produced, n2) /\
    transactions (pb_block produced) = [tx] /\ chain_blocks (vn_chain n2) = chain_blocks (vn_chain n) ++ [pb_block produced] /\
    get_transaction (tx_id tx) (vn_db n2) = Ok (Some tx) /\
    balance (account A2 sk) = balance (account A sk) - value (b_amount b) /\
    balance (account A2 rk) = balance (account A rk) + value (b_amount b) /\
    frozen (account A2 sk) = false /\ config (vn_mempool n2) = config (vn_mempool n) /\
    idle_node k n2 (pb_block produced) A2 (<[height (header (pb_block produced)) := pb_block produced]> B).
Proof.
  intros [Hnode Hstatus Htip [Hh0 Hh] Htree HA HB Hidle Hroom] [Hclock Htime] Hfee Hfrozen Hamount.
  pose proof (node_reachable_inv n Hnode) as Hn.
  destruct (pool_add_idle at_s tx (vn_mempool n) 1000) as (p' & Hadd & Hp' & Hsel & Hcfg & Hrest);
    [apply Hn|done|exact Hfee|apply Hroom|apply Hroom|lia|].
  set (n1 := set_mempool p' n).
  assert (process_transaction seen at_s tx n = (Ok tt, n1)) as Hproc.
  { assert (verify_transaction seen tx = Ok tt) as Hv.
    { apply signed_build_ok; try done; [congruence|lia|congruence]. }
    unfold process_transaction, get, lift, mbind, M_bind. rewrite Hstatus, Hv, bool_decide_false by done.
    cbn [negb map_err_res]. unfold map_err, zoom. by rewrite Hadd. }
  assert (node_reachable n1) as Hn1r.
  { pose proof (step_transaction (Tr := Tr) seen at_s tx n) as Hstep. rewrite Hproc in Hstep. by eapply node_reach_step. }
  assert (ledger_ok 1000 A) as HA1000 by (eapply ledger_ok_weaken; [|exact HA]; lia).
  assert (amount_ok tx) as Ham by (unfold amount_ok; simpl; lia).
  destruct (run_map_payment tx A 999 Htype HA1000 Ham Hkeys Hfrozen ltac:(simpl; apply Hamount)) as (Hrun & Hbs & Hbr & Hfr).
  destruct (produce_next_block_spec now_ms n1 parent A B (node_reachable_inv _ Hn1r)) as (produced & n2 & Hprod & Hok);
    try done; [exact (ni_validating n Hn Hstatus)|lia| |].
  { cbn [n1 set_mempool vn_mempool]. rewrite Hsel. by repeat constructor. }
  destruct Hok as [Hblk Hacc Hch Hdb Hlat Htxs Hpool Hst].
  cbn [n1 set_mempool vn_mempool vn_chain vn_keypair vn_status] in *. rewrite Hsel in *.
  pose proof (po_txs _ _ _ _ _ Hblk) as Ht. rewrite Hrun in Ht. rewrite Ht in *.
  exists n1, n2, produced, (run_map [tx] A).2. split_and!; [done..| |done|done| | |].
  - rewrite Htxs, last_filter_cons. cbn. by rewrite decide_True.
  - by rewrite Hfr.
  - by rewrite Hpool, remove_batch_config.
  - pose proof (po_height _ _ _ _ _ Hblk) as Hhb. split; try done.
    + pose proof (step_produce (Tr := Tr) now_ms n1) as Hstep. rewrite Hprod in Hstep. by eapply node_reach_step.
    + by rewrite Hst.
    + unfold tip. rewrite Hch. apply last_snoc.
    + lia.
    + apply (run_map_ok [tx] A (999 + k)); [|by repeat constructor].
      replace (length [tx] + (999 + k))%nat with (999 + S k)%nat by (cbn [length]; lia). exact HA.
    + apply map_eq. intros id. rewrite Hpool, remove_all_lookup, lookup_empty. cbn [fmap list_fmap].
      case_decide as Hid; [done|]. apply Hrest. set_solver.
    + by rewrite Hpool, remove_batch_config, Hcfg.
Qed.

(** C9. A payment's way onto the chain: signed by its sender, who can pay, with at least the
    minimum fee, and submitted to a validating node whose mempool is empty and has room
    and whose accounts leave room below 64 bits, it is accepted; the next block carries exactly it, becomes the chain tip and
    makes it retrievable by its identifier; the sender is debited and the receiver
    credited its amount; the mempool no longer holds it. *)
Theorem payment_reaches_chain seen at_s now_ms (n : VNode) parent A B :
  idle_node 1 n parent A B -> in_time seen -> min_fee (config (vn_mempool n)) <= b_fee b ->
  frozen (read (b_sender b) (vn_state_tree n)) = false ->
  0 < value (b_amount b) <= balance (read (b_sender b) (vn_state_tree n)) ->
  exists n1 n2 produced,
    process_transaction seen at_s tx n = (Ok tt, n1) /\
    produce_next_block now_ms n1 = (Ok produced, n2) /\
    transactions (pb_block produced) = [tx] /\ tip (vn_chain n2) = Some (pb_block produced) /\
    get_transaction (tx_id tx) (vn_db n2) = Ok (Some tx) /\
    balance (read (b_sender b) (vn_state_tree n2)) =
      balance (read (b_sender b) (vn_state_tree n)) - value (b_amount b) /\
    balance (read (b_receiver b) (vn_state_tree n2)) =
      balance (read (b_receiver b) (vn_state_tree n)) + value (b_amount b) /\
    pool_get (tx_id tx) (vn_mempool n2) = None.
Proof.
  intros Hi Ht Hfee. unfold read. rewrite !(tree_get_spec _ _ _ (in_tree _ _ _ _ _ Hi)). intros Hfr Ham.
  destruct (payment_step seen at_s now_ms 0 n parent A B Hi Ht Hfee Hfr Ham)
    as (n1 & n2 & produced & A2 & Hp & Hr & Htx & _ & Hget & Hbs & Hbr & _ & _ & Hi2).
  exists n1, n2, produced. rewrite !(tree_get_spec _ _ _ (in_tree _ _ _ _ _ Hi2)).
  split_and!; try done; [apply Hi2|]. unfold pool_get. by rewrite (in_idle _ _ _ _ _ Hi2).
Qed.

(** The same transaction handed in again and again, a block after each time. *)
Definition resubmit (times : list (Z * Z * Z)) : M VNode NodeError unit :=
  for_each times (fun '(seen, at_s, now_ms) =>
    _ ← process_transaction seen at_s tx; _ ← produce_next_block now_ms; mret tt).

(** C24. A payment is not made once: whoever holds a signed payment of at least the minimum
    fee can hand it to an idle validating node again after every block, as long as the
    sender can pay.  Each time it is accepted, put
    into the next block and executed, so the sender is debited the amount as many times;
    neither the identifier, nor the nonce, nor the chain that holds it already stands in
    the way. *)
Theorem payment_replays times (n : VNode) parent A B :
  idle_node (length times) n parent A B -> Forall (fun t => in_time t.1.1) times ->
  min_fee (config (vn_mempool n)) <= b_fee b -> frozen (account A sk) = false ->
  0 < value (b_amount b) -> Z.of_nat (length times) * value (b_amount b) <= balance (account A sk) ->
  exists n' blocks, resubmit times n = (Ok tt, n') /\
    chain_blocks (vn_chain n') = chain_blocks (vn_chain n) ++ blocks /\ length blocks = length times /\
    Forall (fun blk => transactions blk = [tx]) blocks /\
    balance (read (b_sender b) (vn_state_tree n')) =
      balance (account A sk) - Z.of_nat (length times) * value (b_amount b) /\
    balance (read (b_receiver b) (vn_state_tree n')) =
      balance (account A rk) + Z.of_nat (length times) * value (b_amount b).
Proof.
  intros Hi Hts. revert n parent A B Hi; induction Hts as [|[[seen at_s] now_ms] times Ht Hts IH];
    intros n parent A B Hi Hfee Hfr Hpos Hb; cbn [length] in *.
  - exists n, []. unfold read. rewrite !(tree_get_spec _ _ _ (in_tree _ _ _ _ _ Hi)).
    fold sk rk. fold (account A sk) (account A rk). rewrite app_nil_r. split_and!; try done; lia.
  - destruct (payment_step seen at_s now_ms _ n parent A B Hi Ht Hfee Hfr ltac:(lia))
      as (n1 & n2 & produced & A2 & Hp & Hr & Htx & Hch & _ & Hbs & Hbr & Hfr2 & Hcfg & Hi2).
    destruct (IH n2 _ A2 _ Hi2) as (n' & blocks & Hrun & Hch' & Hlen & Hall & Hs' & Hr'); [by rewrite Hcfg|done|done|lia|].
    exists n', (pb_block produced :: blocks). split_and!.
    + unfold resubmit in *. cbn [for_each]. unfold mbind, M_bind in *. rewrite Hp, Hr. exact Hrun.
    + by rewrite Hch', Hch, <- app_assoc.
    + cbn. by rewrite Hlen.
    + by constructor.
    + rewrite Hs', Hbs. lia.
    + rewrite Hr', Hbr. lia.
Qed.
End Payment.
End NodeProduction.

(** ** Witnesses: a staked node whose chain holds the genesis block *)

Module RuntimeExamples.
Import NodeExamples.
#[export] Existing Instances toy_crypto toy_account_codec header_codec ToyCodec.storage_codec TxExamples.codec.

Notation Store := (gmap (list Z) (list Z)).

Definition payments : list (string * AccountState) := [(TxExamples.alice_address, with_balance 100)].

Definition funded : StateTree Store :=
  (put_all (E := StateError) payments (state_tree_new sled_new)).2.

Definition balances : Accounts := apply_writes payments ∅.

Lemma funded_ok : tree_inv funded balances.
Proof.
  unfold funded, balances.
  destruct (put_all_spec (E := StateError) payments (state_tree_new sled_new) ∅ state_tree_new_inv)
    as (s & Hs & Hi). rewrite Hs. exact Hi.
Qed.

Lemma balances_ledger : ledger_ok 1000 balances.
Proof.
  split.
  - unfold balances, apply_writes, payments. cbn [fold_left fst snd].
    apply accounts_ok_insert; [by intros ???|..]; unfold in_u64, U64_MAX; simpl; lia.
  - replace (supply balances) with 100 by (vm_compute; reflexivity). unfold U64_MAX. lia.
  - intros k. unfold balances, apply_writes, payments. cbn [fold_left fst snd].
    rewrite account_insert. unfold account. rewrite lookup_empty.
    case_decide; vm_compute; discriminate.
Qed.

Definition offline : ValidatorNode Store := with_db (kp 4) default_consensus_config open_temporary funded.

Definition running : ValidatorNode Store := start vset (set_stake 2000000000 offline).

Definition seeded : ValidatorNode Store := set_chain (append genesis (vn_chain running)) running.

Lemma offline_reachable : node_reachable offline.
Proof. apply node_reach_new. Qed.

Lemma running_reachable : node_reachable running.
Proof. eapply node_reach_step; [eapply node_reach_step; [apply offline_reachable|apply step_stake]|apply step_start]. Qed.

Lemma seeded_reachable : node_reachable seeded.
Proof. eapply node_reach_step; [apply running_reachable|apply step_seed]. Qed.

Definition bill : TransactionBuilder :=
  mkBuilder 1 Transfer TxExamples.alice_address "bob" (mkAmount 30 NOVA) 500 1 (Some 5) None.

Lemma alice_reads : read TxExamples.alice_address funded = with_balance 100.
Proof. unfold read. rewrite (tree_get_spec _ _ _ funded_ok). vm_compute. reflexivity. Qed.
End RuntimeExamples.

Import RuntimeExamples.

Lemma node_lifecycle_witness :
  process_transaction 0 0 NodeExamples.pay30 offline = (Err NodeOffline, offline).
Proof. destruct (node_lifecycle offline offline_reachable) as [_ H]. by destruct (H eq_refl 0 0 NodeExamples.pay30 genesis). Defined.

Lemma process_block_never_advances_witness :
  exists n' n'', process_block ConsensusExamples.block_a running = (Ok tt, n') /\
    process_block ConsensusExamples.block_a n' = (Ok tt, n'') /\
    chain_blocks (vn_chain n'') = [ConsensusExamples.block_a; ConsensusExamples.block_a].
Proof.
  set (n' := (process_block ConsensusExamples.block_a running).2).
  assert (process_block ConsensusExamples.block_a running = (Ok tt, n')) as Hp.
  { assert ((process_block ConsensusExamples.block_a running).1 = Ok tt) as Hok by (vm_compute; reflexivity).
    rewrite <- Hok. apply surjective_pairing. }
  destruct (process_block_never_advances running n' ConsensusExamples.block_a running_reachable Hp)
    as (_ & _ & _ & _ & _ & n'' & Hr & Hc).
  exists n', n''. split; [exact Hp|]. split; [exact Hr|exact Hc].
Defined.

Lemma produce_next_block_commits_witness :
  exists produced n', produce_next_block 7 seeded = (Ok produced, n') /\
    tip (vn_chain n') = Some (pb_block produced) /\ height (header (pb_block produced)) = 1.
Proof.
  destruct (produce_next_block_commits 7 seeded genesis balances ∅) as (produced & n' & Hr & Hok & Ht & _).
  - exact seeded_reachable.
  - by eexists.
  - reflexivity.
  - exact NodeExamples.genesis_height.
  - exact funded_ok.
  - exact balances_ledger.
  - assert (select_transactions 1000 (vn_mempool seeded) = []) as -> by (vm_compute; reflexivity). constructor.
  - exact DbExamples.empty_db_inv.
  - exists produced, n'. split; [exact Hr|]. split; [exact Ht|].
    rewrite (po_height _ _ _ _ _ (pr_block _ _ _ _ _ _ Hok)). reflexivity.
Defined.

Lemma balances_key a : account balances (address_to_key a) = read a funded.
Proof. unfold read. by rewrite (tree_get_spec _ _ _ funded_ok). Qed.

Lemma seeded_idle k : (k <= 3)%nat -> idle_node k seeded genesis balances ∅.
Proof.
  intros Hk. split.
  - exact seeded_reachable.
  - reflexivity.
  - reflexivity.
  - unfold U64_MAX. change (height (header genesis)) with 0. lia.
  - exact funded_ok.
  - split.
    + apply (lo_accounts _ _ balances_ledger).
    + apply (lo_supply _ _ balances_ledger).
    + intros x. unfold balances, apply_writes, payments. cbn [fold_left fst snd].
      rewrite account_insert. unfold account. rewrite lookup_empty. unfold U64_MAX. case_decide; cbn [nonce default from_option with_balance default_account]; lia.
  - exact DbExamples.empty_db_inv.
  - reflexivity.
  - simpl. lia.
Qed.

Lemma bill_sender : b_sender bill = to_address (from_public_key (public_key TxExamples.alice)).
Proof. vm_compute. reflexivity. Qed.

Lemma bill_keys : address_to_key (b_sender bill) <> address_to_key (b_receiver bill).
Proof. vm_compute. congruence. Qed.

Lemma payment_reaches_chain_witness :
  exists n1 n2 produced,
    process_transaction 10 0 (sign_transaction TxExamples.alice (build 0 bill)) seeded = (Ok tt, n1) /\
    produce_next_block 7 n1 = (Ok produced, n2) /\
    balance (read TxExamples.alice_address (vn_state_tree n2)) = 70.
Proof.
  destruct (payment_reaches_chain 0 TxExamples.alice bill bill_sender eq_refl ltac:(discriminate) bill_keys 10 0 7 seeded genesis balances ∅)
    as (n1 & n2 & produced & Hp & Hr & _ & _ & _ & Hb & _).
  - apply seeded_idle. lia.
  - split; unfold U64_MAX; simpl; lia.
  - simpl. lia.
  - change (read (b_sender bill) (vn_state_tree seeded)) with (read TxExamples.alice_address funded).
    rewrite alice_reads. reflexivity.
  - change (read (b_sender bill) (vn_state_tree seeded)) with (read TxExamples.alice_address funded).
    rewrite alice_reads. simpl. lia.
  - exists n1, n2, produced. split; [exact Hp|]. split; [exact Hr|].
    change (read (b_sender bill) (vn_state_tree seeded)) with (read TxExamples.alice_address funded) in Hb.
    rewrite alice_reads in Hb. exact Hb.
Defined.

(** Alice signed one payment of 30 and has paid it three times. *)
Lemma payment_replays_witness :
  exists n', resubmit 0 TxExamples.alice bill [(10, 0, 7); (20, 1, 8); (30, 2, 9)] seeded = (Ok tt, n') /\
    balance (read TxExamples.alice_address (vn_state_tree n')) = 10.
Proof.
  destruct (payment_replays 0 TxExamples.alice bill bill_sender eq_refl ltac:(discriminate) bill_keys
    [(10, 0, 7); (20, 1, 8); (30, 2, 9)] seeded genesis balances ∅) as (n' & blocks & Hrun & _ & _ & _ & Hb & _).
  - apply seeded_idle. cbn. lia.
  - repeat constructor; unfold U64_MAX; simpl; lia.
  - simpl. lia.
  - rewrite balances_key. change (b_sender bill) with TxExamples.alice_address. rewrite alice_reads. reflexivity.
  - reflexivity.
  - rewrite balances_key. change (b_sender bill) with TxExamples.alice_address. rewrite alice_reads. simpl. lia.
  - exists n'. split; [exact Hrun|]. rewrite balances_key in Hb. change (b_sender bill) with TxExamples.alice_address in Hb.
    rewrite alice_reads in Hb. exact Hb.
Defined.
