(* ===== verification/P2p.v ===== *)
(** * The service in front of libp2p

    [protocol/src/network/gossip.rs]: topics, the configuration of the service, the
    queue of outgoing messages, the wire form of messages and the construction of the
    swarm.  libp2p is the class [Libp2p]: keys and peer identities, the gossipsub and
    identify behaviours, the transport; bincode is the class [P2pCodec].  The loop that
    drives the swarm is not in the repository; [publish_all] is what the documentation
    asks of it. *)

From stdpp Require Import pretty.
From S2P Require Import Prelude Bytes Crypto Transaction Block Db Consensus Ntp Gossip Node.

#[local] Open Scope Z_scope.

(** ** libp2p *)

Inductive ValidationMode := Strict | Permissive | Anonymous | NoValidation.

(** What a gossipsub configuration is built from. *)
Record GossipsubParams := mkGossipsub {
  gs_heartbeat_ms : Z;
  gs_mesh_n : Z;
  gs_mesh_n_low : Z;
  gs_mesh_n_high : Z;
  gs_max_transmit_size : Z;
  gs_validation : ValidationMode
}.

Record GossipBehaviour (G I : Type) := mkBehaviour { gossipsub : G; identify : I }.
Arguments mkBehaviour {G I}.
Arguments gossipsub {G I}.
Arguments identify {G I}.

Class Libp2p := {
  Keypair : Type;
  PeerPublicKey : Type;
  PeerId : Type;
  IdentTopic : Type;
  GossipsubConfig : Type;
  Gossipsub : Type;
  Identify : Type;
  Transport : Type;
  SwarmBuilder : Type;
  Swarm : Type;
  keypair_public : Keypair -> PeerPublicKey;
  peer_id_from : PeerPublicKey -> PeerId;
  ident_topic : string -> IdentTopic;
  config_build : GossipsubParams -> string + GossipsubConfig;
  gossipsub_signed : Keypair -> GossipsubConfig -> string + Gossipsub;
  identify_behaviour : string -> PeerPublicKey -> Identify;
  with_tcp : Keypair -> string + Transport;
  with_behaviour : Transport -> GossipBehaviour Gossipsub Identify -> string + SwarmBuilder;
  swarm_build : SwarmBuilder -> Z -> Swarm
}.

(** The documented conditions of the gossipsub builder, whose least number of outbound
    mesh peers is 2 unless it is set: the sizes of the mesh are in order, twice that number fits
    the mesh and a message may take at least 100 bytes. *)
Definition mesh_valid (p : GossipsubParams) : Prop :=
  2 <= gs_mesh_n_low p <= gs_mesh_n p /\ gs_mesh_n p <= gs_mesh_n_high p /\ 4 <= gs_mesh_n p /\
  100 <= gs_max_transmit_size p.

Class Libp2pLaws (L : Libp2p) : Prop := {
  config_build_valid : forall p, mesh_valid p -> exists c, config_build p = inr c;
  config_build_invalid : forall p, ~ mesh_valid p -> exists e, config_build p = inl e
}.

(** ** The service *)

Section Service.
Context {C : Crypto} {L : Libp2p}.

Inductive P2pGossipMessage :=
| P2pTransaction (tx : Transaction)
| P2pBlock (b : Block)
| P2pVote (v : Vote).

Record GossipTopics := mkTopics { topic_transactions : string; topic_blocks : string; topic_votes : string }.

Definition default_topics : GossipTopics := mkTopics "nova-transactions" "nova-blocks" "nova-votes".

Definition transactions_topic (t : GossipTopics) : IdentTopic := ident_topic (topic_transactions t).
Definition blocks_topic (t : GossipTopics) : IdentTopic := ident_topic (topic_blocks t).
Definition votes_topic (t : GossipTopics) : IdentTopic := ident_topic (topic_votes t).

Record GossipServiceConfig := mkServiceConfig {
  listen_addr : string;
  svc_topics : GossipTopics;
  mesh_n : Z;
  mesh_n_low : Z;
  mesh_n_high : Z;
  svc_heartbeat_interval_ms : Z;
  max_message_size : Z
}.

Definition default_service_config : GossipServiceConfig :=
  mkServiceConfig ("/ip4/0.0.0.0/tcp/" +:+ pretty DEFAULT_P2P_PORT) default_topics 6 4 12 1000 (1024 * 1024).

Inductive GossipError :=
| GossipSerialization (msg : string)
| PublishError (msg : string)
| SubscriptionError (msg : string)
| TransportError (msg : string)
| InvalidMessage (msg : string).

Definition display_gossip_error (e : GossipError) : string :=
  match e with
  | GossipSerialization msg => "serialization error: " +:+ msg
  | PublishError msg => "publish error: " +:+ msg
  | SubscriptionError msg => "subscription error: " +:+ msg
  | TransportError msg => "transport error: " +:+ msg
  | InvalidMessage msg => "invalid message: " +:+ msg
  end.

(** ** Building the swarm *)

(** [map_err]: every failure of libp2p is reported as a transport error. *)
Definition transport {A} (what : string) (r : string + A) : res GossipError A :=
  match r with inr a => Ok a | inl e => Err (TransportError (what +:+ ": " +:+ e)) end.

Definition gossipsub_params (config : GossipServiceConfig) : GossipsubParams :=
  mkGossipsub (svc_heartbeat_interval_ms config) (mesh_n config) (mesh_n_low config) (mesh_n_high config)
    (max_message_size config) Strict.

Definition build_swarm (config : GossipServiceConfig) (keypair : Keypair) : res GossipError Swarm :=
  gossipsub_config ← transport "gossipsub config" (config_build (gossipsub_params config));
  gossipsub_behaviour ← transport "gossipsub behaviour" (gossipsub_signed keypair gossipsub_config);
  let behaviour := mkBehaviour gossipsub_behaviour
    (identify_behaviour ("/nova/" +:+ PROTOCOL_VERSION) (keypair_public keypair)) in
  tcp ← transport "tcp transport" (with_tcp keypair);
  builder ← transport "behaviour" (with_behaviour tcp behaviour);
  Ok (swarm_build builder 60).

(** ** The queue *)

(** The service's end of the unbounded channel: the messages not yet taken, and whether
    the receiving end still exists. *)
Record GossipService := mkService {
  svc_config : GossipServiceConfig;
  local_peer_id : PeerId;
  svc_queue : list P2pGossipMessage;
  svc_receiver_alive : bool
}.

Definition service_new (config : GossipServiceConfig) (keypair : Keypair) : GossipService :=
  mkService config (peer_id_from (keypair_public keypair)) [] true.

Definition send (msg : P2pGossipMessage) : M GossipService GossipError unit :=
  self ← get;
  require (svc_receiver_alive self) else (PublishError "channel closed: channel closed");
  put (mkService (svc_config self) (local_peer_id self) (svc_queue self ++ [msg]) (svc_receiver_alive self)).

Definition publish_transaction (tx : Transaction) : M GossipService GossipError unit := send (P2pTransaction tx).
Definition publish_block (b : Block) : M GossipService GossipError unit := send (P2pBlock b).
Definition publish_vote (v : Vote) : M GossipService GossipError unit := send (P2pVote v).

Definition topic_for_message (self : GossipService) (msg : P2pGossipMessage) : IdentTopic :=
  let topics := svc_topics (svc_config self) in
  match msg with
  | P2pTransaction _ => transactions_topic topics
  | P2pBlock _ => blocks_topic topics
  | P2pVote _ => votes_topic topics
  end.

(** The bincode form of the messages. *)
Class P2pCodec := {
  p2p_ser : P2pGossipMessage -> option (list Z);
  p2p_de : list Z -> res string P2pGossipMessage
}.

Class P2pCodecLaws (PC : P2pCodec) : Prop := {
  p2p_ser_ok : forall m, is_Some (p2p_ser m);
  p2p_de_ser : forall m l, p2p_ser m = Some l -> p2p_de l = Ok m
}.

Definition encode_message {PC : P2pCodec} {E} (msg : P2pGossipMessage) : res E (list Z) := expect (p2p_ser msg).

Definition decode_message {PC : P2pCodec} (data : list Z) : res GossipError P2pGossipMessage :=
  map_err_res GossipSerialization (p2p_de data).

(** What the documentation asks of the loop that owns the swarm, which the repository does
    not contain: each message is taken from the queue, encoded and published on its topic. *)
Fixpoint publish_all {PC : P2pCodec} {E} (self : GossipService) (queue : list P2pGossipMessage)
    : res E (list (IdentTopic * list Z)) :=
  match queue with
  | [] => Ok []
  | msg :: rest =>
      bytes ← encode_message msg;
      out ← publish_all self rest;
      Ok ((topic_for_message self msg, bytes) :: out)
  end.

Fixpoint decode_all {PC : P2pCodec} (published : list (IdentTopic * list Z)) : res GossipError (list P2pGossipMessage) :=
  match published with
  | [] => Ok []
  | (_, bytes) :: rest => msg ← decode_message bytes; msgs ← decode_all rest; Ok (msg :: msgs)
  end.
End Service.

Section ServiceProofs.
Context {C : Crypto} {L : Libp2p} {PC : P2pCodec} {PL : P2pCodecLaws PC}.

Definition publish (msg : P2pGossipMessage) : M GossipService GossipError unit :=
  match msg with
  | P2pTransaction tx => publish_transaction tx
  | P2pBlock b => publish_block b
  | P2pVote v => publish_vote v
  end.

Lemma publish_open m config id q :
  publish m (mkService config id q true) = (Ok tt, mkService config id (q ++ [m]) true).
Proof. by destruct m. Qed.

Lemma publish_all_open config id msgs q :
  fold_left (fun s m => (publish m s).2) msgs (mkService config id q true) = mkService config id (q ++ msgs) true.
Proof.
  revert q. induction msgs as [|m msgs IH]; intros q; cbn [fold_left]; [by rewrite app_nil_r|].
  rewrite publish_open. cbn [snd]. by rewrite IH, <- app_assoc.
Qed.

Lemma publish_all_decodes {E} svc msgs :
  exists out, publish_all (E := E) svc msgs = Ok out /\ decode_all out = Ok msgs /\
    out.*1 = topic_for_message svc <$> msgs.
Proof.
  induction msgs as [|m msgs (out & H1 & H2 & H3)]; [by exists []|].
  destruct (p2p_ser_ok m) as [l Hl]. exists ((topic_for_message svc m, l) :: out). cbn [publish_all decode_all].
  unfold encode_message, decode_message. rewrite Hl, (p2p_de_ser m l Hl). cbn [expect mbind res_bind map_err_res].
  rewrite H1, H2. split_and!; [done..|]. cbn. by rewrite H3.
Qed.

(** As long as a swarm loop runs, everything published reaches a subscriber of the three
    topics as it was, in order, transactions, blocks and votes each on their own topic; once
    it is gone every attempt reports that the channel is closed and queues nothing. *)
Theorem published_messages_arrive {E} msgs config kp :
  let svc := fold_left (fun s m => (publish m s).2) msgs (service_new config kp) in
  exists out, publish_all (E := E) svc (svc_queue svc) = Ok out /\ decode_all out = Ok msgs /\
    out.*1 = topic_for_message svc <$> msgs /\
    forall m id queue, publish m (mkService config id queue false) =
      (Err (PublishError "channel closed: channel closed"), mkService config id queue false).
Proof.
  intros svc. assert (svc = mkService config (peer_id_from (keypair_public kp)) msgs true) as ->
    by apply (publish_all_open config _ msgs []).
  destruct (publish_all_decodes (E := E) (mkService config (peer_id_from (keypair_public kp)) msgs true) msgs)
    as (out & H1 & H2 & H3).
  exists out. split_and!; [done..|]. intros m id queue. by destruct m.
Qed.
End ServiceProofs.

Section SwarmProofs.
Context {C : Crypto} {L : Libp2p} {LL : Libp2pLaws L}.

(** A swarm is refused only with a transport error; sizes of the mesh out of order are refused
    before the key is used, and the default configuration passes that check: whether its swarm
    is built depends on the behaviours and the transport of libp2p alone. *)
Theorem build_swarm_outcome config kp :
  (forall e, build_swarm config kp = Err e -> exists msg, e = TransportError msg) /\
  build_swarm config kp <> Panic /\
  (~ mesh_valid (gossipsub_params config) -> exists e, forall kp', build_swarm config kp' =
     Err (TransportError ("gossipsub config: " +:+ e))) /\
  exists gc, config_build (gossipsub_params default_service_config) = inr gc /\
    forall gs tcp builder, gossipsub_signed kp gc = inr gs -> with_tcp kp = inr tcp ->
      with_behaviour tcp (mkBehaviour gs (identify_behaviour "/nova/0.1.0" (keypair_public kp))) = inr builder ->
      build_swarm default_service_config kp = Ok (swarm_build builder 60).
Proof.
  split_and!.
  - intros e. unfold build_swarm. destruct (config_build _) as [?|gc]; cbn; [intros [= <-]; by eexists|].
    destruct (gossipsub_signed _ _) as [?|gs]; cbn; [intros [= <-]; by eexists|].
    destruct (with_tcp _) as [?|tcp]; cbn; [intros [= <-]; by eexists|].
    destruct (with_behaviour _ _) as [?|b]; cbn; [intros [= <-]; by eexists|done].
  - unfold build_swarm. destruct (config_build _) as [?|gc]; cbn; [done|].
    destruct (gossipsub_signed _ _) as [?|gs]; cbn; [done|].
    destruct (with_tcp _) as [?|tcp]; cbn; [done|]. by destruct (with_behaviour _ _).
  - intros Hbad. destruct (config_build_invalid _ Hbad) as [e He]. exists e. intros kp'.
    unfold build_swarm. by rewrite He.
  - destruct (config_build_valid (gossipsub_params default_service_config)) as [gc Hgc];
      [unfold mesh_valid; cbn; lia|].
    exists gc. split; [done|]. intros gs tcp builder Hgs Htcp Hb. unfold build_swarm.
    rewrite Hgc. cbn [transport mbind res_bind]. rewrite Hgs. cbn [transport mbind res_bind].
    rewrite Htcp. cbn [transport mbind res_bind].
    change ("/nova/" +:+ PROTOCOL_VERSION)%string with "/nova/0.1.0"%string. by rewrite Hb.
Qed.
End SwarmProofs.

(** ** Witnesses *)

Module P2pExamples.
#[local] Existing Instance toy_crypto.
Import ToyCodec.

#[export] Instance signature_eq_dec : EqDecision NovaSignature.
Proof. solve_decision. Defined.

#[export] Instance vote_eq_dec : EqDecision Vote.
Proof. solve_decision. Defined.

#[export] Instance vote_countable : Countable (Vote).
Proof.
  refine (inj_countable' (fun v : Vote => (vote_validator v, vote_block_hash v, sig_bytes (vote_signature v), vote_round v))
    (fun '(a, h, s, r) => mkVote a h (mkSig s) r) _).
  by intros [? ? [] ?].
Defined.

Definition message_sum (m : P2pGossipMessage) : Transaction + (Block + Vote) :=
  match m with P2pTransaction tx => inl tx | P2pBlock b => inr (inl b) | P2pVote v => inr (inr v) end.
Definition sum_message (x : Transaction + (Block + Vote)) : P2pGossipMessage :=
  match x with inl tx => P2pTransaction tx | inr (inl b) => P2pBlock b | inr (inr v) => P2pVote v end.

Definition p2p_codec : P2pCodec := {|
  p2p_ser := fun m => Some [Zpos (encode (message_sum m))];
  p2p_de := fun l =>
    match l with
    | [Zpos p] => match decode p with Some x => Ok (sum_message x) | None => Err "bad"%string end
    | _ => Err "bad"%string
    end
|}.

#[export] Instance p2p_codec_laws : P2pCodecLaws p2p_codec.
Proof. split; [by eexists|]. intros m l [= <-]. cbn. rewrite decode_encode. by destruct m. Qed.

(** A libp2p whose peers are named by strings. *)
#[export] Instance toy_libp2p : Libp2p := {|
  Keypair := string; PeerPublicKey := string; PeerId := string; IdentTopic := string;
  GossipsubConfig := GossipsubParams; Gossipsub := string * GossipsubParams; Identify := string * string;
  Transport := string; SwarmBuilder := GossipBehaviour (string * GossipsubParams) (string * string);
  Swarm := GossipBehaviour (string * GossipsubParams) (string * string) * Z;
  keypair_public k := k;
  peer_id_from k := k;
  ident_topic t := t;
  config_build p :=
    if (2 <=? gs_mesh_n_low p) && (gs_mesh_n_low p <=? gs_mesh_n p) && (gs_mesh_n p <=? gs_mesh_n_high p)
       && (4 <=? gs_mesh_n p) && (100 <=? gs_max_transmit_size p)
    then inr p else inl "mesh"%string;
  gossipsub_signed k p := inr (k, p);
  identify_behaviour v k := (v, k);
  with_tcp k := inr k;
  with_behaviour _ b := inr b;
  swarm_build b t := (b, t)
|}.

#[export] Instance toy_libp2p_laws : Libp2pLaws toy_libp2p.
Proof.
  split; intros p Hp; unfold mesh_valid in Hp; cbn [config_build toy_libp2p].
  - exists p. destruct Hp as ((H1 & H2) & H3 & H4 & H5).
    by rewrite (proj2 (Z.leb_le _ _) H1), (proj2 (Z.leb_le _ _) H2), (proj2 (Z.leb_le _ _) H3),
      (proj2 (Z.leb_le _ _) H4), (proj2 (Z.leb_le _ _) H5).
  - exists "mesh"%string. destruct (_ && _) eqn:E; [|done]. exfalso. apply Hp.
    rewrite !andb_true_iff, !Z.leb_le in E. lia.
Qed.
End P2pExamples.
Import P2pExamples.
#[local] Existing Instance toy_crypto.

Lemma published_messages_arrive_witness :
  exists out, publish_all (L := toy_libp2p) (PC := p2p_codec) (E := unit)
    (mkService (L := toy_libp2p) default_service_config "alice"%string [P2pBlock genesis] true) [P2pBlock genesis] = Ok out /\
    decode_all (L := toy_libp2p) (PC := p2p_codec) out = Ok [P2pBlock genesis] /\ out.*1 = ["nova-blocks"]%string.
Proof.
  destruct (published_messages_arrive (L := toy_libp2p) (PC := p2p_codec) (E := unit) [P2pBlock genesis] default_service_config "alice"%string)
    as (out & H1 & H2 & H3 & _).
  exists out. split; [exact H1|]. split; [exact H2|exact H3].
Defined.

(** The default configuration gives a swarm; one whose mesh may not shrink to its target does not. *)
Example default_swarm :
  (fun s => identify s.1) <$> (match build_swarm (L := toy_libp2p) default_service_config "alice"%string with Ok s => Some s | _ => None end)
    = Some ("/nova/0.1.0", "alice")%string.
Proof. vm_compute. reflexivity. Qed.

Lemma build_swarm_outcome_witness :
  exists e, build_swarm (L := toy_libp2p) (mkServiceConfig "" default_topics 6 7 12 1000 1000) "alice"%string =
     Err (TransportError ("gossipsub config: " +:+ e)).
Proof.
  destruct (build_swarm_outcome (L := toy_libp2p) (mkServiceConfig "" default_topics 6 7 12 1000 1000) "alice"%string)
    as (_ & _ & Hbad & _).
  destruct Hbad as [e He]; [unfold mesh_valid; cbn; lia|]. exists e. exact (He "alice"%string).
Defined.
