(* ===== verification/Config.v ===== *)
(** * Protocol constants

    [protocol/src/config.rs]: the constants that no other file declares; those the
    modelled code reads are declared beside it (networks and prefixes in Text.v, the
    handshake in Ntp.v, ports and peers in Node.v, AES in Secrecy.v, the API in Api.v).
    Durations are in milliseconds.  [config_consistent] states what the comments and
    tests of the file say of the constants together, and how they meet the defaults of
    the components. *)

From stdpp Require Import pretty.
From S2P Require Import Prelude Bytes Crypto Mempool Consensus Producer Ntp Secrecy Gossip Text Lifecycle Node P2p.

#[local] Open Scope Z_scope.

Definition PROTOCOL_MAGIC : Z := 0x414C4153.
Definition PROTOCOL_FINGERPRINT : string := "ALAS-NOVA-2026".
Definition PROTOCOL_VERSION_MINOR : Z := 1.
Definition PROTOCOL_VERSION_PATCH : Z := 0.
Definition WIRE_PROTOCOL_VERSION : Z := 1.

Definition SIGNING_ALGORITHM : string := "Ed25519".
Definition SIGNING_KEY_LENGTH : nat := 32.
Definition VERIFYING_KEY_LENGTH : nat := 32.
Definition SIGNATURE_LENGTH : nat := 64.
Definition KEY_EXCHANGE_ALGORITHM : string := "X25519".
Definition SYMMETRIC_ALGORITHM : string := "AES-256-GCM".
Definition AES_TAG_LENGTH : nat := 16.
Definition PRIMARY_HASH_FUNCTION : string := "BLAKE3".
Definition HASH_OUTPUT_LENGTH : nat := 32.
Definition ZKP_CURVE : string := "BN254".
Definition MAX_ZKP_CONSTRAINTS : Z := Z.shiftl 1 20.

Definition BLOCK_TIME : Z := 2 * 1000.
Definition BLOCK_TIME_MS : Z := 2000.
Definition MAX_CLOCK_SKEW : Z := 500.
Definition NTP_SYNC_INTERVAL : Z := 60 * 1000.
Definition TX_EXPIRY_WINDOW : Z := 300 * 1000.
Definition PEER_HEARTBEAT_INTERVAL : Z := 15 * 1000.
Definition PEER_CONNECTION_TIMEOUT : Z := 10 * 1000.

Definition FEE_PER_BYTE : Z := 10.
Definition SHIELDED_TX_FEE_MULTIPLIER : Z := 3.
Definition MAX_TX_FEE_PHOTONS : Z := 10000000.
Definition FEE_DECIMALS : Z := 8.

Definition MAX_TX_SIZE_BYTES : Z := 256 * 1024.
Definition MAX_TX_INPUTS : Z := 256.
Definition MAX_TX_OUTPUTS : Z := 256.
Definition MAX_MEMO_LENGTH : Z := 512.

Definition DEFAULT_RPC_PORT : Z := 9741.
Definition DEFAULT_METRICS_PORT : Z := 9742.

Definition ROCKSDB_WRITE_BUFFER_SIZE : Z := 64 * 1024 * 1024.
Definition ROCKSDB_MAX_WRITE_BUFFERS : Z := 3.
Definition ROCKSDB_BLOCK_CACHE_SIZE : Z := 256 * 1024 * 1024.

(** ** The command line's defaults *)

(** [nova-node run] without options; each may also come from the environment. *)
Definition default_run_options : RunOptions :=
  mkRunOptions "~/.nova" "0.0.0.0:9741" "0.0.0.0:9740" "0.0.0.0:9742" false "info" false 0 9741 9740 9742 None.

Definition any_address (port : Z) : string := "0.0.0.0:" +:+ pretty port.

(** ** What holds of them together *)

Section Consistency.
Context {C : Crypto} {L : CryptoLaws C}.

(** Version and numbers agree with their texts, the time of a block with finality, the lengths
    with the keys, signatures and digests in use, and the defaults of the components and of
    the command line with the constants, all but two: the consensus loop paces itself by
    1500 ms, and the mempool accepts any fee. *)
Theorem config_consistent :
  PROTOCOL_VERSION = (pretty PROTOCOL_VERSION_MAJOR +:+ "." +:+ pretty PROTOCOL_VERSION_MINOR +:+ "."
    +:+ pretty PROTOCOL_VERSION_PATCH)%string /\
  (be_bytes 4 <$> [PROTOCOL_MAGIC; NETWORK_ID_MAINNET; NETWORK_ID_TESTNET; NETWORK_ID_DEVNET])
    = (str_bytes <$> ["ALAS"; "NOVA"; "NOVT"; "NOVD"]%string) /\
  (BLOCK_TIME = BLOCK_TIME_MS /\ FINALITY_TIMEOUT_MS = 15 * BLOCK_TIME_MS /\ MAX_CLOCK_SKEW < BLOCK_TIME_MS) /\
  (forall kp m, length (pk_bytes (public_key kp)) = VERIFYING_KEY_LENGTH /\
     length (sig_bytes (sign kp m)) = SIGNATURE_LENGTH /\ length (blake3_hash m) = HASH_OUTPUT_LENGTH) /\
  (block_time_ms default_consensus_config = BLOCK_TIME_MS /\
   loop_block_time_ms default_loop_config = BLOCK_TIME_MS - MAX_CLOCK_SKEW) /\
  (heartbeat_interval_ms default_gossip_config = PEER_HEARTBEAT_INTERVAL /\
   max_peers default_gossip_config = MAX_PEERS /\ fanout default_gossip_config = GOSSIP_FANOUT) /\
  (ro_rpc_addr default_run_options = any_address DEFAULT_RPC_PORT /\
   ro_p2p_addr default_run_options = any_address DEFAULT_P2P_PORT /\
   ro_metrics_addr default_run_options = any_address DEFAULT_METRICS_PORT /\
   run_args default_run_options = Boot.mkRunArgs false false 0) /\
  min_fee default_mempool_config < MIN_TX_FEE_PHOTONS < MAX_TX_FEE_PHOTONS.
Proof.
  split_and!; try reflexivity.
  all: intros kp m; split_and!; [apply verifying_key_length|apply dalek_sign_length|apply blake3_length].
Qed.

(** A network is known by its prefix: exactly the three have one, and no two share it. *)
Theorem prefixes_identify_networks a b :
  (is_Some (hrp_for_network a) <-> a ∈ [NETWORK_ID_MAINNET; NETWORK_ID_TESTNET; NETWORK_ID_DEVNET]) /\
  (is_Some (hrp_for_network a) -> hrp_for_network a = hrp_for_network b -> a = b).
Proof.
  assert (forall z, hrp_for_network z = Some "nova"%string /\ z = NETWORK_ID_MAINNET \/
    hrp_for_network z = Some "tnova"%string /\ z = NETWORK_ID_TESTNET \/
    hrp_for_network z = Some "dnova"%string /\ z = NETWORK_ID_DEVNET \/
    hrp_for_network z = None /\ z ∉ [NETWORK_ID_MAINNET; NETWORK_ID_TESTNET; NETWORK_ID_DEVNET]) as Hcases.
  { intros z. unfold hrp_for_network.
    destruct (Z.eqb_spec z NETWORK_ID_MAINNET); [by left|]. right.
    destruct (Z.eqb_spec z NETWORK_ID_TESTNET); [by left|]. right.
    destruct (Z.eqb_spec z NETWORK_ID_DEVNET); [by left|]. right. split; [done|]. set_solver. }
  split.
  - destruct (Hcases a) as [[-> ->]|[[-> ->]|[[-> ->]|[-> Ha]]]]; split; intros Hx; try set_solver.
    all: by apply is_Some_None in Hx.
  - intros Ha Hab. destruct (Hcases a) as [[E ->]|[[E ->]|[[E ->]|[E _]]]]; rewrite E in Ha, Hab;
      [..|by apply is_Some_None in Ha];
      destruct (Hcases b) as [[F ->]|[[F ->]|[[F ->]|[F _]]]]; rewrite F in Hab; done.
Qed.
End Consistency.
