(* ===== verification/Circuit.v ===== *)
(** * Pedersen commitments and the balance circuit

    [protocol/src/zkp/commitment.rs] and [protocol/src/zkp/circuit.rs].  An element of
    [ark_bn254::Fr] is an integer modulo [FR_MODULUS] in canonical form; the curve BN254/G1
    is third-party, the class [Curve].  The circuit is synthesized as the source does it,
    into a rank-one constraint system: an [FpVar] is the linear combination it stands
    for, so a product with a constant scales it and costs no constraint. *)

From S2P Require Import Prelude Prime.
From Stdlib Require Import Znumtheory ZmodInv.

#[local] Open Scope Z_scope.

Definition RANGE_BITS : nat := 64.

(** ** The scalar field *)

Definition fr (z : Z) : Z := z mod FR_MODULUS.

Definition fr_ok (x : Z) : Prop := 0 <= x < FR_MODULUS.

(** ** [commitment.rs] *)

Class Curve := {
  G1 : Type;
  g1_eq_dec : EqDecision G1;
  g1_add : G1 -> G1 -> G1;
  g1_mul : G1 -> Z -> G1
}.
#[export] Existing Instance g1_eq_dec.

Section Commitment.
Context {E : Curve}.

Record PedersenParams := mkPedersen { pp_g : G1; pp_h : G1; g_scalar : Z; h_scalar : Z }.

Record Commitment := mkCommitment { point : G1; scalar : Z }.

(** [Fr::from] of a [u64] is [fr]. *)
Definition commit (params : PedersenParams) (v blinding : Z) : Commitment :=
  let v := fr v in
  mkCommitment (g1_add (g1_mul (pp_g params) v) (g1_mul (pp_h params) blinding))
    (fr (v * g_scalar params + blinding * h_scalar params)).

Definition verify_commitment (params : PedersenParams) (commitment : Commitment) (v blinding : Z) : bool :=
  let expected := commit params v blinding in
  bool_decide (point commitment = point expected) && (scalar commitment =? scalar expected).
End Commitment.

(** ** Constraint systems *)

Inductive R1csVariable := VOne | VInput (i : nat) | VWitness (i : nat).

Notation LinearCombination := (list (Z * R1csVariable)).

(** [a * b = c]. *)
Record Constraint := mkConstraint {
  lc_a : LinearCombination;
  lc_b : LinearCombination;
  lc_c : LinearCombination
}.

Inductive SynthesisError := AssignmentMissing.

(** In setup mode variables are allocated without values. *)
Record ConstraintSystem := mkCs {
  cs_setup : bool;
  num_inputs : nat;
  num_witnesses : nat;
  instance_assignment : list Z;
  witness_assignment : list Z;
  cs_constraints : list Constraint
}.

Definition cs_new (setup : bool) : ConstraintSystem := mkCs setup 0 0 [] [] [].

Notation Synth := (M ConstraintSystem SynthesisError).

Definition alloc_input (v : option Z) : Synth LinearCombination := fun cs =>
  let var := [(1, VInput (num_inputs cs))] in
  if cs_setup cs then
    (Ok var, mkCs true (S (num_inputs cs)) (num_witnesses cs) (instance_assignment cs)
               (witness_assignment cs) (cs_constraints cs))
  else match v with
       | Some z => (Ok var, mkCs false (S (num_inputs cs)) (num_witnesses cs)
                              (instance_assignment cs ++ [z]) (witness_assignment cs) (cs_constraints cs))
       | None => (Err AssignmentMissing, cs)
       end.

Definition alloc_witness (v : option Z) : Synth LinearCombination := fun cs =>
  let var := [(1, VWitness (num_witnesses cs))] in
  if cs_setup cs then
    (Ok var, mkCs true (num_inputs cs) (S (num_witnesses cs)) (instance_assignment cs)
               (witness_assignment cs) (cs_constraints cs))
  else match v with
       | Some z => (Ok var, mkCs false (num_inputs cs) (S (num_witnesses cs))
                              (instance_assignment cs) (witness_assignment cs ++ [z]) (cs_constraints cs))
       | None => (Err AssignmentMissing, cs)
       end.

Definition enforce_constraint (c : Constraint) : Synth unit :=
  modify (fun cs => mkCs (cs_setup cs) (num_inputs cs) (num_witnesses cs) (instance_assignment cs)
                      (witness_assignment cs) (cs_constraints cs ++ [c])).

Definition fp_add (a b : LinearCombination) : LinearCombination := a ++ b.
Definition fp_scale (k : Z) (a : LinearCombination) : LinearCombination :=
  (fun cv : Z * R1csVariable => (fr (k * cv.1), cv.2)) <$> a.
Definition fp_sub (a b : LinearCombination) : LinearCombination := a ++ fp_scale (-1) b.

(** [x == y] is [(x - y) * 1 = 0]. *)
Definition enforce_equal (x y : LinearCombination) : Synth unit :=
  enforce_constraint (mkConstraint (fp_sub x y) [(1, VOne)] []).

(** [Boolean::new_witness] enforces [(1 - b) * b = 0]. *)
Definition alloc_bool (v : option bool) : Synth LinearCombination :=
  b ← alloc_witness ((fun b : bool => Z.b2z b) <$> v);
  _ ← enforce_constraint (mkConstraint (fp_sub [(1, VOne)] b) b []);
  mret b.

(** ** [circuit.rs] *)

Record BalanceProofCircuit := mkCircuit {
  c_g_scalar : Z;
  c_h_scalar : Z;
  c_balance : option Z;
  c_blinding : option Z;
  c_commitment_scalar : option Z;
  c_required_amount : option Z
}.

Definition circuit_new {E : Curve} (params : PedersenParams) (balance blinding : Z)
    (commitment : Commitment) (required_amount : Z) : BalanceProofCircuit :=
  mkCircuit (g_scalar params) (h_scalar params) (Some (fr balance)) (Some blinding)
    (Some (scalar commitment)) (Some (fr required_amount)).

Definition circuit_blank {E : Curve} (params : PedersenParams) : BalanceProofCircuit :=
  mkCircuit (g_scalar params) (h_scalar params) None None None None.

(** The low 64 bits of the canonical integer. *)
Definition delta_to_bits (balance amount : option Z) : option (list bool) :=
  b ← balance; a ← amount;
  let delta := fr (b - a) in
  Some ((fun i => Z.testbit delta (Z.of_nat i)) <$> seq 0 RANGE_BITS).

(** One iteration of the reconstruction; [delta_bits] has [RANGE_BITS] elements. *)
Definition add_bit (delta_bits : option (list bool)) (i : nat) (acc : LinearCombination * Z)
    : Synth (LinearCombination * Z) :=
  bit ← alloc_bool ((fun bits => nth i bits false) <$> delta_bits);
  mret (fp_add acc.1 (fp_scale acc.2 bit), fr (acc.2 * 2)).

Definition generate_constraints (self : BalanceProofCircuit) : Synth unit :=
  commitment_var ← alloc_input (c_commitment_scalar self);
  required_amount_var ← alloc_input (c_required_amount self);
  balance_var ← alloc_witness (c_balance self);
  blinding_var ← alloc_witness (c_blinding self);
  let computed := fp_add (fp_scale (c_g_scalar self) balance_var) (fp_scale (c_h_scalar self) blinding_var) in
  _ ← enforce_equal computed commitment_var;
  let delta_var := fp_sub balance_var required_amount_var in
  let delta_bits := delta_to_bits (c_balance self) (c_required_amount self) in
  acc ← fold_each (seq 0 RANGE_BITS) (add_bit delta_bits) ([], 1);
  enforce_equal acc.1 delta_var.

Definition public_inputs {E : Curve} (commitment : Commitment) (required_amount : Z) : list Z :=
  [scalar commitment; fr required_amount].

(** ** Satisfaction *)

Definition value_of (inputs witnesses : list Z) (v : R1csVariable) : Z :=
  match v with
  | VOne => 1
  | VInput i => nth i inputs 0
  | VWitness i => nth i witnesses 0
  end.

Definition lc_eval (inputs witnesses : list Z) (lc : LinearCombination) : Z :=
  fr (sumZ (fun cv : Z * R1csVariable => cv.1 * value_of inputs witnesses cv.2) lc).

Definition holds (inputs witnesses : list Z) (c : Constraint) : bool :=
  fr (lc_eval inputs witnesses (lc_a c) * lc_eval inputs witnesses (lc_b c)) =?
  lc_eval inputs witnesses (lc_c c).

Definition is_satisfied (inputs witnesses : list Z) (cs : list Constraint) : bool :=
  forallb (holds inputs witnesses) cs.

(** The constraints key generation sees. *)
Definition circuit_constraints {E : Curve} (params : PedersenParams) : list Constraint :=
  cs_constraints (generate_constraints (circuit_blank params) (cs_new true)).2.

(** ** Congruence modulo the field order *)

#[export] Existing Instances eqm_setoid Zplus_eqm Zminus_eqm Zmult_eqm Zopp_eqm.

Notation "a =r= b" := (eqm FR_MODULUS a b) (at level 70).

Lemma fr_eqm z : fr z =r= z.
Proof. apply Zmod_eqm. Qed.

Lemma fr_range z : fr_ok (fr z).
Proof. apply Z.mod_pos_bound. reflexivity. Qed.

Lemma fr_small z : fr_ok z -> fr z = z.
Proof. apply Z.mod_small. Qed.

Lemma fr_eq_iff a b : fr a = fr b <-> a =r= b.
Proof. done. Qed.

Lemma eqm_small a b : a =r= b -> fr_ok a -> fr_ok b -> a = b.
Proof. intros H Ha Hb. rewrite <- (fr_small a), <- (fr_small b) by done. exact H. Qed.

Lemma eqm_sub_0 a b : a - b =r= 0 <-> a =r= b.
Proof.
  split; intros H.
  - replace a with (a - b + b) by lia. rewrite H. by rewrite Z.add_0_l.
  - rewrite H. by rewrite Z.sub_diag.
Qed.

(** The field has no zero divisors. *)
Lemma eqm_mul_0 a b : a * b =r= 0 -> a =r= 0 \/ b =r= 0.
Proof.
  unfold eqm. rewrite !Zmod_0_l. intros H.
  apply Z.mod_divide in H; [|done].
  apply prime_mult in H; [|apply prime_alt, fr_modulus_prime].
  destruct H as [H|H]; [left|right]; by apply Z.mod_divide.
Qed.

(** Non-zero elements are invertible. *)
Lemma fr_inverse h : ~ h =r= 0 -> exists k, fr_ok k /\ h * k =r= 1.
Proof.
  intros Hh. exists (fr (h ^ (FR_MODULUS - 2))). split; [apply fr_range|].
  rewrite fr_eqm. rewrite <- Z.pow_succ_r by done.
  pose proof (Z.fermat_nz FR_MODULUS h fr_modulus_prime) as Hf.
  unfold eqm. rewrite (Z.mod_small 1) by done. apply Hf. intros E. apply Hh. unfold eqm. by rewrite E.
Qed.

(** ** Synthesis in closed form *)

Definition bit_constraint (j : nat) : Constraint :=
  mkConstraint (fp_sub [(1, VOne)] [(1, VWitness j)]) [(1, VWitness j)] [].

Definition bits_lc (i n : nat) : LinearCombination :=
  (fun j => (fr (fr (2 ^ Z.of_nat j) * 1), VWitness (2 + j))) <$> seq i n.

Lemma add_bits_run (bits : option (list bool)) n i lc cs :
  num_witnesses cs = (2 + i)%nat -> (cs_setup cs = false -> is_Some bits) ->
  fold_each (seq i n) (add_bit bits) (lc, fr (2 ^ Z.of_nat i)) cs =
  (Ok (lc ++ bits_lc i n, fr (2 ^ Z.of_nat (i + n))),
   mkCs (cs_setup cs) (num_inputs cs) (num_witnesses cs + n) (instance_assignment cs)
     (if cs_setup cs then witness_assignment cs
      else witness_assignment cs ++ ((fun j => Z.b2z (nth j (default [] bits) false)) <$> seq i n))
     (cs_constraints cs ++ ((fun j => bit_constraint (2 + j)) <$> seq i n))).
Proof.
  revert i lc cs; induction n as [|n IH]; intros i lc cs Hw Hb.
  - cbn. rewrite !app_nil_r, !Nat.add_0_r. by destruct cs as [[] ? ? ? ? ?].
  - cbn [seq fold_each].
    assert (add_bit bits i (lc, fr (2 ^ Z.of_nat i)) cs =
      (Ok (lc ++ [(fr (fr (2 ^ Z.of_nat i) * 1), VWitness (2 + i))], fr (2 ^ Z.of_nat (S i))),
       mkCs (cs_setup cs) (num_inputs cs) (S (num_witnesses cs)) (instance_assignment cs)
         (if cs_setup cs then witness_assignment cs
          else witness_assignment cs ++ [Z.b2z (nth i (default [] bits) false)])
         (cs_constraints cs ++ [bit_constraint (2 + i)]))) as Hstep.
    { unfold add_bit, alloc_bool, alloc_witness, enforce_constraint, modify, mret, M_ret, mbind, M_bind.
      rewrite Hw.
      assert (fr (fr (2 ^ Z.of_nat i) * 2) = fr (2 ^ Z.of_nat (S i))) as Hp.
      { apply fr_eq_iff. rewrite fr_eqm. rewrite Nat2Z.inj_succ, Z.pow_succ_r by lia. by rewrite Z.mul_comm. }
      cbn [fst snd]. rewrite Hp. destruct (cs_setup cs) eqn:Hs; [done|].
      by destruct (Hb eq_refl) as [l ->]. }
    unfold mbind at 1, M_bind at 1. rewrite Hstep. rewrite IH; [|cbn; lia|done].
    cbn [cs_setup num_inputs num_witnesses instance_assignment witness_assignment cs_constraints].
    f_equal.
    + f_equal. f_equal; [by rewrite <- app_assoc|]. by rewrite Nat.add_succ_r.
    + f_equal; [lia| |by rewrite <- app_assoc]. destruct (cs_setup cs); [done|]. by rewrite <- app_assoc.
Qed.

(** The constraints of the circuit with the two generators. *)
Definition constraint_list (g h : Z) : list Constraint :=
  [mkConstraint (fp_sub (fp_add (fp_scale g [(1, VWitness 0)]) (fp_scale h [(1, VWitness 1)])) [(1, VInput 0)])
     [(1, VOne)] []] ++
  ((fun j => bit_constraint (2 + j)) <$> seq 0 RANGE_BITS) ++
  [mkConstraint (fp_sub (bits_lc 0 RANGE_BITS) (fp_sub [(1, VWitness 0)] [(1, VInput 1)])) [(1, VOne)] []].

Lemma synthesis_steps (self : BalanceProofCircuit) setup :
  (setup = false -> is_Some (c_commitment_scalar self) /\ is_Some (c_required_amount self) /\
     is_Some (c_balance self) /\ is_Some (c_blinding self)) ->
  generate_constraints self (cs_new setup) =
  (Ok tt, mkCs setup 2 66
     (if setup then [] else [default 0 (c_commitment_scalar self); default 0 (c_required_amount self)])
     (if setup then [] else [default 0 (c_balance self); default 0 (c_blinding self)] ++
        ((fun j => Z.b2z (nth j (default [] (delta_to_bits (c_balance self) (c_required_amount self))) false))
           <$> seq 0 RANGE_BITS))
     (constraint_list (c_g_scalar self) (c_h_scalar self))).
Proof.
  intros Hsome. destruct self as [g h ob ol oc oa]. cbn [c_g_scalar c_h_scalar c_balance c_blinding
    c_commitment_scalar c_required_amount] in *.
  set (cs4 := mkCs setup 2 2 (if setup then [] else [default 0 oc; default 0 oa])
    (if setup then [] else [default 0 ob; default 0 ol])
    [mkConstraint (fp_sub (fp_add (fp_scale g [(1, VWitness 0)]) (fp_scale h [(1, VWitness 1)])) [(1, VInput 0)])
       [(1, VOne)] []]).
  pose proof (add_bits_run (delta_to_bits ob oa) RANGE_BITS 0 [] cs4 eq_refl) as Hrun.
  change (fr (2 ^ Z.of_nat 0)) with 1 in Hrun.
  transitivity ((fold_each (seq 0 RANGE_BITS) (add_bit (delta_to_bits ob oa)) ([], 1) ≫=
    fun acc => enforce_equal acc.1 (fp_sub [(1, VWitness 0)] [(1, VInput 1)])) cs4).
  { destruct setup; [reflexivity|]. destruct Hsome as ([c ->] & [a ->] & [b ->] & [l ->]); [done|].
    reflexivity. }
  unfold mbind, M_bind. rewrite Hrun.
  - by destruct setup.
  - cbn. intros ->. destruct Hsome as (_ & [a ->] & [b ->] & _); [done|]. by eexists.
Qed.

Lemma circuit_constraints_eq {E : Curve} (params : PedersenParams) :
  circuit_constraints params = constraint_list (g_scalar params) (h_scalar params).
Proof. unfold circuit_constraints. by rewrite synthesis_steps. Qed.

(** ** What the constraints say *)

Section Satisfaction.
Context (inputs w : list Z).

Notation lc_sum := (sumZ (fun cv : Z * R1csVariable => cv.1 * value_of inputs w cv.2)).

Lemma lc_sum_scale k lc : lc_sum (fp_scale k lc) =r= k * lc_sum lc.
Proof.
  induction lc as [|[c v] lc IH]; simpl; [by rewrite Z.mul_0_r|].
  fold (fp_scale k lc). rewrite IH, fr_eqm. by rewrite Z.mul_add_distr_l, Z.mul_assoc.
Qed.

Lemma lc_sum_sub a b : lc_sum (fp_sub a b) =r= lc_sum a - lc_sum b.
Proof.
  unfold fp_sub. rewrite sumZ_app, lc_sum_scale. by replace (-1 * lc_sum b) with (- lc_sum b) by lia.
Qed.

Lemma holds_iff c : holds inputs w c = true <-> lc_sum (lc_a c) * lc_sum (lc_b c) =r= lc_sum (lc_c c).
Proof.
  unfold holds, lc_eval. rewrite Z.eqb_eq, fr_eq_iff. by rewrite !fr_eqm.
Qed.

Lemma holds_equal x y :
  holds inputs w (mkConstraint (fp_sub x y) [(1, VOne)] []) = true <-> lc_sum x =r= lc_sum y.
Proof.
  rewrite holds_iff. cbn [lc_a lc_b lc_c sumZ fst snd value_of]. rewrite Z.mul_1_r.
  rewrite lc_sum_sub. apply eqm_sub_0.
Qed.

Lemma holds_bit j :
  holds inputs w (bit_constraint j) = true <-> nth j w 0 =r= 0 \/ nth j w 0 =r= 1.
Proof.
  rewrite holds_iff. unfold bit_constraint. cbn [lc_a lc_b lc_c]. rewrite lc_sum_sub.
  cbn [sumZ fst snd value_of]. rewrite !Z.mul_1_l, !Z.add_0_r. set (b := nth j w 0). split.
  - intros [H|H]%eqm_mul_0; [right; symmetry; by apply eqm_sub_0|by left].
  - intros [H|H]; rewrite H; [by rewrite Z.mul_0_r|done].
Qed.

Lemma lc_sum_bits i n :
  lc_sum (bits_lc i n) =r= sumZ (fun j => 2 ^ Z.of_nat j * nth (2 + j) w 0) (seq i n).
Proof.
  unfold bits_lc. generalize (seq i n) as l. induction l as [|j l IH]; [done|].
  rewrite fmap_cons. cbn [sumZ fst snd value_of]. rewrite IH, !fr_eqm. by rewrite Z.mul_1_r.
Qed.
End Satisfaction.

Lemma satisfied_iff g h c a w :
  is_satisfied [c; a] w (constraint_list g h) = true <->
  nth 0 w 0 * g + nth 1 w 0 * h =r= c /\
  (forall j, (j < RANGE_BITS)%nat -> nth (2 + j) w 0 =r= 0 \/ nth (2 + j) w 0 =r= 1) /\
  sumZ (fun j => 2 ^ Z.of_nat j * nth (2 + j) w 0) (seq 0 RANGE_BITS) =r= nth 0 w 0 - a.
Proof.
  unfold is_satisfied, constraint_list. rewrite !forallb_app, !andb_true_iff. cbn [forallb].
  rewrite !andb_true_r, !holds_equal, !lc_sum_sub, lc_sum_bits.
  cbn [sumZ fst snd value_of fp_add app nth]. unfold fp_add. rewrite sumZ_app, !lc_sum_scale.
  cbn [sumZ fst snd value_of nth]. rewrite !Z.mul_1_l, !Z.add_0_r.
  rewrite (Z.mul_comm g), (Z.mul_comm h).
  assert (forallb (holds [c; a] w) ((fun j => bit_constraint (2 + j)) <$> seq 0 RANGE_BITS) = true <->
    forall j, (j < RANGE_BITS)%nat -> nth (2 + j) w 0 =r= 0 \/ nth (2 + j) w 0 =r= 1) as ->; [|tauto].
  rewrite forallb_forall. split.
  - intros H j Hj. apply (holds_bit [c; a]), H. apply in_map_iff. exists j. split; [done|]. apply in_seq. lia.
  - intros H x (j & <- & Hj)%in_map_iff. apply holds_bit, H. apply in_seq in Hj. lia.
Qed.

(** ** Bits *)

Lemma bits_sum n d : 0 <= d ->
  sumZ (fun j => 2 ^ Z.of_nat j * Z.b2z (Z.testbit d (Z.of_nat j))) (seq 0 n) = d mod 2 ^ Z.of_nat n.
Proof.
  intros Hd. induction n as [|n IH]; [by rewrite Z.mod_1_r|].
  rewrite seq_S, sumZ_app, IH. cbn [sumZ Nat.add].
  rewrite Nat2Z.inj_succ, Z.pow_succ_r, (Z.mul_comm 2), Z.rem_mul_r, <- Z.testbit_spec' by lia. lia.
Qed.

(** Bits add up to a number of that many bits. *)
Lemma bit_sum_range (f : nat -> Z) n :
  (forall j, (j < n)%nat -> f j = 0 \/ f j = 1) ->
  0 <= sumZ (fun j => 2 ^ Z.of_nat j * f j) (seq 0 n) < 2 ^ Z.of_nat n.
Proof.
  induction n as [|n IH]; intros Hf; [done|]. rewrite seq_S, sumZ_app. cbn [sumZ Nat.add].
  specialize (IH ltac:(intros; apply Hf; lia)). rewrite Nat2Z.inj_succ, Z.pow_succ_r by lia.
  destruct (Hf n ltac:(lia)) as [-> | ->]; lia.
Qed.

(** ** The circuit *)

Definition bit_witness (d : Z) : list Z :=
  (fun j => Z.b2z (Z.testbit d (Z.of_nat j))) <$> seq 0 RANGE_BITS.

Lemma bit_witness_nth d j : (j < RANGE_BITS)%nat -> nth j (bit_witness d) 0 = Z.b2z (Z.testbit d (Z.of_nat j)).
Proof.
  intros Hj. unfold bit_witness.
  rewrite (nth_indep _ 0 (Z.b2z (Z.testbit d (Z.of_nat 0)))) by (rewrite length_fmap, length_seq; lia).
  rewrite (map_nth (fun i => Z.b2z (Z.testbit d (Z.of_nat i)))). by rewrite seq_nth by lia.
Qed.

(** A witness whose bits are those of [d]. *)
Lemma bit_witness_satisfies g h c a balance blinding d :
  0 <= d ->
  is_satisfied [c; a] ([balance; blinding] ++ bit_witness d) (constraint_list g h) = true <->
  balance * g + blinding * h =r= c /\ d mod 2 ^ 64 =r= balance - a.
Proof.
  intros Hd. rewrite satisfied_iff. set (w := [balance; blinding] ++ bit_witness d).
  change (nth 0 w 0) with balance. change (nth 1 w 0) with blinding.
  assert (sumZ (fun j => 2 ^ Z.of_nat j * nth (2 + j) w 0) (seq 0 RANGE_BITS) = d mod 2 ^ 64) as ->.
  { rewrite <- (bits_sum 64) by done. reflexivity. }
  split; [tauto|]. intros [H1 H2]. split_and!; [done| |done]. intros j Hj.
  change (nth (2 + j) w 0) with (nth j (bit_witness d) 0). rewrite bit_witness_nth by done.
  by destruct (Z.testbit _ _); [right|left].
Qed.

Lemma u64_fr x : in_u64 x -> fr x = x.
Proof. intros Hx. apply fr_small. unfold fr_ok, FR_MODULUS. unfold in_u64, U64_MAX in Hx. lia. Qed.

(** The difference of two 64-bit values has a 64-bit representative only when it is
    not negative. *)
Lemma delta_small balance required :
  in_u64 balance -> in_u64 required ->
  fr (balance - required) mod 2 ^ 64 =r= balance - required <-> required <= balance.
Proof.
  unfold in_u64, U64_MAX. intros Hb Hr. split.
  - intros H. apply Z.nlt_ge. intros Hlt.
    pose proof (Z.mod_pos_bound (fr (balance - required)) (2 ^ 64) ltac:(lia)).
    assert (fr (balance - required) mod 2 ^ 64 = balance - required + FR_MODULUS) as E.
    { apply eqm_small; [|unfold fr_ok, FR_MODULUS; lia..]. rewrite H. unfold eqm.
      replace (balance - required + FR_MODULUS) with (balance - required + 1 * FR_MODULUS) by lia.
      by rewrite Z.mod_add. }
    unfold FR_MODULUS in E. lia.
  - intros Hle. rewrite fr_small, Z.mod_small; [done|lia|unfold fr_ok, FR_MODULUS; lia].
Qed.

Section Circuit.
Context {E : Curve}.

(** The constraints a prover satisfies are those of key generation, whatever the
    witness. *)
Lemma circuit_topology (params : PedersenParams) balance blinding comm required :
  generate_constraints (circuit_new params balance blinding comm required) (cs_new false) =
  (Ok tt, mkCs false 2 66 (public_inputs comm required)
     ([fr balance; blinding] ++ bit_witness (fr (fr balance - fr required))) (circuit_constraints params)).
Proof.
  rewrite synthesis_steps, circuit_constraints_eq by (intros _; cbn; split_and!; by eexists).
  reflexivity.
Qed.

Lemma honest_satisfies (params : PedersenParams) balance blinding required :
  in_u64 balance -> in_u64 required ->
  is_satisfied (public_inputs (commit params balance blinding) required)
    ([fr balance; blinding] ++ bit_witness (fr (fr balance - fr required))) (circuit_constraints params) = true
  <-> required <= balance.
Proof.
  intros Hb Hr. rewrite circuit_constraints_eq. unfold public_inputs, commit. cbn [scalar].
  rewrite !(u64_fr balance), !(u64_fr required) by done.
  rewrite bit_witness_satisfies, delta_small by (done || apply fr_range).
  split; [tauto|]. intros Hle. split; [|done]. by rewrite fr_eqm.
Qed.

(** C19. Completeness: the circuit the prover populates has the constraints of key
    generation and the verifier's public inputs, and its witness satisfies them exactly
    when the balance covers the required amount. *)
Theorem circuit_complete (params : PedersenParams) balance blinding required :
  in_u64 balance -> in_u64 required ->
  exists cs, generate_constraints
      (circuit_new params balance blinding (commit params balance blinding) required) (cs_new false) = (Ok tt, cs) /\
    instance_assignment cs = public_inputs (commit params balance blinding) required /\
    cs_constraints cs = circuit_constraints params /\
    (is_satisfied (instance_assignment cs) (witness_assignment cs) (cs_constraints cs) = true <->
     required <= balance).
Proof.
  intros Hb Hr. eexists. split; [apply circuit_topology|]. split; [done|]. split; [done|].
  by apply honest_satisfies.
Qed.

(** C8. Soundness: an assignment satisfies the constraints for a public commitment and
    amount exactly when its first two variables open the scalar commitment, its other
    variables are bits, and the balance in its first variable, an integer below the field
    order, is the required amount plus the 64-bit number with these bits; so it is never
    below the required amount. *)
Theorem circuit_sound (params : PedersenParams) comm required w :
  in_u64 required ->
  let balance := fr (nth 0 w 0) in
  let bits := (fun j => fr (nth (2 + j) w 0)) <$> seq 0 RANGE_BITS in
  let delta := sumZ (fun jb => 2 ^ Z.of_nat jb.1 * jb.2) (zip (seq 0 RANGE_BITS) bits) in
  (is_satisfied (public_inputs comm required) w (circuit_constraints params) = true <->
   fr (balance * g_scalar params + nth 1 w 0 * h_scalar params) = fr (scalar comm) /\
   Forall (fun b => b = 0 \/ b = 1) bits /\ balance = required + delta) /\
  (is_satisfied (public_inputs comm required) w (circuit_constraints params) = true ->
   required <= balance < required + 2 ^ 64).
Proof.
  intros Hr balance bits delta.
  assert (Forall (fun b => b = 0 \/ b = 1) bits <->
    forall j, (j < RANGE_BITS)%nat -> nth (2 + j) w 0 =r= 0 \/ nth (2 + j) w 0 =r= 1) as Hbits.
  { unfold bits. rewrite Forall_fmap, Forall_forall. split; intros Hb j Hj.
    - apply (Hb j). apply elem_of_seq. lia.
    - apply elem_of_seq in Hj. apply Hb. lia. }
  assert (delta = sumZ (fun j => 2 ^ Z.of_nat j * fr (nth (2 + j) w 0)) (seq 0 RANGE_BITS)) as Hdelta.
  { unfold delta, bits. generalize (seq 0 RANGE_BITS) as l. induction l as [|j l IH]; [done|].
    rewrite fmap_cons. cbn [zip zip_with sumZ fst snd]. by rewrite <- IH. }
  assert (sumZ (fun j => 2 ^ Z.of_nat j * nth (2 + j) w 0) (seq 0 RANGE_BITS) =r= delta) as Hsum.
  { rewrite Hdelta. generalize (seq 0 RANGE_BITS) as l. induction l as [|j l IH]; [done|].
    cbn [sumZ]. by rewrite IH, fr_eqm. }
  assert (Forall (fun b => b = 0 \/ b = 1) bits -> 0 <= delta < 2 ^ 64) as Hrange.
  { intros Hb. rewrite Hdelta. apply (bit_sum_range (fun j => fr (nth (2 + j) w 0)) RANGE_BITS). intros j Hj. rewrite Forall_forall in Hb. apply Hb.
    apply list_elem_of_fmap. exists j. split; [done|]. apply elem_of_seq. lia. }
  assert (is_satisfied (public_inputs comm required) w (circuit_constraints params) = true <->
    fr (balance * g_scalar params + nth 1 w 0 * h_scalar params) = fr (scalar comm) /\
    Forall (fun b => b = 0 \/ b = 1) bits /\ balance = required + delta) as Hiff.
  { rewrite circuit_constraints_eq. unfold public_inputs. rewrite satisfied_iff, Hbits, Hsum, (u64_fr required) by done.
    rewrite fr_eq_iff. unfold balance at 1. rewrite fr_eqm.
    split; intros (Hc & Hb & Hd); (split; [done|split; [done|]]).
    - apply eqm_small; [|apply fr_range|].
      + unfold balance. rewrite fr_eqm, Hd. unfold eqm. f_equal. lia.
      + pose proof (Hrange (proj2 Hbits Hb)). unfold fr_ok, FR_MODULUS. unfold in_u64, U64_MAX in Hr. lia.
    - rewrite <- (fr_eqm (nth 0 w 0)). fold balance. rewrite Hd. unfold eqm. f_equal. lia. }
  split; [exact Hiff|]. intros (_ & Hb & Hd)%Hiff. specialize (Hrange Hb). lia.
Qed.

(** The scalar commitment binds nothing: the generators are known field elements, so
    the blinding that opens any commitment to any value is a division.  Whatever the
    commitment and whatever the required amount, the witness computed here satisfies
    the constraints, without any balance. *)
Definition forged_witness (params : PedersenParams) (comm : Commitment) (required h_inverse : Z) : list Z :=
  [required; fr ((scalar comm - required * g_scalar params) * h_inverse)] ++ bit_witness 0.

Lemma forged_satisfies (params : PedersenParams) comm required k :
  in_u64 required -> h_scalar params * k =r= 1 ->
  is_satisfied (public_inputs comm required) (forged_witness params comm required k)
    (circuit_constraints params) = true.
Proof.
  intros Hr Hk. rewrite circuit_constraints_eq. unfold public_inputs. rewrite u64_fr by done.
  apply bit_witness_satisfies; [done|]. split; [|by rewrite Z.sub_diag].
  rewrite fr_eqm. set (x := scalar comm - required * g_scalar params).
  replace (x * k * h_scalar params) with (x * (h_scalar params * k)) by ring. rewrite Hk.
  unfold x, eqm. f_equal. ring.
Qed.
End Circuit.

(** ** Witnesses *)

Module CircuitExamples.
#[export] Instance toy_curve : Curve := {| G1 := Z; g1_add := Z.add; g1_mul := Z.mul |}.

Definition params : PedersenParams := mkPedersen 3 5 7 11.
End CircuitExamples.

Import CircuitExamples.

Lemma circuit_complete_witness :
  exists cs, generate_constraints (circuit_new params 1000 42 (commit params 1000 42) 200) (cs_new false) = (Ok tt, cs) /\
    is_satisfied (instance_assignment cs) (witness_assignment cs) (cs_constraints cs) = true.
Proof.
  destruct (circuit_complete params 1000 42 200) as (cs & Hr & _ & _ & Hs);
    [unfold in_u64, U64_MAX; lia..|]. exists cs. split; [exact Hr|]. apply Hs. lia.
Defined.

Lemma circuit_sound_witness :
  200 <= fr (nth 0 ([fr 1000; 42] ++ bit_witness (fr (fr 1000 - fr 200))) 0) < 200 + 2 ^ 64.
Proof.
  apply (circuit_sound params (commit params 1000 42) 200 ([fr 1000; 42] ++ bit_witness (fr (fr 1000 - fr 200)))).
  - unfold in_u64, U64_MAX. lia.
  - apply honest_satisfies; unfold in_u64, U64_MAX; lia.
Defined.
