(* ===== verification/Zkp.v ===== *)
(** * Proofs of funds and confidential transfers

    [protocol/src/zkp/prover.rs] and [protocol/src/zkp/verifier.rs] (the Groth16 halves of
    the balance statement), [protocol/src/transaction/confidential.rs] (transfers that
    embed a proof) and [protocol/src/ntp/proof_request.rs] (the receiver asks, the sender
    proves, the receiver checks); and the byte forms of parameters, commitments, proofs
    and verifying keys.  Groth16 and the canonical serialization of points, field elements,
    proofs and keys are third-party, the class [Groth16]: its laws are completeness, that
    a proof made from a satisfying assignment verifies, and that a reader takes back what
    was written and leaves the bytes after it. *)

From S2P Require Import Prelude Prime Bytes Crypto Transaction Circuit Ntp.

#[local] Open Scope Z_scope.

Class Groth16 (E : Curve) := {
  ProvingKey : Type;
  VerifyingKey : Type;
  ArkProof : Type;
  (** The last argument is the randomness drawn. *)
  groth16_setup : list Constraint -> Z -> ProvingKey * VerifyingKey;
  groth16_prove : ProvingKey -> list Z -> list Z -> Z -> res string ArkProof;
  groth16_verify : VerifyingKey -> list Z -> ArkProof -> res string bool;
  (** [CanonicalSerialize] writes, [CanonicalDeserialize] reads from the front of the bytes. *)
  g1_serialize : G1 -> list Z;
  g1_read : list Z -> res string (G1 * list Z);
  fr_serialize : Z -> list Z;
  fr_read : list Z -> res string (Z * list Z);
  proof_serialize : ArkProof -> list Z;
  proof_read : list Z -> res string (ArkProof * list Z);
  vk_serialize : VerifyingKey -> list Z;
  vk_read : list Z -> res string (VerifyingKey * list Z)
}.

Class Groth16Laws {E : Curve} (G : Groth16 E) : Prop := {
  groth16_complete : forall cs seed inputs witness r,
    is_satisfied inputs witness cs = true ->
    exists proof, groth16_prove (groth16_setup cs seed).1 inputs witness r = Ok proof /\
      groth16_verify (groth16_setup cs seed).2 inputs proof = Ok true;
  g1_roundtrip : forall p rest, g1_read (g1_serialize p ++ rest) = Ok (p, rest);
  fr_roundtrip : forall x rest, fr_ok x -> fr_read (fr_serialize x ++ rest) = Ok (x, rest);
  proof_read_back : forall p rest, proof_read (proof_serialize p ++ rest) = Ok (p, rest);
  vk_read_back : forall vk rest, vk_read (vk_serialize vk ++ rest) = Ok (vk, rest)
}.

(** ** Bytes: [commitment.rs] and the derived serialization of its types *)

Section Bytes.
Context {E : Curve} {G : Groth16 E}.

(** [T::deserialize_compressed] on a slice: what follows the value is not looked at. *)
Definition deserialize_compressed {A} (read : list Z -> res string (A * list Z)) (data : list Z) : res string A :=
  r ← read data; Ok r.1.

(** The fields of a derived instance, in their order. *)
Definition commitment_to_bytes (self : Commitment) : list Z := g1_serialize (point self) ++ fr_serialize (scalar self).

Definition commitment_read (data : list Z) : res string (Commitment * list Z) :=
  p ← g1_read data;
  s ← fr_read p.2;
  Ok (mkCommitment p.1 s.1, s.2).

Definition commitment_from_bytes (data : list Z) : res string Commitment := deserialize_compressed commitment_read data.

Definition pedersen_to_bytes (self : PedersenParams) : list Z :=
  g1_serialize (pp_g self) ++ g1_serialize (pp_h self) ++ fr_serialize (g_scalar self) ++ fr_serialize (h_scalar self).

Definition pedersen_read (data : list Z) : res string (PedersenParams * list Z) :=
  g ← g1_read data;
  h ← g1_read g.2;
  gs ← fr_read h.2;
  hs ← fr_read gs.2;
  Ok (mkPedersen g.1 h.1 gs.1 hs.1, hs.2).

Definition pedersen_from_bytes (data : list Z) : res string PedersenParams := deserialize_compressed pedersen_read data.

(** [PedersenParams::setup], from what it draws. *)
Definition pedersen_setup (g h : G1) (gs hs : Z) : PedersenParams := mkPedersen g h (fr gs) (fr hs).
End Bytes.

(** Elements of the scalar field are kept reduced. *)
Definition commitment_reduced {E : Curve} (c : Commitment) : Prop := fr_ok (scalar c).
Definition params_reduced {E : Curve} (p : PedersenParams) : Prop := fr_ok (g_scalar p) /\ fr_ok (h_scalar p).

(** ** [prover.rs] *)

Section Prover.
Context {E : Curve} {G : Groth16 E}.

Record BalanceProver := mkBalanceProver { pr_pk : ProvingKey; pr_params : PedersenParams }.
Record BalanceVerifier := mkBalanceVerifier { ve_vk : VerifyingKey; ve_params : PedersenParams }.

(** The serialized proof. *)
Record BalanceProof := mkBalanceProof { bp_bytes : list Z }.

(** [setup], with the parameters and the randomness it draws. *)
Definition zkp_setup (params : PedersenParams) (seed : Z) : BalanceProver * BalanceVerifier :=
  let keys := groth16_setup (circuit_constraints params) seed in
  (mkBalanceProver keys.1 params, mkBalanceVerifier keys.2 params).

(** [context] replaces the text of an error. *)
Definition proof_failed : string := "Groth16 proof generation failed (witness likely unsatisfiable)".

(** Synthesis inside [Groth16::prove], then the proof of its assignments. *)
Definition prove (self : BalanceProver) (r balance blinding required_amount : Z)
    (params : PedersenParams) (commitment : Commitment) : res string BalanceProof :=
  let circuit := circuit_new params balance blinding commitment required_amount in
  match generate_constraints circuit (cs_new false) with
  | (Ok _, cs) =>
      proof ← map_err_res (fun _ => proof_failed)
        (groth16_prove (pr_pk self) (instance_assignment cs) (witness_assignment cs) r);
      Ok (mkBalanceProof (proof_serialize proof))
  | (Err _, _) => Err proof_failed
  | (Panic, _) => Panic
  end.

Definition proof_from_bytes (data : list Z) : res string BalanceProof :=
  _ ← map_err_res (fun _ => "invalid Groth16 proof bytes"%string) (deserialize_compressed proof_read data);
  Ok (mkBalanceProof data).

Definition proof_to_bytes (self : BalanceProof) : list Z := bp_bytes self.

Definition to_ark_proof (self : BalanceProof) : res string ArkProof :=
  map_err_res (fun e => "proof deserialization failed: " +:+ e)%string (deserialize_compressed proof_read (bp_bytes self)).

Definition proof_size (self : BalanceProof) : nat := length (bp_bytes self).

(** ** [verifier.rs] *)

Definition zkp_verify (self : BalanceVerifier) (proof : BalanceProof) (commitment : Commitment)
    (required_amount : Z) : res string bool :=
  ark_proof ← map_err_res (fun _ => "failed to deserialize proof"%string) (to_ark_proof proof);
  map_err_res (fun _ => "Groth16 verification algorithm failed"%string)
    (groth16_verify (ve_vk self) (public_inputs commitment required_amount) ark_proof).

Definition vk_to_bytes (self : BalanceVerifier) : list Z := vk_serialize (ve_vk self).

Definition vk_from_bytes (data : list Z) (params : PedersenParams) : res string BalanceVerifier :=
  vk ← map_err_res (fun _ => "failed to deserialize verification key"%string) (deserialize_compressed vk_read data);
  Ok (mkBalanceVerifier vk params).
End Prover.

(** ** [confidential.rs] *)

Section Confidential.
Context {C : Crypto} {E : Curve} {G : Groth16 E}.

Definition create_confidential_transfer (now_ms r : Z) (sender receiver : string) (amount blinding : Z)
    (prover : BalanceProver) : res string Transaction :=
  let params := pr_params prover in
  let comm := commit params amount blinding in
  proof ← prove prover r amount blinding amount params comm;
  let b := mkBuilder 1 ConfidentialTransfer sender receiver (mkAmount amount NOVA) 0 1 None None in
  Ok (with_commitment (commitment_to_bytes comm) (with_proof (bp_bytes proof) (build now_ms b))).

Definition verify_confidential_proof (tx : Transaction) (verifier : BalanceVerifier) : res string bool :=
  proof_bytes ← ok_or (tx_proof tx) "transaction has no proof";
  commitment_bytes ← ok_or (tx_amount_commitment tx) "transaction has no amount commitment";
  proof ← proof_from_bytes proof_bytes;
  comm ← map_err_res (fun e => "commitment deserialization failed: " +:+ e)
           (commitment_from_bytes commitment_bytes);
  zkp_verify verifier proof comm (value (tx_amount tx)).
End Confidential.

(** ** [proof_request.rs] *)

Section ProofRequest.
Context {C : Crypto} {E : Curve} {G : Groth16 E}.

Record ProofOfFundsRequest := mkFundsRequest {
  fr_session_id : string;
  fr_required_amount : Z;
  fr_currency : Currency;
  challenge_nonce : list Z
}.

Record ProofOfFundsResponse := mkFundsResponse {
  fp_session_id : string;
  fp_zkp_proof : list Z;
  fp_commitment : list Z;
  fp_timestamp : Z
}.

(** [nonce] is what the random generator fills in. *)
Definition request_proof_of_funds (nonce : list Z) (session : EstablishedSession) (amount : Z)
    (c : Currency) : ProofOfFundsRequest :=
  mkFundsRequest (session_id session) amount c nonce.

(** [blinding] is the first draw of [ark_std::test_rng()], the same in every call. *)
Definition generate_proof_response (blinding r now_ms : Z) (request : ProofOfFundsRequest)
    (session : EstablishedSession) (balance : Z) (prover : BalanceProver) : res NtpError ProofOfFundsResponse :=
  ensure (bool_decide (fr_session_id request = session_id session))
    else (SessionMismatch (session_id session) (fr_session_id request));
  let params := pr_params prover in
  let comm := commit params balance blinding in
  proof ← map_err_res ProofVerificationFailed
    (prove prover r balance blinding (fr_required_amount request) params comm);
  Ok (mkFundsResponse (session_id session) (bp_bytes proof) (commitment_to_bytes comm) now_ms).

Definition verify_proof_of_funds (response : ProofOfFundsResponse) (required_amount : Z)
    (verifier : BalanceVerifier) : res NtpError bool :=
  comm ← map_err_res (fun e => ProofVerificationFailed ("bad commitment: " +:+ e))
           (commitment_from_bytes (fp_commitment response));
  proof ← map_err_res (fun e => ProofVerificationFailed ("bad proof: " +:+ e))
            (proof_from_bytes (fp_zkp_proof response));
  map_err_res ProofVerificationFailed (zkp_verify verifier proof comm required_amount).
End ProofRequest.

(** ** Reading back *)

Section ReadBack.
Context {C : Crypto} {E : Curve} {G : Groth16 E} {GL : Groth16Laws G}.

Lemma commitment_read_back c rest :
  commitment_reduced c -> commitment_from_bytes (commitment_to_bytes c ++ rest) = Ok c.
Proof.
  intros Hc. unfold commitment_from_bytes, deserialize_compressed, commitment_read, commitment_to_bytes.
  rewrite <- app_assoc, g1_roundtrip. cbn [mbind res_bind fst snd]. rewrite fr_roundtrip by done. by destruct c.
Qed.

Lemma commitment_roundtrip c : commitment_reduced c -> commitment_from_bytes (commitment_to_bytes c) = Ok c.
Proof. intros Hc. rewrite <- (app_nil_r (commitment_to_bytes c)). by apply commitment_read_back. Qed.

Lemma commit_reduced params v r : commitment_reduced (commit params v r).
Proof. apply fr_range. Qed.

Lemma pedersen_read_back p rest :
  params_reduced p -> pedersen_from_bytes (pedersen_to_bytes p ++ rest) = Ok p.
Proof.
  intros [Hg Hh]. unfold pedersen_from_bytes, deserialize_compressed, pedersen_read, pedersen_to_bytes.
  rewrite <- !app_assoc, g1_roundtrip. cbn [mbind res_bind fst snd]. rewrite g1_roundtrip. cbn [mbind res_bind fst snd].
  rewrite fr_roundtrip by done. cbn [mbind res_bind fst snd]. rewrite fr_roundtrip by done. by destruct p.
Qed.

Lemma proof_read_front p rest : deserialize_compressed proof_read (proof_serialize p ++ rest) = Ok p.
Proof. unfold deserialize_compressed. by rewrite proof_read_back. Qed.

Lemma proof_roundtrip p : deserialize_compressed proof_read (proof_serialize p) = Ok p.
Proof. rewrite <- (app_nil_r (proof_serialize p)). apply proof_read_front. Qed.

(** A verifier rebuilt from the bytes of its key decides every proof like the original,
    whatever parameters it is given and whatever follows the key; parameters and
    commitments survive their byte form. *)
Theorem verifier_from_bytes (verifier : BalanceVerifier) params' rest p c :
  params_reduced p -> commitment_reduced c ->
  pedersen_from_bytes (pedersen_to_bytes p) = Ok p /\ commitment_from_bytes (commitment_to_bytes c) = Ok c /\
  exists v', vk_from_bytes (vk_to_bytes verifier ++ rest) params' = Ok v' /\ vk_to_bytes v' = vk_to_bytes verifier /\
    forall proof commitment required, zkp_verify v' proof commitment required = zkp_verify verifier proof commitment required.
Proof.
  intros Hp Hc. split; [rewrite <- (app_nil_r (pedersen_to_bytes p)); by apply pedersen_read_back|].
  split; [by apply commitment_roundtrip|]. exists (mkBalanceVerifier (ve_vk verifier) params'). split; [|by split].
  unfold vk_from_bytes, vk_to_bytes, deserialize_compressed. by rewrite vk_read_back.
Qed.

(** Bytes after a proof are not looked at: a confidential transfer whose proof and
    commitment are followed by anything is accepted like the original. *)
Theorem trailing_proof_bytes_accepted tx p c rest rest' (verifier : BalanceVerifier) :
  tx_proof tx = Some (proof_serialize p) -> tx_amount_commitment tx = Some (commitment_to_bytes c) -> commitment_reduced c ->
  verify_confidential_proof (with_commitment (commitment_to_bytes c ++ rest') (with_proof (proof_serialize p ++ rest) tx)) verifier =
  verify_confidential_proof tx verifier.
Proof.
  intros Hp Hc Hred. unfold verify_confidential_proof. cbn [with_commitment with_proof set_id tx_proof tx_amount_commitment tx_amount].
  rewrite Hp, Hc. cbn [ok_or mbind res_bind]. unfold proof_from_bytes, zkp_verify, to_ark_proof. cbn [bp_bytes].
  rewrite (proof_read_front p rest), (proof_roundtrip p). cbn [map_err_res mbind res_bind bp_bytes].
  rewrite (commitment_read_back c rest' Hred), (commitment_roundtrip c Hred). cbn [map_err_res mbind res_bind bp_bytes].
  by rewrite (proof_read_front p rest), (proof_roundtrip p).
Qed.
End ReadBack.

(** ** What a verified proof establishes *)

Section Funds.
Context {C : Crypto} {E : Curve} {G : Groth16 E} {GL : Groth16Laws G}.
Context (params : PedersenParams) (seed : Z).

Let prover := (zkp_setup params seed).1.
Let verifier := (zkp_setup params seed).2.

Lemma prove_ok r balance blinding required :
  in_u64 balance -> in_u64 required -> required <= balance ->
  exists p, prove prover r balance blinding required params (commit params balance blinding) =
      Ok (mkBalanceProof (proof_serialize p)) /\
    groth16_verify (ve_vk verifier) (public_inputs (commit params balance blinding) required) p = Ok true.
Proof.
  intros Hb Hr Hle. apply (honest_satisfies params balance blinding required Hb Hr) in Hle.
  destruct (groth16_complete (circuit_constraints params) seed _ _ r Hle) as (p & Hp & Hv).
  exists p. split; [|exact Hv]. unfold prove. rewrite circuit_topology.
  cbn [instance_assignment witness_assignment]. unfold prover, zkp_setup. cbn [fst pr_pk].
  by rewrite Hp.
Qed.

Lemma zkp_verify_serialized p comm required :
  groth16_verify (ve_vk verifier) (public_inputs comm required) p = Ok true ->
  zkp_verify verifier (mkBalanceProof (proof_serialize p)) comm required = Ok true.
Proof.
  intros Hv. unfold zkp_verify, to_ark_proof. cbn [bp_bytes]. rewrite proof_roundtrip.
  cbn [map_err_res mbind res_bind]. by rewrite Hv.
Qed.

Lemma verify_response sid ts p comm required :
  commitment_reduced comm ->
  groth16_verify (ve_vk verifier) (public_inputs comm required) p = Ok true ->
  verify_proof_of_funds (mkFundsResponse sid (proof_serialize p) (commitment_to_bytes comm) ts)
    required verifier = Ok true.
Proof.
  intros Hc Hv. unfold verify_proof_of_funds, proof_from_bytes. cbn [fp_commitment fp_zkp_proof].
  rewrite commitment_roundtrip, proof_roundtrip by done. cbn [map_err_res mbind res_bind].
  by rewrite zkp_verify_serialized.
Qed.

Lemma verify_confidential_embedded tx p comm :
  commitment_reduced comm ->
  tx_proof tx = Some (proof_serialize p) -> tx_amount_commitment tx = Some (commitment_to_bytes comm) ->
  groth16_verify (ve_vk verifier) (public_inputs comm (value (tx_amount tx))) p = Ok true ->
  verify_confidential_proof tx verifier = Ok true.
Proof.
  intros Hr Hp Hc Hv. unfold verify_confidential_proof, proof_from_bytes. rewrite Hp, Hc.
  cbn [ok_or mbind res_bind]. rewrite (proof_roundtrip p), (commitment_roundtrip comm Hr).
  cbn [map_err_res mbind res_bind]. by apply zkp_verify_serialized.
Qed.

(** A sender whose balance covers the request answers it, and the receiver accepts the
    answer; a request of another session is refused. *)
Theorem proof_of_funds_complete nonce c blinding r now_ms session request balance :
  in_u64 balance -> in_u64 (fr_required_amount request) -> fr_required_amount request <= balance ->
  (request = request_proof_of_funds nonce session (fr_required_amount request) c ->
   exists response, generate_proof_response blinding r now_ms request session balance prover = Ok response /\
     fp_session_id response = session_id session /\
     verify_proof_of_funds response (fr_required_amount request) verifier = Ok true) /\
  (fr_session_id request <> session_id session ->
   generate_proof_response blinding r now_ms request session balance prover =
     Err (SessionMismatch (session_id session) (fr_session_id request))).
Proof.
  intros Hb Hr Hle. unfold generate_proof_response. split.
  - intros ->. rewrite bool_decide_true by done. cbn [fr_required_amount request_proof_of_funds] in *.
    change (pr_params prover) with params.
    destruct (prove_ok r balance blinding (fr_required_amount request) Hb Hr Hle) as (p & -> & Hv).
    eexists. split; [reflexivity|]. split; [done|]. apply verify_response; [apply commit_reduced|exact Hv].
  - intros Hs. by rewrite bool_decide_false.
Qed.

(** C40. A proof of funds proves nothing about funds, as long as the second generator is not
    zero: for every commitment with a reduced scalar, whatever it was made for, and every amount, anybody with the proving key makes a response that the
    verifier accepts, for any session and at any time.  The blinding that opens the
    commitment to the amount is computed by one division in the field. *)
Theorem funds_proof_forgeable comm required r sid ts :
  ~ h_scalar params =r= 0 -> commitment_reduced comm -> in_u64 required ->
  exists k proof, h_scalar params * k =r= 1 /\
    groth16_prove (pr_pk prover) (public_inputs comm required)
      (forged_witness params comm required k) r = Ok proof /\
    verify_proof_of_funds (mkFundsResponse sid (proof_serialize proof) (commitment_to_bytes comm) ts)
      required verifier = Ok true.
Proof.
  intros Hh Hc Hr. destruct (fr_inverse _ Hh) as (k & _ & Hk).
  pose proof (forged_satisfies params comm required k Hr Hk) as Hs.
  destruct (groth16_complete (circuit_constraints params) seed _ _ r Hs) as (p & Hp & Hv).
  exists k, p. split; [done|]. split; [exact Hp|]. by apply verify_response.
Qed.

(** A confidential transfer: created for any amount, whatever the sender owns, it
    carries a proof and a commitment that verify; and its public amount field is the
    amount that the commitment is supposed to hide. *)
Theorem confidential_amount_public now_ms r sender receiver amount blinding :
  in_u64 amount ->
  exists tx, create_confidential_transfer now_ms r sender receiver amount blinding prover = Ok tx /\
    verify_confidential_proof tx verifier = Ok true /\
    tx_type tx = ConfidentialTransfer /\ tx_amount tx = mkAmount amount NOVA /\
    tx_amount_commitment tx = Some (commitment_to_bytes (commit params amount blinding)).
Proof.
  intros Ha. destruct (prove_ok r amount blinding amount Ha Ha ltac:(lia)) as (p & Hp & Hv).
  unfold create_confidential_transfer. change (pr_params prover) with params. rewrite Hp.
  eexists. split; [reflexivity|]. split; [|split; [reflexivity|split; reflexivity]].
  apply (verify_confidential_embedded _ p (commit params amount blinding)); [apply commit_reduced|reflexivity..|exact Hv].
Qed.
End Funds.

(** ** Witnesses: the assignment itself as a proof *)

Module ZkpExamples.
Import CircuitExamples.

(** A list after its length. *)
Definition with_length (w : list Z) : list Z := Z.of_nat (length w) :: w.

Definition read_length (l : list Z) : res string (list Z * list Z) :=
  match l with
  | n :: rest =>
      if bool_decide (Z.to_nat n <= length rest)%nat then Ok (take (Z.to_nat n) rest, drop (Z.to_nat n) rest) else Err "eof"%string
  | [] => Err "eof"%string
  end.

#[local] Instance R1csVariable_eq_dec : EqDecision R1csVariable.
Proof. solve_decision. Defined.

#[local] Instance R1csVariable_countable : Countable R1csVariable.
Proof.
  refine (inj_countable' (fun v => match v with VOne => (0%nat, 0%nat) | VInput i => (1%nat, i) | VWitness i => (2%nat, i) end)
    (fun p => match p with (0%nat, _) => VOne | (1%nat, i) => VInput i | (_, i) => VWitness i end) _). by intros [].
Defined.

#[local] Instance Constraint_eq_dec : EqDecision Constraint.
Proof. solve_decision. Defined.

#[local] Instance Constraint_countable : Countable Constraint.
Proof.
  refine (inj_countable' (fun c => (lc_a c, lc_b c, lc_c c)) (fun '(a, b, c) => mkConstraint a b c) _). by intros [].
Defined.

Definition toy_groth16 : Groth16 toy_curve := {|
  ProvingKey := list Constraint;
  VerifyingKey := list Constraint;
  ArkProof := list Z;
  groth16_setup := fun cs _ => (cs, cs);
  groth16_prove := fun cs inputs w _ => if is_satisfied inputs w cs then Ok w else Panic;
  groth16_verify := fun cs inputs w => Ok (is_satisfied inputs w cs);
  g1_serialize := fun p => [p];
  g1_read := fun l => match l with p :: rest => Ok (p, rest) | [] => Err "eof"%string end;
  fr_serialize := fun x => [x];
  fr_read := fun l => match l with x :: rest => Ok (x, rest) | [] => Err "eof"%string end;
  proof_serialize := with_length;
  proof_read := read_length;
  vk_serialize := fun vk => [Zpos (encode vk)];
  vk_read := fun l =>
    match l with
    | Zpos p :: rest => match decode p with Some vk => Ok (vk, rest) | None => Err "bad key"%string end
    | _ => Err "eof"%string
    end
|}.

Lemma toy_groth16_laws : Groth16Laws toy_groth16.
Proof.
  split; simpl; [|done|done| |].
  - intros cs _ inputs w _ Hs. exists w. by rewrite Hs.
  - intros w rest. unfold with_length, read_length. cbn [app]. rewrite Nat2Z.id, length_app, bool_decide_true by lia.
    by rewrite take_app_length, drop_app_length.
  - intros vk rest. by rewrite decode_encode.
Qed.

#[export] Existing Instances toy_crypto toy_groth16 toy_groth16_laws.

Definition session : EstablishedSession :=
  mkSession "s1" [] "payer" (public_key (mkKeypair 1)) (mkParams 50 NOVA "coffee") "payee"
    (public_key (mkKeypair 2)).

Definition request : ProofOfFundsRequest := request_proof_of_funds [9] session 200 NOVA.

(** A commitment to an empty account. *)
Definition broke : Commitment := commit params 0 42.

Lemma params_h : ~ h_scalar params =r= 0.
Proof. intros H. vm_compute in H. discriminate H. Qed.
End ZkpExamples.

Import CircuitExamples ZkpExamples.

Lemma proof_of_funds_complete_witness :
  exists response, generate_proof_response 42 0 0 request session 1000 (zkp_setup params 1).1 = Ok response /\
    verify_proof_of_funds response 200 (zkp_setup params 1).2 = Ok true.
Proof.
  destruct (proof_of_funds_complete params 1 [9] NOVA 42 0 0 session request 1000) as [H _];
    [unfold in_u64, U64_MAX; simpl; lia..|].
  destruct (H eq_refl) as (response & Hg & _ & Hv). exists response. split; [exact Hg|exact Hv].
Defined.

Lemma funds_proof_forgeable_witness :
  exists proof, verify_proof_of_funds
    (mkFundsResponse "any" proof (commitment_to_bytes broke) 0) 1000000 (zkp_setup params 1).2 = Ok true.
Proof.
  destruct (funds_proof_forgeable params 1 broke 1000000 0 "any" 0) as (k & proof & _ & _ & Hv);
    [exact params_h|apply commit_reduced|unfold in_u64, U64_MAX; lia|]. exists (proof_serialize proof). exact Hv.
Defined.

Lemma confidential_amount_public_witness :
  exists tx, create_confidential_transfer 0 0 "alice" "bob" 500 42 (zkp_setup params 1).1 = Ok tx /\
    verify_confidential_proof tx (zkp_setup params 1).2 = Ok true /\ tx_amount tx = mkAmount 500 NOVA.
Proof.
  destruct (confidential_amount_public params 1 0 0 "alice" "bob" 500 42) as (tx & Hc & Hv & _ & Ha & _);
    [unfold in_u64, U64_MAX; lia|]. exists tx. split; [exact Hc|]. split; [exact Hv|exact Ha].
Defined.

Lemma params_are_reduced : params_reduced params.
Proof. split; unfold fr_ok, FR_MODULUS; cbn; lia. Qed.

Lemma verifier_from_bytes_witness :
  pedersen_from_bytes (pedersen_to_bytes params) = Ok params /\
  exists v', vk_from_bytes (vk_to_bytes (zkp_setup params 1).2 ++ [1; 2; 3]) params = Ok v' /\
    forall proof, zkp_verify v' proof broke 200 = zkp_verify (zkp_setup params 1).2 proof broke 200.
Proof.
  destruct (verifier_from_bytes (zkp_setup params 1).2 params [1; 2; 3] params broke params_are_reduced (commit_reduced _ _ _))
    as (Hp & _ & v' & Hv & _ & Hsame).
  split; [exact Hp|]. exists v'. split; [exact Hv|]. intros proof. apply Hsame.
Defined.

Lemma trailing_proof_bytes_accepted_witness :
  let tx := with_commitment (commitment_to_bytes broke) (with_proof (proof_serialize (Groth16 := toy_groth16) [5]) (build 0 (mkBuilder 1 ConfidentialTransfer "a" "b" (mkAmount 1 NOVA) 0 1 None None))) in
  verify_confidential_proof (with_commitment (commitment_to_bytes broke ++ [8]) (with_proof (proof_serialize (Groth16 := toy_groth16) [5] ++ [9; 9]) tx)) (zkp_setup params 1).2 =
  verify_confidential_proof tx (zkp_setup params 1).2.
Proof.
  intros tx. apply (trailing_proof_bytes_accepted (G := toy_groth16) tx [5] broke [9; 9] [8] (zkp_setup params 1).2 eq_refl eq_refl).
  apply commit_reduced.
Defined.
