(* ===== verification/Demo.v ===== *)
(** * The lifecycle demonstration

    [protocol/examples/demo.rs]: identities, genesis funding, two payments in two blocks,
    state proofs, the stored chain, a confidential transfer.  The program is modelled with
    every call it makes on the library, its assertions, [unwrap]s and string slices, each
    of which panics when it fails; printing is not, except for the balances of its tables,
    which the model returns.  Generated keys, clock readings and random draws are
    arguments.  [demo_completes] says that the program runs to its end and what it prints. *)

From S2P Require Import Prelude Prime Bytes Crypto Transaction Block Sled StateTree StateTreeBits.
From S2P Require Import StateTreeSpec StateTreeProofs StateTransfer Db Mempool Consensus Producer Sync Boot Replica Identity Circuit Zkp.

#[local] Open Scope Z_scope.
#[local] Opaque tree_put tree_get H compute_default_hashes apply_transfer.

(** What the program relies on when it cuts texts: the lengths of a SHA-256 digest, of
    hexadecimal text, and (BIP-173) of a Bech32 string of 32 bytes. *)
Class TextLaws (C : Crypto) : Prop := {
  sha2_256_length : forall m, length (sha2_256 m) = 32%nat;
  hex_encode_length : forall l, String.length (hex_encode l) = (2 * length l)%nat;
  bech32_encode_length : forall hrp l, length l = 32%nat -> (String.length hrp + 59 <= String.length (bech32_encode hrp l))%nat
}.

Record DemoKeys {C : Crypto} := mkDemoKeys {
  alice_kp : NovaKeypair;
  bob_kp : NovaKeypair;
  merchant_kp : NovaKeypair;
  validator_kp : NovaKeypair
}.

(** Clock readings of one payment: the builder's, the verifier's, the mempool's (seconds)
    and the block's. *)
Record PaymentTimes := mkTimes { t_built : Z; t_verified : Z; t_added : Z; t_block : Z }.

Definition Table : Type := list (string * Z).

Section Demo.
Context {C : Crypto} {K : AccountCodec} {SC : StorageCodec} {T : TxCodec} {Tr : Type} `{Sd : Sled Tr}.
Context {Cv : Curve} {G : Groth16 Cv}.

(** [unwrap]/[expect] on a result, and [assert!]. *)
Definition unwrap_res {E F A} (r : res E A) : res F A := match r with Ok a => Ok a | _ => Panic end.

Definition unwrap {S E F A} (m : M S E A) : M S F A := fun s => let '(r, s') := m s in (unwrap_res r, s').

Definition check {E} (b : bool) : res E unit := if b then Ok tt else Panic.

(** [&s[..n]] of ASCII text. *)
Definition slice_to {E} (n : nat) (s : string) : res E string :=
  if (n <=? String.length s)%nat then Ok (String.substring 0 n s) else Panic.

(** The shortened address that is printed. *)
Definition address_display {E} (addr : string) : res E string :=
  prefix ← slice_to 5 addr;
  let from := (String.length addr - 8)%nat in
  Ok (prefix +:+ "..." +:+ String.substring from (String.length addr - from) addr)%string.

Definition seed_balance {E} (address : string) (b : Z) : M (Node Tr) E unit :=
  zoom nd_tree set_nd_tree (tree_put address (with_balance b)).

Definition build_signed_transfer (now_ms : Z) (sender_kp : NovaKeypair) (sender_addr receiver_addr : string)
    (amount fee nonce : Z) : Transaction :=
  let tx := build now_ms (with_nonce nonce (with_fee fee (with_amount (mkAmount amount NOVA)
    (with_receiver receiver_addr (with_sender sender_addr (builder_new Transfer)))))) in
  sign_transaction sender_kp tx.

(** [tree.get(addr).unwrap()], for the rows of a table. *)
Fixpoint balance_rows {E} (t : StateTree Tr) (rows : list (string * string)) : res E Table :=
  match rows with
  | [] => Ok []
  | (name, addr) :: rest =>
      st ← expect (tree_get addr t);
      table ← balance_rows t rest;
      Ok ((name, balance st) :: table)
  end.

Definition demo_address (kp : NovaKeypair) : string := to_address (from_public_key (public_key kp)).

(** Step 1. *)
Definition demo_identities {E} (k : DemoKeys) : res E unit :=
  let alice_id := from_public_key (public_key (alice_kp k)) in
  _ ← address_display (demo_address (alice_kp k));
  _ ← address_display (demo_address (bob_kp k));
  _ ← address_display (demo_address (merchant_kp k));
  alice_recovered ← unwrap_res (from_address (demo_address (alice_kp k)));
  check (nova_id_eqb alice_id alice_recovered).

(** Step 2: the producer's parts; the demo has no consensus engine, the last field is idle. *)
Definition demo_node : Node Tr :=
  mkNode open_temporary (state_tree_new sled_new) (mempool_new default_mempool_config)
    (engine_new default_consensus_config validator_set_new).

(** Step 3. *)
Definition demo_fund {E} (addr : string) : M (Node Tr) E Table :=
  _ ← seed_balance addr 1000000;
  n ← get;
  _ ← lift (slice_to 16 (hex_encode (root (nd_tree n))));
  mret [("Alice", 1000000); ("Bob", 0); ("Merchant", 0)]%string.

(** Producing and committing the next block: [all_ok] is the assertion on the results
    that only the first payment makes. *)
Definition demo_block {E} (now_ms : Z) (kp : NovaKeypair) (parent : Block) (all_ok : bool) : M (Node Tr) E Block :=
  produced ← unwrap (produce_block now_ms kp parent 100);
  _ ← lift (check (length (transactions (pb_block produced)) =? 1)%nat);
  _ ← lift (check (negb all_ok || forallb tr_success (pb_tx_results produced)));
  _ ← unwrap (commit_block (pb_block produced));
  _ ← lift (slice_to 16 (hex_encode (hash (header (pb_block produced)))));
  mret (pb_block produced).

(** Step 4. *)
Definition demo_first_payment {E} (k : DemoKeys) (t : PaymentTimes) (genesis : Block)
    : M (Node Tr) E (Transaction * Block * Table) :=
  let alice := demo_address (alice_kp k) in
  let bob := demo_address (bob_kp k) in
  let tx1 := build_signed_transfer (t_built t) (alice_kp k) alice bob 250000 100 1 in
  _ ← lift (slice_to 16 (tx_id tx1));
  signature ← lift (expect (tx_signature tx1));
  _ ← lift (slice_to 32 signature);
  _ ← lift (unwrap_res (verify_transaction (t_verified t) tx1));
  _ ← unwrap (zoom nd_pool set_nd_pool (pool_add (t_added t) tx1));
  block ← demo_block (t_block t) (validator_kp k) genesis true;
  _ ← lift (slice_to 16 (hex_encode (state_root (header block))));
  n ← get;
  rows ← lift (balance_rows (nd_tree n) [("Alice", alice); ("Bob", bob)]%string);
  mret (tx1, block, rows ++ [("Merchant"%string, 0)]).

(** Step 5. *)
Definition demo_second_payment {E} (k : DemoKeys) (t : PaymentTimes) (parent : Block)
    : M (Node Tr) E (Transaction * Block * Table) :=
  let alice := demo_address (alice_kp k) in
  let bob := demo_address (bob_kp k) in
  let merchant := demo_address (merchant_kp k) in
  let tx2 := build_signed_transfer (t_built t) (bob_kp k) bob merchant 100000 150 1 in
  _ ← lift (unwrap_res (verify_transaction (t_verified t) tx2));
  _ ← lift (slice_to 16 (tx_id tx2));
  _ ← unwrap (zoom nd_pool set_nd_pool (pool_add (t_added t) tx2));
  block ← demo_block (t_block t) (validator_kp k) parent false;
  n ← get;
  rows ← lift (balance_rows (nd_tree n) [("Alice", alice); ("Bob", bob); ("Merchant", merchant)]%string);
  mret (tx2, block, rows).

(** Step 6: an inclusion proof of each account against the current root. *)
Fixpoint demo_proofs {E} (t : StateTree Tr) (addresses : list string) : res E unit :=
  match addresses with
  | [] => Ok tt
  | addr :: rest =>
      st ← expect (tree_get addr t);
      _ ← check (verify_proof (root t) addr (Some st) (get_proof addr t));
      demo_proofs t rest
  end.

(** Step 7: the loop [for i in 1..chain.len()], [prev] being [chain[i - 1]]. *)
Fixpoint demo_links {E} (prev : Block) (chain : list Block) : res E unit :=
  match chain with
  | [] => Ok tt
  | b :: rest =>
      _ ← check (bool_decide (parent_hash (header b) = hash (header prev)));
      _ ← unwrap_res (block_verify b);
      demo_links b rest
  end.

Definition demo_chain {E} (tx1 tx2 : Transaction) (d : NovaDB Tr) : res E unit :=
  chain ← unwrap_res (get_block_range 0 2 d);
  _ ← check (length chain =? 3)%nat;
  _ ← match chain with [] => Ok tt | b :: rest => demo_links b rest end;
  stored_tx1 ← unwrap_res (get_transaction (tx_id tx1) d);
  stored_tx2 ← unwrap_res (get_transaction (tx_id tx2) d);
  _ ← check (bool_decide (is_Some stored_tx1));
  check (bool_decide (is_Some stored_tx2)).

(** Step 8, with the parameters and the draws of the seeded generator. *)
Definition run_confidential_transfer_demo {E} (params : PedersenParams) (seed blinding r now_ms : Z)
    (sender_addr receiver_addr : string) : res E unit :=
  let keys := zkp_setup params seed in
  tx ← unwrap_res (create_confidential_transfer now_ms r sender_addr receiver_addr 500 blinding keys.1);
  proof_bytes ← expect (tx_proof tx);
  commitment_bytes ← expect (tx_amount_commitment tx);
  _ ← slice_to 16 (tx_id tx);
  valid ← unwrap_res (verify_confidential_proof tx keys.2);
  check valid.

(** The final table and the sum printed under it. *)
Definition demo_summary {E} (k : DemoKeys) (t : StateTree Tr) : res E (Table * Z) :=
  rows ← balance_rows t [("Alice", demo_address (alice_kp k)); ("Bob", demo_address (bob_kp k));
    ("Merchant", demo_address (merchant_kp k))]%string;
  total ← fold_left (fun acc row => a ← acc; expect (checked_add a row.2)) rows (Ok 0);
  Ok (rows, total).

(** The whole program: its tables and the printed sum. *)
Definition demo {E} (k : DemoKeys) (t1 t2 : PaymentTimes) (params : PedersenParams) (seed blinding r now_ms : Z)
    : M (Node Tr) E (list Table * Z) :=
  _ ← lift (demo_identities k);
  _ ← put demo_node;
  _ ← unwrap (zoom nd_db set_nd_db (put_block genesis));
  table0 ← demo_fund (demo_address (alice_kp k));
  pay1 ← demo_first_payment k t1 genesis;
  pay2 ← demo_second_payment k t2 pay1.1.2;
  n ← get;
  _ ← lift (demo_proofs (nd_tree n) [demo_address (alice_kp k); demo_address (bob_kp k); demo_address (merchant_kp k)]);
  _ ← lift (demo_chain pay1.1.1 pay2.1.1 (nd_db n));
  _ ← lift (run_confidential_transfer_demo params seed blinding r now_ms
        (demo_address (alice_kp k)) (demo_address (bob_kp k)));
  summary ← lift (demo_summary k (nd_tree n));
  mret ([table0; pay1.2; pay2.2; summary.1], summary.2).
End Demo.

(** ** The program runs to its end *)

Section DemoProofs.
Context {C : Crypto} {L : CryptoLaws C} {TL : TextLaws C} {K : AccountCodec} {KL : AccountCodecLaws K}.
Context {SC : StorageCodec} {SCL : StorageCodecLaws SC} {T : TxCodec}.
Context {Tr : Type} `{Sd : Sled Tr} {SL : SledLaws Tr} {SH : SledHealthy Tr}.
Context {Cv : Curve} {G : Groth16 Cv} {GL : Groth16Laws G}.

Lemma slice_to_ok {E} n s : (n <= String.length s)%nat -> slice_to (E := E) n s = Ok (String.substring 0 n s).
Proof. intros Hn. unfold slice_to. by rewrite (proj2 (Nat.leb_le _ _)). Qed.

Lemma slice_hex {E} n l : length l = 32%nat -> (n <= 64)%nat ->
  slice_to (E := E) n (hex_encode l) = Ok (String.substring 0 n (hex_encode l)).
Proof. intros Hl Hn. apply slice_to_ok. rewrite hex_encode_length. lia. Qed.

Lemma slice_tx_id {E} now_ms b : exists s, slice_to (E := E) 16 (tx_id (build now_ms b)) = Ok s.
Proof.
  eexists. apply slice_hex; [|lia]. unfold double_sha256, sha256. apply sha2_256_length.
Qed.

Lemma demo_identities_ok {E} k : demo_identities (E := E) k = Ok tt.
Proof.
  assert (forall kp, exists s, address_display (E := E) (demo_address kp) = Ok s) as Hd.
  { intros kp. unfold address_display. rewrite slice_to_ok; [by eexists|].
    pose proof (bech32_encode_length NOVA_HRP _ (blake3_length (pk_bytes (public_key kp)))). unfold demo_address, to_address.
    cbn [from_public_key key_hash]. lia. }
  unfold demo_identities. destruct (Hd (alice_kp k)) as [? ->]. destruct (Hd (bob_kp k)) as [? ->].
  destruct (Hd (merchant_kp k)) as [? ->]. unfold demo_address. rewrite address_roundtrip.
  unfold nova_id_eqb. cbn. by rewrite bool_decide_true.
Qed.

Lemma tree_root_length (s : StateTree Tr) A : tree_inv s A -> length (root s) = 32%nat.
Proof. intros [_ Hr]. unfold root. rewrite Hr. apply H_length. Qed.

(** A node between two payments: an idle mempool, the accounts [A], the blocks [B]. *)
Record demo_inv (A : Accounts) (B : gmap Z Block) (n : Node Tr) : Prop := {
  dm_tree : tree_inv (nd_tree n) A;
  dm_db : db_inv (nd_db n) B;
  dm_pool : pool_inv (nd_pool n);
  dm_idle : pool_txs (nd_pool n) = ∅;
  dm_config : config (nd_pool n) = default_mempool_config
}.

(** The transfer of an amount its sender has. *)
Definition paid (sk rk : list Z) (amount : Z) (A : Accounts) : Accounts :=
  <[rk := credit (account A rk) amount]> (<[sk := debit (account A sk) amount]> A).

Lemma exec_map_paid tx A :
  tx_type tx = Transfer -> address_to_key (tx_sender tx) <> address_to_key (tx_receiver tx) ->
  let s := account A (address_to_key (tx_sender tx)) in
  let r := account A (address_to_key (tx_receiver tx)) in
  frozen s = false -> value (tx_amount tx) <= balance s -> nonce s < U64_MAX ->
  balance r + value (tx_amount tx) <= U64_MAX ->
  exec_map tx A = (Ok tt, paid (address_to_key (tx_sender tx)) (address_to_key (tx_receiver tx)) (value (tx_amount tx)) A).
Proof.
  intros Ht Hne s r Hf Hb Hn Hr. unfold exec_map, transfer, paid. rewrite Ht. fold s.
  rewrite Hf, (proj2 (Z.ltb_ge _ _) Hb), (proj2 (Z.ltb_ge _ _)) by lia.
  rewrite account_insert, decide_False by done. fold r. by rewrite (proj2 (Z.ltb_ge _ _) Hr).
Qed.

(** A mempool that held nothing holds just the transaction that was added. *)
Lemma pool_add_only now tx p :
  pool_inv p -> pool_txs p = ∅ -> config p = default_mempool_config -> 0 <= tx_fee tx ->
  exists p', pool_add now tx p = (Ok tt, p') /\ pool_inv p' /\ select_transactions 100 p' = [tx] /\
    config p' = default_mempool_config /\ pool_txs (remove_batch [tx_id tx] p') = ∅.
Proof.
  intros Hp He Hc Hf. destruct (pool_add_idle now tx p 100) as (p' & Hadd & Hp' & Hsel & _);
    [done|done|rewrite ?Hc; cbn; lia..|].
  exists p'. split_and!; try done.
  - pose proof Hadd as Hx. unfold pool_add, pool_size in Hx. rewrite He, map_size_empty, Hc in Hx.
    change (max_size default_mempool_config <=? 0)%nat with false in Hx.
    repeat case_match; simplify_eq. cbn [config pool_insert]. done.
  - apply map_empty. intros id. rewrite remove_all_lookup. case_decide as Hid; [done|].
    pose proof (pool_add_spec now tx p Hp) as Hs. rewrite Hadd in Hs.
    assert (pool_get id p' = None) as Hg.
    { destruct Hs as [(_ & _ & _ & Hg)|(_ & Hsz & _)].
      - rewrite Hg, decide_False by set_solver. unfold pool_get. by rewrite He, lookup_empty.
      - unfold pool_size in Hsz. by rewrite He, Hc in Hsz. }
    unfold pool_get in Hg. by apply fmap_None in Hg.
Qed.

(** One payment on an idle node: the block carries it and nothing else. *)
Lemma demo_block_ok {E} now_ms kp parent all_ok tx (n : Node Tr) A B A' :
  tree_inv (nd_tree n) A -> db_inv (nd_db n) B -> pool_inv (nd_pool n) ->
  select_transactions 100 (nd_pool n) = [tx] -> pool_txs (remove_batch [tx_id tx] (nd_pool n)) = ∅ ->
  config (nd_pool n) = default_mempool_config -> exec_map tx A = (Ok tt, A') ->
  0 <= height (header parent) < U64_MAX ->
  exists b n', demo_block (E := E) now_ms kp parent all_ok n = (Ok b, n') /\
    produced_ok kp parent [tx] (root (nd_tree n')) b /\ demo_inv A' (<[height (header b) := b]> B) n' /\
    (forall id, get_transaction id (nd_db n') =
       if decide (tx_id tx = id) then Ok (Some tx) else get_transaction id (nd_db n)).
Proof.
  intros Ht HB Hp Hsel Hout Hcfg Hex Hh.
  destruct (execute_transaction_sim tx (nd_tree n) A Ht) as (t' & Hrun & Ht' & _). rewrite Hex in Hrun, Ht'.
  cbn [fst snd map_err_res] in Hrun, Ht'.
  destruct (block_new_signed (E := BlockProductionError) now_ms kp parent [tx] (root t') Hh) as (b & Hb & Hok).
  set (b' := mkBlock _ _) in Hok.
  assert (in_u64 (height (header b'))) as Hu by (rewrite (po_height _ _ _ _ _ Hok); unfold in_u64; lia).
  destruct (put_block_lookup b' (nd_db n) B HB Hu) as (d' & Hput & HB' & _ & _ & _ & Htx & _).
  pose proof (po_txs _ _ _ _ _ Hok) as Hl. rewrite Hl in Htx.
  assert (produce_block now_ms kp parent 100 n =
    (Ok (mkProduced b' [mkTxResult (tx_id tx) true None] (root t')), set_nd_tree t' n)) as Hprod.
  { unfold produce_block, zoom, lift, get, mbind, M_bind. rewrite Hsel. cbn [execute_candidates]. rewrite Hrun.
    cbn [app fst snd nd_tree set_nd_tree]. by rewrite Hb. }
  assert (commit_block b' (set_nd_tree t' n) =
    (Ok tt, mkNode d' t' (remove_batch [tx_id tx] (nd_pool n)) (nd_engine n))) as Hcommit.
  { unfold commit_block, zoom, modify, map_err, mbind, M_bind. cbn [nd_db set_nd_tree]. rewrite Hput, Hl. done. }
  assert (length (hash (header b')) = 32%nat) as Hhash.
  { pose proof (po_verify _ _ _ _ _ Hok) as Hv. unfold block_verify in Hv. case_bool_decide as Heq; [|done].
    rewrite Heq. apply blake3_length. }
  exists b', (mkNode d' t' (remove_batch [tx_id tx] (nd_pool n)) (nd_engine n)). split; [|split; [exact Hok|split; [split|]]].
  - unfold demo_block, unwrap, check, lift, mbind, M_bind. rewrite Hprod. cbn [unwrap_res pb_block pb_tx_results].
    rewrite Hl. cbn [length Nat.eqb forallb tr_success andb]. rewrite orb_true_r, Hcommit. cbn [unwrap_res].
    by rewrite slice_hex by (done || lia).
  - exact Ht'.
  - exact HB'.
  - by apply remove_all_inv.
  - exact Hout.
  - cbn [nd_pool]. by rewrite remove_batch_config.
  - intros id. cbn [nd_db]. rewrite Htx. unfold find_last_tx. cbn. case_decide; done.
Qed.

Lemma build_signed_ok now_ms seen kp receiver amount fee nonce :
  demo_address kp <> receiver -> amount <> 0 -> nonce <> 0 -> seen + 300000 <= U64_MAX -> now_ms <= seen + 300000 ->
  verify_transaction seen (build_signed_transfer now_ms kp (demo_address kp) receiver amount fee nonce) = Ok tt.
Proof. intros. by apply signed_build_ok. Qed.

(** Three parties with different account keys, and sane clocks. *)
Context (k : DemoKeys) (t1 t2 : PaymentTimes).
Let ka := address_to_key (demo_address (alice_kp k)).
Let kb := address_to_key (demo_address (bob_kp k)).
Let km := address_to_key (demo_address (merchant_kp k)).

Definition distinct_parties : Prop :=
  address_to_key (demo_address (alice_kp k)) <> address_to_key (demo_address (bob_kp k)) /\
  address_to_key (demo_address (bob_kp k)) <> address_to_key (demo_address (merchant_kp k)) /\
  address_to_key (demo_address (alice_kp k)) <> address_to_key (demo_address (merchant_kp k)).

Definition times_ok (t : PaymentTimes) : Prop :=
  t_verified t + 300000 <= U64_MAX /\ t_built t <= t_verified t + 300000.

Hypothesis Hdist : distinct_parties.
Hypothesis Ht1 : times_ok t1.
Hypothesis Ht2 : times_ok t2.

Let A0 : Accounts := <[ka := with_balance 1000000]> ∅.
Let A1 : Accounts := paid ka kb 250000 A0.
Let A2 : Accounts := paid kb km 100000 A1.

Lemma key_ne_address a b : address_to_key a <> address_to_key b -> a <> b.
Proof. congruence. Qed.

Lemma A0_alice : account A0 ka = with_balance 1000000.
Proof. unfold account, A0. by rewrite lookup_insert_eq. Qed.

Lemma A0_other x : x <> ka -> account A0 x = default_account.
Proof. intros Hx. unfold account, A0. by rewrite lookup_insert_ne, lookup_empty. Qed.

Lemma A1_lookup :
  A1 !! ka = Some (debit (with_balance 1000000) 250000) /\ A1 !! kb = Some (credit default_account 250000) /\
  A1 !! km = None.
Proof.
  destruct Hdist as (H1 & H2 & H3). fold ka kb km in H1, H2, H3. unfold A1, paid. rewrite A0_alice, A0_other by done.
  rewrite lookup_insert_ne, lookup_insert_eq, lookup_insert_eq by done.
  rewrite !lookup_insert_ne by done. unfold A0. by rewrite lookup_insert_ne, lookup_empty.
Qed.

Lemma A2_lookup :
  A2 !! ka = Some (debit (with_balance 1000000) 250000) /\
  A2 !! kb = Some (debit (credit default_account 250000) 100000) /\
  A2 !! km = Some (credit default_account 100000).
Proof.
  destruct Hdist as (H1 & H2 & H3). fold ka kb km in H1, H2, H3. destruct A1_lookup as (Ha & Hb & Hm).
  unfold A2, paid, account. rewrite Hb, Hm. cbn [default]. split_and!.
  - by rewrite !lookup_insert_ne by done.
  - by rewrite lookup_insert_ne, lookup_insert_eq by done.
  - by rewrite lookup_insert_eq.
Qed.

Lemma first_payment_ok {E} parent (n : Node Tr) B :
  demo_inv A0 B n -> 0 <= height (header parent) < U64_MAX ->
  exists tx b n', demo_first_payment (E := E) k t1 parent n =
      (Ok (tx, b, [("Alice", 750000); ("Bob", 250000); ("Merchant", 0)]%string), n') /\
    produced_ok (validator_kp k) parent [tx] (root (nd_tree n')) b /\
    demo_inv A1 (<[height (header b) := b]> B) n' /\
    (forall id, get_transaction id (nd_db n') =
       if decide (tx_id tx = id) then Ok (Some tx) else get_transaction id (nd_db n)).
Proof.
  intros [Ht HB Hp Hi Hc] Hh. destruct Hdist as (Hab & _). destruct Ht1 as [Hclk Hbld].
  unfold demo_first_payment. set (tx1 := build_signed_transfer _ _ _ _ _ _ _).
  destruct (pool_add_only (t_added t1) tx1 (nd_pool n) Hp Hi Hc) as (p' & Hadd & Hp' & Hsel & Hc' & Hout); [cbn; lia|].
  assert (exec_map tx1 A0 = (Ok tt, A1)) as Hex.
  { apply (exec_map_paid tx1 A0); [done|done| | | |]; change (tx_sender tx1) with (demo_address (alice_kp k));
      change (tx_receiver tx1) with (demo_address (bob_kp k)); fold ka kb; rewrite ?A0_alice, ?(A0_other kb) by exact (not_eq_sym Hab);
      cbn; unfold U64_MAX; lia || done. }
  destruct (demo_block_ok (E := E) (t_block t1) (validator_kp k) parent true tx1 (set_nd_pool p' n) A0 B A1 Ht HB Hp' Hsel
    Hout Hc' Hex Hh) as (b & n' & Hblk & Hok & Hinv & Htxs).
  exists tx1, b, n'. split; [|done].
  destruct (slice_tx_id (E := E) (t_built t1) (with_nonce 1 (with_fee 100 (with_amount (mkAmount 250000 NOVA)
    (with_receiver (demo_address (bob_kp k)) (with_sender (demo_address (alice_kp k)) (builder_new Transfer))))))) as [s Hs].
  change (tx_id (build _ _)) with (tx_id tx1) in Hs.
  unfold lift, zoom, unwrap, get, mbind, M_bind. rewrite Hs. cbn [expect tx_signature tx1 build_signed_transfer sign_transaction].
  fold tx1. unfold sig_to_hex. rewrite slice_to_ok by (rewrite hex_encode_length; cbn; rewrite dalek_sign_length; lia).
  unfold tx1 at 1. rewrite build_signed_ok; try done; [|by apply key_ne_address]. fold tx1. cbn [unwrap_res].
  rewrite Hadd. cbn [unwrap_res]. rewrite Hblk.
  rewrite (po_state_root _ _ _ _ _ Hok), slice_hex by (lia || by eapply tree_root_length, Hinv).
  cbn [balance_rows]. destruct A1_lookup as (Ha & Hb & _). rewrite !(tree_get_spec _ _ _ (dm_tree _ _ _ Hinv)).
  fold ka kb. rewrite Ha, Hb. done.
Qed.

Lemma second_payment_ok {E} parent (n : Node Tr) B :
  demo_inv A1 B n -> 0 <= height (header parent) < U64_MAX ->
  exists tx b n', demo_second_payment (E := E) k t2 parent n =
      (Ok (tx, b, [("Alice", 750000); ("Bob", 150000); ("Merchant", 100000)]%string), n') /\
    produced_ok (validator_kp k) parent [tx] (root (nd_tree n')) b /\
    demo_inv A2 (<[height (header b) := b]> B) n' /\
    (forall id, get_transaction id (nd_db n') =
       if decide (tx_id tx = id) then Ok (Some tx) else get_transaction id (nd_db n)).
Proof.
  intros [Ht HB Hp Hi Hc] Hh. destruct Hdist as (_ & Hbm & _). destruct Ht2 as [Hclk Hbld].
  destruct A1_lookup as (_ & HAb & HAm).
  unfold demo_second_payment. set (tx2 := build_signed_transfer _ _ _ _ _ _ _).
  destruct (pool_add_only (t_added t2) tx2 (nd_pool n) Hp Hi Hc) as (p' & Hadd & Hp' & Hsel & Hc' & Hout); [cbn; lia|].
  assert (exec_map tx2 A1 = (Ok tt, A2)) as Hex.
  { apply (exec_map_paid tx2 A1); [done|done| | | |]; change (tx_sender tx2) with (demo_address (bob_kp k));
      change (tx_receiver tx2) with (demo_address (merchant_kp k)); fold kb km; unfold account; rewrite ?HAb, ?HAm;
      cbn; unfold U64_MAX; lia || done. }
  destruct (demo_block_ok (E := E) (t_block t2) (validator_kp k) parent false tx2 (set_nd_pool p' n) A1 B A2 Ht HB Hp' Hsel
    Hout Hc' Hex Hh) as (b & n' & Hblk & Hok & Hinv & Htxs).
  exists tx2, b, n'. split; [|done].
  destruct (slice_tx_id (E := E) (t_built t2) (with_nonce 1 (with_fee 150 (with_amount (mkAmount 100000 NOVA)
    (with_receiver (demo_address (merchant_kp k)) (with_sender (demo_address (bob_kp k)) (builder_new Transfer))))))) as [s Hs].
  change (tx_id (build _ _)) with (tx_id tx2) in Hs.
  unfold lift, zoom, unwrap, get, mbind, M_bind.
  unfold tx2 at 1. rewrite build_signed_ok; try done; [|by apply key_ne_address]. fold tx2. cbn [unwrap_res].
  rewrite Hs, Hadd. cbn [unwrap_res]. rewrite Hblk.
  cbn [balance_rows]. destruct A2_lookup as (Ha & Hb & Hm). rewrite !(tree_get_spec _ _ _ (dm_tree _ _ _ Hinv)).
  fold ka kb km. rewrite Ha, Hb, Hm. done.
Qed.

(** The stored chain of the two payments. *)
Lemma demo_chain_ok {E} b1 b2 tx1 tx2 x1 x2 sr1 sr2 A (n : Node Tr) :
  demo_inv A (<[height (header b2) := b2]> (<[height (header b1) := b1]> (<[0 := genesis]> ∅))) n ->
  produced_ok (validator_kp k) genesis [tx1] sr1 b1 -> produced_ok (validator_kp k) b1 [tx2] sr2 b2 ->
  get_transaction (tx_id tx1) (nd_db n) = Ok (Some x1) -> get_transaction (tx_id tx2) (nd_db n) = Ok (Some x2) ->
  demo_chain (E := E) tx1 tx2 (nd_db n) = Ok tt.
Proof.
  intros Hi H1 H2 Hx1 Hx2. pose proof (po_height _ _ _ _ _ H1) as Hh1. pose proof (po_height _ _ _ _ _ H2) as Hh2.
  change (height (header genesis)) with 0 in Hh1. rewrite Hh1 in Hh2. cbn in Hh1, Hh2.
  destruct (get_block_range_complete 0 2 (nd_db n) _ (dm_db _ _ _ Hi)) as (l & Hl & Hs & Hel); [done..|].
  assert (l = [genesis; b1; b2]) as ->.
  { apply sorted_same_elements; [done| |].
    - change (height (header genesis)) with 0 in *.
      repeat constructor; change (height (header genesis)) with 0; lia.
    - intros b. rewrite Hel, Hh1, Hh2. split.
      + intros (h & _ & Hb). apply lookup_insert_Some in Hb as [[_ <-]|[_ Hb]]; [set_solver|].
        apply lookup_insert_Some in Hb as [[_ <-]|[_ Hb]]; [set_solver|].
        apply lookup_insert_Some in Hb as [[_ <-]|[_ Hb]]; [set_solver|by rewrite lookup_empty in Hb].
      + rewrite !elem_of_cons. intros [->|[->|[->|[]%not_elem_of_nil]]].
        * exists 0. split; [lia|]. by rewrite !lookup_insert_ne, lookup_insert_eq by done.
        * exists 1. split; [lia|]. by rewrite lookup_insert_ne, lookup_insert_eq by done.
        * exists 2. split; [lia|]. by rewrite lookup_insert_eq. }
  unfold demo_chain, unwrap_res. rewrite Hl, Hx1, Hx2. cbn [mbind res_bind length Nat.eqb check demo_links].
  rewrite (po_parent _ _ _ _ _ H1), (po_parent _ _ _ _ _ H2), !bool_decide_true by done. cbn [check mbind res_bind].
  unfold unwrap_res. by rewrite (po_verify _ _ _ _ _ H1), (po_verify _ _ _ _ _ H2).
Qed.

Lemma demo_proofs_ok {E} (t : StateTree Tr) A addresses :
  tree_inv t A -> Forall (fun a => is_Some (A !! address_to_key a)) addresses ->
  demo_proofs (E := E) t addresses = Ok tt.
Proof.
  intros Ht. induction 1 as [|a l [st Ha] Hl IH]; [done|]. cbn [demo_proofs].
  pose proof (get_proof_ok a t A Ht) as Hp. rewrite (tree_get_spec _ _ _ Ht), Ha in Hp. rewrite (tree_get_spec _ _ _ Ht), Ha.
  unfold mbind, res_bind, expect, check. rewrite Hp. exact IH.
Qed.

Lemma confidential_fields now_ms r sender receiver amount blinding prover tx :
  create_confidential_transfer now_ms r sender receiver amount blinding prover = Ok tx ->
  (exists m, tx_id tx = hex_encode (double_sha256 m)) /\ (exists proof, tx_proof tx = Some proof).
Proof.
  unfold create_confidential_transfer. intros Htx.
  destruct (prove _ _ _ _ _ _ _) as [p|e|]; [|done..]. injection Htx as <-. split; by eexists.
Qed.

Lemma confidential_demo_ok {E} params seed blinding r now_ms sender receiver :
  run_confidential_transfer_demo (E := E) params seed blinding r now_ms sender receiver = Ok tt.
Proof.
  destruct (confidential_amount_public params seed now_ms r sender receiver 500 blinding) as (tx & Hc & Hv & _ & _ & Hcm);
    [by split|].
  destruct (confidential_fields _ _ _ _ _ _ _ _ Hc) as [[m Hid] [proof Hpr]].
  unfold run_confidential_transfer_demo. generalize dependent (zkp_setup params seed). intros keys Hc Hv.
  rewrite Hc. cbn [unwrap_res mbind res_bind].
  rewrite Hid, Hpr, Hcm, Hv. cbn [expect mbind res_bind]. rewrite slice_hex; [done|apply sha2_256_length|lia].
Qed.

(** The demonstration runs to its end: no assertion fails, no [unwrap] and no slice
    panics.  Its tables show 250,000 photons moving from Alice to Bob and 100,000 of them
    on to the merchant, and the total printed at the end is the million Alice started
    with: no fee has been taken from anybody. *)
Theorem demo_completes {E} params seed blinding r now_ms (n : Node Tr) :
  exists n', demo (E := E) k t1 t2 params seed blinding r now_ms n =
    (Ok ([[("Alice", 1000000); ("Bob", 0); ("Merchant", 0)];
          [("Alice", 750000); ("Bob", 250000); ("Merchant", 0)];
          [("Alice", 750000); ("Bob", 150000); ("Merchant", 100000)];
          [("Alice", 750000); ("Bob", 150000); ("Merchant", 100000)]]%string, 1000000), n').
Proof.
  destruct (put_block_inv genesis (open_temporary : NovaDB Tr) ∅ open_temporary_inv) as (d & Hput & HB); [done|].
  change (height (header genesis)) with 0 in HB.
  destruct (tree_put_spec (E := E) (demo_address (alice_kp k)) (with_balance 1000000) _ _ (state_tree_new_inv (Tr := Tr)))
    as (s0 & Hseed & Hs0).
  set (n0 := set_nd_tree s0 (set_nd_db d demo_node)).
  assert (demo_inv A0 (<[0 := genesis]> ∅) n0) as Hn0 by (split; [exact Hs0|exact HB|apply mempool_new_inv|done|done]).
  destruct (first_payment_ok (E := E) genesis n0 _ Hn0) as (tx1 & b1 & n1 & Hrun1 & Hok1 & Hn1 & Htx1); [done|].
  assert (height (header b1) = 1) as Hh1 by (by rewrite (po_height _ _ _ _ _ Hok1)).
  destruct (second_payment_ok (E := E) b1 n1 _ Hn1) as (tx2 & b2 & n2 & Hrun2 & Hok2 & Hn2 & Htx2); [by rewrite Hh1|].
  assert (exists x1, get_transaction (tx_id tx1) (nd_db n2) = Ok (Some x1)) as [x1 Hx1].
  { rewrite Htx2, Htx1. destruct (decide (tx_id tx2 = tx_id tx1)); [by eexists|]. rewrite decide_True by done. by eexists. }
  assert (get_transaction (tx_id tx2) (nd_db n2) = Ok (Some tx2)) as Hx2 by (by rewrite Htx2, decide_True).
  pose proof (demo_chain_ok (E := E) b1 b2 tx1 tx2 x1 tx2 _ _ A2 n2 Hn2 Hok1 Hok2 Hx1 Hx2) as Hchain.
  destruct A2_lookup as (Ha & Hb & Hm).
  exists n2. unfold demo, put, get, lift, mbind, M_bind. rewrite demo_identities_ok.
  unfold unwrap, zoom. cbn [nd_db demo_node]. rewrite Hput. cbn [unwrap_res].
  unfold demo_fund, seed_balance, zoom, get, lift, mbind, M_bind. cbn [nd_tree demo_node set_nd_db]. rewrite Hseed.
  change (set_nd_tree s0 _) with n0. change (nd_tree n0) with s0. rewrite slice_hex by (lia || by eapply tree_root_length).
  cbn [mret M_ret]. rewrite Hrun1. cbn [fst snd]. rewrite Hrun2. cbn [fst snd].
  rewrite (demo_proofs_ok _ A2 _ (dm_tree _ _ _ Hn2)) by (repeat constructor; eauto).
  rewrite Hchain, confidential_demo_ok. unfold demo_summary. cbn [balance_rows].
  rewrite !(tree_get_spec _ _ _ (dm_tree _ _ _ Hn2)). fold ka kb km. rewrite Ha, Hb, Hm. done.
Qed.
End DemoProofs.

(** ** Witnesses *)

Module DemoExamples.
Export ReplicaExamples CircuitExamples ZkpExamples.

Lemma length_append s t : String.length (s +:+ t) = (String.length s + String.length t)%nat.
Proof. induction s as [|a s IH]; [done|]. exact (f_equal S IH). Qed.

Lemma toy_hex_length l : String.length (Toy.hex l) = (2 * length l)%nat.
Proof. induction l as [|b l IH]; cbn [Toy.hex String.length length]; [done|]. rewrite IH. lia. Qed.

Lemma toy_alpha_length s : (String.length s <= String.length (Toy.alpha s))%nat.
Proof. induction s as [|a s IH]; cbn [Toy.alpha String.length]; lia. Qed.

#[export] Instance toy_text : TextLaws toy_crypto.
Proof.
  split.
  - exact (blake3_length (C := toy_crypto)).
  - exact toy_hex_length.
  - intros hrp l Hl. cbn. unfold Toy.b32_encode. rewrite length_append. cbn [String.length].
    rewrite toy_hex_length. pose proof (toy_alpha_length hrp). lia.
Qed.

Definition cast : DemoKeys (C := toy_crypto) :=
  mkDemoKeys toy_crypto (mkKeypair 1) (mkKeypair 2) (mkKeypair 3) (mkKeypair 4).

Definition morning : PaymentTimes := mkTimes 1000 1001 1 1002.
Definition noon : PaymentTimes := mkTimes 2000 2001 2 2002.
End DemoExamples.

Import DemoExamples.

Lemma demo_completes_witness :
  exists n' tables, demo (E := unit) cast morning noon CircuitExamples.params 1 42 0 3000
      (demo_node : Node (gmap (list Z) (list Z))) = (Ok (tables, 1000000), n').
Proof.
  assert (distinct_parties cast) as Hd by (split_and!; vm_compute; discriminate).
  assert (times_ok morning) as H1 by (split; vm_compute; discriminate).
  assert (times_ok noon) as H2 by (split; vm_compute; discriminate).
  destruct (demo_completes cast morning noon Hd H1 H2 (E := unit) CircuitExamples.params 1 42 0 3000
    (demo_node : Node (gmap (list Z) (list Z)))) as [n' Hrun].
  exists n'. eexists. exact Hrun.
Defined.
