(* ===== verification/Poly.v ===== *)
(** * Polynomials over a field

    Coefficient lists (constant term first, as in [gf256::eval_polynomial]) over an
    abstract field: a non-zero polynomial with [n] coefficients has fewer than [n]
    roots, and Lagrange's polynomial is the only one with [n] coefficients through
    [n] points.  [Shamir.v] instantiates the field with the tables of [Gf256.v]. *)

From Stdlib Require Import Field.
From S2P Require Import Prelude.

Section Poly.

Context {F : Type} (zero one : F) (add mul sub : F -> F -> F) (opp : F -> F)
  (div : F -> F -> F) (inv : F -> F).
Context (Fth : field_theory zero one add mul sub opp div inv eq).
Context `{EqDecision F}.

Declare Scope poly_scope.
#[local] Open Scope poly_scope.
Infix "+" := add : poly_scope.
Infix "*" := mul : poly_scope.
Infix "-" := sub : poly_scope.
Infix "/" := div : poly_scope.

Add Field poly_field : Fth.

Implicit Types (cs ds : list F) (x r : F).

Definition poly_eval cs x : F := foldr (fun c acc => c + x * acc) zero cs.

Fixpoint poly_add cs ds : list F :=
  match cs, ds with
  | [], _ => ds
  | _, [] => cs
  | c :: cs', d :: ds' => (c + d) :: poly_add cs' ds'
  end.

Definition poly_scale (k : F) cs : list F := map (mul k) cs.

(** The product with [x - r]. *)
Definition poly_linear r cs : list F := poly_add (zero :: cs) (poly_scale (opp r) cs).

(** The quotient by [x - r]. *)
Fixpoint poly_quot cs r : list F :=
  match cs with
  | [] | [_] => []
  | _ :: cs' => poly_eval cs' r :: poly_quot cs' r
  end.

Lemma field_integral x r : x * r = zero -> x = zero \/ r = zero.
Proof.
  intros H. destruct (decide (x = zero)) as [|Hx]; [by left|right].
  transitivity (inv x * (x * r)); [field; done | rewrite H; ring].
Qed.

Lemma field_sub_zero x r : x - r = zero -> x = r.
Proof. intros H. transitivity ((x - r) + r); [ring | rewrite H; ring]. Qed.

Lemma field_one_neq_zero : one <> zero.
Proof. exact (F_1_neq_0 Fth). Qed.

Lemma eval_poly_add cs ds x : poly_eval (poly_add cs ds) x = poly_eval cs x + poly_eval ds x.
Proof.
  revert ds. induction cs as [|c cs IH]; intros [|d ds]; simpl; try ring.
  rewrite IH. ring.
Qed.

Lemma eval_poly_scale k cs x : poly_eval (poly_scale k cs) x = k * poly_eval cs x.
Proof.
  induction cs as [|c cs IH]; simpl; [ring|].
  change (k * c + x * poly_eval (poly_scale k cs) x = k * (c + x * poly_eval cs x)).
  rewrite IH. ring.
Qed.

Lemma eval_poly_linear r cs x : poly_eval (poly_linear r cs) x = (x - r) * poly_eval cs x.
Proof.
  unfold poly_linear. rewrite eval_poly_add, eval_poly_scale. simpl. ring.
Qed.

(** Zero coefficients at the end change nothing. *)
Lemma eval_poly_pad cs m x : poly_eval (cs ++ replicate m zero) x = poly_eval cs x.
Proof.
  induction cs as [|c cs IH]; simpl; [|by rewrite IH].
  induction m as [|m IH]; simpl; [done|]. rewrite IH. ring.
Qed.

Lemma length_poly_add cs ds : length (poly_add cs ds) = max (length cs) (length ds).
Proof. revert ds. induction cs as [|c cs IH]; intros [|d ds]; simpl; auto. Qed.

Lemma length_poly_scale k cs : length (poly_scale k cs) = length cs.
Proof. apply length_map. Qed.

Lemma length_poly_linear r cs : length (poly_linear r cs) = S (length cs).
Proof. unfold poly_linear. rewrite length_poly_add, length_poly_scale. simpl. lia. Qed.

Lemma length_poly_quot cs r : length (poly_quot cs r) = pred (length cs).
Proof.
  induction cs as [|c [|c' cs] IH]; [done..|].
  change (S (length (poly_quot (c' :: cs) r)) = S (length cs)). rewrite IH. done.
Qed.

Lemma poly_quot_eval cs r x :
  poly_eval cs x - poly_eval cs r = (x - r) * poly_eval (poly_quot cs r) x.
Proof.
  induction cs as [|c [|c' cs] IH]; [simpl; ring..|].
  set (t := c' :: cs) in *.
  change (c + x * poly_eval t x - (c + r * poly_eval t r)
    = (x - r) * (poly_eval t r + x * poly_eval (poly_quot t r) x)).
  transitivity (x * (poly_eval t x - poly_eval t r) + (x - r) * poly_eval t r); [ring|].
  rewrite IH. ring.
Qed.

Lemma poly_quot_zero cs r :
  poly_eval cs r = zero -> Forall (fun c => c = zero) (poly_quot cs r) ->
  Forall (fun c => c = zero) cs.
Proof.
  induction cs as [|c [|c' cs] IH]; intros He Hq; [constructor|..].
  - constructor; [|constructor]. transitivity (c + r * zero); [ring | exact He].
  - set (t := c' :: cs) in *. change (c + r * poly_eval t r = zero) in He.
    change (Forall (fun c => c = zero) (poly_eval t r :: poly_quot t r)) in Hq.
    apply Forall_cons_1 in Hq as [Ht Hq]. constructor; [|auto].
    rewrite Ht in He. transitivity (c + r * zero); [ring | exact He].
Qed.

(** A polynomial with at most as many coefficients as it has roots is zero. *)
Lemma poly_roots rs cs :
  NoDup rs -> (length cs <= length rs)%nat -> Forall (fun r => poly_eval cs r = zero) rs ->
  Forall (fun c => c = zero) cs.
Proof.
  revert cs. induction rs as [|r rs IH]; intros cs Hnd Hlen Hroots; simpl in Hlen.
  { destruct cs; [constructor | simpl in Hlen; lia]. }
  apply NoDup_cons in Hnd as [Hr Hnd]. apply Forall_cons_1 in Hroots as [Hr0 Hroots].
  apply (poly_quot_zero _ r Hr0). apply IH; [done | rewrite length_poly_quot; lia |].
  rewrite Forall_forall in Hroots |- *. intros s Hs.
  pose proof (poly_quot_eval cs r s) as Hq. rewrite Hr0, (Hroots s Hs) in Hq.
  assert (Hz : (s - r) * poly_eval (poly_quot cs r) s = zero) by (rewrite <- Hq; ring).
  apply field_integral in Hz as [Hz|Hz]; [|done].
  apply field_sub_zero in Hz. congruence.
Qed.

(** Two polynomials that agree at as many points as they have coefficients are equal. *)
Lemma poly_unique rs cs ds :
  NoDup rs -> length cs = length ds -> (length cs <= length rs)%nat ->
  Forall (fun r => poly_eval cs r = poly_eval ds r) rs -> cs = ds.
Proof.
  intros Hnd Hl Hlen Hag.
  assert (Hz : Forall (fun c => c = zero) (poly_add cs (poly_scale (opp one) ds))).
  { apply (poly_roots rs); [done | rewrite length_poly_add, length_poly_scale; lia |].
    eapply Forall_impl; [exact Hag|]. intros r Hr. cbv beta in Hr |- *.
    rewrite eval_poly_add, eval_poly_scale, Hr. ring. }
  clear Hag Hlen. revert ds Hl Hz.
  induction cs as [|c cs IH]; intros [|d ds] Hl Hz; simplify_eq/=; [done|].
  apply Forall_cons_1 in Hz as [Hc Hz]. f_equal; [|by apply IH].
  apply field_sub_zero. rewrite <- Hc. ring.
Qed.

(** ** Lagrange interpolation at the points [px 0 .. px (n - 1)] *)

Section Lagrange.
Context (n : nat) (px py : nat -> F).
Context (px_inj : forall i j, (i < n)%nat -> (j < n)%nat -> px i = px j -> i = j).

Definition others (i : nat) : list nat := filter (fun j => i <> j) (seq 0 n).

Definition prodF (f : nat -> F) (l : list nat) : F := foldr (fun j acc => f j * acc) one l.
Definition sumF (f : nat -> F) (l : list nat) : F := foldr (fun j acc => f j + acc) zero l.

Definition basis_at (i : nat) (z : F) : F := prodF (fun j => z - px j) (others i).

Definition basis_poly (i : nat) : list F :=
  foldr (fun j cs => poly_linear (px j) cs) [one] (others i).

Definition lagrange_poly : list F :=
  foldr (fun i cs => poly_add (poly_scale (py i / basis_at i (px i)) (basis_poly i)) cs)
    [] (seq 0 n).

Lemma eval_basis_poly i z : poly_eval (basis_poly i) z = basis_at i z.
Proof.
  unfold basis_poly, basis_at. induction (others i) as [|j l IH]; simpl; [ring|].
  rewrite eval_poly_linear, IH. done.
Qed.

Lemma eval_lagrange_poly z :
  poly_eval lagrange_poly z
  = sumF (fun i => py i / basis_at i (px i) * basis_at i z) (seq 0 n).
Proof.
  unfold lagrange_poly. induction (seq 0 n) as [|i l IH]; simpl; [done|].
  rewrite eval_poly_add, eval_poly_scale, eval_basis_poly, IH. done.
Qed.

Lemma prodF_zero f l j : j ∈ l -> f j = zero -> prodF f l = zero.
Proof.
  induction 1 as [|j k l _ IH]; intros Hj; simpl; [rewrite Hj | rewrite IH by done]; ring.
Qed.

Lemma prodF_nonzero f l : (forall j, j ∈ l -> f j <> zero) -> prodF f l <> zero.
Proof.
  induction l as [|j l IH]; intros Hf; simpl; [exact field_one_neq_zero|].
  intros Hz. apply field_integral in Hz as [Hz|Hz]; [by apply (Hf j); [left|]|].
  apply IH in Hz; [done|]. intros k Hk. apply Hf. by right.
Qed.

Lemma elem_of_others i j : j ∈ others i <-> i <> j /\ (j < n)%nat.
Proof. unfold others. rewrite list_elem_of_filter, elem_of_seq. lia. Qed.

Lemma basis_at_other i k : (k < n)%nat -> i <> k -> basis_at i (px k) = zero.
Proof.
  intros Hk Hik. apply (prodF_zero _ _ k); [by apply elem_of_others | ring].
Qed.

Lemma basis_at_self i : (i < n)%nat -> basis_at i (px i) <> zero.
Proof.
  intros Hi. apply prodF_nonzero. intros j [Hij Hj]%elem_of_others Hz.
  apply field_sub_zero, px_inj in Hz; done.
Qed.

Lemma sumF_single f l k : NoDup l -> k ∈ l ->
  (forall i, i ∈ l -> i <> k -> f i = zero) -> sumF f l = f k.
Proof.
  assert (Hall : forall l, (forall i, i ∈ l -> f i = zero) -> sumF f l = zero).
  { clear l. induction l as [|i l IH]; intros H; simpl; [done|].
    rewrite H by left. rewrite IH by (intros; apply H; by right). ring. }
  induction l as [|i l IH]; intros Hnd Hk Hz; [by apply not_elem_of_nil in Hk|].
  apply NoDup_cons in Hnd as [Hi Hnd]. simpl. apply elem_of_cons in Hk as [->|Hk].
  - rewrite Hall; [ring|]. intros j Hj. apply Hz; [by right | congruence].
  - rewrite (Hz i) by (left || (intros ->; done)). rewrite IH; [ring | done..|].
    intros j Hj. apply Hz. by right.
Qed.

Lemma lagrange_interpolates k : (k < n)%nat -> poly_eval lagrange_poly (px k) = py k.
Proof.
  intros Hk. rewrite eval_lagrange_poly, (sumF_single _ _ k).
  - pose proof (basis_at_self k Hk). field. done.
  - apply NoDup_seq.
  - apply elem_of_seq. lia.
  - intros i [_ Hi]%elem_of_seq Hne. rewrite (basis_at_other i k) by done.
    assert (Hi' : (i < n)%nat) by lia. pose proof (basis_at_self i Hi'). field. done.
Qed.

Lemma length_others (i : nat) (l : list nat) : NoDup l -> i ∈ l ->
  S (length (filter (fun j => i <> j) l)) = length l.
Proof.
  induction l as [|j l IH]; intros Hnd Hi; [by apply not_elem_of_nil in Hi|].
  apply NoDup_cons in Hnd as [Hj Hnd]. rewrite filter_cons.
  apply elem_of_cons in Hi as [->|Hi].
  - rewrite decide_False by naive_solver. simpl. f_equal. clear IH Hnd.
    induction l as [|k l IH]; [done|]. rewrite filter_cons.
    rewrite decide_True by (intros Heq; apply Hj; rewrite Heq; left). simpl. f_equal. apply IH.
    intros Hin. apply Hj. by right.
  - rewrite decide_True by congruence. simpl. rewrite IH; done.
Qed.

Lemma length_basis_poly i : (i < n)%nat -> length (basis_poly i) = n.
Proof.
  intros Hi. transitivity (S (length (others i))).
  - unfold basis_poly. induction (others i) as [|j l IH]; [done|].
    simpl. rewrite length_poly_linear, IH. done.
  - unfold others. rewrite length_others; [apply length_seq | apply NoDup_seq |].
    apply elem_of_seq. lia.
Qed.

Lemma length_lagrange_poly : length lagrange_poly = n.
Proof.
  destruct (decide (n = 0%nat)) as [Hn|Hn]; [unfold lagrange_poly; by rewrite Hn|].
  assert (Hgen : forall l, l <> [] -> (forall i, i ∈ l -> (i < n)%nat) ->
    length (foldr (fun i cs => poly_add (poly_scale (py i / basis_at i (px i)) (basis_poly i)) cs)
      [] l) = n).
  { induction l as [|i l IH]; intros Hl Hb; [done|]. simpl.
    rewrite length_poly_add, length_poly_scale, length_basis_poly by (apply Hb; left).
    destruct l as [|j l]; [simpl; lia|].
    rewrite IH; [lia | done |]. intros k Hk. apply Hb. by right. }
  apply Hgen; [|intros i [_ Hi]%elem_of_seq; lia]. destruct n; done.
Qed.

Lemma NoDup_points : NoDup (map px (seq 0 n)).
Proof.
  apply NoDup_fmap_2_strong; [|apply NoDup_seq].
  intros i j [_ Hi]%elem_of_seq [_ Hj]%elem_of_seq. apply px_inj; lia.
Qed.

(** Lagrange's formula returns the value, at any point, of every polynomial with at
    most [n] coefficients that goes through the points. *)
Lemma lagrange_formula cs z :
  (length cs <= n)%nat -> (forall i, (i < n)%nat -> poly_eval cs (px i) = py i) ->
  sumF (fun i => py i / basis_at i (px i) * basis_at i z) (seq 0 n) = poly_eval cs z.
Proof.
  intros Hlen Hcs. rewrite <- eval_lagrange_poly.
  set (pad := cs ++ replicate (n - length cs) zero).
  assert (Hpad : forall x, poly_eval pad x = poly_eval cs x) by (intros x; apply eval_poly_pad).
  rewrite <- (Hpad z). f_equal.
  apply (poly_unique (map px (seq 0 n))).
  - apply NoDup_points.
  - unfold pad. rewrite length_lagrange_poly, length_app, length_replicate. lia.
  - rewrite length_lagrange_poly, length_map, length_seq. lia.
  - apply Forall_forall. intros r (i & -> & [_ Hi]%elem_of_seq)%list_elem_of_fmap.
    rewrite Hpad, lagrange_interpolates, Hcs by lia. done.
Qed.

End Lagrange.
End Poly.
