(* ===== verification/Gf256.v ===== *)
(** * GF(256)

    The module [gf256] of [protocol/src/identity/recovery.rs]: the log/exp tables,
    table-driven multiplication and division, polynomial evaluation and Lagrange
    interpolation.  The proofs show that the tables compute a field: the non-zero
    elements are the powers of the generator 3, and multiplication distributes over
    xor because multiplication by 3 is linear. *)

From Stdlib Require Import Field.
From S2P Require Import Prelude Bytes.

#[local] Open Scope Z_scope.

Definition MODULUS : Z := 283.

(** [val = (val << 1) ^ val; if val >= 256 { val ^= MODULUS }] *)
Definition times_generator (v : Z) : Z :=
  let w := Z.lxor (Z.shiftl v 1) v in
  if 256 <=? w then Z.lxor w MODULUS else w.

(** The loop of [build_exp_table] from index [i], [n] iterations to go. *)
Fixpoint exp_loop (n i : nat) (v : Z) (table : list Z) : list Z :=
  match n with
  | O => table
  | S n' => exp_loop n' (S i) (times_generator v) (<[(i + 255)%nat := v]> (<[i := v]> table))
  end.

Definition build_exp_table : list Z :=
  let table := exp_loop 255 0 1 (replicate 512 0) in
  <[255%nat := nth 0 table 0]> table.

Definition build_log_table : list Z :=
  fold_left (fun table i => <[Z.to_nat (nth i build_exp_table 0) := Z.of_nat i]> table)
    (seq 0 255) (replicate 256 0).

(** The [static] tables, computed once. *)
Definition EXP : list Z := Eval vm_compute in build_exp_table.
Definition LOG : list Z := Eval vm_compute in build_log_table.

Definition LOG_at (a : Z) : Z := nth (Z.to_nat a) LOG 0.
Definition EXP_at (i : Z) : Z := nth (Z.to_nat i) EXP 0.

Definition gf_add (a b : Z) : Z := Z.lxor a b.
Definition gf_sub (a b : Z) : Z := Z.lxor a b.

Definition gf_mul (a b : Z) : Z :=
  if (a =? 0) || (b =? 0) then 0 else EXP_at (LOG_at a + LOG_at b).

Definition gf_div {E} (a b : Z) : res E Z :=
  if b =? 0 then Panic
  else if a =? 0 then Ok 0
  else Ok (EXP_at (255 + LOG_at a - LOG_at b)).

Definition eval_polynomial (coefficients : list Z) (x : Z) : Z :=
  fold_left (fun result coeff => gf_add (gf_mul result x) coeff) (reverse coefficients) 0.

(** The inner loop over [j != i]: numerator and denominator. *)
Definition basis_fraction (xs : list Z) (i : nat) : Z * Z :=
  fold_left (fun nd j =>
      if bool_decide (i = j) then nd
      else (gf_mul nd.1 (nth j xs 0), gf_mul nd.2 (gf_sub (nth i xs 0) (nth j xs 0))))
    (seq 0 (length xs)) (1, 1).

Definition lagrange_interpolate_at_zero {E} (xs ys : list Z) : res E Z :=
  if negb (bool_decide (length xs = length ys)) then Panic
  else fold_left (fun acc i =>
      secret ← acc;
      let '(numerator, denominator) := basis_fraction xs i in
      lagrange ← gf_div numerator denominator;
      Ok (gf_add secret (gf_mul (nth i ys 0) lagrange)))
    (seq 0 (length xs)) (Ok 0).

(** ** The tables *)

(** A decidable property of bytes holds if it holds of the 256 of them. *)
Lemma byte_forall (P : Z -> bool) :
  forallb (fun n => P (Z.of_nat n)) (seq 0 256) = true -> forall a, byte_ok a -> P a = true.
Proof.
  intros Hall a Ha. unfold byte_ok in Ha. rewrite forallb_forall in Hall.
  specialize (Hall (Z.to_nat a)). rewrite Z2Nat.id in Hall by lia. apply Hall.
  apply in_seq. lia.
Qed.

Lemma tables_built : EXP = build_exp_table /\ LOG = build_log_table.
Proof. split; vm_compute; reflexivity. Qed.

Lemma log_bound a : byte_ok a -> 0 <= LOG_at a < 255.
Proof.
  intros Ha. pose proof (byte_forall (fun a => (0 <=? LOG_at a) && (LOG_at a <? 255))
    ltac:(vm_compute; reflexivity) a Ha) as H. simpl in H. reflect_bools. lia.
Qed.

Lemma exp_log a : byte_ok a -> a <> 0 -> EXP_at (LOG_at a) = a.
Proof.
  intros Ha Hn. pose proof (byte_forall (fun a => (a =? 0) || (EXP_at (LOG_at a) =? a))
    ltac:(vm_compute; reflexivity) a Ha) as H. simpl in H. apply orb_true_iff in H as [H|H]; lia.
Qed.

Lemma index_forall (P : Z -> bool) n :
  forallb (fun i => P (Z.of_nat i)) (seq 0 n) = true -> forall i, 0 <= i < Z.of_nat n -> P i = true.
Proof.
  intros Hall i Hi. rewrite forallb_forall in Hall. specialize (Hall (Z.to_nat i)).
  rewrite Z2Nat.id in Hall by lia. apply Hall. apply in_seq. lia.
Qed.

Lemma exp_byte i : 0 <= i < 510 -> byte_ok (EXP_at i) /\ EXP_at i <> 0.
Proof.
  intros Hi. pose proof (index_forall (fun i => (0 <=? EXP_at i) && (EXP_at i <? 256) && negb (EXP_at i =? 0))
    510 ltac:(vm_compute; reflexivity) i ltac:(lia)) as H. simpl in H. unfold byte_ok. reflect_bools. lia.
Qed.

Lemma log_exp i : 0 <= i < 510 -> LOG_at (EXP_at i) = i mod 255.
Proof.
  intros Hi. pose proof (index_forall (fun i => LOG_at (EXP_at i) =? i mod 255)
    510 ltac:(vm_compute; reflexivity) i ltac:(lia)) as H. simpl in H. lia.
Qed.

Lemma exp_mod i : 0 <= i < 510 -> EXP_at i = EXP_at (i mod 255).
Proof.
  intros Hi. pose proof (index_forall (fun i => EXP_at i =? EXP_at (i mod 255))
    510 ltac:(vm_compute; reflexivity) i ltac:(lia)) as H. simpl in H. lia.
Qed.

Lemma exp_step i : 0 <= i < 509 -> EXP_at (i + 1) = times_generator (EXP_at i).
Proof.
  intros Hi. pose proof (index_forall (fun i => EXP_at (i + 1) =? times_generator (EXP_at i))
    509 ltac:(vm_compute; reflexivity) i ltac:(lia)) as H. simpl in H. lia.
Qed.

(** ** Multiplication by the generator is linear *)

Lemma times_generator_bits v : byte_ok v ->
  times_generator v = Z.lxor (Z.lxor (Z.shiftl v 1) v) (if Z.testbit v 7 then MODULUS else 0).
Proof.
  intros Hv. pose proof (byte_forall (fun v => times_generator v =?
    Z.lxor (Z.lxor (Z.shiftl v 1) v) (if Z.testbit v 7 then MODULUS else 0))
    ltac:(vm_compute; reflexivity) v Hv) as H. cbv beta in H. by apply Z.eqb_eq in H.
Qed.

Lemma times_generator_byte v : byte_ok v -> byte_ok (times_generator v).
Proof.
  intros Hv. pose proof (byte_forall (fun v => (0 <=? times_generator v) && (times_generator v <? 256))
    ltac:(vm_compute; reflexivity) v Hv) as H. cbv beta in H. unfold byte_ok. reflect_bools. lia.
Qed.

Lemma byte_testbit a i : byte_ok a -> 8 <= i -> Z.testbit a i = false.
Proof.
  intros Ha Hi. unfold byte_ok in Ha. destruct (decide (a = 0)) as [->|Hn]; [apply Z.bits_0|].
  apply Z.bits_above_log2; [lia|]. apply Z.lt_le_trans with 8; [|done].
  apply Z.log2_lt_pow2; lia.
Qed.

Lemma byte_lxor a b : byte_ok a -> byte_ok b -> byte_ok (Z.lxor a b).
Proof.
  intros Ha Hb. unfold byte_ok in *. assert (H0 : 0 <= Z.lxor a b) by (apply Z.lxor_nonneg; lia).
  split; [done|]. destruct (decide (Z.lxor a b < 256)) as [|Hbig]; [done|exfalso].
  assert (Hl : 8 <= Z.log2 (Z.lxor a b)) by (apply Z.log2_le_pow2; lia).
  pose proof (Z.bit_log2 (Z.lxor a b) ltac:(lia)) as Hbit.
  rewrite Z.lxor_spec, !byte_testbit in Hbit by (unfold byte_ok; lia). done.
Qed.

Lemma times_generator_linear a b : byte_ok a -> byte_ok b ->
  times_generator (Z.lxor a b) = Z.lxor (times_generator a) (times_generator b).
Proof.
  intros Ha Hb. rewrite !times_generator_bits by auto using byte_lxor.
  rewrite Z.shiftl_lxor, Z.lxor_spec.
  apply Z.bits_inj'. intros n Hn. rewrite !Z.lxor_spec.
  destruct (Z.testbit a 7), (Z.testbit b 7); simpl xorb; rewrite ?Z.bits_0;
    repeat match goal with |- context [Z.testbit ?x n] => destruct (Z.testbit x n) end; done.
Qed.

(** [times_power k a] multiplies by the [k]-th power of the generator. *)
Definition times_power (k : nat) (a : Z) : Z := Nat.iter k times_generator a.

Lemma times_power_byte k a : byte_ok a -> byte_ok (times_power k a).
Proof. intros Ha. induction k as [|k IH]; [done|]. by apply times_generator_byte. Qed.

Lemma times_power_linear k a b : byte_ok a -> byte_ok b ->
  times_power k (Z.lxor a b) = Z.lxor (times_power k a) (times_power k b).
Proof.
  intros Ha Hb. induction k as [|k IH]; [done|]. simpl. unfold times_power in *.
  rewrite IH. apply times_generator_linear; by apply times_power_byte.
Qed.

Lemma exp_times_power k i : 0 <= i -> i + Z.of_nat k < 510 ->
  EXP_at (i + Z.of_nat k) = times_power k (EXP_at i).
Proof.
  intros Hi Hk. induction k as [|k IH]; [by rewrite Z.add_0_r|].
  replace (i + Z.of_nat (S k)) with (i + Z.of_nat k + 1) by lia.
  rewrite exp_step by lia. simpl. unfold times_power in IH |- *. rewrite IH by lia. done.
Qed.

(** Multiplication by [b] is a power of multiplication by the generator. *)
Lemma gf_mul_power a b : byte_ok a -> byte_ok b -> b <> 0 ->
  gf_mul a b = times_power (Z.to_nat (LOG_at b)) a.
Proof.
  intros Ha Hb Hn. pose proof (log_bound a Ha). pose proof (log_bound b Hb). unfold gf_mul.
  rewrite (bool_decide_eq_false_2 _ Hn) || (destruct (Z.eqb_spec b 0); [done|]).
  destruct (Z.eqb_spec a 0) as [->|Ha0]; simpl.
  - induction (Z.to_nat (LOG_at b)) as [|k IH]; [done|]. unfold times_power in *. simpl.
    by rewrite <- IH.
  - rewrite <- (exp_log a Ha Ha0) at 2.
    rewrite <- exp_times_power by lia. f_equal. lia.
Qed.

(** ** The field *)

Lemma gf_mul_byte a b : byte_ok a -> byte_ok b -> byte_ok (gf_mul a b).
Proof.
  intros Ha Hb. destruct (decide (b = 0)) as [->|Hn].
  - unfold gf_mul. rewrite orb_true_r. unfold byte_ok. lia.
  - rewrite gf_mul_power by done. by apply times_power_byte.
Qed.

Lemma gf_mul_comm a b : gf_mul a b = gf_mul b a.
Proof. unfold gf_mul. by rewrite orb_comm, Z.add_comm. Qed.

Lemma gf_mul_0_l a : gf_mul 0 a = 0.
Proof. done. Qed.

Lemma gf_mul_0_r a : gf_mul a 0 = 0.
Proof. by rewrite gf_mul_comm. Qed.

Lemma gf_mul_add_l a b c : byte_ok a -> byte_ok b -> byte_ok c ->
  gf_mul (gf_add a b) c = gf_add (gf_mul a c) (gf_mul b c).
Proof.
  intros Ha Hb Hc. unfold gf_add. destruct (decide (c = 0)) as [->|Hn].
  - unfold gf_mul. by rewrite !orb_true_r.
  - rewrite !gf_mul_power by auto using byte_lxor. by apply times_power_linear.
Qed.

Lemma gf_mul_nonzero a b : byte_ok a -> byte_ok b -> a <> 0 -> b <> 0 ->
  gf_mul a b = EXP_at (LOG_at a + LOG_at b) /\ gf_mul a b <> 0.
Proof.
  intros Ha Hb Ha0 Hb0. pose proof (log_bound a Ha). pose proof (log_bound b Hb).
  unfold gf_mul. destruct (Z.eqb_spec a 0), (Z.eqb_spec b 0); try done. simpl.
  split; [done|]. apply exp_byte. lia.
Qed.

(** The index into [EXP] only counts modulo 255. *)
Lemma exp_congr i j : 0 <= i < 510 -> 0 <= j < 510 -> i mod 255 = j mod 255 ->
  EXP_at i = EXP_at j.
Proof. intros Hi Hj Hij. rewrite (exp_mod i Hi), (exp_mod j Hj). by f_equal. Qed.

Lemma log_mul a b : byte_ok a -> byte_ok b -> a <> 0 -> b <> 0 ->
  LOG_at (gf_mul a b) = (LOG_at a + LOG_at b) mod 255.
Proof.
  intros Ha Hb Ha0 Hb0. pose proof (log_bound a Ha). pose proof (log_bound b Hb).
  destruct (gf_mul_nonzero a b Ha Hb Ha0 Hb0) as [-> _]. apply log_exp. lia.
Qed.

Lemma gf_mul_assoc a b c : byte_ok a -> byte_ok b -> byte_ok c ->
  gf_mul a (gf_mul b c) = gf_mul (gf_mul a b) c.
Proof.
  intros Ha Hb Hc.
  destruct (decide (a = 0)) as [->|Ha0]; [done|].
  destruct (decide (b = 0)) as [->|Hb0]; [by rewrite gf_mul_0_l, gf_mul_0_r|].
  destruct (decide (c = 0)) as [->|Hc0]; [by rewrite !gf_mul_0_r|].
  destruct (gf_mul_nonzero b c Hb Hc Hb0 Hc0) as [_ Hbc].
  destruct (gf_mul_nonzero a b Ha Hb Ha0 Hb0) as [_ Hab].
  destruct (gf_mul_nonzero a (gf_mul b c)) as [-> _]; auto using gf_mul_byte.
  destruct (gf_mul_nonzero (gf_mul a b) c) as [-> _]; auto using gf_mul_byte.
  rewrite !log_mul by done.
  pose proof (log_bound a Ha). pose proof (log_bound c Hc).
  pose proof (Z.mod_pos_bound (LOG_at b + LOG_at c) 255 ltac:(lia)).
  pose proof (Z.mod_pos_bound (LOG_at a + LOG_at b) 255 ltac:(lia)).
  apply exp_congr; [lia..|].
  rewrite Zplus_mod_idemp_r, Zplus_mod_idemp_l. f_equal. lia.
Qed.

Lemma gf_mul_1_l a : byte_ok a -> gf_mul 1 a = a.
Proof.
  intros Ha. unfold gf_mul. destruct (Z.eqb_spec a 0) as [->|Hn]; [done|]. simpl.
  by apply exp_log.
Qed.

(** The inverse, read off the log table. *)
Definition gf_inv (a : Z) : Z := if a =? 0 then 0 else EXP_at (255 - LOG_at a).

Lemma gf_inv_byte a : byte_ok a -> byte_ok (gf_inv a).
Proof.
  intros Ha. unfold gf_inv. destruct (a =? 0); [unfold byte_ok; lia|].
  pose proof (log_bound a Ha). apply exp_byte. lia.
Qed.

Lemma gf_inv_l a : byte_ok a -> a <> 0 -> gf_mul (gf_inv a) a = 1.
Proof.
  intros Ha Hn. pose proof (byte_forall (fun a => (a =? 0) || (gf_mul (gf_inv a) a =? 1))
    ltac:(vm_compute; reflexivity) a Ha) as H. cbv beta in H. apply orb_true_iff in H as [H|H]; apply Z.eqb_eq in H; done.
Qed.

(** [div] is multiplication by the inverse; it panics exactly at zero. *)
Lemma gf_div_ok {E} a b : byte_ok a -> byte_ok b -> b <> 0 ->
  gf_div (E := E) a b = Ok (gf_mul a (gf_inv b)).
Proof.
  intros Ha Hb Hn. unfold gf_div, gf_inv, gf_mul.
  destruct (Z.eqb_spec b 0); [done|]. destruct (Z.eqb_spec a 0) as [|Ha0]; [done|].
  pose proof (log_bound a Ha). pose proof (log_bound b Hb).
  destruct (exp_byte (255 - LOG_at b) ltac:(lia)) as [_ Hne].
  destruct (Z.eqb_spec (EXP_at (255 - LOG_at b)) 0); [done|]. simpl. f_equal.
  rewrite log_exp by lia.
  pose proof (Z.mod_pos_bound (255 - LOG_at b) 255 ltac:(lia)).
  apply exp_congr; [lia..|]. rewrite Zplus_mod_idemp_r. f_equal. lia.
Qed.

(** The elements: bytes with the proof that they are. *)
#[global] Instance byte_ok_dec b : Decision (byte_ok b).
Proof. unfold byte_ok. apply _. Defined.

Definition gf : Type := dsig byte_ok.

Definition gf_val (a : gf) : Z := proj1_sig a.
Lemma gf_ok (a : gf) : byte_ok (gf_val a).
Proof. exact (proj2_dsig a). Qed.

Definition gf_of (z : Z) (H : byte_ok z) : gf := dexist z H.

Lemma gf_eq (a b : gf) : gf_val a = gf_val b -> a = b.
Proof. apply dsig_eq. Qed.

#[global] Instance gf_eq_dec : EqDecision gf.
Proof. unfold gf, dsig. apply _. Defined.

Definition fadd (a b : gf) : gf := gf_of (gf_add (gf_val a) (gf_val b)) (byte_lxor _ _ (gf_ok a) (gf_ok b)).
Definition fmul (a b : gf) : gf := gf_of (gf_mul (gf_val a) (gf_val b)) (gf_mul_byte _ _ (gf_ok a) (gf_ok b)).
Definition finv (a : gf) : gf := gf_of (gf_inv (gf_val a)) (gf_inv_byte _ (gf_ok a)).
Definition fopp (a : gf) : gf := a.
Definition fdiv (a b : gf) : gf := fmul a (finv b).
Definition fzero : gf := gf_of 0 ltac:(unfold byte_ok; lia).
Definition fone : gf := gf_of 1 ltac:(unfold byte_ok; lia).

(** The tables of [gf256] implement a field. *)
Lemma gf_field : field_theory fzero fone fadd fmul fadd fopp fdiv finv eq.
Proof.
  constructor; [constructor| | |]; intros; try apply gf_eq; simpl.
  - apply Z.lxor_0_l.
  - apply Z.lxor_comm.
  - symmetry. apply Z.lxor_assoc.
  - apply gf_mul_1_l, gf_ok.
  - apply gf_mul_comm.
  - apply gf_mul_assoc; apply gf_ok.
  - apply gf_mul_add_l; apply gf_ok.
  - done.
  - apply Z.lxor_nilpotent.
  - intros H. apply (f_equal gf_val) in H. done.
  - done.
  - apply gf_inv_l; [apply gf_ok|]. intros Hz. by apply H, gf_eq.
Qed.

(** ** The reference multiplication *)

(** Multiplication by [x] modulo the field polynomial. *)
Definition xtime (a : Z) : Z :=
  let w := Z.shiftl a 1 in if 256 <=? w then Z.lxor w MODULUS else w.

(** Shift-and-add multiplication of polynomials over GF(2), modulo the field polynomial:
    the definition of the field, without tables. *)
Fixpoint peasant_mul (n : nat) (a b : Z) : Z :=
  match n with
  | O => 0
  | S n' => Z.lxor (if Z.odd b then a else 0) (peasant_mul n' (xtime a) (Z.div2 b))
  end.

Lemma xtime_mul a : byte_ok a -> gf_mul a 2 = xtime a.
Proof.
  intros Ha. pose proof (byte_forall (fun a => gf_mul a 2 =? xtime a) ltac:(vm_compute; reflexivity) a Ha) as H.
  cbv beta in H. by apply Z.eqb_eq in H.
Qed.

(** A byte is its low bit plus [x] times the rest. *)
Lemma byte_split b : byte_ok b ->
  b = Z.lxor (if Z.odd b then 1 else 0) (gf_mul 2 (Z.div2 b)) /\ byte_ok (Z.div2 b).
Proof.
  intros Hb. pose proof (byte_forall (fun b =>
    (b =? Z.lxor (if Z.odd b then 1 else 0) (gf_mul 2 (Z.div2 b))) && (0 <=? Z.div2 b) && (Z.div2 b <? 256))
    ltac:(vm_compute; reflexivity) b Hb) as H. cbv beta in H. unfold byte_ok. reflect_bools. lia.
Qed.

(** The table-driven multiplication is polynomial multiplication modulo 0x11B, the
    definition of the field, on all pairs of bytes. *)
Theorem gf_mul_reference a b : byte_ok a -> byte_ok b -> gf_mul a b = peasant_mul 8 a b.
Proof.
  assert (forall n a b, byte_ok a -> byte_ok b -> b < 2 ^ Z.of_nat n -> gf_mul a b = peasant_mul n a b) as Hn.
  { induction n as [|n IH]; intros x y Hx Hy Hlt.
    - unfold byte_ok in Hy. assert (y = 0) as -> by (simpl in Hlt; lia). apply gf_mul_0_r.
    - destruct (byte_split y Hy) as [Es Hd]. assert (byte_ok 2) as H2 by (unfold byte_ok; lia).
      assert (byte_ok (if Z.odd y then 1 else 0)) as Hbit by (unfold byte_ok; destruct (Z.odd y); lia).
      rewrite (gf_mul_comm x y), Es at 1. rewrite gf_mul_add_l by (try done; by apply gf_mul_byte).
      unfold gf_add. cbn [peasant_mul]. f_equal.
      + destruct (Z.odd y); [by apply gf_mul_1_l|apply gf_mul_0_l].
      + rewrite (gf_mul_comm _ x), gf_mul_assoc, xtime_mul by done. apply IH; [|done|].
        * rewrite <- xtime_mul by done. by apply gf_mul_byte.
        * rewrite Z.div2_div. apply Z.div_lt_upper_bound; [lia|].
          by rewrite Nat2Z.inj_succ, Z.pow_succ_r in Hlt by lia. }
  intros Ha Hb. apply Hn; [done..|]. unfold byte_ok in Hb. simpl. lia.
Qed.

Lemma gf_mul_reference_witness : gf_mul 87 131 = 193.
Proof. rewrite (gf_mul_reference 87 131); [reflexivity|unfold byte_ok; lia..]. Defined.
