(* ===== verification/Shamir.v ===== *)
(** * Shamir secret sharing

    [protocol/src/identity/recovery.rs]: splitting a secret into shares and
    recovering it.  The outputs of the operating system's generator are an argument,
    one list per call of [fill_bytes].  The theorems: any [threshold] shares recover
    the secret, [threshold - 1] shares are consistent with every secret, and
    recovery accepts exactly the well-formed lists of shares and never panics. *)

From Stdlib Require Import Field.
From S2P Require Import Prelude Bytes Poly Gf256.

#[local] Open Scope Z_scope.

Inductive ShamirError : Type :=
| ThresholdTooLow (threshold : Z)
| InsufficientShares (threshold total : Z)
| TooManyShares (n : Z)
| EmptySecret
| NotEnoughShares (n : nat)
| InconsistentShareLengths (expected got : nat)
| DuplicateShareIndex (index : Z).

Record ShamirConfig : Type := { threshold : Z; total_shares : Z }.

Definition ShamirConfig_new (threshold total_shares : Z) : res ShamirError ShamirConfig :=
  if threshold <? 2 then Err (ThresholdTooLow threshold)
  else if total_shares <? threshold then Err (InsufficientShares threshold total_shares)
  else Ok {| threshold := threshold; total_shares := total_shares |}.

Record Share : Type := { index : Z; data : list Z }.

#[global] Instance Share_eq_dec : EqDecision Share.
Proof. solve_decision. Defined.

Definition push_data (y : Z) (s : Share) : Share := {| index := index s; data := data s ++ [y] |}.

(** [rng.fill_bytes]: the next output of the generator, which panics when the system
    source fails. *)
Definition fill_bytes {E} (rng : list (list Z)) : res E (list Z * list (list Z)) :=
  match rng with [] => Panic | bs :: rng' => Ok (bs, rng') end.

(** [coefficients[0] = secret_byte; coefficients[1..].copy_from_slice(&random_bytes)] on
    a vector of [threshold] zeros: the index and the slice panic out of range. *)
Definition coefficients_of {E} (threshold : nat) (secret_byte : Z) (random_bytes : list Z)
    : res E (list Z) :=
  match replicate threshold 0 with
  | [] => Panic
  | _ :: tail =>
      if bool_decide (length tail = length random_bytes) then Ok (secret_byte :: random_bytes)
      else Panic
  end.

Fixpoint split_loop {E} (threshold : nat) (secret : list Z) (rng : list (list Z))
    (shares : list Share) : res E (list Share) :=
  match secret with
  | [] => Ok shares
  | secret_byte :: secret' =>
      '(random_bytes, rng') ← fill_bytes rng;
      coefficients ← coefficients_of threshold secret_byte random_bytes;
      split_loop threshold secret' rng'
        (map (fun share => push_data (eval_polynomial coefficients (index share)) share) shares)
  end.

Definition split_secret (rng : list (list Z)) (secret : list Z) (config : ShamirConfig)
    : res ShamirError (list Share) :=
  if bool_decide (secret = []) then Err EmptySecret
  else
    let shares := map (fun i => {| index := Z.of_nat i; data := [] |})
                    (seq 1 (Z.to_nat (total_shares config))) in
    split_loop (Z.to_nat (threshold config)) secret rng shares.

Fixpoint check_lengths (expected_len : nat) (shares : list Share) : res ShamirError unit :=
  match shares with
  | [] => Ok tt
  | share :: shares' =>
      if bool_decide (length (data share) = expected_len) then check_lengths expected_len shares'
      else Err (InconsistentShareLengths expected_len (length (data share)))
  end.

(** [seen] is the array of 256 booleans. *)
Fixpoint check_indices (seen : list bool) (shares : list Share) : res ShamirError unit :=
  match shares with
  | [] => Ok tt
  | share :: shares' =>
      if index share =? 0 then Err (DuplicateShareIndex 0)
      else match seen !! Z.to_nat (index share) with
      | None => Panic
      | Some true => Err (DuplicateShareIndex (index share))
      | Some false => check_indices (<[Z.to_nat (index share) := true]> seen) shares'
      end
  end.

Definition recover_byte (shares : list Share) (byte_idx : nat) : res ShamirError Z :=
  ys ← mapM (fun s => expect (data s !! byte_idx)) shares;
  lagrange_interpolate_at_zero (map index shares) ys.

Definition recover_secret (shares : list Share) : res ShamirError (list Z) :=
  if (length shares <? 2)%nat then Err (NotEnoughShares (length shares))
  else match shares with
  | [] => Panic
  | first :: rest =>
      let expected_len := length (data first) in
      _ ← check_lengths expected_len rest;
      _ ← check_indices (replicate 256 false) shares;
      mapM (recover_byte shares) (seq 0 expected_len)
  end.

Example split_2_of_3 :
  split_secret [[7]; [200]] [65; 66] {| threshold := 2; total_shares := 3 |}
  = Ok [{| index := 1; data := [70; 138] |}; {| index := 2; data := [79; 201] |};
        {| index := 3; data := [72; 1] |}].
Proof. vm_compute. reflexivity. Qed.

(** ** The table-driven code computes in the field *)

Add Field gf_field_ring : gf_field.

Notation peval := (poly_eval fzero fadd fmul).
Notation fprod := (prodF fone fmul).
Notation fsum := (sumF fzero fadd).

Lemma lift_bytes l : Forall byte_ok l -> exists p : list gf, l = map gf_val p.
Proof.
  induction 1 as [|z l Hz _ [p ->]]; [by exists []|]. by exists (gf_of z Hz :: p).
Qed.

Lemma gf_vals_ok (p : list gf) : Forall byte_ok (map gf_val p).
Proof. induction p; constructor; [apply gf_ok | done]. Qed.

Lemma gf_vals_inj (p q : list gf) : map gf_val p = map gf_val q -> p = q.
Proof.
  revert q. induction p as [|a p IH]; intros [|b q] H; try done.
  injection H as Hab Hpq. rewrite (gf_eq a b Hab), (IH q Hpq). done.
Qed.

Lemma eval_polynomial_field (p : list gf) (x : gf) :
  eval_polynomial (map gf_val p) (gf_val x) = gf_val (peval p x).
Proof.
  unfold eval_polynomial. induction p as [|c p IH]; [done|].
  simpl map. rewrite reverse_cons, fold_left_app, IH. simpl.
  rewrite Z.lxor_comm, gf_mul_comm. done.
Qed.

Lemma nth_vals i (p : list gf) : nth i (map gf_val p) 0 = gf_val (nth i p fzero).
Proof. change 0 with (gf_val fzero). apply map_nth. Qed.

(** The inner loop of the interpolation is a pair of products. *)
Lemma basis_fraction_field (xs : list gf) i :
  basis_fraction (map gf_val xs) i
  = (gf_val (basis_at fone fmul fadd (length xs) (fun j => nth j xs fzero) i fzero),
     gf_val (basis_at fone fmul fadd (length xs) (fun j => nth j xs fzero) i (nth i xs fzero))).
Proof.
  unfold basis_fraction, basis_at, others. rewrite length_map.
  set (f := fun (nd : Z * Z) (j : nat) => _).
  assert (Hstep : forall (a b : gf) j, i <> j -> f (gf_val a, gf_val b) j
    = (gf_val (fmul a (nth j xs fzero)), gf_val (fmul b (fadd (nth i xs fzero) (nth j xs fzero))))).
  { intros a b j Hij. unfold f. rewrite bool_decide_eq_false_2 by done. rewrite !nth_vals. done. }
  assert (Hgen : forall l (a b : gf), fold_left f l (gf_val a, gf_val b)
    = (gf_val (fmul a (fprod (fun j => fadd fzero (nth j xs fzero)) (filter (fun j => i <> j) l))),
       gf_val (fmul b (fprod (fun j => fadd (nth i xs fzero) (nth j xs fzero))
                         (filter (fun j => i <> j) l))))).
  { induction l as [|j l IH]; intros a b.
    { rewrite filter_nil. apply (f_equal2 pair); apply (f_equal gf_val); simpl prodF; ring. }
    rewrite filter_cons. simpl fold_left. destruct (decide (i = j)) as [Hij|Hij].
    - rewrite decide_False by naive_solver. unfold f at 2.
      rewrite bool_decide_eq_true_2 by done. apply IH.
    - rewrite decide_True, Hstep, IH by done. simpl prodF.
      apply (f_equal2 pair); apply (f_equal gf_val); ring. }
  etransitivity; [exact (Hgen (seq 0 (length xs)) fone fone)|].
  apply (f_equal2 pair); apply (f_equal gf_val); ring.
Qed.

Lemma NoDup_nth_inj (xs : list gf) i j : NoDup xs -> (i < length xs)%nat -> (j < length xs)%nat ->
  nth i xs fzero = nth j xs fzero -> i = j.
Proof.
  intros Hnd Hi Hj Heq. rewrite !nth_lookup in Heq.
  destruct (lookup_lt_is_Some_2 xs i Hi) as [a Ha].
  destruct (lookup_lt_is_Some_2 xs j Hj) as [b Hb].
  rewrite Ha, Hb in Heq. simpl in Heq. subst b. by eapply NoDup_lookup.
Qed.

(** [lagrange_interpolate_at_zero] at distinct points is Lagrange's sum: no division by
    zero, no panic. *)
Lemma lagrange_field {E} (xs ys : list gf) : NoDup xs -> length xs = length ys ->
  lagrange_interpolate_at_zero (E := E) (map gf_val xs) (map gf_val ys)
  = Ok (gf_val (fsum (fun i =>
      fmul (fdiv (nth i ys fzero)
              (basis_at fone fmul fadd (length xs) (fun j => nth j xs fzero) i (nth i xs fzero)))
           (basis_at fone fmul fadd (length xs) (fun j => nth j xs fzero) i fzero))
      (seq 0 (length xs)))).
Proof.
  intros Hnd Hlen. unfold lagrange_interpolate_at_zero. rewrite !length_map.
  rewrite bool_decide_eq_true_2 by done. simpl negb. cbv iota.
  set (f := fun i => _). set (g := fun i : nat => _).
  assert (Hgen : forall l acc, (forall i, i ∈ l -> (i < length xs)%nat) ->
    fold_left f l (Ok (gf_val acc)) = Ok (gf_val (fadd acc (fsum g l)))).
  { induction l as [|i l IH]; intros acc Hl.
    { apply (f_equal (fun a => Ok (gf_val a))). simpl. ring. }
    change (fold_left f l (f (Ok (gf_val acc)) i) = Ok (gf_val (fadd acc (fadd (g i) (fsum g l))))).
    assert (Hi : (i < length xs)%nat) by (apply Hl; left).
    pose proof (basis_at_self _ _ _ _ _ _ _ _ gf_field (length xs) (fun j => nth j xs fzero)
      (fun i j Hi Hj => NoDup_nth_inj xs i j Hnd Hi Hj) i Hi) as Hden.
    assert (Hstep : f (Ok (gf_val acc)) i = Ok (gf_val (fadd acc (g i)))).
    { unfold f, g. cbn [mbind res_bind]. rewrite basis_fraction_field, nth_vals.
      rewrite gf_div_ok by (apply gf_ok || (intros Hz; by apply Hden, gf_eq)). cbn [mbind res_bind].
      set (num := basis_at _ _ _ _ _ i fzero). set (den := basis_at _ _ _ _ _ i (nth i xs fzero)) in *.
      change (Ok (gf_val (fadd acc (fmul (nth i ys fzero) (fdiv num den))))
        = Ok (E := E) (gf_val (fadd acc (fmul (fdiv (nth i ys fzero) den) num)))).
      apply (f_equal (fun a => Ok (gf_val a))). field. done. }
    rewrite Hstep, IH by (intros; apply Hl; by right).
    apply (f_equal (fun a => Ok (gf_val a))). ring. }
  etransitivity; [apply (Hgen _ fzero); intros i [_ Hi]%elem_of_seq; lia|].
  apply (f_equal (fun a => Ok (gf_val a))). ring.
Qed.

(** Interpolating at zero a polynomial with at most as many coefficients as points
    returns its constant term. *)
Lemma lagrange_recovers {E} (xs : list gf) (cs : list gf) (c : gf) :
  NoDup xs -> (length (c :: cs) <= length xs)%nat ->
  lagrange_interpolate_at_zero (E := E) (map gf_val xs)
    (map (fun x => eval_polynomial (map gf_val (c :: cs)) (gf_val x)) xs) = Ok (gf_val c).
Proof.
  intros Hnd Hlen.
  assert (Hys : map (fun x => eval_polynomial (map gf_val (c :: cs)) (gf_val x)) xs
    = map gf_val (map (peval (c :: cs)) xs)).
  { rewrite map_map. apply map_ext. intros x. apply eval_polynomial_field. }
  rewrite Hys, lagrange_field by (rewrite ?length_map; done). apply (f_equal (fun a => Ok (gf_val a))).
  rewrite (lagrange_formula _ _ _ _ _ _ _ _ gf_field (length xs) (fun j => nth j xs fzero)
    (fun i => nth i (map (peval (c :: cs)) xs) fzero)
    (fun i j Hi Hj => NoDup_nth_inj xs i j Hnd Hi Hj) (c :: cs) fzero Hlen).
  - simpl. ring.
  - intros i Hi. cbv beta. rewrite (nth_indep (map (peval (c :: cs)) xs) fzero (peval (c :: cs) fzero)) by (rewrite length_map; done).
    by rewrite map_nth.
Qed.

(** ** Splitting *)

Definition byte_at (x : Z) (secret_byte : Z) (random_bytes : list Z) : Z :=
  eval_polynomial (secret_byte :: random_bytes) x.

(** The share at index [x]. *)
Definition share_at (secret : list Z) (rng : list (list Z)) (x : Z) : Share :=
  {| index := x; data := zip_with (byte_at x) secret rng |}.

(** The generator answered every call with the bytes it was asked for. *)
Definition rng_ok (t : nat) (secret : list Z) (rng : list (list Z)) : Prop :=
  length rng = length secret
  /\ Forall (fun bs => length bs = (t - 1)%nat /\ Forall byte_ok bs) rng.

Lemma coefficients_of_ok {E} t b bs : (1 <= t)%nat -> length bs = (t - 1)%nat ->
  coefficients_of (E := E) t b bs = Ok (b :: bs).
Proof.
  intros Ht Hbs. unfold coefficients_of. destruct t as [|t]; [lia|]. simpl.
  rewrite length_replicate, bool_decide_eq_true_2 by lia. done.
Qed.

Lemma split_loop_ok {E} t secret rng shares : (1 <= t)%nat -> rng_ok t secret rng ->
  split_loop (E := E) t secret rng shares
  = Ok (map (fun sh => {| index := index sh;
                          data := data sh ++ zip_with (byte_at (index sh)) secret rng |}) shares).
Proof.
  intros Ht [Hlen Hrng]. revert rng shares Hlen Hrng.
  induction secret as [|b secret IH]; intros rng shares Hlen Hrng.
  - simpl. f_equal. rewrite <- (map_id shares) at 1. apply map_ext. intros [x d]. simpl.
    by rewrite app_nil_r.
  - destruct rng as [|bs rng]; [done|]. apply Forall_cons_1 in Hrng as [[Hbs _] Hrng].
    simpl. rewrite coefficients_of_ok by done. simpl.
    rewrite IH by (simpl in Hlen; auto with lia). rewrite map_map. f_equal. apply map_ext.
    intros [x d]. simpl. by rewrite <- app_assoc.
Qed.

Lemma split_secret_ok rng secret config : secret <> [] -> 1 <= threshold config ->
  rng_ok (Z.to_nat (threshold config)) secret rng ->
  split_secret rng secret config
  = Ok (map (fun i => share_at secret rng (Z.of_nat i)) (seq 1 (Z.to_nat (total_shares config)))).
Proof.
  intros Hs Ht Hrng. unfold split_secret. rewrite bool_decide_eq_false_2 by done.
  rewrite split_loop_ok by (auto with lia). rewrite map_map. done.
Qed.

(** ** The checks of recovery *)

Lemma check_lengths_cases n shares :
  (check_lengths n shares = Ok tt /\ Forall (fun s => length (data s) = n) shares)
  \/ ((exists e, check_lengths n shares = Err e) /\ ~ Forall (fun s => length (data s) = n) shares).
Proof.
  induction shares as [|s shares IH]; simpl; [by left; split; [|constructor]|].
  case_bool_decide as Hs.
  - destruct IH as [[-> H]|[[e ->] H]]; [left; by split; [|constructor]|].
    right. split; [by eexists|]. intros [_ ?]%Forall_cons_1. done.
  - right. split; [by eexists|]. intros [? _]%Forall_cons_1. done.
Qed.

Definition fresh (seen : list bool) (s : Share) : Prop :=
  index s <> 0 /\ seen !! Z.to_nat (index s) = Some false.

Lemma check_indices_cases seen shares :
  length seen = 256%nat -> Forall (fun s => byte_ok (index s)) shares ->
  (check_indices seen shares = Ok tt /\ NoDup (map index shares) /\ Forall (fresh seen) shares)
  \/ ((exists e, check_indices seen shares = Err e)
      /\ ~ (NoDup (map index shares) /\ Forall (fresh seen) shares)).
Proof.
  intros Hlen Hb. revert seen Hlen.
  induction Hb as [|s shares Hs Hb IH]; intros seen Hlen; simpl.
  { left. split; [done|]. split; constructor. }
  destruct (Z.eqb_spec (index s) 0) as [H0|H0].
  { right. split; [by eexists|]. intros [_ [[? _] _]%Forall_cons_1]. done. }
  unfold byte_ok in Hs. destruct (lookup_lt_is_Some_2 seen (Z.to_nat (index s)) ltac:(lia)) as [[|] Hl];
    rewrite Hl.
  { right. split; [by eexists|]. intros [_ [[_ ?] _]%Forall_cons_1]. congruence. }
  assert (Hiff : Forall (fresh (<[Z.to_nat (index s) := true]> seen)) shares
    <-> index s ∉ map index shares /\ Forall (fresh seen) shares).
  { clear IH. induction Hb as [|s' shares Hs' Hb IH]; [split; [split; [set_solver|constructor]|constructor]|].
    rewrite !Forall_cons, IH. simpl. rewrite not_elem_of_cons. unfold fresh, byte_ok in *.
    destruct (decide (index s = index s')) as [Heq|Hne].
    - rewrite Heq, list_lookup_insert_eq by lia. naive_solver.
    - rewrite list_lookup_insert_ne by lia. naive_solver. }
  destruct (IH (<[Z.to_nat (index s) := true]> seen)) as [(-> & Hnd & Hf)|[[e ->] Hn]];
    [by rewrite length_insert|left|right].
  - apply Hiff in Hf as [Hnot Hf]. split; [done|]. split; [by constructor|]. by constructor.
  - split; [by eexists|]. intros [[Hnot Hnd]%NoDup_cons [_ Hf]%Forall_cons_1]. apply Hn.
    split; [done|]. by apply Hiff.
Qed.

Lemma fresh_all_false s : byte_ok (index s) ->
  fresh (replicate 256 false) s <-> index s <> 0.
Proof.
  intros Hs. unfold fresh. unfold byte_ok in Hs. rewrite lookup_replicate_2 by lia. naive_solver.
Qed.

(** What recovery asks of its argument. *)
Definition shares_ok (shares : list Share) : Prop :=
  (2 <= length shares)%nat
  /\ (forall s s', s ∈ shares -> s' ∈ shares -> length (data s) = length (data s'))
  /\ NoDup (map index shares) /\ Forall (fun s => index s <> 0) shares.

Lemma mapM_res_ok {E A B} (f : A -> res E B) (g : A -> B) l :
  (forall x, x ∈ l -> f x = Ok (g x)) -> mapM f l = Ok (map g l).
Proof.
  induction l as [|x l IH]; intros H; [done|]. simpl. rewrite H by left. simpl.
  rewrite IH by (intros; apply H; by right). done.
Qed.

Lemma recover_secret_cases shares :
  Forall (fun s => byte_ok (index s)) shares ->
  (shares_ok shares /\ exists s, s ∈ shares
     /\ recover_secret shares = mapM (recover_byte shares) (seq 0 (length (data s))))
  \/ (~ shares_ok shares /\ exists e, recover_secret shares = Err e).
Proof.
  intros Hb. unfold recover_secret.
  destruct (Nat.ltb_spec (length shares) 2) as [Hlt|Hge].
  { right. split; [unfold shares_ok; lia|]. by eexists. }
  destruct shares as [|s rest]; [simpl in Hge; lia|].
  destruct (check_lengths_cases (length (data s)) rest) as [[-> Hlen]|[[e ->] Hlen]]; cbn [mbind res_bind].
  2:{ right. split; [|by eexists]. intros (_ & Hall & _). apply Hlen. apply Forall_forall.
      intros s' Hs'. apply Hall; set_solver. }
  assert (Hfresh : Forall (fresh (replicate 256 false)) (s :: rest)
    <-> Forall (fun s => index s <> 0) (s :: rest)).
  { rewrite !Forall_forall. rewrite Forall_forall in Hb.
    split; intros H s' Hs'; [apply (proj1 (fresh_all_false s' (Hb s' Hs')))
      | apply (proj2 (fresh_all_false s' (Hb s' Hs')))]; by apply H. }
  destruct (check_indices_cases (replicate 256 false) (s :: rest)) as [(-> & Hnd & Hf)|[[e ->] Hn]];
    [by rewrite length_replicate | done | left | right].
  - split; [|exists s; split; [left | done]]. split; [done|]. split; [|by rewrite <- Hfresh].
    assert (Hall : forall s', s' ∈ s :: rest -> length (data s') = length (data s)).
    { rewrite Forall_forall in Hlen. intros s' [->|Hs']%elem_of_cons; [done | by apply Hlen]. }
    intros s1 s2 H1 H2. by rewrite (Hall s1 H1), (Hall s2 H2).
  - split; [|by eexists]. intros (_ & _ & Hnd & Hz). by apply Hn; rewrite Hfresh.
Qed.

Lemma NoDup_vals (xs : list gf) : NoDup (map gf_val xs) -> NoDup xs.
Proof. apply NoDup_fmap_1. Qed.

(** On well-formed shares every byte is interpolated without a panic. *)
Lemma recover_byte_ok shares k :
  Forall (fun s => byte_ok (index s) /\ Forall byte_ok (data s)) shares ->
  NoDup (map index shares) -> (forall s, s ∈ shares -> (k < length (data s))%nat) ->
  exists b, recover_byte shares k = Ok b /\ byte_ok b.
Proof.
  intros Hb Hnd Hk. unfold recover_byte.
  rewrite (mapM_res_ok _ (fun s => nth k (data s) 0)).
  2:{ intros s Hs. destruct (lookup_lt_is_Some_2 (data s) k (Hk s Hs)) as [y Hy].
      by rewrite (nth_lookup_Some _ _ 0 _ Hy), Hy. }
  simpl mbind. destruct (lift_bytes (map index shares)) as [xs Hxs].
  { apply Forall_fmap. eapply Forall_impl; [exact Hb|]. by intros s [? _]. }
  destruct (lift_bytes (map (fun s => nth k (data s) 0) shares)) as [ys Hys].
  { apply Forall_fmap. apply Forall_forall. intros s Hs. simpl.
    rewrite Forall_forall in Hb. destruct (Hb s Hs) as [_ Hd]. rewrite Forall_forall in Hd.
    apply Hd. destruct (lookup_lt_is_Some_2 (data s) k (Hk s Hs)) as [y Hy].
    rewrite (nth_lookup_Some _ _ 0 _ Hy). by eapply list_elem_of_lookup_2. }
  rewrite Hxs in Hnd |- *. rewrite Hys, lagrange_field.
  - eexists. split; [done | apply gf_ok].
  - by apply NoDup_vals.
  - apply (f_equal length) in Hxs, Hys. rewrite !length_map in *. congruence.
Qed.

(** [recover_secret] accepts exactly the lists of at least two shares with equal
    lengths and distinct non-zero indices, returns one byte per position, reports
    every other list as an error, and never panics (no division by zero, no index
    out of range). *)
Theorem recover_secret_accepts (shares : list Share) :
  Forall (fun s => byte_ok (index s) /\ Forall byte_ok (data s)) shares ->
  (shares_ok shares -> exists secret, recover_secret shares = Ok secret
     /\ Forall byte_ok secret /\ Forall (fun s => length (data s) = length secret) shares)
  /\ (~ shares_ok shares -> exists e, recover_secret shares = Err e).
Proof.
  intros Hb. assert (Hi : Forall (fun s => byte_ok (index s)) shares)
    by (eapply Forall_impl; [exact Hb|]; by intros s [? _]).
  destruct (recover_secret_cases shares Hi) as [[Hok (s & Hs & ->)]|[Hok [e He]]].
  2:{ split; [done|]. intros _. by exists e. }
  split; [|done]. intros (_ & Hall & Hnd & _).
  assert (Hbyte : forall k, k ∈ seq 0 (length (data s)) ->
    exists b, recover_byte shares k = Ok b /\ byte_ok b).
  { intros k [_ Hk]%elem_of_seq. apply recover_byte_ok; [done..|].
    intros s' Hs'. rewrite (Hall s' s Hs' Hs). done. }
  exists (map (fun k => match recover_byte shares k with Ok b => b | _ => 0 end)
            (seq 0 (length (data s)))).
  split; [|split].
  - apply mapM_res_ok. intros k Hk. by destruct (Hbyte k Hk) as (b & -> & _).
  - apply Forall_fmap, Forall_forall. intros k Hk. simpl. by destruct (Hbyte k Hk) as (b & -> & ?).
  - apply Forall_forall. intros s' Hs'. rewrite length_map, length_seq. by apply Hall.
Qed.

Lemma recover_secret_accepts_witness :
  exists secret, recover_secret [{| index := 1; data := [9] |}; {| index := 3; data := [4] |}] = Ok secret
    /\ Forall byte_ok secret /\ Forall (fun s => length (data s) = length secret)
         [{| index := 1; data := [9] |}; {| index := 3; data := [4] |}].
Proof.
  apply recover_secret_accepts.
  - repeat constructor; simpl; lia.
  - split; [simpl; lia|]. split; [intros s s' Hs Hs'; set_solver|].
    split; [apply (bool_decide_unpack _); vm_compute; exact I | repeat constructor; done].
Defined.

(** ** Recovery returns the secret *)

Lemma data_share_at secret rng x : length rng = length secret ->
  length (data (share_at secret rng x)) = length secret.
Proof. intros H. simpl. rewrite length_zip_with_l_eq; done. Qed.

Lemma map_nth_seq (l : list Z) : map (fun k => nth k l 0) (seq 0 (length l)) = l.
Proof.
  induction l as [|z l IH]; [done|]. simpl. f_equal. rewrite <- seq_shift, map_map. exact IH.
Qed.

Lemma recover_byte_secret t secret rng xs k :
  Forall byte_ok secret -> rng_ok t secret rng -> Forall byte_ok xs -> NoDup xs ->
  (1 <= t <= length xs)%nat -> (k < length secret)%nat ->
  recover_byte (map (share_at secret rng) xs) k = Ok (nth k secret 0).
Proof.
  intros Hs [Hlen Hrng] Hxs Hnd Ht Hk. unfold recover_byte.
  destruct (lookup_lt_is_Some_2 secret k Hk) as [b Hb].
  destruct (lookup_lt_is_Some_2 rng k ltac:(lia)) as [bs Hbs].
  destruct (Forall_lookup_1 _ _ _ _ Hrng Hbs) as [Hbl Hbo].
  rewrite (mapM_res_ok _ (fun s => byte_at (index s) b bs)).
  2:{ intros s (x & -> & _)%list_elem_of_fmap. simpl. by rewrite lookup_zip_with, Hb, Hbs. }
  simpl mbind. rewrite !map_map. simpl index.
  destruct (lift_bytes (b :: bs)) as [cs Hcs]; [constructor; [by apply (Forall_lookup_1 _ _ _ _ Hs Hb)|done]|].
  destruct cs as [|c cs]; [done|]. destruct (lift_bytes xs Hxs) as [gs ->].
  assert (Hcl : length bs = length cs)
    by (apply (f_equal length) in Hcs; simpl in Hcs; rewrite length_map in Hcs; lia).
  rewrite (nth_lookup_Some _ _ 0 _ Hb). rewrite map_map. unfold byte_at. rewrite Hcs.
  injection Hcs as -> _. rewrite map_map. simpl index. apply lagrange_recovers.
  - by apply NoDup_vals.
  - rewrite length_map in Ht. simpl. lia.
Qed.

Lemma recover_shares t secret rng xs :
  Forall byte_ok secret -> rng_ok t secret rng -> Forall byte_ok xs -> Forall (fun x => x <> 0) xs ->
  NoDup xs -> (2 <= t <= length xs)%nat ->
  recover_secret (map (share_at secret rng) xs) = Ok secret.
Proof.
  intros Hs Hrng Hxs Hnz Hnd Ht. pose proof Hrng as [Hlen _].
  assert (Hidx : map index (map (share_at secret rng) xs) = xs) by (rewrite map_map; apply map_id).
  destruct (recover_secret_cases (map (share_at secret rng) xs)) as [[_ (s & Hin & ->)]|[Hno _]].
  - by apply Forall_fmap.
  - apply list_elem_of_fmap in Hin as (x & -> & _). rewrite data_share_at by done.
    rewrite (mapM_res_ok _ (fun k => nth k secret 0)), map_nth_seq; [done|].
    intros k [_ Hk]%elem_of_seq. apply recover_byte_secret with t; [done..|lia|lia].
  - exfalso. apply Hno. split; [rewrite length_map; lia|]. split.
    + intros s s' (x & -> & _)%list_elem_of_fmap (x' & -> & _)%list_elem_of_fmap.
      by rewrite !data_share_at.
    + rewrite Hidx. split; [done|]. by apply Forall_fmap.
Qed.

(** A subset of the shares of a split is [share_at] at distinct indices. *)
Lemma selected_shares secret rng n sel :
  NoDup sel -> sel ⊆ map (fun i => share_at secret rng (Z.of_nat i)) (seq 1 n) ->
  sel = map (share_at secret rng) (map index sel) /\ NoDup (map index sel)
  /\ Forall (fun x => 1 <= x <= Z.of_nat n) (map index sel).
Proof.
  intros Hnd Hsub.
  assert (Hat : forall s, s ∈ sel -> s = share_at secret rng (index s) /\ 1 <= index s <= Z.of_nat n).
  { intros s Hs. apply Hsub, list_elem_of_fmap in Hs as (i & -> & Hi%elem_of_seq).
    split; [done|]. simpl. lia. }
  split; [|split].
  - rewrite map_map, <- (map_id sel) at 1. apply map_ext_in. intros s Hs. apply Hat.
    by apply list_elem_of_In.
  - apply NoDup_fmap_2_strong; [|done]. intros s s' Hs Hs' Heq.
    destruct (Hat s Hs) as [-> _], (Hat s' Hs') as [-> _]. by rewrite Heq.
  - apply Forall_fmap, Forall_forall. intros s Hs. by apply Hat.
Qed.

Lemma ShamirConfig_new_ok t n config : ShamirConfig_new t n = Ok config ->
  2 <= t <= n /\ config = {| threshold := t; total_shares := n |}.
Proof.
  unfold ShamirConfig_new. intros H.
  destruct (t <? 2) eqn:H1, (n <? t) eqn:H2; try done. injection H as <-. reflect_bools. split; [lia | done].
Qed.

(** C12. Splitting a secret under a validated configuration succeeds with one share per
    index from 1 to the total, and any [threshold] or more of them, in any order,
    recover exactly the secret. *)
Theorem split_then_recover (t n : Z) (config : ShamirConfig) (secret : list Z) (rng : list (list Z)) :
  ShamirConfig_new t n = Ok config -> n <= 255 ->
  secret <> [] -> Forall byte_ok secret -> rng_ok (Z.to_nat t) secret rng ->
  exists shares, split_secret rng secret config = Ok shares
    /\ map index shares = map Z.of_nat (seq 1 (Z.to_nat n))
    /\ forall sel, NoDup sel -> sel ⊆ shares -> t <= Z.of_nat (length sel) ->
         recover_secret sel = Ok secret.
Proof.
  intros Hcfg Hn Hne Hs Hrng. apply ShamirConfig_new_ok in Hcfg as [Ht ->].
  eexists. split; [apply split_secret_ok; simpl; [done | lia | done]|]. simpl total_shares.
  split; [by rewrite map_map|]. intros sel Hnd Hsub Hlen.
  destruct (selected_shares secret rng _ sel Hnd Hsub) as (Hsel & Hndx & Hb).
  rewrite Hsel.   apply recover_shares with (Z.to_nat t); [done..| | |done|].
  - eapply Forall_impl; [exact Hb|]. simpl. unfold byte_ok. lia.
  - eapply Forall_impl; [exact Hb|]. simpl. lia.
  - rewrite length_map. lia.
Qed.

Lemma split_then_recover_witness :
  exists shares,
    split_secret [[7]; [200]] [65; 66] {| threshold := 2; total_shares := 3 |} = Ok shares
    /\ map index shares = map Z.of_nat (seq 1 (Z.to_nat 3))
    /\ forall sel, NoDup sel -> sel ⊆ shares -> 2 <= Z.of_nat (length sel) ->
         recover_secret sel = Ok [65; 66].
Proof.
  apply (split_then_recover 2 3 {| threshold := 2; total_shares := 3 |} [65; 66] [[7]; [200]]).
  - reflexivity.
  - lia.
  - discriminate.
  - repeat constructor; lia.
  - split; [reflexivity | repeat constructor; lia].
Defined.

(** ** Fewer shares say nothing *)

Lemma field_secrecy (gs : list gf) (s : gf) (ys : list gf) :
  NoDup (fzero :: gs) -> length ys = length gs ->
  exists cs, (length cs = length gs /\ map (peval (s :: cs)) gs = ys)
    /\ forall cs', length cs' = length gs -> map (peval (s :: cs')) gs = ys -> cs' = cs.
Proof.
  intros Hnd Hlen. set (pts := fzero :: gs) in *. set (vals := s :: ys).
  set (L := lagrange_poly fzero fone fadd fmul fadd fopp fdiv (length pts)
              (fun i => nth i pts fzero) (fun i => nth i vals fzero)).
  assert (Hinj : forall j k, (j < length pts)%nat -> (k < length pts)%nat ->
    nth j pts fzero = nth k pts fzero -> j = k) by (intros; by apply (NoDup_nth_inj pts)).
  assert (HL : length L = length pts) by (apply length_lagrange_poly; exact Hinj).
  assert (Hev : forall i, (i < length pts)%nat -> peval L (nth i pts fzero) = nth i vals fzero).
  { intros i Hi. apply (lagrange_interpolates _ _ _ _ _ _ _ _ gf_field (length pts)
      (fun i => nth i pts fzero) (fun i => nth i vals fzero)); done. }
  destruct L as [|c cs]; [done|].
  assert (Hc : c = s).
  { pose proof (Hev 0%nat ltac:(simpl; lia)) as H0. simpl in H0. rewrite <- H0. ring. }
  subst c. assert (Hmap : map (peval (s :: cs)) gs = ys).
  { apply (nth_ext _ _ (peval (s :: cs) fzero) fzero); [by rewrite length_map|].
    intros i Hi. rewrite length_map in Hi. rewrite map_nth. exact (Hev (S i) ltac:(simpl; lia)). }
  exists cs. injection HL as HL. split; [done|]. intros cs' Hl' Hmap'.
  assert (Heq : s :: cs' = s :: cs); [|by injection Heq].
  apply (poly_unique _ _ _ _ _ _ _ _ gf_field pts); [done | simpl; lia.. |].
  constructor; [simpl; ring|]. apply Forall_forall. intros g Hg.
  rewrite <- Hmap in Hmap'.
  apply (proj1 map_ext_in_iff Hmap'). by apply list_elem_of_In.
Qed.

(** For distinct non-zero indices, every secret byte and all observed values have
    exactly one explaining list of random bytes. *)
Lemma byte_secrecy (xs : list Z) (b : Z) (ys : list Z) :
  Forall byte_ok xs -> Forall (fun x => x <> 0) xs -> NoDup xs -> byte_ok b ->
  Forall byte_ok ys -> length ys = length xs ->
  exists bs, (length bs = length xs /\ Forall byte_ok bs /\ map (fun x => byte_at x b bs) xs = ys)
    /\ forall bs', length bs' = length xs -> Forall byte_ok bs' ->
         map (fun x => byte_at x b bs') xs = ys -> bs' = bs.
Proof.
  intros Hxs Hnz Hnd Hb Hys Hlen.
  destruct (lift_bytes xs Hxs) as [gs ->], (lift_bytes ys Hys) as [vs ->]. rewrite !length_map in *.
  set (s := gf_of b Hb). assert (Hval : forall cs, map (fun x => byte_at x b (map gf_val cs)) (map gf_val gs)
    = map gf_val (map (peval (s :: cs)) gs)).
  { intros cs. rewrite !map_map. apply map_ext. intros g. unfold byte_at.
    exact (eval_polynomial_field (s :: cs) g). }
  destruct (field_secrecy gs s vs) as (cs & [Hcl Hcm] & Huniq); [|done|].
  { constructor; [|by apply NoDup_vals]. intros Hz. rewrite Forall_forall in Hnz.
    apply (Hnz 0); [|done]. by apply (list_elem_of_fmap_2 gf_val) in Hz. }
  exists (map gf_val cs). rewrite Hval, Hcm, length_map. split; [split; [done|split; [apply gf_vals_ok|done]]|].
  intros bs' Hl' Hb' Hm. destruct (lift_bytes bs' Hb') as [cs' ->]. rewrite length_map in Hl'.
  rewrite Hval in Hm. apply gf_vals_inj in Hm. by rewrite (Huniq cs').
Qed.

Lemma eval_polynomial_byte cs x : Forall byte_ok cs -> byte_ok x -> byte_ok (eval_polynomial cs x).
Proof.
  intros Hcs Hx. destruct (lift_bytes cs Hcs) as [p ->].
  change x with (gf_val (gf_of x Hx)). rewrite eval_polynomial_field. apply gf_ok.
Qed.

(** The shares at the indices [xs] agree. *)
Definition agree (xs : list Z) (secret : list Z) (rng : list (list Z))
    (secret' : list Z) (rng' : list (list Z)) : Prop :=
  forall x, x ∈ xs -> zip_with (byte_at x) secret' rng' = zip_with (byte_at x) secret rng.

Lemma agree_cons xs b s bs r b' s' bs' r' :
  agree xs (b :: s) (bs :: r) (b' :: s') (bs' :: r')
  <-> map (fun x => byte_at x b' bs') xs = map (fun x => byte_at x b bs) xs /\ agree xs s r s' r'.
Proof.
  rewrite map_ext_in_iff. unfold agree. simpl. split.
  - intros H. split; intros x Hx; specialize (H x).
    + rewrite list_elem_of_In in H. by injection (H Hx).
    + by injection (H Hx).
  - intros [Hb Hr] x Hx. f_equal; [apply Hb; by apply list_elem_of_In | by apply Hr].
Qed.

Section Secrecy.
Context (t : nat) (xs : list Z).
Context (Hxs : Forall byte_ok xs) (Hnz : Forall (fun x => x <> 0) xs) (Hnd : NoDup xs).
Context (Hlen : length xs = (t - 1)%nat).

Lemma byte_secrecy_rng b b' bs : byte_ok b -> byte_ok b' -> Forall byte_ok bs ->
  exists bs', (length bs' = (t - 1)%nat /\ Forall byte_ok bs')
    /\ map (fun x => byte_at x b' bs') xs = map (fun x => byte_at x b bs) xs
    /\ forall bs2, length bs2 = (t - 1)%nat -> Forall byte_ok bs2 ->
         map (fun x => byte_at x b' bs2) xs = map (fun x => byte_at x b bs) xs -> bs2 = bs'.
Proof.
  intros Hb Hb' Hbs.
  destruct (byte_secrecy xs b' (map (fun x => byte_at x b bs) xs)) as (bs' & (? & ? & ?) & Huniq);
    try done; [|by rewrite length_map|].
  - apply Forall_fmap. eapply Forall_impl; [exact Hxs|]. intros x Hx. simpl.
    apply eval_polynomial_byte; [by constructor | done].
  - exists bs'. rewrite <- Hlen. auto.
Qed.

Lemma rng_secrecy secret rng secret' :
  Forall byte_ok secret -> Forall byte_ok secret' -> length secret' = length secret ->
  rng_ok t secret rng ->
  exists rng', (rng_ok t secret' rng' /\ agree xs secret rng secret' rng')
    /\ forall rng2, rng_ok t secret' rng2 -> agree xs secret rng secret' rng2 -> rng2 = rng'.
Proof.
  intros Hs. revert rng secret'. induction Hs as [|b s Hb Hs IH]; intros rng secret' Hs' Hl [Hrl Hr].
  - destruct rng, secret'; try done. exists []. split; [split; [by split | by intros x _]|].
    intros [|? ?] [? _] _; done.
  - destruct rng as [|bs r], secret' as [|b' s']; try done.
    apply Forall_cons_1 in Hs' as [Hb' Hs'], Hr as [[Hbl Hbb] Hr].
    destruct (byte_secrecy_rng b b' bs Hb Hb' Hbb) as (bs' & Hbs' & Hmap & Hu).
    destruct (IH r s' Hs' ltac:(by injection Hl)) as (r' & [[Hrl' Hr'] Hag] & Hur);
      [split; [by injection Hrl|done]|].
    exists (bs' :: r'). split.
    + split; [split; [simpl; lia | by constructor]|]. by apply agree_cons.
    + intros [|bs2 r2] [Hl2 Hok2] Hag2; [done|]. apply Forall_cons_1 in Hok2 as [[? ?] Hok2].
      apply agree_cons in Hag2 as [Hm2 Hag2]. f_equal; [by apply Hu|].
      apply Hur; [split; [by injection Hl2 | done] | done].
Qed.
End Secrecy.

(** What the holders of the shares [xs] see. *)
Definition view (xs : list Z) (shares : list Share) : list (option Share) :=
  map (fun x => shares !! Z.to_nat (x - 1)) xs.

Lemma view_split_agree xs n secret rng secret' rng' :
  Forall (fun x => 1 <= x <= Z.of_nat n) xs ->
  view xs (map (fun i => share_at secret' rng' (Z.of_nat i)) (seq 1 n))
  = view xs (map (fun i => share_at secret rng (Z.of_nat i)) (seq 1 n))
  <-> agree xs secret rng secret' rng'.
Proof.
  intros Hxs. unfold view. rewrite map_ext_in_iff. rewrite Forall_forall in Hxs.
  assert (Hlk : forall x s r, x ∈ xs ->
    map (fun i => share_at s r (Z.of_nat i)) (seq 1 n) !! Z.to_nat (x - 1) = Some (share_at s r x)).
  { intros x s r Hx. specialize (Hxs x Hx). rewrite list_lookup_fmap, lookup_seq_lt by lia.
    simpl. do 2 f_equal. lia. }
  split.
  - intros H x Hx. specialize (H x (proj1 (list_elem_of_In _ _) Hx)).
    rewrite !Hlk in H by done. by injection H.
  - intros H x Hx%list_elem_of_In. rewrite !Hlk by done. unfold share_at. by rewrite (H x Hx).
Qed.

(** C13. Perfect secrecy: whatever [threshold - 1] shares of a secret show, for every other
    secret of the same length there is exactly one sequence of random bytes under
    which its split shows the same shares. *)
Theorem shares_below_threshold_hide (t n : Z) (config : ShamirConfig)
    (secret secret' : list Z) (rng : list (list Z)) (xs : list Z) :
  ShamirConfig_new t n = Ok config -> n <= 255 ->
  secret <> [] -> Forall byte_ok secret -> Forall byte_ok secret' ->
  length secret' = length secret -> rng_ok (Z.to_nat t) secret rng ->
  NoDup xs -> Forall (fun x => 1 <= x <= n) xs -> Z.of_nat (length xs) = t - 1 ->
  exists! rng', rng_ok (Z.to_nat t) secret' rng'
    /\ exists shares shares', split_secret rng secret config = Ok shares
       /\ split_secret rng' secret' config = Ok shares' /\ view xs shares' = view xs shares.
Proof.
  intros Hcfg Hn Hne Hs Hs' Hl Hrng Hnd Hxs Hlx. apply ShamirConfig_new_ok in Hcfg as [Ht ->].
  assert (Hne' : secret' <> []) by (destruct secret, secret'; done).
  assert (Hxn : Forall (fun x => 1 <= x <= Z.of_nat (Z.to_nat n)) xs)
    by (eapply Forall_impl; [exact Hxs|]; simpl; lia).
  destruct (rng_secrecy (Z.to_nat t) xs) with secret rng secret' as (rng' & [Hok Hag] & Hu);
    [eapply Forall_impl; [exact Hxs|]; unfold byte_ok; simpl; lia
    |eapply Forall_impl; [exact Hxs|]; simpl; lia | done | lia | done..|].
  exists rng'. split.
  - split; [done|]. eexists _, _.
    split; [apply split_secret_ok; simpl; [done|lia|done]|].
    split; [apply split_secret_ok; simpl; [done|lia|done]|]. by apply view_split_agree.
  - intros rng2 [Hok2 (sh & sh' & Hsp & Hsp' & Hv)]. symmetry. apply Hu; [done|].
    rewrite split_secret_ok in Hsp, Hsp' by (done || simpl; lia).
    injection Hsp as <-. injection Hsp' as <-. by apply view_split_agree in Hv.
Qed.

Lemma shares_below_threshold_hide_witness :
  exists! rng', rng_ok (Z.to_nat 2) [90; 91] rng'
    /\ exists shares shares',
       split_secret [[7]; [200]] [65; 66] {| threshold := 2; total_shares := 3 |} = Ok shares
       /\ split_secret rng' [90; 91] {| threshold := 2; total_shares := 3 |} = Ok shares'
       /\ view [3] shares' = view [3] shares.
Proof.
  apply (shares_below_threshold_hide 2 3 _ [65; 66] [90; 91] [[7]; [200]] [3]).
  - reflexivity.
  - lia.
  - discriminate.
  - repeat constructor; lia.
  - repeat constructor; lia.
  - reflexivity.
  - split; [reflexivity | repeat constructor; lia].
  - apply NoDup_singleton.
  - repeat constructor; lia.
  - reflexivity.
Defined.
